(* ===== verification/_CoqProject ===== *)
-Q . S2P
Prelude.v
Scalar.v
ByteIO.v
Bitmap.v
Columns.v
ZoneMap.v
Footer.v
Disk.v
Descriptor.v
Replacer.v
BufferPool.v
Schema.v
Catalog.v
Chunk.v
Rows.v
Expr.v
Eval.v
Operators.v
HashJoin.v
Accumulator.v
Aggregate.v
Layout.v
Pages.v
Scan.v
Insert.v
Misread.v
Ast.v
Plan.v
Resolution.v
Coercion.v
DisjointSet.v
Binder.v
FromClause.v
Typing.v
InsertBinding.v
PredicateUtils.v
Queries.v
Pushdown.v
Pruning.v
Optimizer.v
Streams.v
Positions.v
Joins.v
Execution.v
Grouping.v
Optimization.v
Mixed.v
Sql.v
Meaning.v
FromMeaning.v
SelectBinding.v
GroupBinding.v
SelectMeaning.v
ReadOnly.v
Text.v
Format.v
Strtod.v
Parser.v
ParseTree.v
ParserSpec.v
StatementSpec.v
Driver.v
Fuel.v
Session.v
Repl.v
Program.v
Conformance.v
