(* ===== verification/Prelude.v ===== *)
(** * A verification library for GistDB

    GistDB is an embedded column store in C++: a SQL statement is parsed, bound to a
    logical plan, optimized and executed by pull-based vectorized operators over
    row groups that live in a paged file behind a buffer pool. Sources are named
    below relative to [src/src/] (implementations) and [src/include/gistdb/] (headers).

    ** How C++ is read

    - A function that can throw or has undefined behaviour returns [result A]:
      [Ok], [Throw] with the exception, [Undefined] (out-of-range [operator[]],
      signed overflow, a null pointer), or [OutOfFuel] for a loop of the model whose
      bound was too small. A method that changes an object of the model takes and
      returns it ([io W A] for state [W]); after a throw the state is the one at the
      throw, so that exception safety can be stated.
    - Integers are [Z] with their width written at each wrap ([u32], [i32], [u64]);
      [float] is its bit pattern with IEEE arithmetic ([Scalar.v]); [double] is the
      Standard Library's [spec_float]; strings are [string], byte vectors [list byte].
    - [std::unordered_map] and [std::map] are [gmap]; where the sources iterate over
      an unordered map the order is a parameter. [std::list] iterators are node
      identities. Columns referenced by a [ColumnView] pointer are carried by value:
      they are read only before the producing operator runs again.
    - Where C++ leaves something open the model takes one choice: function arguments are
      evaluated from left to right (the two columns of a join condition in
      [join_conditions], the operands in [ConvertAExpr]), which decides which of two
      exceptions is thrown; a NaN that arithmetic produces is the positive quiet one
      ([f32_encode]), where the processor may give one with the sign bit, which is
      printed as -nan. Exceptions of the disk manager carry their fixed text, without
      the path and the system's message for [errno].
    - Row and page counters are [nat] or [Z] below their width; the theorems state
      the bound they need (a chunk has at most [kVectorSize] rows, a table fewer
      than 2^32 build rows, a column fewer than 2^31 bytes).

    ** Parts of the program and where they are modelled

    - [Prelude]: results, the error and state monads, loops, constants
      ([constants.hpp], [types.hpp]) and lemmas on integers and lists.
    - [Scalar]: the two fixed-width types [std::int32_t] and [float] behind one class.
    - [ByteIO]: [serialization/byte_io.cpp].
    - [Bitmap], [Columns], [ZoneMap]: the in-memory column classes of [storage/].
    - [Footer]: row-group metadata and its byte format ([footer.cpp],
      [column_footer_entry.cpp], [row_group_footer_entry.cpp]).
    - [Disk]: [file_header.cpp] and [disk_manager.cpp] over an abstract POSIX file
      (the class [PosixFile] with its laws [PosixFileLaws]; [mem_file] is an instance).
      [Descriptor]: which [DiskManager] object owns the open descriptor, through moves
      and failures.
    - [Replacer], [BufferPool]: the LRU replacer and the buffer pool over a disk.
    - [Schema], [Catalog]: tables, the schema section, and the catalog that persists
      both as one blob and rebuilds itself from it.
    - [Chunk], [Rows]: the columns and chunks operators exchange, and the row-major
      tables that vectors of columns represent.
    - [Expr], [Eval]: bound expressions, their row semantics, and the vectorized
      evaluator of [expression_evaluator.cpp].
    - [Operators]: the operator interface (class [Operator], contract [delivers]) with
      [filter_operator.cpp] and [projection_operator.cpp]; [HashJoin], [Accumulator]
      and [Aggregate]: the two blocking operators.
    - [Layout]: the bytes of a row group, as [insert_executor.cpp] writes and
      [seq_scan_operator.cpp] reads them; [Pages]: reading pages through the pool;
      [Scan]: [seq_scan_operator.cpp]; [Insert]: [insert_executor.cpp] and the loop of
      [RunInsert] in [cli/driver.cpp]; [Misread]: the columns whose validity bits the
      scan reads from the wrong frame.
    - [Ast], [Resolution], [Coercion], [Plan], [DisjointSet], [Binder]: the syntax trees,
      name scopes, result types, logical plans and [binder.cpp], one definition per
      function, [BindSelect], [BindInsert] and [BindCreateTable] included. Theorems
      about it are in [FromClause], [Typing] and [InsertBinding].
    - [PredicateUtils], [Pushdown], [Pruning], [Optimizer]: [optimizer/]. The operators that
      [Translate] builds are trees ([Shape], [AnyOperator]) whose [GetNext] dispatches
      to the operators above, as the virtual call does.
    - [Queries]: what a logical plan means, as the list of its rows ([plan_rows],
      [query_rows]); a row binds the columns of the tables in scope. This is the
      specification of the optimizer and the operators together. [Streams], [Positions],
      [Joins], [Execution], [Grouping] and [Optimization] relate it to the operator tree,
      one node of a plan each; [Mixed] is about a query the tree cannot run.
    - [Sql]: what a SELECT statement means, as the list of its rows ([sql_rows]) read off
      the syntax tree, without bindings, plans or operators. This is the specification of
      the binder: [Meaning] (expressions), [FromMeaning] (the FROM clause),
      [SelectBinding] and [GroupBinding] (select lists), [SelectMeaning] (the statement).
    - [Strtod], [Parser]: [binder/parser.cpp], over the class [PgQuery] of libpg_query's
      messages. [ParseTree] builds messages from parse trees for examples; [ParserSpec]
      (expressions) and [StatementSpec] (statements) say which messages encode which
      syntax trees.
    - [Text], [Format]: strings as the sources use them and [cli/output_formatter.cpp].
    - [Driver]: [cli/driver.cpp]; a [Session] is the catalog, the buffer pool and what has been
      printed. [ReadOnly] (what a query leaves alone) and [Fuel] (more fuel changes
      nothing) hold for all its calls; [Session] states what a session represents, a
      [Database] of the rows of each table, and what each statement does to it.
    - [Repl]: [main.cpp], from the command line to the exit code; [Program]: the whole program
      on a script.
    - [Conformance]: the tests of [tests/cli/driver_test.cpp] run on the definitions.

    Components meet at interfaces: the disk manager is proved against [PosixFileLaws],
    operators against [delivers] of their children, the translated plan against
    [streams] and [locates] of its input, columns against [Scalar], the
    catalog against any order [MapOrder] of its unordered map, the parser against
    [PgQuery], and sessions against [represents] and [supported].

    ** What the theorems show

    - The program: [program_correct] says that a script of supported statements makes the
      program exit with 0, prints the texts that the statements call for, and leaves a
      file that starts again with the database it ends with. It is made of
      [statement_correct] (one statement: it ends, and does and prints what its syntax
      tree means over the database), [session_invariant], [restart_keeps_database] and
      [script_execution] (the statements of a script, however it is broken into lines).
      A refused statement prints its error and changes nothing; a query only reads.
    - Parsing: it ends on every text, and returns a statement exactly for the messages
      that encode one ([ParseSingleStatement_correct], clause by clause).
    - Output: tables are aligned and no index is out of range.
    - Storage: bitmaps and columns implement lists; the footer, schema, header and
      metadata formats round-trip; page writes are read back and touch no other page; no
      file descriptor is closed twice or lost.
    - Buffer pool: the LRU replacer refines a list; every sequence of calls returns
      or throws, keeps the invariant of frames, page table and replacer, and loses no
      page contents; a fetched frame holds the page and is pinned.
    - Catalog: flush then open restores the catalog; tables keep their identity.
    - Execution: the evaluator computes the row semantics in every row; filter,
      projection, hash join and aggregation deliver exactly the rows of their
      relational specification, in order.
    - Scan: on a store that holds a table's row groups, the scan delivers the required
      columns of their rows in order, whatever the state of the buffer pool; the zone
      map skips only row groups without a satisfying row. An INSERT of literals appends row
      groups that hold exactly its rows and touches no other page or table, and a later
      scan delivers them after the older rows.
    - Binding: name resolution finds the one column a reference can mean; bound
      expressions are well typed; a FROM clause is joined as the reference definition
      without disjoint sets says; an INSERT statement stores its values in the columns
      they are written for; the plan of a SELECT has the headers and the rows of its
      meaning [sql_rows].
    - Optimization: pushdown keeps the rows of a plan, and [Optimize] of a well-formed
      query returns an operator that delivers exactly the query's rows, in order,
      through pushdown, pruning, zone maps, joins, groups and the buffer pool.
    - Defects of the code that modelling exposed are theorems too (a leaked frame, validity
      bits read from another page's frame, metadata that is handed out as free pages, a
      catalog erased by a failed open, untyped join keys, narrowed sums, mixed
      comparisons that throw, conditions that are dropped or moved to where they have
      no effect).

    ** Fuel and bounds

    Loops over a range or a vector are folds. [find_match] of the hash join has one
    unit per remaining probe row ([match_fuel]), which is proved enough; draining a
    child ([drain_child]) and [GetNext] of an operator take a fuel that the theorems
    only bound from below by the number of chunks of the child, so that they are
    total-correctness statements. A statement takes one fuel for its parser and its
    operators; [statement_correct] gives one that is enough, and [Fuel] shows that any
    larger one has the same outcome. The loop of [main] has a unit per input event.

    ** Limits of the theorems

    - [supported] names the statements whose effect is specified. A query must bind to a
      plan that the engine supports ([plan_ok]: no truth value as an operand, no
      comparison of an INTEGER column with a FLOAT directly above a scan, integer arithmetic
      only as far as it cannot leave 32 bits on integers up to a bound B in magnitude that
      the stored tables respect) with sizes below the widths of its counters; an INSERT must be within the widths
      of its row groups ([insertable]). What happens outside is stated where it is a
      defect, one theorem each.
    - [equalities_used]: comma-separated FROM items drop the equalities that their joins do
      not need, which is a defect; the meaning of a SELECT is stated without it.
    - A script has no line that is a command of the loop ([script_line]).

    ** Not modelled

    libpg_query, a git submodule that is not part of the repository, is a parameter
    ([PgQuery]). The operating system's file is the class [PosixFile]; the terminal
    ([isatty], its width, signals and pending input), the clock and the text of
    [std::bad_variant_access] are inputs of the definitions that use them. Interleavings of threads are
    none of the program's: it has one. *)

From Stdlib Require Export ZArith Lia Bool String Ascii.
From Stdlib Require Export Strings.Byte.
From stdpp Require Export base decidable option list list_numbers numbers strings gmap.

#[global] Set Default Goal Selector "!".
#[global] Open Scope Z_scope.

(** ** Results: values, C++ exceptions and undefined behaviour *)

(** The exception classes the sources throw (standard ones and the four of the
    binder), each with its message. *)
Inductive exn : Type :=
  | RuntimeError (what : string)
  | InvalidArgument (what : string)
  | OutOfRange (what : string)
  | BadVariantAccess
  | ParseException (what : string)
  | ResolutionException (what : string)
  | TypeCoercionException (what : string)
  | BindException (what : string).

(** [Undefined] is C++ undefined behaviour (an out-of-range [operator[]], a null
    dereference, a signed overflow); [OutOfFuel] is a loop whose bound in the
    model was too small, which the theorems exclude. *)
Inductive result (A : Type) : Type :=
  | Ok (a : A)
  | Throw (e : exn)
  | Undefined
  | OutOfFuel.
Arguments Ok {A} a.
Arguments Throw {A} e.
Arguments Undefined {A}.
Arguments OutOfFuel {A}.

#[global] Instance result_ret : MRet result := fun A a => Ok a.
#[global] Instance result_bind : MBind result := fun A B k m =>
  match m with
  | Ok a => k a
  | Throw e => Throw e
  | Undefined => Undefined
  | OutOfFuel => OutOfFuel
  end.
#[global] Instance result_fmap : FMap result := fun A B f m =>
  match m with
  | Ok a => Ok (f a)
  | Throw e => Throw e
  | Undefined => Undefined
  | OutOfFuel => OutOfFuel
  end.

(** Code that reads and writes a shared object [W] (the disk file, the buffer
    pool) and may throw: the state at the throw is kept. *)
Definition io (W A : Type) : Type := W -> result A * W.

#[global] Instance io_ret W : MRet (io W) := fun A a w => (Ok a, w).
#[global] Instance io_bind W : MBind (io W) := fun A B k m w =>
  match m w with
  | (Ok a, w') => k a w'
  | (Throw e, w') => (Throw e, w')
  | (Undefined, w') => (Undefined, w')
  | (OutOfFuel, w') => (OutOfFuel, w')
  end.

Definition io_lift {W A} (r : result A) : io W A := fun w => (r, w).
Definition io_throw {W A} (e : exn) : io W A := fun w => (Throw e, w).
Definition io_get {W} : io W W := fun w => (Ok w, w).
Definition io_put {W} (w' : W) : io W unit := fun _ => (Ok tt, w').

(** Run an operation of a component [V] embedded in a larger state [W]. *)
Definition io_zoom {W V A} (get : W -> V) (set : V -> W -> W) (m : io V A) : io W A :=
  fun w => let '(r, v) := m (get w) in (r, set v w).

Definition is_ok {A} (r : result A) : Prop := exists a, r = Ok a.

(** ** Vectors: [operator[]] is undefined out of range *)

Definition vec_get {A} (l : list A) (i : nat) : result A :=
  match l !! i with Some a => Ok a | None => Undefined end.

Definition vec_set {A} (l : list A) (i : nat) (a : A) : result (list A) :=
  if decide (i < length l)%nat then Ok (<[i:=a]> l) else Undefined.

(** [std::vector::resize(n, v)]. *)
Definition vec_resize {A} (n : nat) (v : A) (l : list A) : list A :=
  take n l ++ replicate (n - length l) v.

(** ** Loops *)

(** [for (i = lo; i < lo + n; ++i) s = body(i, s)]. *)
Fixpoint for_range {M : Type -> Type} `{MRet M, MBind M} {S : Type}
    (lo n : nat) (body : nat -> S -> M S) (s : S) : M S :=
  match n with
  | O => mret s
  | Datatypes.S n' => mbind (fun s' => for_range (Datatypes.S lo) n' body s') (body lo s)
  end.

(** [for (const auto& x : xs) s = body(x, s)]. *)
Fixpoint for_each {M : Type -> Type} `{MRet M, MBind M} {X S : Type}
    (xs : list X) (body : X -> S -> M S) (s : S) : M S :=
  match xs with
  | [] => mret s
  | x :: xs' => mbind (fun s' => for_each xs' body s') (body x s)
  end.

(** ** Machine integers *)

Definition u8 (z : Z) : Z := z mod 2 ^ 8.
Definition u32 (z : Z) : Z := z mod 2 ^ 32.
Definition u64 (z : Z) : Z := z mod 2 ^ 64.
(** [static_cast<std::int32_t>] of a wider integer. *)
Definition i32 (z : Z) : Z := (z + 2 ^ 31) mod 2 ^ 32 - 2 ^ 31.

Definition is_u8 (z : Z) : Prop := 0 <= z < 2 ^ 8.
Definition is_u32 (z : Z) : Prop := 0 <= z < 2 ^ 32.
Definition is_u64 (z : Z) : Prop := 0 <= z < 2 ^ 64.
Definition is_i32 (z : Z) : Prop := - 2 ^ 31 <= z < 2 ^ 31.

#[global] Instance is_u32_dec z : Decision (is_u32 z).
Proof. unfold is_u32; apply _. Defined.
#[global] Instance is_i32_dec z : Decision (is_i32 z).
Proof. unfold is_i32; apply _. Defined.

(** ** Constants ([include/gistdb/constants.hpp]) *)

Definition kPageSizeBytes : Z := 4096.
Definition kVectorSize : Z := 1024.
Definition kRowGroupSize : Z := 10240.
Definition kVectorsPerRowGroup : Z := kRowGroupSize / kVectorSize.
Definition kZoneMapPrefixLength : nat := 8.
Definition kHeaderPageId : Z := 0.
Definition kFirstDataPageId : Z := kHeaderPageId + 1.

(** ** Types ([include/gistdb/types.hpp]) *)

Inductive TypeId : Type := kInteger | kFloat | kVarchar.
#[global] Instance TypeId_eq_dec : EqDecision TypeId.
Proof. solve_decision. Defined.

Definition FixedWidthByteSize (type : TypeId) : option nat :=
  match type with
  | kInteger => Some 4%nat
  | kFloat => Some 4%nat
  | kVarchar => None
  end.

Definition IsFixedWidth (type : TypeId) : bool :=
  match FixedWidthByteSize type with Some _ => true | None => false end.

(** ** Lemmas on results and vectors *)

Create HintDb gist discriminated.
Create Rewrite HintDb gist.

Lemma bind_Ok {A B} (a : A) (k : A -> result B) : (Ok a ≫= k) = k a.
Proof. done. Qed.

Lemma bind_bind {A B C} (m : result A) (f : A -> result B) (g : B -> result C) : (m ≫= f) ≫= g = m ≫= (fun a => f a ≫= g).
Proof. by destruct m. Qed.
Lemma bind_ext {A B} (m : result A) (f g : A -> result B) : (forall a, f a = g a) -> m ≫= f = m ≫= g.
Proof. intros Hfg. destruct m; [apply Hfg|done..]. Qed.
Lemma bind_Ok_inv {A B} (m : result A) (k : A -> result B) (b : B) :
  m ≫= k = Ok b -> exists a, m = Ok a /\ k a = Ok b.
Proof. destruct m; simpl; intros; try discriminate. eauto. Qed.

Lemma io_bind_Ok {W A B} (m : io W A) (k : A -> io W B) (w w' : W) (a : A) :
  m w = (Ok a, w') -> (m ≫= k) w = k a w'.
Proof. intros H. unfold mbind, io_bind. by rewrite H. Qed.

Lemma io_lift_bind {W A B} (a : A) (k : A -> io W B) (w : W) : (io_lift (Ok a) ≫= k) w = k a w.
Proof. done. Qed.

Lemma io_bind_Ok_inv {W A B} (m : io W A) (k : A -> io W B) (w w' : W) (b : B) :
  (m ≫= k) w = (Ok b, w') -> exists a w1, m w = (Ok a, w1) /\ k a w1 = (Ok b, w').
Proof. unfold mbind, io_bind. destruct (m w) as [[] w1]; intros; simplify_eq. eauto. Qed.

Lemma vec_get_Ok {A} (l : list A) i a : vec_get l i = Ok a <-> l !! i = Some a.
Proof. unfold vec_get. destruct (l !! i); split; congruence. Qed.

Lemma vec_get_lt {A} (l : list A) i : (i < length l)%nat -> exists a, vec_get l i = Ok a /\ l !! i = Some a.
Proof. intros [a H]%lookup_lt_is_Some. exists a. by rewrite vec_get_Ok. Qed.

Lemma vec_set_lt {A} (l : list A) i a : (i < length l)%nat -> vec_set l i a = Ok (<[i:=a]> l).
Proof. intros. unfold vec_set. by rewrite decide_True. Qed.

Lemma length_vec_resize {A} n (v : A) l : length (vec_resize n v l) = n.
Proof. unfold vec_resize. rewrite length_app, length_take, length_replicate. lia. Qed.

Lemma vec_resize_ge {A} n (v : A) l :
  (length l <= n)%nat -> vec_resize n v l = l ++ replicate (n - length l) v.
Proof. intros. unfold vec_resize. by rewrite take_ge by lia. Qed.

Lemma filter_ext_in {A} (P Q : A -> Prop) `{!forall x, Decision (P x)} `{!forall x, Decision (Q x)} (l : list A) :
  (forall x, x ∈ l -> P x <-> Q x) -> filter P l = filter Q l.
Proof.
  induction l as [|x l IH]; intros HPQ; [done|]. rewrite !filter_cons, IH.
  - specialize (HPQ x ltac:(constructor)). repeat case_decide; tauto.
  - intros y Hy. apply HPQ. by constructor.
Qed.

Lemma filter_all {A} (P : A -> Prop) `{!forall x, Decision (P x)} (l : list A) :
  (forall x, x ∈ l -> P x) -> filter P l = l.
Proof.
  induction l as [|x l IH]; intros HP; [done|].
  rewrite filter_cons, decide_True by (apply HP; constructor). f_equal. apply IH.
  intros y Hy. apply HP. by constructor.
Qed.

Lemma filter_none {A} (P : A -> Prop) `{!forall x, Decision (P x)} (l : list A) :
  (forall x, x ∈ l -> ~ P x) -> filter P l = [].
Proof.
  induction l as [|x l IH]; intros HP; [done|].
  rewrite filter_cons, decide_False by (apply HP; constructor). apply IH.
  intros y Hy. apply HP. by constructor.
Qed.

Lemma nodup_map_inj {A B} (f : A -> B) l x y : NoDup (map f l) -> x ∈ l -> y ∈ l -> f x = f y -> x = y.
Proof.
  intros HN Hx Hy Hf. apply list_elem_of_lookup in Hx as [i Hi]. apply list_elem_of_lookup in Hy as [j Hj].
  assert (i = j) as ->; [|by simplify_eq].
  eapply NoDup_lookup; [exact HN| |]; rewrite list_lookup_fmap; [by rewrite Hi|by rewrite Hj; simpl; rewrite Hf].
Qed.

Lemma list_choice {A} (P : nat -> A -> Prop) n :
  (forall i, (i < n)%nat -> exists x, P i x) ->
  exists l, length l = n /\ forall i x, l !! i = Some x -> P i x.
Proof.
  induction n as [|n IH]; intros Hex.
  - exists []. split; [done|]. intros i x. by rewrite lookup_nil.
  - destruct IH as (l & Hl & HP); [intros i Hi; apply Hex; lia|].
    destruct (Hex n) as [x Hx]; [lia|]. exists (l ++ [x]). split; [rewrite length_app; simpl; lia|].
    intros i y [Hy|[Hge Hy]]%lookup_app_Some; [by apply HP|].
    apply list_lookup_singleton_Some in Hy as [Hi <-]. by replace i with n by lia.
Qed.

Lemma map_seq_lookup {A} (f : nat -> A) n i : (i < n)%nat -> map f (seq 0 n) !! i = Some (f i).
Proof. intros. by rewrite list_lookup_fmap, lookup_seq_lt. Qed.

Lemma list_eq_seq {A} (f : nat -> A) (l : list A) :
  (forall i x, l !! i = Some x -> f i = x) -> l = map f (seq 0 (length l)).
Proof.
  intros Hf. apply list_eq. intros i. destruct (l !! i) as [x|] eqn:E.
  - rewrite map_seq_lookup by (by eapply lookup_lt_Some). by rewrite (Hf i x).
  - apply lookup_ge_None in E. symmetry. apply lookup_ge_None. by rewrite length_map, length_seq.
Qed.

(** Loop rules: an invariant indexed by the loop counter is enough for a loop over
    results to return, and to return a state with the invariant. *)
Lemma for_range_inv {S} (I : nat -> S -> Prop) (body : nat -> S -> result S) lo n s :
  (forall i s, (lo <= i < lo + n)%nat -> I i s -> exists s', body i s = Ok s' /\ I (Datatypes.S i) s') ->
  I lo s ->
  exists s', for_range lo n body s = Ok s' /\ I (lo + n)%nat s'.
Proof.
  revert lo s. induction n as [|n IH]; intros lo s Hbody HI; simpl.
  - exists s. split; [done|]. by rewrite Nat.add_0_r.
  - destruct (Hbody lo s) as (s1 & -> & HI1); [lia|done|]. simpl.
    destruct (IH (Datatypes.S lo) s1) as (s' & Hs' & HI'); [intros; apply Hbody; [lia|done]|done|].
    exists s'. split; [done|]. by replace (lo + Datatypes.S n)%nat with (Datatypes.S lo + n)%nat by lia.
Qed.

Lemma for_each_inv {X S} (I : list X -> S -> Prop) (body : X -> S -> result S) xs s :
  (forall done x todo s, xs = done ++ x :: todo -> I done s ->
     exists s', body x s = Ok s' /\ I (done ++ [x]) s') ->
  I [] s ->
  exists s', for_each xs body s = Ok s' /\ I xs s'.
Proof.
  intros Hbody HI.
  enough (G : forall dn todo s, xs = dn ++ todo -> I dn s ->
            exists s', for_each todo body s = Ok s' /\ I xs s') by (by apply (G [] xs)).
  clear s HI. intros dn todo. revert dn.
  induction todo as [|x todo IH]; intros dn s Heq HI; simpl.
  - exists s. split; [done|]. subst. by rewrite app_nil_r.
  - destruct (Hbody dn x todo s Heq HI) as (s1 & -> & HI1). simpl.
    apply (IH (dn ++ [x])); [|done]. by rewrite <- app_assoc.
Qed.

(** Loops that build a vector with one element per element of another. *)
Lemma collect_Ok {X Y} (f : X -> result Y) xs acc zs :
  for_each xs (fun x acc => y ← f x; mret (acc ++ [y])) acc = Ok zs <->
  exists ys, zs = acc ++ ys /\ Forall2 (fun x y => f x = Ok y) xs ys.
Proof.
  revert acc. induction xs as [|x xs IH]; intros acc; simpl.
  - split; [intros [= <-]; exists []; by rewrite app_nil_r|]. intros (ys & -> & HF). apply Forall2_nil_inv_l in HF as ->. by rewrite app_nil_r.
  - split.
    + intros (acc1 & Hx & Hrest)%bind_Ok_inv. apply bind_Ok_inv in Hx as (y & Hy & [= <-]). apply IH in Hrest as (ys & -> & HF).
      exists (y :: ys). split; [by rewrite <- app_assoc|by constructor].
    + intros (zs' & -> & HF). apply Forall2_cons_inv_l in HF as (y & ys & Hy & HF & ->). rewrite Hy. apply IH.
      exists ys. split; [by rewrite <- app_assoc|done].
Qed.

Lemma for_each_fuel {X S} (f : X -> S -> result S) xs s :
  (forall x s, x ∈ xs -> f x s <> OutOfFuel) -> for_each xs f s <> OutOfFuel.
Proof.
  revert s. induction xs as [|x xs IH]; intros s Hf; [done|]. simpl. pose proof (Hf x s ltac:(by constructor)) as Hx.
  destruct (f x s) as [s'| | |]; try done. apply IH. intros y s2 Hy. apply Hf. by constructor.
Qed.

Lemma bind_fuel {A B} (m : result A) (k : A -> result B) :
  m <> OutOfFuel -> (forall a, m = Ok a -> k a <> OutOfFuel) -> m ≫= k <> OutOfFuel.
Proof. destruct m; try done. intros _ Hk. by apply Hk. Qed.

(** The same for a loop over a shared object [W]. *)
Lemma for_each_io_inv {W X S} (I : list X -> S -> W -> Prop) (body : X -> S -> io W S) xs s w :
  (forall done x todo s w, xs = done ++ x :: todo -> I done s w ->
     exists s' w', body x s w = (Ok s', w') /\ I (done ++ [x]) s' w') ->
  I [] s w ->
  exists s' w', for_each xs body s w = (Ok s', w') /\ I xs s' w'.
Proof.
  intros Hbody HI.
  enough (G : forall dn todo s w, xs = dn ++ todo -> I dn s w ->
            exists s' w', for_each todo body s w = (Ok s', w') /\ I xs s' w') by (by apply (G [] xs)).
  clear s w HI. intros dn todo. revert dn.
  induction todo as [|x todo IH]; intros dn s w Heq HI; simpl.
  - exists s, w. split; [done|]. subst. by rewrite app_nil_r.
  - destruct (Hbody dn x todo s w Heq HI) as (s1 & w1 & HB & HI1). rewrite (io_bind_Ok _ _ _ _ _ HB).
    apply (IH (dn ++ [x])); [|done]. by rewrite <- app_assoc.
Qed.

Lemma for_range_io_inv {W S} (I : nat -> S -> W -> Prop) (body : nat -> S -> io W S) lo n s w :
  (forall i s w, (lo <= i < lo + n)%nat -> I i s w ->
     exists s' w', body i s w = (Ok s', w') /\ I (Datatypes.S i) s' w') ->
  I lo s w ->
  exists s' w', for_range lo n body s w = (Ok s', w') /\ I (lo + n)%nat s' w'.
Proof.
  revert lo s w. induction n as [|n IH]; intros lo s w Hbody HI; simpl.
  - exists s, w. split; [done|]. by rewrite Nat.add_0_r.
  - destruct (Hbody lo s w) as (s1 & w1 & HB & HI1); [lia|done|]. rewrite (io_bind_Ok _ _ _ _ _ HB).
    destruct (IH (Datatypes.S lo) s1 w1) as (s' & w' & Hs' & HI'); [intros; apply Hbody; [lia|done]|done|].
    exists s', w'. split; [done|]. by replace (lo + Datatypes.S n)%nat with (Datatypes.S lo + n)%nat by lia.
Qed.

(** A run that returns, and a postcondition on its value and final state. *)
Definition returns {W A} (m : io W A) (w : W) (post : A -> W -> Prop) : Prop :=
  exists a w', m w = (Ok a, w') /\ post a w'.

Lemma returns_ret {W A} (a : A) (w : W) (post : A -> W -> Prop) : post a w -> returns (mret a) w post.
Proof. intros. by exists a, w. Qed.

Lemma returns_bind {W A B} (m : io W A) (k : A -> io W B) w mid post :
  returns m w mid -> (forall a w', mid a w' -> returns (k a) w' post) -> returns (m ≫= k) w post.
Proof.
  intros (a & w1 & Hm & Ha) Hk. destruct (Hk a w1 Ha) as (b & w2 & Hb & Hp).
  exists b, w2. split; [|done]. by rewrite (io_bind_Ok _ _ _ _ _ Hm).
Qed.

Lemma returns_mono {W A} (m : io W A) w (post post' : A -> W -> Prop) :
  returns m w post -> (forall a w', post a w' -> post' a w') -> returns m w post'.
Proof. intros (a & w' & Hm & Hp) Hi. exists a, w'. auto. Qed.

Lemma returns_lift {W A} (r : result A) (w : W) (post : A -> W -> Prop) a :
  r = Ok a -> post a w -> returns (io_lift r) w post.
Proof. intros -> Hp. by exists a, w. Qed.

Lemma returns_lift_bind {W A B} (r : result A) (k : A -> io W B) (w : W) (post : B -> W -> Prop) a :
  r = Ok a -> returns (k a) w post -> returns (io_lift r ≫= k) w post.
Proof. by intros ->. Qed.

Lemma returns_get_bind {W B} (k : W -> io W B) (w : W) (post : B -> W -> Prop) :
  returns (k w) w post -> returns (io_get ≫= k) w post.
Proof. done. Qed.

Lemma returns_for_range {W S} (I : nat -> S -> W -> Prop) (body : nat -> S -> io W S) lo n s w :
  (forall i s w, (lo <= i < lo + n)%nat -> I i s w -> returns (body i s) w (I (Datatypes.S i))) ->
  I lo s w -> returns (for_range lo n body s) w (I (lo + n)%nat).
Proof. apply for_range_io_inv. Qed.

Lemma returns_for_each {W X S} (I : list X -> S -> W -> Prop) (body : X -> S -> io W S) xs s w :
  (forall done x todo s w, xs = done ++ x :: todo -> I done s w -> returns (body x s) w (I (done ++ [x]))) ->
  I [] s w -> returns (for_each xs body s) w (I xs).
Proof. apply for_each_io_inv. Qed.

(** ** Loops that returned *)

Lemma for_range_Ok {S} (I : nat -> S -> Prop) (body : nat -> S -> result S) lo n s s' :
  (forall i s s', (lo <= i < lo + n)%nat -> I i s -> body i s = Ok s' -> I (Datatypes.S i) s') ->
  I lo s -> for_range lo n body s = Ok s' -> I (lo + n)%nat s'.
Proof.
  revert lo s. induction n as [|n IH]; intros lo s Hstep Hs HR; simpl in HR.
  - injection HR as <-. by rewrite Nat.add_0_r.
  - apply bind_Ok_inv in HR as (s1 & Hb & HR). replace (lo + Datatypes.S n)%nat with (Datatypes.S lo + n)%nat by lia.
    apply (IH (Datatypes.S lo) s1); [|by apply (Hstep lo s); [lia|..]|done]. intros i s2 s3 Hi. apply Hstep. lia.
Qed.

Lemma for_each_Ok {X S} (I : list X -> S -> Prop) (body : X -> S -> result S) xs s s' :
  (forall dn x s s', I dn s -> body x s = Ok s' -> x ∈ xs -> I (dn ++ [x]) s') ->
  I [] s -> for_each xs body s = Ok s' -> I xs s'.
Proof.
  intros Hstep Hs HR. assert (forall dn todo s, xs = dn ++ todo -> I dn s -> for_each todo body s = Ok s' -> I xs s') as Hgen.
  { intros dn todo. revert dn. induction todo as [|x todo IH]; intros dn s0 Hx Hd HL; simpl in HL.
    - injection HL as <-. by rewrite Hx, app_nil_r.
    - apply bind_Ok_inv in HL as (s1 & Hb & HL). apply (IH (dn ++ [x]) s1); [by rewrite <- app_assoc| |done].
      eapply Hstep; [done|done|]. rewrite Hx. apply elem_of_app. right. by constructor. }
  by apply (Hgen [] xs s).
Qed.

(** ** Lemmas on machine integers *)

Lemma u32_range z : is_u32 (u32 z).
Proof. unfold is_u32, u32. apply Z.mod_pos_bound. lia. Qed.
Lemma u64_range z : is_u64 (u64 z).
Proof. unfold is_u64, u64. apply Z.mod_pos_bound. lia. Qed.
Lemma i32_range z : is_i32 (i32 z).
Proof. unfold is_i32, i32. pose proof (Z.mod_pos_bound (z + 2 ^ 31) (2 ^ 32)). lia. Qed.
Lemma u32_id z : is_u32 z -> u32 z = z.
Proof. apply Z.mod_small. Qed.
Lemma u64_id z : is_u64 z -> u64 z = z.
Proof. apply Z.mod_small. Qed.
Lemma i32_id z : is_i32 z -> i32 z = z.
Proof. unfold is_i32, i32. intros. rewrite Z.mod_small by lia. lia. Qed.
Lemma i32_u32 z : is_i32 z -> i32 (u32 z) = z.
Proof.
  unfold is_i32, i32, u32. intros.
  rewrite Zplus_mod_idemp_l. rewrite Z.mod_small by lia. lia.
Qed.

#[export] Hint Resolve u32_range u64_range i32_range : gist.
#[export] Hint Rewrite @vec_get_Ok @length_vec_resize : gist.

(** ** The order of [std::string] *)

(** [operator<] on strings: byte-wise lexicographic, bytes unsigned. *)
Definition str_ltb (a b : string) : bool := String.ltb a b.
Definition str_leb (a b : string) : bool := negb (str_ltb b a).
Definition str_min (a b : string) : string := if str_ltb b a then b else a.
Definition str_max (a b : string) : string := if str_ltb a b then b else a.

Lemma str_ltb_cons c a d b :
  str_ltb (String c a) (String d b) =
  match (N_of_ascii c ?= N_of_ascii d)%N with Eq => str_ltb a b | Lt => true | Gt => false end.
Proof.
  unfold str_ltb, String.ltb. simpl. unfold Ascii.compare. by destruct (_ ?= _)%N.
Qed.

Lemma str_ltb_irrefl a : str_ltb a a = false.
Proof. induction a; [done|]. by rewrite str_ltb_cons, N.compare_refl. Qed.

Lemma str_ltb_trans a b c : str_ltb a b = true -> str_ltb b c = true -> str_ltb a c = true.
Proof.
  revert b c. induction a as [|x a IH]; intros [|y b] [|z c]; try done.
  rewrite !str_ltb_cons.
  destruct (N.compare_spec (N_of_ascii x) (N_of_ascii y)) as [E1|E1|E1]; [| |done];
    destruct (N.compare_spec (N_of_ascii y) (N_of_ascii z)) as [E2|E2|E2]; try done;
    destruct (N.compare_spec (N_of_ascii x) (N_of_ascii z)) as [E3|E3|E3]; try done; try lia.
  apply IH.
Qed.

Lemma str_ltb_total a b : str_ltb a b = false -> str_ltb b a = false -> a = b.
Proof.
  revert b. induction a as [|x a IH]; intros [|y b]; try done.
  rewrite !str_ltb_cons, (N.compare_antisym (N_of_ascii y)).
  destruct (N.compare_spec (N_of_ascii y) (N_of_ascii x)) as [E1|E1|E1]; try done.
  simpl. intros H1 H2. f_equal; [|by apply IH].
  rewrite <- (ascii_N_embedding x), <- (ascii_N_embedding y). by f_equal.
Qed.

Lemma str_leb_refl a : str_leb a a = true.
Proof. unfold str_leb. by rewrite str_ltb_irrefl. Qed.

Lemma str_ltb_asym a b : str_ltb a b = true -> str_ltb b a = false.
Proof.
  intros H. destruct (str_ltb b a) eqn:E; [|done].
  pose proof (str_ltb_trans _ _ _ H E) as C. by rewrite str_ltb_irrefl in C.
Qed.

Lemma str_ltb_leb a b : str_ltb a b = true -> str_leb a b = true.
Proof. intros H. unfold str_leb. by rewrite (str_ltb_asym _ _ H). Qed.

Lemma str_leb_trans a b c : str_leb a b = true -> str_leb b c = true -> str_leb a c = true.
Proof.
  unfold str_leb. rewrite !negb_true_iff. intros H1 H2.
  destruct (str_ltb c a) eqn:E; [|done].
  destruct (str_ltb a b) eqn:E1; [by rewrite (str_ltb_trans c a b) in H2|].
  by rewrite (str_ltb_total a b E1 H1), H2 in E.
Qed.

Lemma str_min_leb a b : str_leb (str_min a b) a = true /\ str_leb (str_min a b) b = true.
Proof.
  unfold str_min. destruct (str_ltb b a) eqn:E.
  - split; [by apply str_ltb_leb|apply str_leb_refl].
  - split; [apply str_leb_refl|]. unfold str_leb. by rewrite E.
Qed.

Lemma str_max_leb a b : str_leb a (str_max a b) = true /\ str_leb b (str_max a b) = true.
Proof.
  unfold str_max. destruct (str_ltb a b) eqn:E.
  - split; [by apply str_ltb_leb|apply str_leb_refl].
  - split; [apply str_leb_refl|]. unfold str_leb. by rewrite E.
Qed.

(** ** Tactics of the development *)

(** Take apart a hypothesis [m ≫= k = Ok b] step by step. *)
Ltac inv_bind :=
  repeat match goal with
  | H : mbind _ _ = Ok _ |- _ =>
      let a := fresh "a" in let Ha := fresh "Ha" in
      apply bind_Ok_inv in H; destruct H as (a & Ha & H)
  | H : mret _ = Ok _ |- _ => apply (inj Ok) in H
  | H : Ok _ = Ok _ |- _ => injection H as H
  end.
