(* ===== verification/Scalar.v ===== *)
(** The two fixed-width value types of GistDB, [std::int32_t] and [float], and
    the interface [Scalar] that [FixedWidthColumn<T>], [ZoneMap<T>] and the footer
    are written against ([T] in the C++ templates).

    An [int32] is a [Z]; a [float] is its 32-bit pattern ([f32]), so that the
    [memcpy] round trips of the storage layer are exact on every pattern (NaN
    payloads included), while comparisons and arithmetic go through the IEEE-754
    semantics of the standard library ([SpecFloat], binary32 and binary64). *)

From S2P Require Import Prelude.
From Stdlib Require Import SpecFloat.

(** ** [float]: IEEE-754 binary32 as a bit pattern *)

Record f32 : Type := F32 { f32_bits : Z }.
#[global] Instance f32_eq_dec : EqDecision f32.
Proof. solve_decision. Defined.

Definition f32_ok (f : f32) : Prop := is_u32 (f32_bits f).

Definition f32_sign (f : f32) : bool := Z.testbit (f32_bits f) 31.
Definition f32_mag (f : f32) : Z := f32_bits f mod 2 ^ 31.

(** The number a 31-bit magnitude denotes, under a sign. *)
Definition decode_mag (s : bool) (g : Z) : spec_float :=
  let e := g / 2 ^ 23 in
  let m := g mod 2 ^ 23 in
  if e =? 255 then (if m =? 0 then S754_infinity s else S754_nan)
  else match (if e =? 0 then m else m + 2 ^ 23) with
       | Zpos p => S754_finite s p (if e =? 0 then -149 else e - 150)
       | _ => S754_zero s
       end.

Definition f32_decode (f : f32) : spec_float := decode_mag (f32_sign f) (f32_mag f).

(** Sign and magnitude put into the 32 bits. *)
Definition f32_of_parts (s : bool) (g : Z) : f32 := F32 (u32 ((if s then 2 ^ 31 else 0) + g)).

(** The pattern of a binary32 result; a NaN result is the default quiet NaN. *)
Definition f32_encode (x : spec_float) : f32 :=
  match x with
  | S754_zero s => f32_of_parts s 0
  | S754_infinity s => f32_of_parts s (255 * 2 ^ 23)
  | S754_nan => F32 0x7fc00000
  | S754_finite s m e =>
      if Zpos m <? 2 ^ 23 then f32_of_parts s (Zpos m)
      else f32_of_parts s ((e + 150) * 2 ^ 23 + (Zpos m - 2 ^ 23))
  end.

Lemma f32_encode_ok x : f32_ok (f32_encode x).
Proof. destruct x; simpl; unfold f32_ok; simpl; try apply u32_range; [unfold is_u32; lia|]. case_match; apply u32_range. Qed.

Definition f32_zero : f32 := F32 0.
Definition f32_is_nan (f : f32) : bool := 255 * 2 ^ 23 <? f32_mag f.

(** [operator<], [<=], [==] on [float]. *)
Definition f32_ltb (a b : f32) : bool := SFltb (f32_decode a) (f32_decode b).
Definition f32_leb (a b : f32) : bool := SFleb (f32_decode a) (f32_decode b).
Definition f32_eqb (a b : f32) : bool := SFeqb (f32_decode a) (f32_decode b).

(** [operator+ - * /] on [float]: computed in binary32, round to nearest even. *)
Definition f32_add (a b : f32) : f32 := f32_encode (SFadd 24 128 (f32_decode a) (f32_decode b)).
Definition f32_sub (a b : f32) : f32 := f32_encode (SFsub 24 128 (f32_decode a) (f32_decode b)).
Definition f32_mul (a b : f32) : f32 := f32_encode (SFmul 24 128 (f32_decode a) (f32_decode b)).
Definition f32_div (a b : f32) : f32 := f32_encode (SFdiv 24 128 (f32_decode a) (f32_decode b)).

(** [static_cast<float>] of an integer. *)
Definition f32_of_int (z : Z) : f32 := f32_encode (binary_normalize 24 128 z 0 false).

(** ** [double]: IEEE-754 binary64, never stored, so a [spec_float] *)

Definition f64 : Type := spec_float.
Definition f64_zero : f64 := S754_zero false.

(** Round a number to a format, keeping zeros, infinities and NaN. *)
Definition sf_convert (prec emax : Z) (x : spec_float) : spec_float :=
  match x with
  | S754_finite s m e => binary_normalize prec emax (cond_Zopp s (Zpos m)) e s
  | _ => x
  end.

Definition f64_of_f32 (f : f32) : f64 := sf_convert 53 1024 (f32_decode f).
Definition f32_of_f64 (x : f64) : f32 := f32_encode (sf_convert 24 128 x).
Definition f64_of_int (z : Z) : f64 := binary_normalize 53 1024 z 0 false.
Definition f64_add (a b : f64) : f64 := SFadd 53 1024 a b.
Definition f64_div (a b : f64) : f64 := SFdiv 53 1024 a b.

Example f32_add_ex : f32_add (f32_of_int 1) (f32_of_int 2) = f32_of_int 3.
Proof. reflexivity. Qed.
Example f32_one_bits : f32_bits (f32_of_int 1) = 0x3f800000.
Proof. reflexivity. Qed.
Example f32_third_bits : f32_bits (f32_div (f32_of_int 1) (f32_of_int 3)) = 0x3eaaaaab.
Proof. reflexivity. Qed.
Example f32_div_zero : f32_bits (f32_div (f32_of_int (-1)) f32_zero) = 0xff800000.
Proof. reflexivity. Qed.
Example f32_round_int : f32_bits (f32_of_int 16777217) = f32_bits (f32_of_int 16777216).
Proof. reflexivity. Qed.

(** ** The order of [float] *)

(** Sign-magnitude value: its [Z] order is the IEEE order of the non-NaN patterns. *)
Definition f32_key (f : f32) : Z := if f32_sign f then - f32_mag f else f32_mag f.

Lemma f32_mag_range f : 0 <= f32_mag f < 2 ^ 31.
Proof. apply Z.mod_pos_bound. lia. Qed.

Lemma not_nan_mag f : f32_is_nan f = false -> 0 <= f32_mag f <= 255 * 2 ^ 23.
Proof. unfold f32_is_nan. pose proof (f32_mag_range f). lia. Qed.

(** What a non-NaN magnitude decodes to. *)
Lemma decode_mag_cases s g :
  0 <= g <= 255 * 2 ^ 23 ->
  (g = 0 /\ decode_mag s g = S754_zero s) \/
  (g = 255 * 2 ^ 23 /\ decode_mag s g = S754_infinity s) \/
  (0 < g < 255 * 2 ^ 23 /\ exists p e, decode_mag s g = S754_finite s p e /\
     ((g < 2 ^ 23 /\ Zpos p = g /\ e = -149) \/
      (1 <= g / 2 ^ 23 /\ Zpos p = g mod 2 ^ 23 + 2 ^ 23 /\ e = g / 2 ^ 23 - 150))).
Proof.
  intros Hg. unfold decode_mag.
  pose proof (Z.div_mod g (2 ^ 23) ltac:(lia)) as Hdm.
  pose proof (Z.mod_pos_bound g (2 ^ 23) ltac:(lia)) as Hm.
  remember (g / 2 ^ 23) as e eqn:He. remember (g mod 2 ^ 23) as m eqn:Em.
  destruct (Z.eqb_spec e 255) as [->|He255].
  { assert (m = 0) as Hm0 by lia. rewrite Hm0. right; left. split; [lia|done]. }
  destruct (Z.eqb_spec e 0) as [He0|He0].
  - destruct m as [|p|p] eqn:Hmp; [left; split; [lia|done] | | lia].
    right; right. split; [lia|]. exists p, (-149). split; [done|]. left. lia.
  - destruct (m + 2 ^ 23) as [|p|p] eqn:Hp; [lia| |lia].
    right; right. split; [lia|]. exists p, (e - 150). split; [done|]. right. lia.
Qed.

Lemma compare_same_binade (m1 m2 : positive) :
  Pos.compare_cont Eq m1 m2 = Z.compare (Zpos m1) (Zpos m2).
Proof. done. Qed.

(** Between finite magnitudes, (exponent, mantissa) order is magnitude order. *)
Lemma finite_mag_compare g1 g2 p1 p2 e1 e2 :
  ((g1 < 2 ^ 23 /\ Zpos p1 = g1 /\ e1 = -149) \/
   (1 <= g1 / 2 ^ 23 /\ Zpos p1 = g1 mod 2 ^ 23 + 2 ^ 23 /\ e1 = g1 / 2 ^ 23 - 150)) ->
  ((g2 < 2 ^ 23 /\ Zpos p2 = g2 /\ e2 = -149) \/
   (1 <= g2 / 2 ^ 23 /\ Zpos p2 = g2 mod 2 ^ 23 + 2 ^ 23 /\ e2 = g2 / 2 ^ 23 - 150)) ->
  match Z.compare e1 e2 with
  | Lt => Lt | Gt => Gt | Eq => Pos.compare_cont Eq p1 p2 end = Z.compare g1 g2.
Proof.
  intros H1 H2. rewrite compare_same_binade.
  pose proof (Z.div_mod g1 (2 ^ 23) ltac:(lia)) as D1.
  pose proof (Z.mod_pos_bound g1 (2 ^ 23) ltac:(lia)) as B1.
  pose proof (Z.div_mod g2 (2 ^ 23) ltac:(lia)) as D2.
  pose proof (Z.mod_pos_bound g2 (2 ^ 23) ltac:(lia)) as B2.
  remember (g1 / 2 ^ 23) as q1. remember (g2 / 2 ^ 23) as q2.
  remember (g1 mod 2 ^ 23) as r1. remember (g2 mod 2 ^ 23) as r2.
  destruct (Z.compare_spec e1 e2); destruct (Z.compare_spec g1 g2);
    try done; try (exfalso; lia);
    destruct (Z.compare_spec (Zpos p1) (Zpos p2)); try done; exfalso; lia.
Qed.

Lemma f32_compare_key a b :
  f32_is_nan a = false -> f32_is_nan b = false ->
  SFcompare (f32_decode a) (f32_decode b) = Some (Z.compare (f32_key a) (f32_key b)).
Proof.
  intros Ha%not_nan_mag Hb%not_nan_mag. unfold f32_decode, f32_key.
  destruct (f32_sign a), (f32_sign b);
    destruct (decode_mag_cases true (f32_mag a) Ha) as [[Ga Da]|[[Ga Da]|(Ga & pa & ea & Da & Ka)]];
    destruct (decode_mag_cases false (f32_mag a) Ha) as [[Ga' Da']|[[Ga' Da']|(Ga' & pa' & ea' & Da' & Ka')]];
    try (exfalso; lia);
    destruct (decode_mag_cases true (f32_mag b) Hb) as [[Gb Db]|[[Gb Db]|(Gb & pb & eb & Db & Kb)]];
    destruct (decode_mag_cases false (f32_mag b) Hb) as [[Gb' Db']|[[Gb' Db']|(Gb' & pb' & eb' & Db' & Kb')]];
    try (exfalso; lia);
    rewrite ?Da, ?Da', ?Db, ?Db'; simpl; f_equal; symmetry;
    try (apply Z.compare_lt_iff; lia); try (apply Z.compare_gt_iff; lia);
    try (apply Z.compare_eq_iff; lia).
  - pose proof (finite_mag_compare _ _ _ _ _ _ Ka Kb) as Hc.
    rewrite Z.compare_opp, (Z.compare_antisym (f32_mag a)), <- Hc. by destruct (Z.compare ea eb).
  - symmetry. by apply finite_mag_compare.
Qed.

Lemma f32_ltb_key a b :
  f32_is_nan a = false -> f32_is_nan b = false -> f32_ltb a b = (f32_key a <? f32_key b).
Proof.
  intros. unfold f32_ltb, SFltb, Z.ltb. rewrite f32_compare_key by done. by destruct (_ ?= _).
Qed.

Lemma f32_leb_key a b :
  f32_is_nan a = false -> f32_is_nan b = false -> f32_leb a b = (f32_key a <=? f32_key b).
Proof.
  intros. unfold f32_leb, SFleb, Z.leb. rewrite f32_compare_key by done. by destruct (_ ?= _).
Qed.

Lemma f32_eqb_key a b :
  f32_is_nan a = false -> f32_is_nan b = false -> f32_eqb a b = (f32_key a =? f32_key b).
Proof.
  intros. unfold f32_eqb, SFeqb. rewrite f32_compare_key by done.
  by rewrite Z.eqb_compare.
Qed.

(** ** The interface of a fixed-width value type *)

(** [sc_ordered] are the values the order laws cover (all but the NaNs);
    [sc_key] is a [Z] order [operator<] agrees with on them. *)
Class Scalar (T : Type) : Type := {
  sc_zero : T;
  sc_ltb : T -> T -> bool;
  sc_leb : T -> T -> bool;
  sc_eqb : T -> T -> bool;
  sc_bits : T -> Z;
  sc_of_bits : Z -> T;
  sc_ok : T -> Prop;
  sc_ordered : T -> bool;
  sc_key : T -> Z;
}.

Class ScalarLaws (T : Type) `{Scalar T} : Prop := {
  sc_bits_u32 x : sc_ok x -> is_u32 (sc_bits x);
  sc_of_bits_bits x : sc_ok x -> sc_of_bits (sc_bits x) = x;
  sc_of_bits_ok z : is_u32 z -> sc_ok (sc_of_bits z);
  sc_bits_of_bits z : is_u32 z -> sc_bits (sc_of_bits z) = z;
  sc_zero_ok : sc_ok sc_zero;
  sc_ltb_key x y : sc_ordered x -> sc_ordered y -> sc_ltb x y = (sc_key x <? sc_key y);
  sc_leb_key x y : sc_ordered x -> sc_ordered y -> sc_leb x y = (sc_key x <=? sc_key y);
  sc_eqb_key x y : sc_ordered x -> sc_ordered y -> sc_eqb x y = (sc_key x =? sc_key y);
  sc_unordered_ltb x y : (sc_ordered x && sc_ordered y)%bool = false -> sc_ltb x y = false;
  sc_unordered_leb x y : (sc_ordered x && sc_ordered y)%bool = false -> sc_leb x y = false;
  sc_unordered_eqb x y : (sc_ordered x && sc_ordered y)%bool = false -> sc_eqb x y = false;
}.

(** [std::min] and [std::max]: the first argument unless the other is strictly
    smaller (larger). *)
Definition std_min {T} `{Scalar T} (a b : T) : T := if sc_ltb b a then b else a.
Definition std_max {T} `{Scalar T} (a b : T) : T := if sc_ltb a b then b else a.

#[global] Instance int_scalar : Scalar Z := {|
  sc_zero := 0; sc_ltb := Z.ltb; sc_leb := Z.leb; sc_eqb := Z.eqb;
  sc_bits := u32; sc_of_bits := i32; sc_ok := is_i32;
  sc_ordered := fun _ => true; sc_key := fun z => z |}.

#[global] Instance int_scalar_laws : ScalarLaws Z.
Proof.
  split; simpl; try done.
  - intros; apply u32_range.
  - apply i32_u32.
  - intros; apply i32_range.
  - unfold is_u32, i32, u32. intros z Hz. rewrite Zminus_mod_idemp_l.
    replace (z + 2 ^ 31 - 2 ^ 31) with z by lia. by apply Z.mod_small.
Qed.

#[global] Instance f32_scalar : Scalar f32 := {|
  sc_zero := f32_zero; sc_ltb := f32_ltb; sc_leb := f32_leb; sc_eqb := f32_eqb;
  sc_bits := f32_bits; sc_of_bits := F32; sc_ok := f32_ok;
  sc_ordered := fun f => negb (f32_is_nan f); sc_key := f32_key |}.

Lemma decode_nan f : f32_is_nan f = true -> f32_decode f = S754_nan.
Proof.
  unfold f32_is_nan, f32_decode, decode_mag. intros Hn%Z.ltb_lt.
  pose proof (f32_mag_range f) as Hr. revert Hn Hr. generalize (f32_mag f). intros g Hn Hr.
  pose proof (Z.div_mod g (2 ^ 23) ltac:(lia)) as Hdm.
  pose proof (Z.mod_pos_bound g (2 ^ 23) ltac:(lia)) as Hm.
  remember (g / 2 ^ 23) as e. remember (g mod 2 ^ 23) as m.
  assert (e = 255) as He by lia. rewrite He. simpl.
  destruct (Z.eqb_spec m 0); [lia|done].
Qed.

Lemma SFcompare_nan_l x : SFcompare S754_nan x = None.
Proof. done. Qed.
Lemma SFcompare_nan_r x : SFcompare x S754_nan = None.
Proof. by destruct x. Qed.

Lemma unordered_compare a b :
  (negb (f32_is_nan a) && negb (f32_is_nan b))%bool = false ->
  SFcompare (f32_decode a) (f32_decode b) = None.
Proof.
  intros [Ha|Hb]%andb_false_iff.
  - by rewrite (decode_nan a) by (destruct (f32_is_nan a); done).
  - rewrite (decode_nan b) by (destruct (f32_is_nan b); done). apply SFcompare_nan_r.
Qed.

Lemma negb_Is_true b : Is_true (negb b) -> b = false.
Proof. by destruct b. Qed.

#[global] Instance f32_scalar_laws : ScalarLaws f32.
Proof.
  split; simpl; try done.
  - by intros [].
  - intros ?? Hx%negb_Is_true Hy%negb_Is_true. by apply f32_ltb_key.
  - intros ?? Hx%negb_Is_true Hy%negb_Is_true. by apply f32_leb_key.
  - intros ?? Hx%negb_Is_true Hy%negb_Is_true. by apply f32_eqb_key.
  - intros x y E. unfold f32_ltb, SFltb. by rewrite unordered_compare.
  - intros x y E. unfold f32_leb, SFleb. by rewrite unordered_compare.
  - intros x y E. unfold f32_eqb, SFeqb. by rewrite unordered_compare.
Qed.
