(* ===== verification/ByteIO.v ===== *)
(** Model of [src/serialization/byte_io.cpp]: the writers append to a byte buffer
    ([std::vector<uint8_t>], here [list byte]); [ByteReader] is a cursor over a
    buffer, and reading past its end is undefined behaviour. The second half is
    the round-trip calculus ([decodes]) the footer, schema and header use. *)

From S2P Require Import Prelude Scalar.

#[global] Instance byte_eq_dec : EqDecision byte := Byte.byte_eq_dec.

Definition Z_of_byte (b : byte) : Z := Z.of_N (Byte.to_N b).

(** [static_cast<std::uint8_t>]. *)
Definition byte_of_Z (z : Z) : byte :=
  match Byte.of_N (Z.to_N (u8 z)) with Some b => b | None => x00 end.

(** [std::string] and its bytes. *)
Definition bytes_of_string (s : string) : list byte := String.list_byte_of_string s.
Definition string_of_bytes (bs : list byte) : string := String.string_of_list_byte bs.

(** ** Writers *)

Definition WriteU8 (buf : list byte) (value : Z) : list byte := buf ++ [byte_of_Z value].

Definition push_byte_of (value : Z) (buf : list byte) (i : Z) : list byte :=
  buf ++ [byte_of_Z (Z.land (Z.shiftr value (8 * i)) 0xFF)].

Definition WriteU32 (buf : list byte) (value : Z) : list byte :=
  foldl (push_byte_of value) buf [0; 1; 2; 3].

Definition WriteU64 (buf : list byte) (value : Z) : list byte :=
  foldl (push_byte_of value) buf [0; 1; 2; 3; 4; 5; 6; 7].

Definition WriteFloat (buf : list byte) (value : f32) : list byte :=
  WriteU32 buf (f32_bits value).

Definition WriteString (buf : list byte) (value : string) : list byte :=
  WriteU32 buf (u32 (Z.of_nat (String.length value))) ++ bytes_of_string value.

(** ** Reader *)

Record ByteReader : Type := mk_reader { bytes_ : list byte; pos_ : nat }.

Definition ReadU8 : io ByteReader Z := fun r =>
  match bytes_ r !! pos_ r with
  | Some b => (Ok (Z_of_byte b), mk_reader (bytes_ r) (S (pos_ r)))
  | None => (Undefined, r)
  end.

(** [value |= byte << (8 * i)], for [i] from 0. *)
Definition or_next_byte (i : nat) (value : Z) : io ByteReader Z :=
  b ← ReadU8; mret (Z.lor value (Z.shiftl b (8 * Z.of_nat i))).

Definition ReadU32 : io ByteReader Z := for_range 0 4 or_next_byte 0.
Definition ReadU64 : io ByteReader Z := for_range 0 8 or_next_byte 0.
Definition ReadFloat : io ByteReader f32 := bits ← ReadU32; mret (F32 bits).

(** [std::string(data + pos, length)]. *)
Definition ReadFixedBytes (length : Z) : io ByteReader string := fun r =>
  let n := Z.to_nat length in
  if decide (pos_ r + n <= List.length (bytes_ r))%nat
  then (Ok (string_of_bytes (take n (drop (pos_ r) (bytes_ r)))), mk_reader (bytes_ r) (pos_ r + n))
  else (Undefined, r).

Definition ReadString : io ByteReader string := length ← ReadU32; ReadFixedBytes length.

Definition Skip (count : nat) : io ByteReader unit := fun r =>
  (Ok tt, mk_reader (bytes_ r) (pos_ r + count)).

(** ** Bytes *)

Lemma Z_of_byte_range b : 0 <= Z_of_byte b < 2 ^ 8.
Proof. unfold Z_of_byte. pose proof (Byte.to_N_bounded b). lia. Qed.

Lemma byte_of_Z_of_byte b : byte_of_Z (Z_of_byte b) = b.
Proof.
  unfold byte_of_Z, u8. rewrite Z.mod_small by apply Z_of_byte_range.
  unfold Z_of_byte. by rewrite N2Z.id, Byte.of_to_N.
Qed.

Lemma Z_of_byte_of_Z z : Z_of_byte (byte_of_Z z) = u8 z.
Proof.
  unfold byte_of_Z, Z_of_byte.
  pose proof (Z.mod_pos_bound z (2 ^ 8) ltac:(lia)) as Hb. fold (u8 z) in Hb.
  destruct (Byte.of_N (Z.to_N (u8 z))) as [b|] eqn:E.
  - apply Byte.to_of_N in E. rewrite E. lia.
  - apply Byte.of_N_None_iff in E. lia.
Qed.

Lemma bytes_of_string_of_bytes bs : bytes_of_string (string_of_bytes bs) = bs.
Proof. apply String.list_byte_of_string_of_list_byte. Qed.
Lemma string_of_bytes_of_string s : string_of_bytes (bytes_of_string s) = s.
Proof. apply String.string_of_list_byte_of_string. Qed.
Lemma length_bytes_of_string s : List.length (bytes_of_string s) = String.length s.
Proof.
  unfold bytes_of_string, String.list_byte_of_string. rewrite length_map.
  induction s; simpl; congruence.
Qed.
Lemma length_string_of_bytes bs : String.length (string_of_bytes bs) = List.length bs.
Proof. by rewrite <- length_bytes_of_string, bytes_of_string_of_bytes. Qed.

(** Little-endian bytes: the [n] low bytes of a value, and back. *)
Fixpoint le_bytes (n : nat) (z : Z) : list byte :=
  match n with O => [] | S n' => byte_of_Z z :: le_bytes n' (z / 2 ^ 8) end.

Fixpoint le_value (bs : list byte) : Z :=
  match bs with [] => 0 | b :: bs' => Z_of_byte b + 2 ^ 8 * le_value bs' end.

Lemma length_le_bytes n z : List.length (le_bytes n z) = n.
Proof. revert z. induction n; intros; simpl; auto. Qed.

Lemma le_value_bytes n z : le_value (le_bytes n z) = z mod 2 ^ (8 * Z.of_nat n).
Proof.
  revert z. induction n as [|n IH]; intros z; simpl.
  - by rewrite Z.mod_1_r.
  - rewrite Z_of_byte_of_Z, IH. unfold u8.
    replace (8 * Z.of_nat (S n)) with (8 + 8 * Z.of_nat n) by lia.
    rewrite Z.pow_add_r, Z.rem_mul_r by lia. lia.
Qed.

Lemma le_value_range bs : 0 <= le_value bs < 2 ^ (8 * Z.of_nat (List.length bs)).
Proof.
  induction bs as [|b bs IH]; simpl; [lia|].
  pose proof (Z_of_byte_range b).
  replace (8 * Z.of_nat (S (List.length bs))) with (8 + 8 * Z.of_nat (List.length bs)) by lia.
  rewrite Z.pow_add_r by lia. nia.
Qed.

Lemma le_bytes_value bs : le_bytes (List.length bs) (le_value bs) = bs.
Proof.
  induction bs as [|b bs IH]; simpl; [done|].
  pose proof (Z_of_byte_range b) as Hb.
  assert ((Z_of_byte b + 2 ^ 8 * le_value bs) / 2 ^ 8 = le_value bs) as Hq.
  { symmetry. apply (Z.div_unique_pos _ _ _ (Z_of_byte b)); lia. }
  rewrite Hq, IH. f_equal.
  rewrite <- (byte_of_Z_of_byte b) at 2. unfold byte_of_Z, u8. do 3 f_equal.
  rewrite Z.add_mod, Z.mul_comm, Z.mod_mul, Z.add_0_r, Z.mod_mod by lia. done.
Qed.

Lemma byte_of_Z_land z : byte_of_Z (Z.land z 0xFF) = byte_of_Z z.
Proof.
  unfold byte_of_Z, u8. change 0xFF with (Z.ones 8). rewrite Z.land_ones by lia.
  by rewrite Z.mod_mod by lia.
Qed.

Lemma push_byte_of_eq v buf i :
  0 <= i -> push_byte_of v buf i = buf ++ [byte_of_Z (v / 2 ^ (8 * i))].
Proof. intros. unfold push_byte_of. by rewrite byte_of_Z_land, Z.shiftr_div_pow2 by lia. Qed.

Lemma WriteU32_app buf v : WriteU32 buf v = buf ++ le_bytes 4 v.
Proof.
  unfold WriteU32. simpl. rewrite !push_byte_of_eq by lia. rewrite <- !app_assoc.
  rewrite !Z.div_div by lia. simpl. by rewrite Z.div_1_r.
Qed.

Lemma WriteU64_app buf v : WriteU64 buf v = buf ++ le_bytes 8 v.
Proof.
  unfold WriteU64. simpl. rewrite !push_byte_of_eq by lia. rewrite <- !app_assoc.
  rewrite !Z.div_div by lia. simpl. by rewrite Z.div_1_r.
Qed.

Lemma WriteU8_app buf v : WriteU8 buf v = buf ++ le_bytes 1 v.
Proof. done. Qed.

Lemma WriteString_app buf s :
  WriteString buf s = buf ++ le_bytes 4 (u32 (Z.of_nat (String.length s))) ++ bytes_of_string s.
Proof. unfold WriteString. by rewrite WriteU32_app, <- app_assoc. Qed.

(** ** The round-trip calculus *)

(** [decodes rd bs a]: wherever [bs] stands in a buffer, [rd] started at its first
    byte returns [a] and stops just after it. *)
Definition decodes {A} (rd : io ByteReader A) (bs : list byte) (a : A) : Prop :=
  forall pre post,
    rd (mk_reader (pre ++ bs ++ post) (List.length pre)) =
    (Ok a, mk_reader (pre ++ bs ++ post) (List.length pre + List.length bs)).

Lemma decodes_ret {A} (a : A) : decodes (mret a) [] a.
Proof. intros pre post. simpl. by rewrite Nat.add_0_r. Qed.

Lemma decodes_bind {A B} (rd : io ByteReader A) (k : A -> io ByteReader B) bs1 bs2 a b :
  decodes rd bs1 a -> decodes (k a) bs2 b -> decodes (rd ≫= k) (bs1 ++ bs2) b.
Proof.
  intros H1 H2 pre post.
  pose proof (H1 pre (bs2 ++ post)) as E1.
  pose proof (H2 (pre ++ bs1) post) as E2.
  rewrite <- !app_assoc in *. rewrite length_app in E2.
  unfold mbind, io_bind. by rewrite E1, E2, length_app, Nat.add_assoc.
Qed.

Lemma decodes_bind_ret {A B} (rd : io ByteReader A) (f : A -> B) bs a :
  decodes rd bs a -> decodes (x ← rd; mret (f x)) bs (f a).
Proof.
  intros H. rewrite <- (app_nil_r bs). eapply decodes_bind; [done|]. apply decodes_ret.
Qed.

Lemma decodes_ReadU8 b : decodes ReadU8 [b] (Z_of_byte b).
Proof.
  intros pre post. unfold ReadU8. simpl.
  by rewrite lookup_app_r, Nat.sub_diag, Nat.add_1_r by lia.
Qed.

Lemma lor_shiftl_add v b k :
  0 <= k -> 0 <= v < 2 ^ k -> 0 <= b -> Z.lor v (Z.shiftl b k) = v + b * 2 ^ k.
Proof.
  intros Hk Hv Hb. rewrite <- Z.shiftl_mul_pow2 by done.
  assert (Z.land v (Z.shiftl b k) = 0) as Hland.
  { apply Z.bits_inj'. intros n Hn. rewrite Z.land_spec, Z.bits_0.
    destruct (decide (n < k)) as [Hlt|Hge].
    - rewrite (Z.shiftl_spec_low b k n) by done. by rewrite andb_false_r.
    - destruct (decide (v = 0)) as [->|]; [by rewrite Z.bits_0|].
      rewrite (Z.bits_above_log2 v n); [done|lia|]. apply Z.log2_lt_pow2; [lia|].
      apply Z.lt_le_trans with (2 ^ k); [lia|]. apply Z.pow_le_mono_r; lia. }
  rewrite <- Z.lxor_lor by done. symmetry. by apply Z.add_nocarry_lxor.
Qed.

Lemma decodes_le_value bs lo v :
  0 <= v < 2 ^ (8 * Z.of_nat lo) ->
  decodes (for_range lo (List.length bs) or_next_byte v) bs
          (v + le_value bs * 2 ^ (8 * Z.of_nat lo)).
Proof.
  revert lo v. induction bs as [|b bs IH]; intros lo v Hv; simpl.
  - rewrite Z.add_0_r. apply decodes_ret.
  - pose proof (Z_of_byte_range b) as Hb.
    assert (2 ^ (8 * Z.of_nat (S lo)) = 2 ^ 8 * 2 ^ (8 * Z.of_nat lo)) as Hpow.
    { rewrite <- Z.pow_add_r by lia. f_equal. lia. }
    assert (0 < 2 ^ (8 * Z.of_nat lo)) by (apply Z.pow_pos_nonneg; lia).
    change (b :: bs) with ([b] ++ bs). eapply decodes_bind.
    + unfold or_next_byte. apply decodes_bind_ret. apply decodes_ReadU8.
    + simpl. rewrite lor_shiftl_add by lia.
      replace (v + (Z_of_byte b + 2 ^ 8 * le_value bs) * 2 ^ (8 * Z.of_nat lo))
        with ((v + Z_of_byte b * 2 ^ (8 * Z.of_nat lo)) + le_value bs * 2 ^ (8 * Z.of_nat (S lo)))
        by (rewrite Hpow; lia).
      apply IH. rewrite Hpow. nia.
Qed.

Lemma decodes_ReadU32_bytes bs : List.length bs = 4%nat -> decodes ReadU32 bs (le_value bs).
Proof.
  intros Hl. pose proof (decodes_le_value bs 0 0) as H. rewrite Hl in H. simpl in H.
  rewrite Z.mul_1_r in H. apply H. lia.
Qed.

Lemma decodes_ReadU64_bytes bs : List.length bs = 8%nat -> decodes ReadU64 bs (le_value bs).
Proof.
  intros Hl. pose proof (decodes_le_value bs 0 0) as H. rewrite Hl in H. simpl in H.
  rewrite Z.mul_1_r in H. apply H. lia.
Qed.

Lemma decodes_ReadU32 v : is_u32 v -> decodes ReadU32 (le_bytes 4 v) v.
Proof.
  intros Hv. pose proof (decodes_ReadU32_bytes (le_bytes 4 v) (length_le_bytes 4 v)) as H.
  rewrite le_value_bytes in H. by rewrite (Z.mod_small v) in H by exact Hv.
Qed.

Lemma decodes_ReadU64 v : is_u64 v -> decodes ReadU64 (le_bytes 8 v) v.
Proof.
  intros Hv. pose proof (decodes_ReadU64_bytes (le_bytes 8 v) (length_le_bytes 8 v)) as H.
  rewrite le_value_bytes in H. by rewrite (Z.mod_small v) in H by exact Hv.
Qed.

Lemma decodes_ReadU8_le v : is_u8 v -> decodes ReadU8 (le_bytes 1 v) v.
Proof.
  intros Hv. pose proof (decodes_ReadU8 (byte_of_Z v)) as H.
  rewrite Z_of_byte_of_Z in H. unfold u8 in H. by rewrite (Z.mod_small v) in H by exact Hv.
Qed.

Lemma decodes_ReadFloat f : f32_ok f -> decodes ReadFloat (le_bytes 4 (f32_bits f)) f.
Proof.
  intros Hf. destruct f as [z]. unfold ReadFloat.
  apply (decodes_bind_ret _ F32). by apply decodes_ReadU32.
Qed.

Lemma decodes_ReadFixedBytes bs n :
  n = Z.of_nat (List.length bs) -> decodes (ReadFixedBytes n) bs (string_of_bytes bs).
Proof.
  intros -> pre post. unfold ReadFixedBytes. simpl. rewrite Nat2Z.id, decide_True.
  - rewrite drop_app_length, take_app_length. done.
  - rewrite !length_app. lia.
Qed.

Lemma decodes_ReadString s :
  is_u32 (Z.of_nat (String.length s)) ->
  decodes ReadString (le_bytes 4 (u32 (Z.of_nat (String.length s))) ++ bytes_of_string s) s.
Proof.
  intros Hs. unfold ReadString. rewrite u32_id by done.
  eapply decodes_bind; [by apply decodes_ReadU32|].
  pose proof (decodes_ReadFixedBytes (bytes_of_string s) (Z.of_nat (String.length s))) as H.
  rewrite string_of_bytes_of_string in H. apply H. by rewrite length_bytes_of_string.
Qed.

(** A loop that reads one item per iteration and pushes it on a vector. *)
Lemma decodes_for_range {A} (rd : io ByteReader A) (enc : A -> list byte) (xs : list A) lo acc :
  (forall x, x ∈ xs -> decodes rd (enc x) x) ->
  decodes (for_range lo (List.length xs) (fun _ l => x ← rd; mret (l ++ [x])) acc)
          (concat (map enc xs)) (acc ++ xs).
Proof.
  revert lo acc. induction xs as [|x xs IH]; intros lo acc H; simpl.
  - rewrite app_nil_r. apply decodes_ret.
  - eapply decodes_bind.
    + apply (decodes_bind_ret rd (fun x => acc ++ [x])). apply H. constructor.
    + replace (acc ++ x :: xs) with ((acc ++ [x]) ++ xs) by by rewrite <- app_assoc.
      apply IH. intros y Hy. apply H. by constructor.
Qed.

(** Running a decoder on a buffer from its start. *)
Lemma decodes_run {A} (rd : io ByteReader A) bs a post :
  decodes rd bs a -> fst (rd (mk_reader (bs ++ post) 0)) = Ok a.
Proof. intros H. specialize (H [] post). simpl in H. by rewrite H. Qed.

Create HintDb decode discriminated.
#[export] Hint Resolve decodes_ReadU8_le decodes_ReadU32 decodes_ReadU64 decodes_ReadFloat
  decodes_ReadString decodes_ret : decode.

(** Decode the fields of a record one after the other: the goal's bytes are a
    concatenation whose first block belongs to the first read. *)
Ltac decode_step := eapply decodes_bind; [eauto with decode|simpl].

Global Opaque le_bytes WriteU8 WriteU32 WriteU64.
