(* ===== verification/Bitmap.v ===== *)
(** Model of [src/storage/validity_bitmap.cpp]: one bit per row, eight rows per
    byte, least significant bit first. The bytes are 8-bit [Z]s and the byte
    operations are the C++ ones; the abstract value of a bitmap is the list of its
    booleans ([bm_view]), and every operation is shown to implement the list
    operation. *)

From S2P Require Import Prelude.

Definition kBitsPerByte : nat := 8.

Record ValidityBitmap : Type := mk_bitmap {
  num_rows_ : nat;
  bm_bytes : list Z;
}.

Definition bytes_for (n : nat) : nat := (n + kBitsPerByte - 1) / kBitsPerByte.

(** [ValidityBitmap(num_rows, default_valid)]. *)
Definition new_bitmap (num_rows : nat) (default_valid : bool) : ValidityBitmap :=
  mk_bitmap num_rows (replicate (bytes_for num_rows) (if default_valid then 0xFF else 0x00)).

(** [static_cast<uint8_t>(1U << (index % kBitsPerByte))]. *)
Definition bit_mask (index : nat) : Z := u8 (Z.shiftl 1 (Z.of_nat (index mod kBitsPerByte))).

Definition SetValid (b : ValidityBitmap) (index : nat) (is_valid : bool) : result ValidityBitmap :=
  let byte_index := (index / kBitsPerByte)%nat in
  old ← vec_get (bm_bytes b) byte_index;
  let new := if is_valid then Z.lor old (bit_mask index)
             else Z.land old (u8 (Z.lnot (bit_mask index))) in
  bytes ← vec_set (bm_bytes b) byte_index new;
  mret (mk_bitmap (num_rows_ b) bytes).

Definition IsValid (b : ValidityBitmap) (index : nat) : result bool :=
  byte ← vec_get (bm_bytes b) (index / kBitsPerByte)%nat;
  mret (negb (Z.land byte (bit_mask index) =? 0)).

Definition IsNull (b : ValidityBitmap) (index : nat) : result bool :=
  v ← IsValid b index; mret (negb v).

Definition PushBack (b : ValidityBitmap) (is_valid : bool) : result ValidityBitmap :=
  let num_rows := S (num_rows_ b) in
  let needed_bytes := bytes_for num_rows in
  let bytes := if decide (length (bm_bytes b) < needed_bytes)%nat
               then vec_resize needed_bytes 0x00 (bm_bytes b) else bm_bytes b in
  SetValid (mk_bitmap num_rows bytes) (num_rows - 1) is_valid.

Definition Size (b : ValidityBitmap) : nat := num_rows_ b.

Definition CountNulls (b : ValidityBitmap) : result nat :=
  for_range 0 (num_rows_ b)
    (fun i count => n ← IsNull b i; mret (count + (if n : bool then 1 else 0))%nat) 0%nat.

Definition ByteSize (b : ValidityBitmap) : nat := length (bm_bytes b).

(** ** Abstract value *)

(** The bit of row [i] in packed bytes (also used for the on-disk bitmaps). *)
Definition bit_at (bytes : list Z) (i : nat) : bool :=
  match bytes !! (i / 8)%nat with
  | Some byte => Z.testbit byte (Z.of_nat (i mod 8))
  | None => false
  end.

Definition bm_view (b : ValidityBitmap) : list bool := map (bit_at (bm_bytes b)) (seq 0 (num_rows_ b)).

Definition bm_wf (b : ValidityBitmap) : Prop :=
  length (bm_bytes b) = bytes_for (num_rows_ b) /\ Forall is_u8 (bm_bytes b).

Lemma length_bm_view b : length (bm_view b) = num_rows_ b.
Proof. unfold bm_view. by rewrite length_map, length_seq. Qed.

Lemma bm_view_lookup b i : (i < num_rows_ b)%nat -> bm_view b !! i = Some (bit_at (bm_bytes b) i).
Proof. intros. unfold bm_view. rewrite list_lookup_fmap, lookup_seq_lt by done. done. Qed.

Lemma bytes_for_le n i : (i < n)%nat -> (i / 8 < bytes_for n)%nat.
Proof.
  unfold bytes_for, kBitsPerByte. intros.
  apply Nat.Div0.div_lt_upper_bound.
  pose proof (Nat.div_mod_eq (n + 8 - 1) 8). pose proof (Nat.mod_upper_bound (n + 8 - 1) 8). lia.
Qed.

Lemma bytes_for_S n : bytes_for (S n) = if decide (n mod 8 = 0)%nat then S (bytes_for n) else bytes_for n.
Proof.
  unfold bytes_for, kBitsPerByte.
  pose proof (Nat.div_mod_eq n 8). pose proof (Nat.mod_upper_bound n 8).
  case_decide.
  - symmetry. assert ((n + 8 - 1) / 8 = n / 8)%nat as ->.
    { symmetry. apply (Nat.div_unique _ _ _ (n mod 8 + 7)); lia. }
    apply (Nat.div_unique _ _ _ 0); lia.
  - assert ((n + 8 - 1) / 8 = n / 8 + 1)%nat as ->.
    { symmetry. apply (Nat.div_unique _ _ _ (n mod 8 - 1)); lia. }
    symmetry. apply (Nat.div_unique _ _ _ (n mod 8)); lia.
Qed.

Lemma mod8_lt i : (i mod 8 < 8)%nat.
Proof. apply Nat.mod_upper_bound. lia. Qed.

Lemma bit_mask_pow i : bit_mask i = 2 ^ Z.of_nat (i mod 8).
Proof.
  unfold bit_mask, u8, kBitsPerByte. rewrite Z.shiftl_mul_pow2, Z.mul_1_l by lia.
  apply Z.mod_small. pose proof (mod8_lt i). split; [apply Z.pow_nonneg; lia|].
  apply Z.pow_lt_mono_r; lia.
Qed.

Lemma testbit_bit_mask i j : 0 <= j -> Z.testbit (bit_mask i) j = (j =? Z.of_nat (i mod 8)).
Proof.
  intros. rewrite bit_mask_pow, Z.pow2_bits_eqb by lia. apply Z.eqb_sym.
Qed.

Lemma land_mask_testbit byte i :
  negb (Z.land byte (bit_mask i) =? 0) = Z.testbit byte (Z.of_nat (i mod 8)).
Proof.
  destruct (Z.testbit byte (Z.of_nat (i mod 8))) eqn:E.
  - apply negb_true_iff, Z.eqb_neq. intros H.
    assert (Z.testbit (Z.land byte (bit_mask i)) (Z.of_nat (i mod 8)) = true) as Ht.
    { rewrite Z.land_spec, testbit_bit_mask, E by lia. simpl. apply Z.eqb_refl. }
    by rewrite H, Z.bits_0 in Ht.
  - apply negb_false_iff, Z.eqb_eq. apply Z.bits_inj'. intros n Hn.
    rewrite Z.land_spec, testbit_bit_mask, Z.bits_0 by lia.
    destruct (Z.eqb_spec n (Z.of_nat (i mod 8))) as [->|]; [by rewrite E|by rewrite andb_false_r].
Qed.

Lemma is_u8_bits z : 0 <= z -> (forall n, 8 <= n -> Z.testbit z n = false) -> is_u8 z.
Proof.
  intros Hz Hb. unfold is_u8. split; [done|].
  destruct (decide (z < 2 ^ 8)) as [|Hge]; [done|exfalso].
  assert (8 <= Z.log2 z) as Hlog by (apply Z.log2_le_pow2; lia).
  specialize (Hb (Z.log2 z) Hlog). rewrite Z.bit_log2 in Hb by lia. done.
Qed.

Lemma u8_testbit_high z n : is_u8 z -> 8 <= n -> Z.testbit z n = false.
Proof.
  intros [Hz Hlt] Hn. destruct (decide (z = 0)) as [->|]; [by rewrite Z.bits_0|].
  apply Z.bits_above_log2; [done|]. apply Z.le_lt_trans with 7; [|lia].
  assert (Z.log2 z < 8) by (apply Z.log2_lt_pow2; lia). lia.
Qed.

Lemma testbit_u8 z n : 0 <= n -> Z.testbit (u8 z) n = (Z.testbit z n && (n <? 8))%bool.
Proof.
  intros Hn. unfold u8.
  destruct (Z.ltb_spec n 8).
  - rewrite andb_true_r. apply Z.mod_pow2_bits_low. lia.
  - rewrite andb_false_r. apply Z.mod_pow2_bits_high. lia.
Qed.

(** The byte [SetValid] stores, bit by bit. *)
Lemma set_byte_spec old i v :
  is_u8 old ->
  let new := if v : bool then Z.lor old (bit_mask i) else Z.land old (u8 (Z.lnot (bit_mask i))) in
  is_u8 new /\
  forall n, 0 <= n < 8 -> Z.testbit new n = if n =? Z.of_nat (i mod 8) then v else Z.testbit old n.
Proof.
  intros Hold. pose proof (mod8_lt i) as Hi. simpl.
  assert (0 <= bit_mask i) as Hm by (rewrite bit_mask_pow; apply Z.pow_nonneg; lia).
  assert (0 <= u8 (Z.lnot (bit_mask i))) as Hn by (apply Z.mod_pos_bound; lia).
  destruct v; split.
  - apply is_u8_bits; [apply Z.lor_nonneg; unfold is_u8 in Hold; lia|].
    intros n Hn8. rewrite Z.lor_spec, testbit_bit_mask, u8_testbit_high by (done || lia).
    apply Z.eqb_neq. lia.
  - intros n Hn8. rewrite Z.lor_spec, testbit_bit_mask by lia.
    destruct (n =? _); [apply orb_true_r|apply orb_false_r].
  - apply is_u8_bits; [apply Z.land_nonneg; unfold is_u8 in Hold; lia|].
    intros n Hn8. by rewrite Z.land_spec, u8_testbit_high.
  - intros n Hn8. rewrite Z.land_spec, testbit_u8, Z.lnot_spec, testbit_bit_mask by lia.
    destruct (Z.ltb_spec n 8); [|lia].
    destruct (n =? _); simpl; [apply andb_false_r|by rewrite andb_true_r].
Qed.

(** Writing bit [i] of packed bytes. *)
Lemma bit_at_insert bytes i j v old new :
  bytes !! (i / 8)%nat = Some old ->
  (forall n, 0 <= n < 8 -> Z.testbit new n = if n =? Z.of_nat (i mod 8) then v else Z.testbit old n) ->
  bit_at (<[(i / 8)%nat := new]> bytes) j = if decide (i = j) then v else bit_at bytes j.
Proof.
  intros Hold Hnew. unfold bit_at.
  pose proof (mod8_lt i). pose proof (mod8_lt j).
  pose proof (Nat.div_mod_eq i 8). pose proof (Nat.div_mod_eq j 8).
  destruct (decide (i / 8 = j / 8)%nat) as [Heq|Hne].
  - rewrite <- Heq, list_lookup_insert_eq by (eapply lookup_lt_Some; done).
    rewrite Hold, Hnew by lia. case_decide as Hij.
    + subst. by rewrite Z.eqb_refl.
    + destruct (Z.eqb_spec (Z.of_nat (j mod 8)) (Z.of_nat (i mod 8))); [lia|done].
  - rewrite list_lookup_insert_ne by done. case_decide; [subst; done|done].
Qed.

Lemma SetValid_bytes b i v :
  bm_wf b -> (i / 8 < length (bm_bytes b))%nat ->
  exists b', SetValid b i v = Ok b' /\ bm_wf b' /\ num_rows_ b' = num_rows_ b /\
    forall j, bit_at (bm_bytes b') j = if decide (i = j) then v else bit_at (bm_bytes b) j.
Proof.
  intros [Hlen Hu8] Hi. unfold SetValid, kBitsPerByte.
  destruct (vec_get_lt _ _ Hi) as (old & -> & Hold). simpl.
  assert (is_u8 old) as Ho by (eapply Forall_lookup_1; done).
  destruct (set_byte_spec old i v Ho) as [Hnew Hbits].
  rewrite vec_set_lt by done. simpl. eexists. split; [done|]. simpl. split_and!.
  - split; simpl; [by rewrite length_insert|by apply Forall_insert].
  - done.
  - intros j. by eapply bit_at_insert.
Qed.

Lemma bm_view_ext b f :
  (forall j, (j < num_rows_ b)%nat -> bit_at (bm_bytes b) j = f j) ->
  bm_view b = map f (seq 0 (num_rows_ b)).
Proof. intros Hf. apply map_ext_in. intros j Hj%in_seq. apply Hf. lia. Qed.

(** ** The operations implement the list operations *)

Lemma new_bitmap_wf n d : bm_wf (new_bitmap n d).
Proof.
  split; simpl; [by rewrite length_replicate|].
  apply Forall_replicate. unfold is_u8. by destruct d.
Qed.

Lemma bit_at_replicate n d j :
  (j / 8 < n)%nat -> bit_at (replicate n (if d : bool then 0xFF else 0x00)) j = d.
Proof.
  intros. unfold bit_at. rewrite lookup_replicate_2 by done. destruct d; [|by rewrite Z.bits_0].
  pose proof (mod8_lt j). change 0xFF with (Z.ones 8). apply Z.ones_spec_low. lia.
Qed.

Lemma new_bitmap_view n d : bm_view (new_bitmap n d) = replicate n d.
Proof.
  rewrite (bm_view_ext (new_bitmap n d) (fun _ => d)); simpl.
  - apply list_eq. intros i. destruct (decide (i < n)%nat).
    + by rewrite list_lookup_fmap, lookup_seq_lt, lookup_replicate_2.
    + rewrite !lookup_ge_None_2; rewrite ?length_map, ?length_seq, ?length_replicate; lia || done.
  - intros j Hj. apply bit_at_replicate. by apply bytes_for_le.
Qed.

Lemma IsValid_bit b i :
  (i / 8 < length (bm_bytes b))%nat -> IsValid b i = Ok (bit_at (bm_bytes b) i).
Proof.
  intros Hi. unfold IsValid, kBitsPerByte, bit_at.
  destruct (vec_get_lt _ _ Hi) as (byte & -> & ->). simpl. by rewrite land_mask_testbit.
Qed.

Lemma IsValid_view b i v : bm_wf b -> bm_view b !! i = Some v -> IsValid b i = Ok v.
Proof.
  intros [Hlen Hu8] Hv. assert (i < num_rows_ b)%nat as Hi.
  { rewrite <- length_bm_view. by eapply lookup_lt_Some. }
  rewrite bm_view_lookup in Hv by done. simplify_eq. apply IsValid_bit.
  rewrite Hlen. by apply bytes_for_le.
Qed.

Lemma IsNull_view b i v : bm_wf b -> bm_view b !! i = Some v -> IsNull b i = Ok (negb v).
Proof. intros Hwf Hv. unfold IsNull. by rewrite (IsValid_view b i v). Qed.

Lemma insert_view_map (n : nat) (f g : nat -> bool) i v :
  (forall j, g j = if decide (i = j) then v else f j) ->
  map g (seq 0 n) = <[i:=v]> (map f (seq 0 n)).
Proof.
  intros Hg. apply list_eq. intros j. destruct (decide (j < n)%nat) as [Hj|Hj].
  - rewrite list_lookup_fmap, lookup_seq_lt by done. simpl. rewrite Hg. case_decide.
    + subst. rewrite list_lookup_insert_eq; [done|]. by rewrite length_map, length_seq.
    + rewrite list_lookup_insert_ne, list_lookup_fmap, lookup_seq_lt by done. done.
  - rewrite !lookup_ge_None_2; rewrite ?length_insert, ?length_map, ?length_seq; done || lia.
Qed.

Lemma SetValid_view b i v :
  bm_wf b -> (i < num_rows_ b)%nat ->
  exists b', SetValid b i v = Ok b' /\ bm_wf b' /\ bm_view b' = <[i:=v]> (bm_view b).
Proof.
  intros Hwf Hi. destruct (SetValid_bytes b i v Hwf) as (b' & HS & Hwf' & Hn & Hbits).
  { destruct Hwf as [-> _]. by apply bytes_for_le. }
  exists b'. split_and!; [done..|]. unfold bm_view. rewrite Hn. by apply insert_view_map.
Qed.

Lemma PushBack_view b v :
  bm_wf b -> exists b', PushBack b v = Ok b' /\ bm_wf b' /\ bm_view b' = bm_view b ++ [v].
Proof.
  intros [Hlen Hu8]. unfold PushBack. set (n := num_rows_ b).
  set (bytes := if decide _ then _ else _).
  assert (length bytes = bytes_for (S n) /\ Forall is_u8 bytes /\
          (forall j, (j < n)%nat -> bit_at bytes j = bit_at (bm_bytes b) j)) as (Hl & Hb & Hbits).
  { unfold bytes. pose proof (bytes_for_S n) as HS. fold n in Hlen.
    destruct (decide (length (bm_bytes b) < bytes_for (S n))%nat) as [Hd|Hd].
    - rewrite vec_resize_ge by lia. split_and!.
      + rewrite length_app, length_replicate. lia.
      + apply Forall_app_2; [done|]. apply Forall_replicate. unfold is_u8. lia.
      + intros j Hj. unfold bit_at. rewrite lookup_app_l; [done|].
        rewrite Hlen. by apply bytes_for_le.
    - split_and!; [|done|done]. rewrite Hlen in *. rewrite HS in *. case_decide; lia. }
  destruct (SetValid_bytes (mk_bitmap (S n) bytes) (S n - 1) v) as (b' & HS & Hwf' & Hn' & Hbits').
  { by split. }
  { simpl. rewrite Hl. apply bytes_for_le. lia. }
  exists b'. split_and!; [done..|]. simpl in *. unfold bm_view. rewrite Hn', seq_S, map_app.
  simpl. rewrite Hbits', decide_True by lia. f_equal.
  apply map_ext_in. intros j Hj%in_seq. rewrite Hbits', decide_False by lia. apply Hbits. lia.
Qed.

Definition count_false (l : list bool) : nat := length (filter (fun v => v = false) l).

Lemma CountNulls_view b : bm_wf b -> CountNulls b = Ok (count_false (bm_view b)).
Proof.
  intros Hwf. unfold CountNulls.
  destruct (for_range_inv (fun i (c : nat) => c = count_false (take i (bm_view b)))
    (fun i count => n ← IsNull b i; mret (count + (if n : bool then 1 else 0))%nat)
    0 (num_rows_ b) 0%nat) as (c & HC & Hc).
  - intros i c Hi ->. destruct (lookup_lt_is_Some_2 (bm_view b) i) as [v Hv].
    { rewrite length_bm_view. lia. }
    rewrite (IsNull_view b i v) by done. simpl. eexists. split; [done|].
    rewrite (take_S_r _ _ _ Hv). unfold count_false. rewrite filter_app, length_app.
    destruct v; simpl; done.
  - done.
  - rewrite HC. f_equal. rewrite Hc. simpl. rewrite take_ge; [done|]. by rewrite length_bm_view.
Qed.

#[export] Hint Resolve new_bitmap_wf : gist.

(** ** Sequences of updates *)

Inductive bm_op : Type := BmPushBack (v : bool) | BmSetValid (i : nat) (v : bool).

Definition bm_apply (op : bm_op) (b : ValidityBitmap) : result ValidityBitmap :=
  match op with
  | BmPushBack v => PushBack b v
  | BmSetValid i v => SetValid b i v
  end.

Definition list_apply (op : bm_op) (l : list bool) : list bool :=
  match op with
  | BmPushBack v => l ++ [v]
  | BmSetValid i v => <[i := v]> l
  end.

(** The rows that are set exist. *)
Fixpoint bm_ops_ok (n : nat) (ops : list bm_op) : Prop :=
  match ops with
  | [] => True
  | BmPushBack _ :: ops' => bm_ops_ok (S n) ops'
  | BmSetValid i _ :: ops' => (i < n)%nat /\ bm_ops_ok n ops'
  end.

(** A validity bitmap is a list of booleans: after any sequence of [PushBack] and
    in-range [SetValid] calls on a new bitmap, no call fails, and [Size],
    [IsValid], [IsNull], [CountNulls] and [ByteSize] give what the list of booleans
    updated the same way gives (one byte per eight rows, rounded up). *)
Theorem bitmap_refines_list n d ops :
  bm_ops_ok n ops ->
  let l := foldl (fun l op => list_apply op l) (replicate n d) ops in
  exists b, for_each ops bm_apply (new_bitmap n d) = Ok b /\
    Size b = length l /\ CountNulls b = Ok (count_false l) /\ ByteSize b = ((length l + 7) / 8)%nat /\
    forall i v, l !! i = Some v -> IsValid b i = Ok v /\ IsNull b i = Ok (negb v).
Proof.
  intros Hok l.
  assert (exists b, for_each ops bm_apply (new_bitmap n d) = Ok b /\ bm_wf b /\ bm_view b = l) as (b & HE & Hwf & Hv).
  { subst l. pose proof (new_bitmap_wf n d) as Hwf. pose proof (new_bitmap_view n d) as Hv.
    assert (num_rows_ (new_bitmap n d) = n) as Hn by done.
    revert Hwf Hv Hn. generalize (new_bitmap n d) (replicate n d). revert n Hok.
    induction ops as [|[v|i v] ops IH]; intros n Hok b l Hwf Hv Hn; simpl in *.
    - by exists b.
    - destruct (PushBack_view b v Hwf) as (b' & -> & Hwf' & Hv'). simpl.
      apply (IH (S n)); [done|done|by rewrite Hv', Hv|].
      by rewrite <- length_bm_view, Hv', length_app, length_bm_view, Hn, Nat.add_1_r.
    - destruct Hok as [Hi Hok]. destruct (SetValid_view b i v Hwf) as (b' & -> & Hwf' & Hv'); [by rewrite Hn|].
      simpl. apply (IH n); [done|done|by rewrite Hv', Hv|].
      by rewrite <- length_bm_view, Hv', length_insert, length_bm_view. }
  exists b. split_and!; [done| | | |].
  - unfold Size. by rewrite <- length_bm_view, Hv.
  - by rewrite CountNulls_view, Hv.
  - destruct Hwf as [Hl _]. unfold ByteSize. rewrite Hl, <- length_bm_view, Hv.
    unfold bytes_for, kBitsPerByte. f_equal. lia.
  - intros i v Hi. rewrite <- Hv in Hi. split; [by apply IsValid_view|by apply IsNull_view].
Qed.

Lemma bitmap_refines_list_witness :
  bm_ops_ok 7 [BmPushBack false; BmPushBack true; BmSetValid 2 false] /\
  exists b, for_each [BmPushBack false; BmPushBack true; BmSetValid 2 false] bm_apply (new_bitmap 7 true) = Ok b /\
    Size b = 9%nat /\ CountNulls b = Ok 2%nat.
Proof.
  split; [split_and!; [lia|done]|].
  destruct (bitmap_refines_list 7 true [BmPushBack false; BmPushBack true; BmSetValid 2 false])
    as (b & HE & HS & HC & _); [split_and!; [lia|done]|].
  exists b. split; [exact HE|]. split; [exact HS|exact HC].
Defined.
