(* ===== verification/Columns.v ===== *)
(** Model of [src/storage/fixed_width_column.cpp] (Module [FixedWidth]) and
    [src/storage/varchar_column.cpp] (Module [Varchar]). A fixed-width column is a
    value vector with a validity bitmap; a VARCHAR column is a byte buffer, an
    [int32] offset per row boundary and a validity bitmap. Both are shown to
    implement an append-only list of optional values. *)

From S2P Require Import Prelude Scalar ByteIO Bitmap.

(** ** Fixed-width columns *)

Module FixedWidth.
Section FixedWidth.
Context {T : Type} `{ScalarT : Scalar T}.

Record FixedWidthColumn : Type := mk_fixed {
  values_ : list T;
  validity_ : ValidityBitmap;
}.

Definition empty : FixedWidthColumn := mk_fixed [] (new_bitmap 0 true).

Definition Append (c : FixedWidthColumn) (value : T) : result FixedWidthColumn :=
  v ← PushBack (validity_ c) true; mret (mk_fixed (values_ c ++ [value]) v).

Definition AppendNull (c : FixedWidthColumn) : result FixedWidthColumn :=
  v ← PushBack (validity_ c) false; mret (mk_fixed (values_ c ++ [sc_zero]) v).

Definition GetValue (c : FixedWidthColumn) (index : nat) : result T := vec_get (values_ c) index.

Definition SetValue (c : FixedWidthColumn) (index : nat) (value : T) : result FixedWidthColumn :=
  values ← vec_set (values_ c) index value;
  v ← SetValid (validity_ c) index true;
  mret (mk_fixed values v).

Definition SetNull (c : FixedWidthColumn) (index : nat) (is_null : bool) : result FixedWidthColumn :=
  v ← SetValid (validity_ c) index (negb is_null); mret (mk_fixed (values_ c) v).

Definition IsNull (c : FixedWidthColumn) (index : nat) : result bool := Bitmap.IsNull (validity_ c) index.
Definition IsValid (c : FixedWidthColumn) (index : nat) : result bool := Bitmap.IsValid (validity_ c) index.
Definition Size (c : FixedWidthColumn) : nat := length (values_ c).

(** What the column holds: the raw values with their validity. *)
Definition wf (c : FixedWidthColumn) : Prop :=
  bm_wf (validity_ c) /\ num_rows_ (validity_ c) = length (values_ c).

Definition bits (c : FixedWidthColumn) : list bool := bm_view (validity_ c).

Definition mask (valid : bool) (x : T) : option T := if valid then Some x else None.

Definition view (c : FixedWidthColumn) : list (option T) := zip_with mask (bits c) (values_ c).

Lemma length_bits c : wf c -> length (bits c) = length (values_ c).
Proof. intros [_ Hn]. unfold bits. by rewrite length_bm_view. Qed.

Lemma length_view c : wf c -> length (view c) = Size c.
Proof. intros Hwf. unfold view. rewrite length_zip_with, length_bits by done. unfold Size. lia. Qed.

Lemma empty_wf : wf empty.
Proof. split; [apply new_bitmap_wf|done]. Qed.

Lemma Append_spec c x :
  wf c -> exists c', Append c x = Ok c' /\ wf c' /\
    values_ c' = values_ c ++ [x] /\ bits c' = bits c ++ [true].
Proof.
  intros [Hwf Hn]. unfold Append. destruct (PushBack_view (validity_ c) true Hwf) as (v & -> & Hwf' & Hv).
  simpl. eexists. split_and!; [done| |done|done]. split; [done|]. simpl.
  by rewrite <- length_bm_view, Hv, !length_app, length_bm_view, Hn.
Qed.

Lemma AppendNull_spec c :
  wf c -> exists c', AppendNull c = Ok c' /\ wf c' /\
    values_ c' = values_ c ++ [sc_zero] /\ bits c' = bits c ++ [false].
Proof.
  intros [Hwf Hn]. unfold AppendNull.
  destruct (PushBack_view (validity_ c) false Hwf) as (v & -> & Hwf' & Hv).
  simpl. eexists. split_and!; [done| |done|done]. split; [done|]. simpl.
  by rewrite <- length_bm_view, Hv, !length_app, length_bm_view, Hn.
Qed.

Lemma view_app c c' b x :
  wf c -> values_ c' = values_ c ++ [x] -> bits c' = bits c ++ [b] -> view c' = view c ++ [mask b x].
Proof.
  intros Hwf Hv Hb. unfold view. rewrite Hv, Hb, zip_with_app; [done|]. by apply length_bits.
Qed.

Lemma Append_view c x :
  wf c -> exists c', Append c x = Ok c' /\ wf c' /\ view c' = view c ++ [Some x].
Proof.
  intros Hwf. destruct (Append_spec c x Hwf) as (c' & -> & Hwf' & Hv & Hb).
  eexists. split_and!; [done..|]. by rewrite (view_app c c' true x).
Qed.

Lemma AppendNull_view c :
  wf c -> exists c', AppendNull c = Ok c' /\ wf c' /\ view c' = view c ++ [None].
Proof.
  intros Hwf. destruct (AppendNull_spec c Hwf) as (c' & -> & Hwf' & Hv & Hb).
  eexists. split_and!; [done..|]. by rewrite (view_app c c' false sc_zero).
Qed.

Lemma SetNull_spec c i n :
  wf c -> (i < Size c)%nat -> exists c', SetNull c i n = Ok c' /\ wf c' /\
    values_ c' = values_ c /\ bits c' = <[i := negb n]> (bits c).
Proof.
  intros [Hwf Hn] Hi. unfold Size in Hi. unfold SetNull.
  destruct (SetValid_view (validity_ c) i (negb n) Hwf) as (v & HS & Hwf' & Hv); [lia|].
  rewrite HS. simpl. eexists. split_and!; [done| |done|done]. split; [done|]. simpl.
  by rewrite <- length_bm_view, Hv, length_insert, length_bm_view, Hn.
Qed.

Lemma SetValue_spec c i x :
  wf c -> (i < Size c)%nat -> exists c', SetValue c i x = Ok c' /\ wf c' /\
    values_ c' = <[i := x]> (values_ c) /\ bits c' = <[i := true]> (bits c).
Proof.
  intros [Hwf Hn] Hi. unfold Size in Hi. unfold SetValue. rewrite vec_set_lt by done. simpl.
  destruct (SetValid_view (validity_ c) i true Hwf) as (v & HS & Hwf' & Hv); [lia|].
  rewrite HS. simpl. eexists. split_and!; [done| |done|done]. split; [done|]. simpl.
  by rewrite <- length_bm_view, Hv, !length_insert, length_bm_view, Hn.
Qed.

Lemma GetValue_spec c i x : values_ c !! i = Some x -> GetValue c i = Ok x.
Proof. intros. by apply vec_get_Ok. Qed.

Lemma IsValid_spec c i b : wf c -> bits c !! i = Some b -> IsValid c i = Ok b.
Proof. intros [Hwf _] Hb. by apply IsValid_view. Qed.

Lemma IsNull_spec c i b : wf c -> bits c !! i = Some b -> IsNull c i = Ok (negb b).
Proof. intros [Hwf _] Hb. by apply IsNull_view. Qed.

(** Reading a row of the abstract column. *)
Lemma view_lookup c i o :
  wf c -> view c !! i = Some o -> exists b x,
    bits c !! i = Some b /\ values_ c !! i = Some x /\ o = mask b x.
Proof. intros Hwf (b & x & -> & Hb & Hx)%lookup_zip_with_Some. eauto. Qed.

Lemma IsNull_view_spec c i o :
  wf c -> view c !! i = Some o -> IsNull c i = Ok (bool_decide (o = None)).
Proof.
  intros Hwf (b & x & Hb & Hx & ->)%view_lookup; [|done]. rewrite (IsNull_spec c i b) by done.
  by destruct b.
Qed.

Lemma GetValue_view_spec c i x :
  wf c -> view c !! i = Some (Some x) -> GetValue c i = Ok x.
Proof.
  intros Hwf ([] & y & Hb & Hx & Ho)%view_lookup; [|done|done]. simpl in Ho. simplify_eq.
  by apply GetValue_spec.
Qed.

(** ** Sequences of updates *)

Inductive col_op : Type :=
  | OpAppend (x : T) | OpAppendNull | OpSetValue (i : nat) (x : T) | OpSetNull (i : nat) (is_null : bool).

Definition col_apply (op : col_op) (c : FixedWidthColumn) : result FixedWidthColumn :=
  match op with
  | OpAppend x => Append c x
  | OpAppendNull => AppendNull c
  | OpSetValue i x => SetValue c i x
  | OpSetNull i b => SetNull c i b
  end.

(** Rows of a value and its validity: a null row keeps the value stored under it. *)
Definition rows_apply (op : col_op) (l : list (T * bool)) : list (T * bool) :=
  match op with
  | OpAppend x => l ++ [(x, true)]
  | OpAppendNull => l ++ [(sc_zero, false)]
  | OpSetValue i x => <[i := (x, true)]> l
  | OpSetNull i b => alter (fun r => (r.1, negb b)) i l
  end.

Fixpoint col_ops_ok (n : nat) (ops : list col_op) : Prop :=
  match ops with
  | [] => True
  | (OpAppend _ | OpAppendNull) :: ops' => col_ops_ok (S n) ops'
  | (OpSetValue i _ | OpSetNull i _) :: ops' => (i < n)%nat /\ col_ops_ok n ops'
  end.

Lemma col_apply_spec op c l :
  wf c -> l = zip (values_ c) (bits c) ->
  match op with OpSetValue i _ | OpSetNull i _ => (i < length l)%nat | _ => True end ->
  exists c', col_apply op c = Ok c' /\ wf c' /\ rows_apply op l = zip (values_ c') (bits c') /\
    length (rows_apply op l) = length (values_ c').
Proof.
  intros Hwf Hl Hop. pose proof (length_bits c Hwf) as Hlb.
  assert (length l = length (values_ c)) as Hlen by (rewrite Hl, length_zip_with, Hlb; lia).
  enough (exists c', col_apply op c = Ok c' /\ wf c' /\ rows_apply op l = zip (values_ c') (bits c')) as (c' & H1 & H2 & H3).
  { exists c'. split_and!; [done..|]. rewrite H3, length_zip_with, (length_bits c' H2). lia. }
  destruct op as [x| |i x|i b]; simpl in *.
  - destruct (Append_spec c x Hwf) as (c' & -> & Hwf' & Hv & Hb). exists c'. split_and!; [done..|].
    by rewrite Hv, Hb, zip_with_app, Hl by done.
  - destruct (AppendNull_spec c Hwf) as (c' & -> & Hwf' & Hv & Hb). exists c'. split_and!; [done..|].
    by rewrite Hv, Hb, zip_with_app, Hl by done.
  - destruct (SetValue_spec c i x Hwf) as (c' & -> & Hwf' & Hv & Hb); [unfold Size; lia|].
    exists c'. split_and!; [done..|]. by rewrite Hv, Hb, Hl, <- insert_zip_with.
  - destruct (SetNull_spec c i b Hwf) as (c' & -> & Hwf' & Hv & Hb); [unfold Size; lia|].
    exists c'. split_and!; [done..|]. rewrite Hv, Hb, Hl. apply list_eq. intros j.
    rewrite lookup_zip_with. destruct (decide (i = j)) as [<-|Hne].
    + rewrite list_lookup_alter_eq, lookup_zip_with.
      destruct (lookup_lt_is_Some_2 (values_ c) i) as [y Hy]; [lia|].
      destruct (lookup_lt_is_Some_2 (bits c) i) as [z Hz]; [lia|].
      rewrite Hy, Hz. simpl. by rewrite list_lookup_insert_eq by lia.
    + by rewrite list_lookup_alter_ne, list_lookup_insert_ne, lookup_zip_with by done.
Qed.

(** A fixed-width column is a list of rows: any sequence of [Append], [AppendNull] and
    in-range [SetValue] and [SetNull] calls on an empty column succeeds, and [Size],
    [GetValue], [IsNull] and [IsValid] give what the list of (value, valid) pairs
    updated the same way gives; [SetNull] leaves the value in place. *)
Theorem fixed_column_refines_list ops :
  col_ops_ok 0 ops ->
  let l := foldl (fun l op => rows_apply op l) [] ops in
  exists c, for_each ops col_apply empty = Ok c /\ Size c = length l /\
    forall i x b, l !! i = Some (x, b) -> GetValue c i = Ok x /\ IsNull c i = Ok (negb b) /\ IsValid c i = Ok b.
Proof.
  intros Hok l.
  assert (exists c, for_each ops col_apply empty = Ok c /\ wf c /\ l = zip (values_ c) (bits c)) as (c & HE & Hwf & Hl).
  { subst l. change (@nil (T * bool)) with (zip (values_ empty) (bits empty)).
    assert (length (zip (values_ empty) (bits empty)) = 0%nat) as Hn by done.
    revert Hok. rewrite <- Hn. clear Hn. generalize empty, empty_wf.
    induction ops as [|op ops IH]; intros c Hwf Hok; [by exists c|]. simpl.
    destruct (col_apply_spec op c _ Hwf eq_refl) as (c' & -> & Hwf' & Hr & Hlen).
    { destruct op; simpl in Hok; tauto. }
    simpl. rewrite Hr. apply (IH c' Hwf'). rewrite <- Hr.
    destruct op; simpl in *; rewrite ?length_app, ?Nat.add_1_r, ?length_insert, ?length_alter; tauto. }
  exists c. split_and!; [done| |].
  - unfold Size. rewrite Hl, length_zip_with, (length_bits c Hwf). lia.
  - intros i x b Hi. rewrite Hl in Hi. apply lookup_zip_with_Some in Hi as (y & z & [= -> ->] & Hy & Hz).
    split_and!; [by apply GetValue_spec|by apply IsNull_spec|by apply IsValid_spec].
Qed.

End FixedWidth.
Arguments FixedWidthColumn T : clear implicits.

Lemma fixed_column_refines_list_witness :
  col_ops_ok (T:=Z) 0 [OpAppend 5; OpAppendNull; OpSetNull 0 true] /\
  exists c, for_each [OpAppend 5; OpAppendNull; OpSetNull 0 true] col_apply empty = Ok c /\ Size c = 2%nat /\
    GetValue c 0 = Ok 5 /\ IsNull c 0 = Ok true.
Proof.
  split; [split_and!; [lia|done]|].
  destruct (fixed_column_refines_list (T:=Z) [OpAppend 5; OpAppendNull; OpSetNull 0 true]) as (c & HE & HS & HG).
  { split_and!; [lia|done]. }
  exists c. destruct (HG 0%nat 5 false eq_refl) as (H1 & H2 & _). split_and!; [exact HE|exact HS|exact H1|exact H2].
Defined.

End FixedWidth.

(** ** VARCHAR columns *)

Module Varchar.

Record VarcharColumn : Type := mk_varchar {
  data_buffer_ : list byte;
  offsets_ : list Z;
  validity_ : ValidityBitmap;
}.

Definition empty : VarcharColumn := mk_varchar [] [0] (new_bitmap 0 true).

Definition Append (c : VarcharColumn) (value : string) : result VarcharColumn :=
  let data := data_buffer_ c ++ bytes_of_string value in
  let offsets := offsets_ c ++ [i32 (Z.of_nat (length data))] in
  v ← PushBack (validity_ c) true;
  mret (mk_varchar data offsets v).

Definition AppendNull (c : VarcharColumn) : result VarcharColumn :=
  let offsets := offsets_ c ++ [i32 (Z.of_nat (length (data_buffer_ c)))] in
  v ← PushBack (validity_ c) false;
  mret (mk_varchar (data_buffer_ c) offsets v).

(** The [string_view] of [end - start] bytes at [start], both [size_t]; looking
    outside the buffer is undefined. *)
Definition GetValue (c : VarcharColumn) (index : nat) : result string :=
  start ← u64 <$> vec_get (offsets_ c) index;
  end_ ← u64 <$> vec_get (offsets_ c) (index + 1)%nat;
  let len := u64 (end_ - start) in
  if decide (start + len <= Z.of_nat (length (data_buffer_ c)))
  then mret (string_of_bytes (take (Z.to_nat len) (drop (Z.to_nat start) (data_buffer_ c))))
  else Undefined.

Definition IsNull (c : VarcharColumn) (index : nat) : result bool := Bitmap.IsNull (validity_ c) index.
Definition IsValid (c : VarcharColumn) (index : nat) : result bool := Bitmap.IsValid (validity_ c) index.
Definition Size (c : VarcharColumn) : nat := length (offsets_ c) - 1.
Definition DataBufferSize (c : VarcharColumn) : nat := length (data_buffer_ c).
Definition NumOffsets (c : VarcharColumn) : nat := length (offsets_ c).

(** ** The list of optional strings a column represents *)

Definition row_string (o : option string) : string := default ""%string o.
Definition row_bytes (o : option string) : list byte := bytes_of_string (row_string o).
Definition rows_data (l : list (option string)) : list byte := concat (map row_bytes l).
Definition rows_size (l : list (option string)) : Z := Z.of_nat (length (rows_data l)).

(** The offset of the start of every row, and of the end of the last. *)
Definition rows_offsets (l : list (option string)) : list Z :=
  map (fun i => rows_size (take i l)) (seq 0 (S (length l))).

Definition repr (c : VarcharColumn) (l : list (option string)) : Prop :=
  data_buffer_ c = rows_data l /\
  offsets_ c = rows_offsets l /\
  bm_wf (validity_ c) /\
  bm_view (validity_ c) = map (fun o => bool_decide (is_Some o)) l /\
  rows_size l < 2 ^ 31.

Lemma rows_data_app l1 l2 : rows_data (l1 ++ l2) = rows_data l1 ++ rows_data l2.
Proof. unfold rows_data. by rewrite map_app, concat_app. Qed.

Lemma rows_data_one o : rows_data [o] = row_bytes o.
Proof. unfold rows_data. simpl. by rewrite app_nil_r. Qed.

Lemma rows_size_app l1 l2 : rows_size (l1 ++ l2) = rows_size l1 + rows_size l2.
Proof. unfold rows_size. rewrite rows_data_app, length_app. lia. Qed.

Lemma rows_size_nonneg l : 0 <= rows_size l.
Proof. unfold rows_size. lia. Qed.

Lemma rows_size_take i l : rows_size (take i l) <= rows_size l.
Proof.
  rewrite <- (take_drop i l) at 2. rewrite rows_size_app. pose proof (rows_size_nonneg (drop i l)). lia.
Qed.

Lemma rows_offsets_snoc l o : rows_offsets (l ++ [o]) = rows_offsets l ++ [rows_size (l ++ [o])].
Proof.
  unfold rows_offsets. rewrite length_app, (seq_S (length l + length [o])), map_app. simpl length.
  rewrite Nat.add_1_r. f_equal.
  - apply map_ext_in. intros i Hi%in_seq. rewrite take_app_le; [done|lia].
  - simpl. by rewrite take_ge by (rewrite length_app; simpl; lia).
Qed.

Lemma rows_offsets_lookup l i :
  (i <= length l)%nat -> rows_offsets l !! i = Some (rows_size (take i l)).
Proof. intros. unfold rows_offsets. by rewrite list_lookup_fmap, lookup_seq_lt by lia. Qed.

Lemma length_rows_offsets l : length (rows_offsets l) = S (length l).
Proof. unfold rows_offsets. by rewrite length_map, length_seq. Qed.

Lemma empty_repr : repr empty [].
Proof. split_and!; [done|done|apply new_bitmap_wf|done|done]. Qed.

Lemma append_repr c l o bitmap :
  repr c l -> rows_size (l ++ [o]) < 2 ^ 31 ->
  PushBack (validity_ c) (bool_decide (is_Some o)) = Ok bitmap ->
  bm_wf bitmap -> bm_view bitmap = bm_view (validity_ c) ++ [bool_decide (is_Some o)] ->
  repr (mk_varchar (rows_data (l ++ [o])) (offsets_ c ++ [i32 (rows_size (l ++ [o]))]) bitmap) (l ++ [o]).
Proof.
  intros (Hd & Ho & Hwf & Hv & Hs) Hs' HP Hwf' Hv'. split_and!; simpl; [done| |done| |done].
  - rewrite rows_offsets_snoc, Ho. do 2 f_equal. apply i32_id.
    unfold is_i32. pose proof (rows_size_nonneg (l ++ [o])). lia.
  - by rewrite Hv', Hv, map_app.
Qed.

Lemma Append_repr c l s :
  repr c l -> rows_size (l ++ [Some s]) < 2 ^ 31 ->
  exists c', Append c s = Ok c' /\ repr c' (l ++ [Some s]).
Proof.
  intros Hr Hs. pose proof Hr as (Hd & Ho & Hwf & Hv & _). unfold Append.
  destruct (PushBack_view (validity_ c) true Hwf) as (v & HP & Hwf' & Hv'). rewrite HP. simpl.
  eexists. split; [done|].
  assert (data_buffer_ c ++ bytes_of_string s = rows_data (l ++ [Some s])) as ->
    by by rewrite rows_data_app, rows_data_one, Hd.
  by apply append_repr.
Qed.

Lemma AppendNull_repr c l :
  repr c l -> exists c', AppendNull c = Ok c' /\ repr c' (l ++ [None]).
Proof.
  intros Hr. pose proof Hr as (Hd & Ho & Hwf & Hv & Hs). unfold AppendNull.
  destruct (PushBack_view (validity_ c) false Hwf) as (v & HP & Hwf' & Hv'). rewrite HP. simpl.
  eexists. split; [done|].
  assert (data_buffer_ c = rows_data (l ++ [None])) as ->
    by by rewrite rows_data_app, rows_data_one, app_nil_r, Hd.
  apply append_repr; [done| |done..].
  rewrite rows_size_app. change (rows_size [None]) with 0. lia.
Qed.

Lemma Size_repr c l : repr c l -> Size c = length l.
Proof. intros (_ & Ho & _). unfold Size. rewrite Ho, length_rows_offsets. lia. Qed.

Lemma rows_data_split l i o :
  l !! i = Some o ->
  rows_data l = rows_data (take i l) ++ row_bytes o ++ rows_data (drop (S i) l).
Proof.
  intros Hi. rewrite <- (take_drop_middle l i o Hi) at 1.
  rewrite rows_data_app. f_equal.
Qed.

Lemma GetValue_repr c l i o : repr c l -> l !! i = Some o -> GetValue c i = Ok (row_string o).
Proof.
  intros (Hd & Ho & _ & _ & Hs) Hi. pose proof (lookup_lt_Some _ _ _ Hi) as Hlt.
  unfold GetValue. rewrite Ho.
  rewrite (proj2 (vec_get_Ok _ i _) (rows_offsets_lookup l i ltac:(lia))).
  rewrite (proj2 (vec_get_Ok _ (i + 1)%nat _) (rows_offsets_lookup l (i + 1) ltac:(lia))). simpl.
  pose proof (rows_size_nonneg (take i l)) as Hs0.
  pose proof (rows_size_take (i + 1) l) as Hs1.
  pose proof (rows_data_split l i o Hi) as Hsplit.
  assert (rows_size (take (i + 1) l) = rows_size (take i l) + Z.of_nat (length (row_bytes o))) as Hnext.
  { rewrite Nat.add_1_r, (take_S_r _ _ _ Hi), rows_size_app. f_equal. unfold rows_size.
    by rewrite rows_data_one. }
  assert (Z.of_nat (length (data_buffer_ c)) = rows_size l) as Hlen by by rewrite Hd.
  rewrite Hnext, (u64_id (rows_size (take i l))), (u64_id (_ + _)) by (unfold is_u64; lia).
  rewrite Z.add_simpl_l, u64_id by (unfold is_u64; lia).
  rewrite decide_True by lia. unfold mret, result_ret. f_equal.
  rewrite Hd, Hsplit. unfold rows_size. rewrite !Nat2Z.id, drop_app_length, take_app_length.
  apply string_of_bytes_of_string.
Qed.

Lemma IsNull_repr c l i o : repr c l -> l !! i = Some o -> IsNull c i = Ok (bool_decide (o = None)).
Proof.
  intros (_ & _ & Hwf & Hv & _) Hi. unfold IsNull.
  rewrite (IsNull_view _ i (bool_decide (is_Some o))); [by destruct o|done|].
  by rewrite Hv, list_lookup_fmap, Hi.
Qed.

Lemma IsValid_repr c l i o : repr c l -> l !! i = Some o -> IsValid c i = Ok (bool_decide (is_Some o)).
Proof.
  intros (_ & _ & Hwf & Hv & _) Hi. unfold IsValid.
  apply IsValid_view; [done|]. by rewrite Hv, list_lookup_fmap, Hi.
Qed.

(** The rows of a column after appending optional strings one by one. *)
Definition append_row (o : option string) (c : VarcharColumn) : result VarcharColumn :=
  match o with Some s => Append c s | None => AppendNull c end.

(** A VARCHAR column is a list of optional strings: appending any rows whose bytes
    fit 32-bit offsets succeeds, and [Size], [GetValue] (an empty string under a
    null), [IsNull] and [IsValid] give the rows back; the buffer holds exactly
    their bytes, with one offset more than rows. *)
Theorem varchar_column_refines_list l :
  rows_size l < 2 ^ 31 ->
  exists c, for_each l append_row empty = Ok c /\ Size c = length l /\
    DataBufferSize c = length (rows_data l) /\ NumOffsets c = S (length l) /\
    forall i o, l !! i = Some o ->
      GetValue c i = Ok (row_string o) /\ IsNull c i = Ok (bool_decide (o = None)) /\
      IsValid c i = Ok (bool_decide (is_Some o)).
Proof.
  intros Hs.
  destruct (for_each_inv (fun dn c => repr c dn) append_row l empty) as (c & HE & Hr).
  - intros dn o todo c -> Hc.
    assert (rows_size (dn ++ [o]) < 2 ^ 31) as Hfit.
    { change (o :: todo) with ([o] ++ todo) in Hs. rewrite app_assoc, rows_size_app in Hs.
      pose proof (rows_size_nonneg todo). lia. }
    destruct o as [s|]; simpl; [by apply Append_repr|by apply AppendNull_repr].
  - apply empty_repr.
  - exists c. pose proof Hr as (Hd & Ho & _). split_and!.
    + done.
    + by apply Size_repr.
    + unfold DataBufferSize. by rewrite Hd.
    + unfold NumOffsets. by rewrite Ho, length_rows_offsets.
    + intros i o Hi. split_and!; [by apply (GetValue_repr c l)|by apply (IsNull_repr c l)|by apply (IsValid_repr c l)].
Qed.

Lemma varchar_column_refines_list_witness :
  rows_size [Some "ab"%string; None; Some ""%string] < 2 ^ 31 /\
  exists c, for_each [Some "ab"%string; None; Some ""%string] append_row empty = Ok c /\ Size c = 3%nat /\
    GetValue c 0 = Ok "ab"%string /\ IsNull c 1 = Ok true /\ IsNull c 2 = Ok false.
Proof.
  split; [reflexivity|].
  destruct (varchar_column_refines_list [Some "ab"%string; None; Some ""%string]) as (c & HE & HS & _ & _ & HG).
  { reflexivity. }
  exists c. destruct (HG 0%nat _ eq_refl) as (H0 & _). destruct (HG 1%nat _ eq_refl) as (_ & H1 & _).
  destruct (HG 2%nat _ eq_refl) as (_ & H2 & _). split_and!; [exact HE|exact HS|exact H0|exact H1|exact H2].
Defined.

End Varchar.
