(* ===== verification/ZoneMap.v ===== *)
(** Model of [include/gistdb/storage/zone_map.hpp] and [src/storage/zone_map.cpp]:
    the min/max summary of a fixed-width column (Section [ZoneMap]) and the
    truncated-prefix summary of a VARCHAR column (Section [VarcharZone]). *)

From S2P Require Import Prelude Scalar.

(** ** [ZoneMap<T>] *)

Section ZoneMap.
Context {T : Type} `{ScalarT : Scalar T}.

Record ZoneMap : Type := mk_zone { has_values_ : bool; min_ : T; max_ : T }.

Definition zone_empty : ZoneMap := mk_zone false sc_zero sc_zero.

Definition zone_Update (z : ZoneMap) (value : T) : ZoneMap :=
  if has_values_ z then mk_zone true (std_min (min_ z) value) (std_max (max_ z) value)
  else mk_zone true value value.

(** The zone map of a sequence of values. *)
Definition zone_of (xs : list T) : ZoneMap := foldl zone_Update zone_empty xs.

(** What survives serialization exactly: the two bounds are the same value, or
    strictly increasing (this excludes e.g. a [-0.0 .. +0.0] zone). *)
Definition zone_wf (z : ZoneMap) : Prop :=
  if has_values_ z
  then sc_ok (min_ z) /\ sc_ok (max_ z) /\ (min_ z = max_ z \/ sc_ltb (min_ z) (max_ z) = true)
  else z = zone_empty.

Context `{LawsT : !ScalarLaws T}.

Lemma zone_of_snoc xs x : zone_of (xs ++ [x]) = zone_Update (zone_of xs) x.
Proof. unfold zone_of. by rewrite foldl_app. Qed.

Lemma zone_of_has_values xs : has_values_ (zone_of xs) = bool_decide (xs <> []).
Proof.
  induction xs as [|x xs _] using rev_ind; [done|].
  rewrite zone_of_snoc. unfold zone_Update. rewrite bool_decide_true by (by destruct xs).
  destruct (has_values_ (zone_of xs)); done.
Qed.

Lemma std_min_cases (a b : T) : std_min a b = a \/ std_min a b = b.
Proof. unfold std_min. destruct (sc_ltb b a); auto. Qed.
Lemma std_max_cases (a b : T) : std_max a b = a \/ std_max a b = b.
Proof. unfold std_max. destruct (sc_ltb a b); auto. Qed.

Lemma zone_of_mem xs : xs <> [] -> min_ (zone_of xs) ∈ xs /\ max_ (zone_of xs) ∈ xs.
Proof.
  induction xs as [|x xs IH] using rev_ind; [done|]. intros _.
  rewrite zone_of_snoc. unfold zone_Update. rewrite zone_of_has_values.
  case_bool_decide as Hxs; simpl; [|split; apply elem_of_app; right; by constructor].
  destruct (IH Hxs) as [Hmin Hmax].
  split; apply elem_of_app; [destruct (std_min_cases (min_ (zone_of xs)) x) as [-> | ->]
                            |destruct (std_max_cases (max_ (zone_of xs)) x) as [-> | ->]];
    auto; right; by constructor.
Qed.

(** [std::min] when the left argument is ordered: a NaN on the right is ignored. *)
Lemma std_min_le (a b : T) :
  sc_ordered a -> sc_ordered (std_min a b) /\ sc_key (std_min a b) <= sc_key a /\
  (sc_ordered b -> sc_key (std_min a b) <= sc_key b).
Proof.
  intros Ha. unfold std_min. destruct (sc_ordered b) eqn:Hb.
  - rewrite sc_ltb_key by (done || by rewrite Hb). destruct (Z.ltb_spec (sc_key b) (sc_key a)).
    + rewrite Hb. split_and!; [done|lia|lia].
    + split_and!; [done|lia|lia].
  - rewrite sc_unordered_ltb by by rewrite Hb. split_and!; [done|lia|done].
Qed.

Lemma std_max_ge (a b : T) :
  sc_ordered a -> sc_ordered (std_max a b) /\ sc_key a <= sc_key (std_max a b) /\
  (sc_ordered b -> sc_key b <= sc_key (std_max a b)).
Proof.
  intros Ha. unfold std_max. destruct (sc_ordered b) eqn:Hb.
  - rewrite sc_ltb_key by (done || by rewrite Hb). destruct (Z.ltb_spec (sc_key a) (sc_key b)).
    + rewrite Hb. split_and!; [done|lia|lia].
    + split_and!; [done|lia|lia].
  - rewrite sc_unordered_ltb by by rewrite andb_comm, Hb. split_and!; [done|lia|done].
Qed.

Lemma zone_of_bounds xs :
  (forall x, head xs = Some x -> sc_ordered x) -> xs <> [] ->
  sc_ordered (min_ (zone_of xs)) /\ sc_ordered (max_ (zone_of xs)) /\
  forall x, x ∈ xs -> sc_ordered x ->
    sc_key (min_ (zone_of xs)) <= sc_key x <= sc_key (max_ (zone_of xs)).
Proof.
  induction xs as [|x xs IH] using rev_ind; [done|]. intros Hhd _.
  rewrite zone_of_snoc. unfold zone_Update. rewrite zone_of_has_values.
  case_bool_decide as Hxs; simpl.
  - destruct IH as (Hmin & Hmax & Hin); [|done|].
    { intros y Hy. apply Hhd. by destruct xs. }
    destruct (std_min_le (min_ (zone_of xs)) x Hmin) as (? & Hm1 & Hm2).
    destruct (std_max_ge (max_ (zone_of xs)) x Hmax) as (? & HM1 & HM2).
    split_and!; [done..|]. intros y [Hy| ->%list_elem_of_singleton]%elem_of_app Ho.
    + specialize (Hin y Hy Ho). lia.
    + specialize (Hm2 Ho). specialize (HM2 Ho). lia.
  - subst xs. assert (sc_ordered x) as Hx by by apply Hhd.
    split_and!; [done..|]. intros y ->%list_elem_of_singleton _. lia.
Qed.

Lemma zone_of_wf xs : Forall sc_ok xs -> zone_wf (zone_of xs).
Proof.
  induction xs as [|x xs IH] using rev_ind; [done|].
  intros [Hxs [Hx _]%Forall_cons]%Forall_app. specialize (IH Hxs).
  rewrite zone_of_snoc. unfold zone_wf, zone_Update in *.
  destruct (has_values_ (zone_of xs)); simpl; [|auto].
  destruct IH as (Hmin & Hmax & Hlt). set (m := min_ _) in *. set (M := max_ _) in *.
  split_and!.
  - destruct (std_min_cases m x) as [-> | ->]; done.
  - destruct (std_max_cases M x) as [-> | ->]; done.
  - unfold std_min, std_max. destruct (sc_ltb x m) eqn:E1, (sc_ltb M x) eqn:E2; auto.
    + right. destruct Hlt as [<-|Hlt]; [done|].
      destruct (sc_ordered x && sc_ordered m)%bool eqn:Ho1; [|by rewrite sc_unordered_ltb in E1].
      destruct (sc_ordered m && sc_ordered M)%bool eqn:Ho2; [|by rewrite sc_unordered_ltb in Hlt].
      apply andb_true_iff in Ho1 as [Ho Ho']. apply andb_true_iff in Ho2 as [_ Ho''].
      apply Is_true_true in Ho, Ho', Ho''. rewrite sc_ltb_key in * by done. lia.
    + right. destruct Hlt as [->|Hlt]; [done|].
      destruct (sc_ordered M && sc_ordered x)%bool eqn:Ho1; [|by rewrite sc_unordered_ltb in E2].
      destruct (sc_ordered m && sc_ordered M)%bool eqn:Ho2; [|by rewrite sc_unordered_ltb in Hlt].
      apply andb_true_iff in Ho1 as [Ho Ho']. apply andb_true_iff in Ho2 as [Ho'' _].
      apply Is_true_true in Ho, Ho', Ho''. rewrite sc_ltb_key in * by done. lia.
Qed.

(** Rebuilding a zone from its two bounds ([zone.Update(min); zone.Update(max)]). *)
Lemma zone_rebuild z :
  zone_wf z -> has_values_ z = true ->
  zone_Update (zone_Update zone_empty (min_ z)) (max_ z) = z.
Proof.
  unfold zone_wf. intros Hwf Hh. destruct z as [h m M]; simpl in *. rewrite Hh in *.
  destruct Hwf as (_ & _ & Hlt). unfold zone_Update. simpl. unfold std_min, std_max.
  destruct Hlt as [<-|Hlt].
  - by destruct (sc_ltb m m).
  - rewrite Hlt. destruct (sc_ltb M m) eqn:E; [|done].
    destruct (sc_ordered m && sc_ordered M)%bool eqn:Ho; [|by rewrite sc_unordered_ltb in Hlt].
    apply andb_true_iff in Ho as [Ho Ho']. apply Is_true_true in Ho, Ho'.
    rewrite sc_ltb_key in * by done. lia.
Qed.

(** A NaN seen first is never replaced: [std::min]/[std::max] keep it. *)
Lemma zone_of_unordered_first x xs :
  sc_ordered x = false -> zone_of (x :: xs) = mk_zone true x x.
Proof.
  intros Hx. induction xs as [|y xs IH] using rev_ind; [done|].
  rewrite app_comm_cons, zone_of_snoc, IH. unfold zone_Update, std_min, std_max. simpl.
  rewrite !sc_unordered_ltb; [done| |]; rewrite Hx; [done|by rewrite andb_false_r].
Qed.

End ZoneMap.
Arguments ZoneMap T : clear implicits.

(** ** [VarcharZoneMap] *)

Section VarcharZone.

Record VarcharZoneMap : Type := mk_vzone {
  vz_has_values_ : bool;
  min_prefix_ : string;
  max_prefix_ : string;
}.

Definition vzone_empty : VarcharZoneMap := mk_vzone false "" "".

Definition TruncatePrefix (value : string) : string :=
  String.substring 0 (Nat.min (String.length value) kZoneMapPrefixLength) value.

Definition vzone_Update (z : VarcharZoneMap) (value : string) : VarcharZoneMap :=
  let prefix := TruncatePrefix value in
  if vz_has_values_ z
  then mk_vzone true (str_min (min_prefix_ z) prefix) (str_max (max_prefix_ z) prefix)
  else mk_vzone true prefix prefix.

Definition vzone_of (xs : list string) : VarcharZoneMap := foldl vzone_Update vzone_empty xs.

Definition vzone_wf (z : VarcharZoneMap) : Prop :=
  if vz_has_values_ z
  then (String.length (min_prefix_ z) <= kZoneMapPrefixLength)%nat /\
       (String.length (max_prefix_ z) <= kZoneMapPrefixLength)%nat /\
       str_leb (min_prefix_ z) (max_prefix_ z) = true
  else z = vzone_empty.

Lemma substring_min n s : String.substring 0 (Nat.min (String.length s) n) s = String.substring 0 n s.
Proof.
  revert n. induction s as [|c s IH]; intros [|n]; try done. simpl. by rewrite IH.
Qed.

Lemma length_substring_0 n s : String.length (String.substring 0 n s) = Nat.min n (String.length s).
Proof. revert n. induction s as [|c s IH]; intros [|n]; try done. simpl. by rewrite IH. Qed.

Lemma substring_0_all n s : (String.length s <= n)%nat -> String.substring 0 n s = s.
Proof.
  revert n. induction s as [|c s IH]; intros [|n] H; simpl in *; try done; try lia.
  by rewrite IH by lia.
Qed.

Lemma substring_0_mono n a b :
  str_leb a b = true -> str_leb (String.substring 0 n a) (String.substring 0 n b) = true.
Proof.
  unfold str_leb. rewrite !negb_true_iff. revert n b.
  induction a as [|x a IH]; intros [|n] [|y b] H; try done.
  simpl. rewrite str_ltb_cons in *. destruct (_ ?= _)%N; [|done|done]. by apply IH.
Qed.

Lemma TruncatePrefix_substring s : TruncatePrefix s = String.substring 0 kZoneMapPrefixLength s.
Proof. apply substring_min. Qed.

Lemma TruncatePrefix_length s : (String.length (TruncatePrefix s) <= kZoneMapPrefixLength)%nat.
Proof. rewrite TruncatePrefix_substring, length_substring_0. lia. Qed.

Lemma TruncatePrefix_short s : (String.length s <= kZoneMapPrefixLength)%nat -> TruncatePrefix s = s.
Proof. rewrite TruncatePrefix_substring. apply substring_0_all. Qed.

Lemma TruncatePrefix_mono a b :
  str_leb a b = true -> str_leb (TruncatePrefix a) (TruncatePrefix b) = true.
Proof. rewrite !TruncatePrefix_substring. apply substring_0_mono. Qed.

Lemma TruncatePrefix_leb s : str_leb (TruncatePrefix s) s = true.
Proof.
  rewrite TruncatePrefix_substring. generalize kZoneMapPrefixLength. unfold str_leb.
  induction s as [|c s IH]; intros [|n]; try done. simpl.
  rewrite str_ltb_cons, N.compare_refl. apply IH.
Qed.

Lemma vzone_of_snoc xs x : vzone_of (xs ++ [x]) = vzone_Update (vzone_of xs) x.
Proof. unfold vzone_of. by rewrite foldl_app. Qed.

Lemma vzone_of_has_values xs : vz_has_values_ (vzone_of xs) = bool_decide (xs <> []).
Proof.
  induction xs as [|x xs _] using rev_ind; [done|].
  rewrite vzone_of_snoc. unfold vzone_Update. rewrite bool_decide_true by (by destruct xs).
  destruct (vz_has_values_ (vzone_of xs)); done.
Qed.

Lemma vzone_of_bounds xs x :
  x ∈ xs ->
  str_leb (min_prefix_ (vzone_of xs)) (TruncatePrefix x) = true /\
  str_leb (TruncatePrefix x) (max_prefix_ (vzone_of xs)) = true.
Proof.
  induction xs as [|y xs IH] using rev_ind; [by intros ?%elem_of_nil|].
  rewrite vzone_of_snoc. unfold vzone_Update. rewrite vzone_of_has_values.
  case_bool_decide as Hxs; simpl.
  - set (m := min_prefix_ _) in *. set (M := max_prefix_ _) in *.
    destruct (str_min_leb m (TruncatePrefix y)), (str_max_leb M (TruncatePrefix y)).
    intros [Hin| ->%list_elem_of_singleton]%elem_of_app; [|done].
    destruct (IH Hin) as [Hl Hr]. split; [exact (str_leb_trans _ m _ ltac:(done) Hl)|].
    exact (str_leb_trans _ M _ Hr ltac:(done)).
  - subst xs. intros ->%list_elem_of_singleton. split; apply str_leb_refl.
Qed.

Lemma vzone_of_wf xs : vzone_wf (vzone_of xs).
Proof.
  assert (forall s, (String.length (TruncatePrefix s) <= kZoneMapPrefixLength)%nat) as Hlen
    by apply TruncatePrefix_length.
  induction xs as [|x xs IH] using rev_ind; [done|].
  rewrite vzone_of_snoc. unfold vzone_wf, vzone_Update in *.
  destruct (vz_has_values_ (vzone_of xs)); simpl.
  - destruct IH as (H1 & H2 & H3). set (m := min_prefix_ _) in *. set (M := max_prefix_ _) in *.
    split_and!.
    + unfold str_min. by destruct (str_ltb _ _).
    + unfold str_max. by destruct (str_ltb _ _).
    + destruct (str_min_leb m (TruncatePrefix x)), (str_max_leb M (TruncatePrefix x)).
      exact (str_leb_trans _ m _ ltac:(done) (str_leb_trans _ M _ H3 ltac:(done))).
  - split_and!; [apply Hlen..|apply str_leb_refl].
Qed.

Lemma vzone_rebuild z :
  vzone_wf z -> vz_has_values_ z = true ->
  vzone_Update (vzone_Update vzone_empty (min_prefix_ z)) (max_prefix_ z) = z.
Proof.
  unfold vzone_wf. intros Hwf Hh. destruct z as [h m M]; simpl in *. rewrite Hh in *.
  destruct Hwf as (Hm & HM & Hle). unfold vzone_Update. simpl.
  rewrite !TruncatePrefix_short by done. unfold str_min, str_max.
  unfold str_leb in Hle. apply negb_true_iff in Hle. rewrite Hle.
  destruct (str_ltb m M) eqn:E; [done|]. by rewrite (str_ltb_total m M E Hle).
Qed.

End VarcharZone.
