(* ===== verification/Footer.v ===== *)
(** Model of the row-group metadata: [page_range.hpp], [column_footer_entry.cpp],
    [row_group_footer_entry.cpp] and [footer.cpp]. The first part has the records
    and the [Build] scans that summarize a column, the second the byte format. *)

From S2P Require Import Prelude Scalar ByteIO Bitmap Columns ZoneMap.

Record PageRange : Type := mk_range { start_page_id : Z; page_count : Z }.
#[global] Instance PageRange_eq_dec : EqDecision PageRange.
Proof. solve_decision. Defined.

(** ** Column entries *)

Section FixedWidthEntry.
Context {T : Type} `{ScalarT : Scalar T}.

Record FixedWidthColumnFooterEntry : Type := mk_fixed_entry {
  pages_ : PageRange;
  null_count_ : Z;
  zone_map_ : ZoneMap T;
}.

(** [FixedWidthColumnFooterEntry<T>::Build]: one pass over the column. *)
Definition fixed_Build (column : FixedWidth.FixedWidthColumn T) (pages : PageRange)
    : result FixedWidthColumnFooterEntry :=
  for_range 0 (FixedWidth.Size column)
    (fun i entry =>
       n ← FixedWidth.IsNull column i;
       if n : bool then mret (mk_fixed_entry (pages_ entry) (u32 (null_count_ entry + 1)) (zone_map_ entry))
       else (v ← FixedWidth.GetValue column i;
             mret (mk_fixed_entry (pages_ entry) (null_count_ entry) (zone_Update (zone_map_ entry) v))))
    (mk_fixed_entry pages 0 zone_empty).

Definition fixed_FromFields (pages : PageRange) (null_count : Z) (zone : ZoneMap T)
    : FixedWidthColumnFooterEntry := mk_fixed_entry pages null_count zone.

Definition count_none (l : list (option T)) : Z := Z.of_nat (length (filter (fun o => o = None) l)).

(** The non-null values of a column, in row order. *)
Definition somes {A} (l : list (option A)) : list A := omap id l.

Lemma somes_snoc {A} (l : list (option A)) o :
  somes (l ++ [o]) = somes l ++ match o with Some a => [a] | None => [] end.
Proof. unfold somes. rewrite omap_app. by destruct o. Qed.

Lemma count_none_snoc l o :
  count_none (l ++ [o]) = count_none l + match o with None => 1 | _ => 0 end.
Proof.
  unfold count_none. rewrite filter_app, length_app. destruct o; simpl; lia.
Qed.

Lemma count_none_bound l : 0 <= count_none l <= Z.of_nat (length l).
Proof. unfold count_none. pose proof (length_filter (fun o : option T => o = None) l). lia. Qed.

Lemma fixed_Build_spec column pages :
  FixedWidth.wf column -> Z.of_nat (FixedWidth.Size column) < 2 ^ 32 ->
  fixed_Build column pages =
  Ok (mk_fixed_entry pages (count_none (FixedWidth.view column)) (zone_of (somes (FixedWidth.view column)))).
Proof.
  intros Hwf Hsz. unfold fixed_Build. set (l := FixedWidth.view column).
  assert (length l = FixedWidth.Size column) as Hlen by by apply FixedWidth.length_view.
  edestruct (for_range_inv (fun i e =>
    e = mk_fixed_entry pages (count_none (take i l)) (zone_of (somes (take i l)))))
    as (e & -> & He); [| |rewrite He, take_ge by lia; done].
  - intros i e Hi ->. simpl. destruct (lookup_lt_is_Some_2 l i) as [o Ho]; [lia|].
    rewrite (FixedWidth.IsNull_view_spec column i o) by done. simpl.
    rewrite (take_S_r _ _ _ Ho), count_none_snoc, somes_snoc.
    destruct o as [x|]; simpl.
    + rewrite (FixedWidth.GetValue_view_spec column i x) by done. simpl. eexists. split; [done|].
      by rewrite zone_of_snoc, Z.add_0_r.
    + eexists. split; [done|]. rewrite app_nil_r, u32_id; [done|].
      pose proof (count_none_bound (take i l)). rewrite length_take in *. unfold is_u32. lia.
  - done.
Qed.

End FixedWidthEntry.
Arguments FixedWidthColumnFooterEntry T : clear implicits.

Record VarcharColumnFooterEntry : Type := mk_varchar_entry {
  offsets_pages_ : PageRange;
  data_pages_ : PageRange;
  vc_null_count_ : Z;
  vc_zone_map_ : VarcharZoneMap;
}.

Definition varchar_Build (column : Varchar.VarcharColumn) (offsets_pages data_pages : PageRange)
    : result VarcharColumnFooterEntry :=
  for_range 0 (Varchar.Size column)
    (fun i entry =>
       n ← Varchar.IsNull column i;
       if n : bool
       then mret (mk_varchar_entry (offsets_pages_ entry) (data_pages_ entry)
                    (u32 (vc_null_count_ entry + 1)) (vc_zone_map_ entry))
       else (v ← Varchar.GetValue column i;
             mret (mk_varchar_entry (offsets_pages_ entry) (data_pages_ entry)
                     (vc_null_count_ entry) (vzone_Update (vc_zone_map_ entry) v))))
    (mk_varchar_entry offsets_pages data_pages 0 vzone_empty).

Definition varchar_FromFields (offsets_pages data_pages : PageRange) (null_count : Z)
    (zone : VarcharZoneMap) : VarcharColumnFooterEntry :=
  mk_varchar_entry offsets_pages data_pages null_count zone.

Lemma varchar_Build_spec column l offsets_pages data_pages :
  Varchar.repr column l -> Z.of_nat (length l) < 2 ^ 32 ->
  varchar_Build column offsets_pages data_pages =
  Ok (mk_varchar_entry offsets_pages data_pages (count_none l) (vzone_of (somes l))).
Proof.
  intros Hr Hsz. unfold varchar_Build. rewrite (Varchar.Size_repr column l) by done.
  edestruct (for_range_inv (fun i e =>
    e = mk_varchar_entry offsets_pages data_pages (count_none (take i l)) (vzone_of (somes (take i l)))))
    as (e & -> & He); [| |rewrite He, take_ge by lia; done].
  - intros i e Hi ->. simpl. destruct (lookup_lt_is_Some_2 l i) as [o Ho]; [lia|].
    rewrite (Varchar.IsNull_repr column l i o) by done. simpl.
    rewrite (take_S_r _ _ _ Ho), count_none_snoc, somes_snoc.
    destruct o as [x|]; simpl.
    + rewrite (Varchar.GetValue_repr column l i (Some x)) by done. simpl. eexists. split; [done|].
      by rewrite vzone_of_snoc, Z.add_0_r.
    + eexists. split; [done|]. rewrite app_nil_r, u32_id; [done|].
      pose proof (count_none_bound (take i l)). rewrite length_take in *. unfold is_u32. lia.
  - done.
Qed.

(** ** Row groups and the footer *)

(** [std::variant] over the three entry types. *)
Inductive ColumnFooterEntry : Type :=
  | IntEntry (e : FixedWidthColumnFooterEntry Z)
  | FloatEntry (e : FixedWidthColumnFooterEntry f32)
  | VarcharEntry (e : VarcharColumnFooterEntry).

Record RowGroupFooterEntry : Type := mk_row_group {
  table_id_ : Z;
  row_count_ : Z;
  validity_bitmap_region_ : PageRange;
  columns_ : list ColumnFooterEntry;
}.

Definition rg_Column (rg : RowGroupFooterEntry) (ordinal : nat) : result ColumnFooterEntry :=
  vec_get (columns_ rg) ordinal.
Definition rg_NumColumns (rg : RowGroupFooterEntry) : nat := length (columns_ rg).

Definition Footer : Type := list RowGroupFooterEntry.
Definition footer_AddRowGroup (f : Footer) (entry : RowGroupFooterEntry) : Footer := f ++ [entry].
Definition footer_NumRowGroups (f : Footer) : nat := length f.
Definition footer_RowGroup (f : Footer) (index : nat) : result RowGroupFooterEntry := vec_get f index.

(** ** Serialization *)

Definition kColumnTagInteger : Z := 0.
Definition kColumnTagFloat : Z := 1.
Definition kColumnTagVarchar : Z := 2.

Definition WritePageRange (buf : list byte) (range : PageRange) : list byte :=
  WriteU32 (WriteU32 buf (start_page_id range)) (page_count range).

(** A length byte, then [kZoneMapPrefixLength] bytes padded with zeros. *)
Definition WriteFixedPrefix (buf : list byte) (data : string) : list byte :=
  foldl (fun buf i => buf ++ [match bytes_of_string data !! i with Some b => b | None => byte_of_Z 0 end])
        (WriteU8 buf (u8 (Z.of_nat (String.length data)))) (seq 0 kZoneMapPrefixLength).

Definition WriteScalar {T} `{Scalar T} (buf : list byte) (value : T) : list byte :=
  WriteU32 buf (sc_bits value).

Definition WriteFixedWidthEntry {T} `{Scalar T} (buf : list byte)
    (entry : FixedWidthColumnFooterEntry T) : list byte :=
  let buf := WritePageRange buf (pages_ entry) in
  let buf := WriteU32 buf (null_count_ entry) in
  let zone := zone_map_ entry in
  let buf := WriteU8 buf (if has_values_ zone then 1 else 0) in
  if has_values_ zone then WriteScalar (WriteScalar buf (min_ zone)) (max_ zone) else buf.

Definition WriteVarcharEntry (buf : list byte) (entry : VarcharColumnFooterEntry) : list byte :=
  let buf := WritePageRange buf (offsets_pages_ entry) in
  let buf := WritePageRange buf (data_pages_ entry) in
  let buf := WriteU32 buf (vc_null_count_ entry) in
  let zone := vc_zone_map_ entry in
  let buf := WriteU8 buf (if vz_has_values_ zone then 1 else 0) in
  if vz_has_values_ zone
  then WriteFixedPrefix (WriteFixedPrefix buf (min_prefix_ zone)) (max_prefix_ zone) else buf.

Definition WriteColumn (buf : list byte) (column : ColumnFooterEntry) : list byte :=
  match column with
  | IntEntry e => WriteFixedWidthEntry (WriteU8 buf kColumnTagInteger) e
  | FloatEntry e => WriteFixedWidthEntry (WriteU8 buf kColumnTagFloat) e
  | VarcharEntry e => WriteVarcharEntry (WriteU8 buf kColumnTagVarchar) e
  end.

Definition WriteRowGroup (buf : list byte) (rg : RowGroupFooterEntry) : list byte :=
  let buf := WriteU32 buf (table_id_ rg) in
  let buf := WriteU32 buf (row_count_ rg) in
  let buf := WritePageRange buf (validity_bitmap_region_ rg) in
  let buf := WriteU32 buf (u32 (Z.of_nat (rg_NumColumns rg))) in
  foldl WriteColumn buf (columns_ rg).

Definition footer_Serialize (f : Footer) : list byte :=
  foldl WriteRowGroup (WriteU32 [] (u32 (Z.of_nat (length f)))) f.

(** ** Deserialization *)

Definition ReadPageRange : io ByteReader PageRange :=
  s ← ReadU32; c ← ReadU32; mret (mk_range s c).

(** [std::string::resize]. *)
Definition string_resize (n : nat) (s : string) : string :=
  string_of_bytes (vec_resize n (byte_of_Z 0) (bytes_of_string s)).

Definition ReadFixedPrefixValue : io ByteReader string :=
  length ← ReadU8;
  value ← ReadFixedBytes (Z.of_nat kZoneMapPrefixLength);
  mret (string_resize (Z.to_nat length) value).

Definition ReadScalar {T} `{Scalar T} : io ByteReader T := bits ← ReadU32; mret (sc_of_bits bits).

Definition ReadFixedWidthEntry {T} `{Scalar T} : io ByteReader (FixedWidthColumnFooterEntry T) :=
  pages ← ReadPageRange;
  null_count ← ReadU32;
  has_values ← ReadU8;
  zone ← (if negb (has_values =? 0) then
            min_value ← ReadScalar;
            max_value ← ReadScalar;
            mret (zone_Update (zone_Update zone_empty min_value) max_value)
          else mret zone_empty);
  mret (fixed_FromFields pages null_count zone).

Definition ReadVarcharEntry : io ByteReader VarcharColumnFooterEntry :=
  offsets_pages ← ReadPageRange;
  data_pages ← ReadPageRange;
  null_count ← ReadU32;
  has_values ← ReadU8;
  zone ← (if negb (has_values =? 0) then
            min_prefix ← ReadFixedPrefixValue;
            max_prefix ← ReadFixedPrefixValue;
            mret (vzone_Update (vzone_Update vzone_empty min_prefix) max_prefix)
          else mret vzone_empty);
  mret (varchar_FromFields offsets_pages data_pages null_count zone).

Definition ReadColumn : io ByteReader ColumnFooterEntry :=
  tag ← ReadU8;
  if tag =? kColumnTagInteger then (e ← ReadFixedWidthEntry; mret (IntEntry e))
  else if tag =? kColumnTagFloat then (e ← ReadFixedWidthEntry; mret (FloatEntry e))
  else (e ← ReadVarcharEntry; mret (VarcharEntry e)).

Definition ReadRowGroup : io ByteReader RowGroupFooterEntry :=
  table_id ← ReadU32;
  row_count ← ReadU32;
  validity_region ← ReadPageRange;
  num_columns ← ReadU32;
  columns ← for_range 0 (Z.to_nat num_columns) (fun _ cs => c ← ReadColumn; mret (cs ++ [c])) [];
  mret (mk_row_group table_id row_count validity_region columns).

Definition footer_Deserialize (bytes : list byte) : result Footer :=
  fst ((num_row_groups ← ReadU32;
        for_range 0 (Z.to_nat num_row_groups)
          (fun _ f => rg ← ReadRowGroup; mret (footer_AddRowGroup f rg)) [])
       (mk_reader bytes 0)).

(** ** Round trip *)

(** Well-formed metadata: every integer fits its field, and zones are ones the
    [Build] scans produce. *)
Definition range_wf (r : PageRange) : Prop := is_u32 (start_page_id r) /\ is_u32 (page_count r).

Definition fixed_entry_wf {T} `{Scalar T} (e : FixedWidthColumnFooterEntry T) : Prop :=
  range_wf (pages_ e) /\ is_u32 (null_count_ e) /\ zone_wf (zone_map_ e).

Definition varchar_entry_wf (e : VarcharColumnFooterEntry) : Prop :=
  range_wf (offsets_pages_ e) /\ range_wf (data_pages_ e) /\ is_u32 (vc_null_count_ e) /\
  vzone_wf (vc_zone_map_ e).

Definition column_entry_wf (c : ColumnFooterEntry) : Prop :=
  match c with
  | IntEntry e => fixed_entry_wf e
  | FloatEntry e => fixed_entry_wf e
  | VarcharEntry e => varchar_entry_wf e
  end.

Definition row_group_wf (rg : RowGroupFooterEntry) : Prop :=
  is_u32 (table_id_ rg) /\ is_u32 (row_count_ rg) /\ range_wf (validity_bitmap_region_ rg) /\
  is_u32 (Z.of_nat (rg_NumColumns rg)) /\ Forall column_entry_wf (columns_ rg).

Definition footer_wf (f : Footer) : Prop :=
  is_u32 (Z.of_nat (length f)) /\ Forall row_group_wf f.

(** Every writer appends. *)
Definition appends {A} (w : list byte -> A -> list byte) : Prop :=
  forall buf a, w buf a = buf ++ w [] a.

Lemma foldl_appends {A} (w : list byte -> A -> list byte) xs buf :
  appends w -> foldl w buf xs = buf ++ concat (map (w []) xs).
Proof.
  intros Hw. revert buf. induction xs as [|x xs IH]; intros buf; simpl.
  - by rewrite app_nil_r.
  - by rewrite IH, (Hw buf), <- app_assoc.
Qed.

Ltac write_app := rewrite ?WriteU8_app, ?WriteU32_app, ?WriteString_app, ?app_nil_l, <- ?app_assoc.

Lemma WritePageRange_app buf r :
  WritePageRange buf r = buf ++ le_bytes 4 (start_page_id r) ++ le_bytes 4 (page_count r).
Proof. unfold WritePageRange. by write_app. Qed.

Lemma WriteScalar_app {T} `{Scalar T} buf (v : T) : WriteScalar buf v = buf ++ le_bytes 4 (sc_bits v).
Proof. unfold WriteScalar. by write_app. Qed.

Definition prefix_bytes (data : string) : list byte :=
  bytes_of_string data ++ replicate (kZoneMapPrefixLength - String.length data) (byte_of_Z 0).

Lemma foldl_push {A B} (f : A -> B) (xs : list A) (buf : list B) :
  foldl (fun buf x => buf ++ [f x]) buf xs = buf ++ map f xs.
Proof.
  revert buf. induction xs as [|x xs IH]; intros; simpl; [by rewrite app_nil_r|].
  by rewrite IH, <- app_assoc.
Qed.

Lemma WriteFixedPrefix_app buf data :
  (String.length data <= kZoneMapPrefixLength)%nat ->
  WriteFixedPrefix buf data =
  buf ++ le_bytes 1 (Z.of_nat (String.length data)) ++ prefix_bytes data.
Proof.
  intros Hl. unfold WriteFixedPrefix. rewrite foldl_push. write_app.
  assert (u8 (Z.of_nat (String.length data)) = Z.of_nat (String.length data)) as ->
    by (apply Z.mod_small; unfold kZoneMapPrefixLength in Hl; lia).
  do 2 f_equal. unfold prefix_bytes. rewrite <- length_bytes_of_string in Hl |- *.
  generalize (bytes_of_string data) as bs, (byte_of_Z 0) as z, Hl.
  clear. intros bs z Hl. apply list_eq. intros i.
  destruct (decide (i < kZoneMapPrefixLength)%nat) as [Hi|Hi].
  - rewrite list_lookup_fmap, lookup_seq_lt by done. simpl.
    destruct (bs !! i) as [b|] eqn:Hb.
    + by rewrite (lookup_app_l_Some _ _ _ _ Hb).
    + apply lookup_ge_None in Hb. rewrite lookup_app_r, lookup_replicate_2 by lia. done.
  - rewrite !lookup_ge_None_2; [done| |].
    + rewrite length_app, length_replicate. lia.
    + rewrite length_map, length_seq. lia.
Qed.

Lemma decodes_ReadPageRange r :
  range_wf r -> decodes ReadPageRange (WritePageRange [] r) r.
Proof.
  intros [Hs Hc]. rewrite WritePageRange_app. destruct r as [s c]; simpl in *. unfold ReadPageRange.
  decode_step. apply (decodes_bind_ret _ (mk_range s)). by apply decodes_ReadU32.
Qed.

Lemma decodes_ReadScalar {T} `{ScalarLaws T} (v : T) :
  sc_ok v -> decodes ReadScalar (le_bytes 4 (sc_bits v)) v.
Proof.
  intros Hv. unfold ReadScalar.
  pose proof (decodes_bind_ret ReadU32 (@sc_of_bits T _) (le_bytes 4 (sc_bits v)) (sc_bits v)) as E.
  rewrite sc_of_bits_bits in E by done. apply E. apply decodes_ReadU32. by apply sc_bits_u32.
Qed.

Lemma decodes_ReadFixedPrefixValue s :
  (String.length s <= kZoneMapPrefixLength)%nat ->
  decodes ReadFixedPrefixValue (le_bytes 1 (Z.of_nat (String.length s)) ++ prefix_bytes s) s.
Proof.
  intros Hl. unfold ReadFixedPrefixValue.
  eapply decodes_bind; [apply decodes_ReadU8_le; unfold is_u8, kZoneMapPrefixLength in *; lia|].
  pose proof (decodes_bind_ret (ReadFixedBytes (Z.of_nat kZoneMapPrefixLength))
    (string_resize (Z.to_nat (Z.of_nat (String.length s)))) (prefix_bytes s)
    (string_of_bytes (prefix_bytes s))) as E.
  assert (string_resize (Z.to_nat (Z.of_nat (String.length s))) (string_of_bytes (prefix_bytes s)) = s) as Hs.
  { unfold string_resize. rewrite Nat2Z.id, bytes_of_string_of_bytes. unfold vec_resize, prefix_bytes.
    rewrite <- length_bytes_of_string, take_app_length, length_app.
    replace (length (bytes_of_string s) - _)%nat with 0%nat by lia. simpl.
    by rewrite app_nil_r, string_of_bytes_of_string. }
  rewrite Hs in E. apply E. apply decodes_ReadFixedBytes. f_equal.
  unfold prefix_bytes. rewrite length_app, length_replicate, length_bytes_of_string. lia.
Qed.

#[export] Hint Resolve decodes_ReadPageRange decodes_ReadScalar decodes_ReadFixedPrefixValue : decode.

Lemma is_u8_flag (b : bool) : is_u8 (if b then 1 else 0).
Proof. unfold is_u8. destruct b; lia. Qed.
#[export] Hint Resolve is_u8_flag : decode.

Lemma WriteFixedWidthEntry_app {T} `{Scalar T} buf (e : FixedWidthColumnFooterEntry T) :
  WriteFixedWidthEntry buf e =
  buf ++ WritePageRange [] (pages_ e) ++ le_bytes 4 (null_count_ e) ++
  le_bytes 1 (if has_values_ (zone_map_ e) then 1 else 0) ++
  if has_values_ (zone_map_ e)
  then le_bytes 4 (sc_bits (min_ (zone_map_ e))) ++ le_bytes 4 (sc_bits (max_ (zone_map_ e))) else [].
Proof.
  unfold WriteFixedWidthEntry. destruct (has_values_ (zone_map_ e));
    rewrite ?WriteScalar_app; write_app; rewrite !WritePageRange_app, <- !app_assoc; by rewrite ?app_nil_r.
Qed.

Lemma decodes_ReadFixedWidthEntry {T} `{ScalarLaws T} (e : FixedWidthColumnFooterEntry T) :
  fixed_entry_wf e -> decodes ReadFixedWidthEntry (WriteFixedWidthEntry [] e) e.
Proof.
  intros (Hp & Hn & Hz). rewrite WriteFixedWidthEntry_app, app_nil_l.
  destruct e as [p n z]; simpl in *. unfold ReadFixedWidthEntry. do 3 decode_step.
  apply (decodes_bind_ret _ (fixed_FromFields p n)). unfold zone_wf in Hz.
  destruct (has_values_ z) eqn:Hh; simpl; [|subst; apply decodes_ret].
  destruct Hz as (Hmin & Hmax & Hlt). decode_step.
  pose proof (decodes_bind_ret ReadScalar (zone_Update (zone_Update zone_empty (min_ z)))
    (le_bytes 4 (sc_bits (max_ z))) (max_ z)) as E.
  rewrite zone_rebuild in E; [|by unfold zone_wf; rewrite Hh|done]. apply E. by apply decodes_ReadScalar.
Qed.

Lemma WriteVarcharEntry_app buf e :
  vzone_wf (vc_zone_map_ e) ->
  WriteVarcharEntry buf e =
  buf ++ WritePageRange [] (offsets_pages_ e) ++ WritePageRange [] (data_pages_ e) ++
  le_bytes 4 (vc_null_count_ e) ++ le_bytes 1 (if vz_has_values_ (vc_zone_map_ e) then 1 else 0) ++
  if vz_has_values_ (vc_zone_map_ e)
  then (le_bytes 1 (Z.of_nat (String.length (min_prefix_ (vc_zone_map_ e)))) ++
        prefix_bytes (min_prefix_ (vc_zone_map_ e))) ++
       (le_bytes 1 (Z.of_nat (String.length (max_prefix_ (vc_zone_map_ e)))) ++
        prefix_bytes (max_prefix_ (vc_zone_map_ e))) else [].
Proof.
  unfold WriteVarcharEntry, vzone_wf. destruct (vz_has_values_ (vc_zone_map_ e)).
  - intros (Hm & HM & _). rewrite !WriteFixedPrefix_app by done. write_app.
    by rewrite !WritePageRange_app, <- !app_assoc.
  - intros _. write_app. by rewrite !WritePageRange_app, <- !app_assoc, !app_nil_r.
Qed.

Lemma decodes_ReadVarcharEntry e :
  varchar_entry_wf e -> decodes ReadVarcharEntry (WriteVarcharEntry [] e) e.
Proof.
  intros (Ho & Hd & Hn & Hz). rewrite WriteVarcharEntry_app, app_nil_l by done.
  destruct e as [o d n z]; simpl in *. unfold ReadVarcharEntry. do 4 decode_step.
  apply (decodes_bind_ret _ (varchar_FromFields o d n)). unfold vzone_wf in Hz.
  destruct (vz_has_values_ z) eqn:Hh; simpl; [|subst; apply decodes_ret].
  destruct Hz as (Hmin & Hmax & Hlt).
  eapply decodes_bind; [by apply decodes_ReadFixedPrefixValue|].
  pose proof (decodes_bind_ret ReadFixedPrefixValue (vzone_Update (vzone_Update vzone_empty (min_prefix_ z)))
    _ (max_prefix_ z) (decodes_ReadFixedPrefixValue _ Hmax)) as E.
  rewrite vzone_rebuild in E; [done|by unfold vzone_wf; rewrite Hh|done].
Qed.

Lemma WriteColumn_appends : appends WriteColumn.
Proof.
  intros buf [e|e|e]; simpl; rewrite ?WriteFixedWidthEntry_app; write_app; try done.
  unfold WriteVarcharEntry, WriteFixedPrefix. rewrite !foldl_push.
  by destruct (vz_has_values_ _); write_app; rewrite !WritePageRange_app, <- ?app_assoc.
Qed.

Lemma decodes_ReadColumn c :
  column_entry_wf c -> decodes ReadColumn (WriteColumn [] c) c.
Proof.
  intros Hc. unfold ReadColumn. destruct c as [e|e|e]; simpl in *.
  - rewrite WriteFixedWidthEntry_app, WriteU8_app, app_nil_l.
    eapply decodes_bind; [by apply decodes_ReadU8_le|].
    pose proof (decodes_bind_ret _ IntEntry _ _ (decodes_ReadFixedWidthEntry e Hc)) as E.
    by rewrite WriteFixedWidthEntry_app, app_nil_l in E.
  - rewrite WriteFixedWidthEntry_app, WriteU8_app, app_nil_l.
    eapply decodes_bind; [by apply decodes_ReadU8_le|].
    pose proof (decodes_bind_ret _ FloatEntry _ _ (decodes_ReadFixedWidthEntry e Hc)) as E.
    by rewrite WriteFixedWidthEntry_app, app_nil_l in E.
  - pose proof Hc as (_ & _ & _ & Hz). rewrite WriteVarcharEntry_app, WriteU8_app, app_nil_l by done.
    eapply decodes_bind; [by apply decodes_ReadU8_le|].
    pose proof (decodes_bind_ret _ VarcharEntry _ _ (decodes_ReadVarcharEntry e Hc)) as E.
    by rewrite WriteVarcharEntry_app, app_nil_l in E.
Qed.

Lemma WriteRowGroup_app buf rg :
  WriteRowGroup buf rg =
  buf ++ le_bytes 4 (table_id_ rg) ++ le_bytes 4 (row_count_ rg) ++
  WritePageRange [] (validity_bitmap_region_ rg) ++
  le_bytes 4 (u32 (Z.of_nat (rg_NumColumns rg))) ++ concat (map (WriteColumn []) (columns_ rg)).
Proof.
  unfold WriteRowGroup. rewrite foldl_appends by apply WriteColumn_appends. write_app.
  by rewrite !WritePageRange_app, <- !app_assoc.
Qed.

Lemma decodes_ReadRowGroup rg :
  row_group_wf rg -> decodes ReadRowGroup (WriteRowGroup [] rg) rg.
Proof.
  intros (Ht & Hr & Hv & Hn & Hc). rewrite WriteRowGroup_app, app_nil_l.
  destruct rg as [t r v cs]; simpl in *. unfold ReadRowGroup, rg_NumColumns in *. simpl in *.
  rewrite u32_id by done. do 4 decode_step. rewrite Nat2Z.id.
  apply (decodes_bind_ret _ (mk_row_group t r v)).
  apply (decodes_for_range ReadColumn (WriteColumn []) cs 0 []).
  intros c Hin. apply decodes_ReadColumn. rewrite Forall_forall in Hc. auto.
Qed.

Lemma footer_Serialize_app f :
  footer_Serialize f = le_bytes 4 (u32 (Z.of_nat (length f))) ++ concat (map (WriteRowGroup []) f).
Proof.
  unfold footer_Serialize. rewrite foldl_appends; [by write_app|].
  intros buf rg. by rewrite !(WriteRowGroup_app _ rg).
Qed.

Lemma footer_decodes f post :
  footer_wf f -> footer_Deserialize (footer_Serialize f ++ post) = Ok f.
Proof.
  intros [Hl Hf]. unfold footer_Deserialize. apply decodes_run.
  rewrite footer_Serialize_app, u32_id by done. decode_step. rewrite Nat2Z.id.
  apply (decodes_for_range ReadRowGroup (WriteRowGroup []) f 0 []).
  intros rg Hin. apply decodes_ReadRowGroup. rewrite Forall_forall in Hf. auto.
Qed.
