(* ===== verification/Disk.v ===== *)
(** Model of [src/storage/file_header.cpp] and [src/storage/disk_manager.cpp].

    The operating system's file is a parameter: the class [PosixFile] has the three
    system calls the disk manager makes on its descriptor ([pwrite], [pread],
    [fstat]), and [PosixFileLaws] states their documented behaviour, failures and
    short transfers included. [mem_file] is an instance that never fails. *)

From S2P Require Import Prelude ByteIO.

(** ** The file header *)

Definition kMagic : list byte := bytes_of_string "GISTDB01".
Definition kSerializedSize : nat := 20.

Record FileHeader : Type := mk_header {
  meta_offset_ : Z;
  next_free_page_id_ : Z;
}.

Definition header_Serialize (h : FileHeader) : list byte :=
  WriteU32 (WriteU64 ([] ++ kMagic) (meta_offset_ h)) (next_free_page_id_ h).

Definition header_Deserialize (bytes : list byte) : result FileHeader :=
  if decide (length bytes < kSerializedSize)%nat then
    Throw (RuntimeError "FileHeader::Deserialize: buffer too small to be a valid header")
  else if decide (take (length kMagic) bytes <> kMagic) then
    Throw (RuntimeError "FileHeader::Deserialize: magic mismatch -- not a GistDB file")
  else
    fst ((_ ← Skip (length kMagic);
          meta_offset ← ReadU64;
          next_free_page_id ← ReadU32;
          mret (mk_header meta_offset next_free_page_id)) (mk_reader bytes 0)).

Definition header_wf (h : FileHeader) : Prop := is_u64 (meta_offset_ h) /\ is_u32 (next_free_page_id_ h).

(** ** The operating system's file *)

Class PosixFile (F : Type) : Type := {
  contents : F -> list byte;
  sys_pwrite : F -> list byte -> Z -> option nat * F;
  sys_pread : F -> nat -> Z -> option (list byte);
  sys_fstat_size : F -> option Z;
}.

(** Writing [d] at offset [off]: a gap past the end of file reads as zeros. *)
Definition splice (c : list byte) (off : nat) (d : list byte) : list byte :=
  if decide (d = []) then c
  else take off c ++ replicate (off - length c) x00 ++ d ++ drop (off + length d) c.

(** POSIX: a transfer count is the number of bytes transferred, a failed write
    changes nothing, and [pread] returns a prefix of what the file holds. *)
Class PosixFileLaws (F : Type) `{PosixFile F} : Prop := {
  pwrite_some f d off k f' :
    0 <= off -> sys_pwrite f d off = (Some k, f') ->
    (k <= length d)%nat /\ contents f' = splice (contents f) (Z.to_nat off) (take k d);
  pwrite_none f d off f' :
    sys_pwrite f d off = (None, f') -> contents f' = contents f;
  pread_prefix f n off bs :
    0 <= off -> sys_pread f n off = Some bs ->
    bs `prefix_of` take n (drop (Z.to_nat off) (contents f));
  fstat_size f sz : sys_fstat_size f = Some sz -> sz = Z.of_nat (length (contents f));
}.

(** A file on a device that does not fail. *)
Class ReliableFile (F : Type) `{PosixFile F} : Prop := {
  pwrite_total f d off : 0 <= off -> exists f', sys_pwrite f d off = (Some (length d), f');
  pread_total f n off : 0 <= off -> exists bs, sys_pread f n off = Some bs /\
    (length bs = n \/ (length bs = length (contents f) - Z.to_nat off /\ length bs <= n))%nat;
  fstat_total f : is_Some (sys_fstat_size f);
}.

Definition mem_file : Type := list byte.
#[global] Instance mem_posix : PosixFile mem_file := {|
  contents := fun f => f;
  sys_pwrite := fun f d off => (Some (length d), splice f (Z.to_nat off) d);
  sys_pread := fun f n off => Some (take n (drop (Z.to_nat off) f));
  sys_fstat_size := fun f => Some (Z.of_nat (length f)) |}.

#[global] Instance mem_posix_laws : PosixFileLaws mem_file.
Proof.
  split; simpl; intros; simplify_eq; try done.
  by rewrite firstn_all.
Qed.

#[global] Instance mem_reliable : ReliableFile mem_file.
Proof.
  split; simpl; intros; [eauto| |eauto].
  eexists. split; [done|]. rewrite length_take, length_drop. lia.
Qed.

(** ** The disk manager *)

Section DiskManager.
Context {F : Type} `{PosixFile F}.

Record DiskManager : Type := mk_disk {
  fd_ : F;
  header_ : FileHeader;
}.

Definition with_header (h : FileHeader) (d : DiskManager) : DiskManager := mk_disk (fd_ d) h.

(** [pwrite] of a whole buffer, and the check that follows each call. *)
Definition write_all (bytes : list byte) (offset : Z) (error : string) : io DiskManager unit := fun d =>
  let '(written, f) := sys_pwrite (fd_ d) bytes offset in
  let d' := mk_disk f (header_ d) in
  match written with
  | Some n => if decide (n = length bytes) then (Ok tt, d') else (Throw (RuntimeError error), d')
  | None => (Throw (RuntimeError error), d')
  end.

Definition read_all (size : nat) (offset : Z) (error : string) : io DiskManager (list byte) := fun d =>
  match sys_pread (fd_ d) size offset with
  | Some bs => if decide (length bs = size) then (Ok bs, d) else (Throw (RuntimeError error), d)
  | None => (Throw (RuntimeError error), d)
  end.

Definition PersistHeader : io DiskManager unit := fun d =>
  write_all (header_Serialize (header_ d)) 0
    "DiskManager::PersistHeader: failed to persist file header" d.

Definition FileSize : io DiskManager Z := fun d =>
  match sys_fstat_size (fd_ d) with
  | Some sz => (Ok sz, d)
  | None => (Throw (RuntimeError "DiskManager::FileSize: fstat failed"), d)
  end.

(** [opened] is what [open(2)] returned for the path: [None] is a failure. *)
Definition disk_CreateNew (opened : option F) : result DiskManager :=
  match opened with
  | None => Throw (RuntimeError "DiskManager::CreateNew: failed to create")
  | Some f =>
      let '(r, d) := PersistHeader (mk_disk f (mk_header (Z.of_nat kSerializedSize) kFirstDataPageId)) in
      _ ← r; mret d
  end.

Definition disk_Open (opened : option F) : result DiskManager :=
  match opened with
  | None => Throw (RuntimeError "DiskManager::Open: failed to open")
  | Some f =>
      match sys_pread f kSerializedSize 0 with
      | Some header_bytes =>
          if decide (length header_bytes = kSerializedSize)
          then header ← header_Deserialize header_bytes; mret (mk_disk f header)
          else Throw (RuntimeError "DiskManager::Open: failed to read header")
      | None => Throw (RuntimeError "DiskManager::Open: failed to read header")
      end
  end.

Definition AllocatePages (count : Z) : io DiskManager Z := fun d =>
  if count =? 0 then
    (Throw (InvalidArgument "DiskManager::AllocatePages: count must be > 0"), d)
  else
    let start_page_id := next_free_page_id_ (header_ d) in
    let h := mk_header (meta_offset_ (header_ d)) (u32 (start_page_id + count)) in
    (_ ← PersistHeader; mret start_page_id) (with_header h d).

Definition page_offset (page_id : Z) : Z := u64 (page_id * kPageSizeBytes).

Definition WritePages (start_page_id : Z) (data : list byte) : io DiskManager unit :=
  if start_page_id =? kHeaderPageId then
    io_throw (InvalidArgument "DiskManager::WritePages: page 0 is reserved for the file header")
  else if bool_decide (data = []) || negb (Z.of_nat (length data) mod kPageSizeBytes =? 0) then
    io_throw (InvalidArgument
      "DiskManager::WritePages: data size must be a non-zero multiple of the page size")
  else write_all data (page_offset start_page_id) "DiskManager::WritePages: short or failed write".

Definition ReadPages (start_page_id count : Z) : io DiskManager (list byte) :=
  if count =? 0 then
    io_throw (InvalidArgument "DiskManager::ReadPages: count must be > 0")
  else if start_page_id =? kHeaderPageId then
    io_throw (InvalidArgument "DiskManager::ReadPages: page 0 is reserved for the file header")
  else read_all (Z.to_nat (count * kPageSizeBytes)) (page_offset start_page_id)
         "DiskManager::ReadPages: short or failed read".

Definition SetMetaOffset (meta_offset : Z) : io DiskManager unit := fun d =>
  (Ok tt, with_header (mk_header meta_offset (next_free_page_id_ (header_ d))) d).

Definition NextFreePageId : io DiskManager Z := fun d => (Ok (next_free_page_id_ (header_ d)), d).

Definition WriteMetadataBlob (blob : list byte) : io DiskManager unit :=
  next_free ← NextFreePageId;
  let page_region_end := page_offset next_free in
  file_size ← FileSize;
  let append_offset := Z.max file_size page_region_end in
  _ ← (if bool_decide (blob = []) then mret tt
       else write_all blob append_offset "DiskManager::WriteMetadataBlob: short or failed write");
  _ ← SetMetaOffset append_offset;
  PersistHeader.

Definition ReadMetadataBlob : io DiskManager (list byte) :=
  total_size ← FileSize;
  d ← io_get;
  let offset := meta_offset_ (header_ d) in
  if total_size <? offset then
    io_throw (RuntimeError
      "DiskManager::ReadMetadataBlob: meta_offset points beyond end of file -- corrupt header")
  else
    let blob_size := total_size - offset in
    if 0 <? blob_size
    then read_all (Z.to_nat blob_size) offset "DiskManager::ReadMetadataBlob: short or failed read"
    else mret [].

End DiskManager.
Arguments DiskManager F : clear implicits.

(** ** The header format *)

Lemma header_Serialize_app h :
  header_Serialize h = kMagic ++ le_bytes 8 (meta_offset_ h) ++ le_bytes 4 (next_free_page_id_ h).
Proof. unfold header_Serialize. by rewrite WriteU32_app, WriteU64_app, <- app_assoc. Qed.

Lemma length_header_Serialize h : length (header_Serialize h) = kSerializedSize.
Proof. rewrite header_Serialize_app, !length_app, !length_le_bytes. done. Qed.

Lemma decodes_Skip bs : decodes (Skip (length bs)) bs tt.
Proof. by intros pre post. Qed.

Lemma header_decodes h post :
  header_wf h -> header_Deserialize (header_Serialize h ++ post) = Ok h.
Proof.
  intros [Hm Hn]. unfold header_Deserialize.
  rewrite decide_False by (rewrite length_app, length_header_Serialize; unfold kSerializedSize; lia).
  rewrite header_Serialize_app, <- !app_assoc, take_app_length.
  rewrite decide_False by (intros Hc; by apply Hc).
  destruct h as [m n]; simpl in *.
  match goal with |- context [mk_reader ?bs 0] =>
    replace bs with ((kMagic ++ le_bytes 8 m ++ le_bytes 4 n) ++ post) by by rewrite <- !app_assoc end.
  apply decodes_run. eapply decodes_bind; [apply decodes_Skip|].
  decode_step. apply (decodes_bind_ret _ (mk_header m)). by apply decodes_ReadU32.
Qed.

Lemma header_Deserialize_short bytes :
  (length bytes < kSerializedSize)%nat -> exists what, header_Deserialize bytes = Throw (RuntimeError what).
Proof. intros. unfold header_Deserialize. rewrite decide_True by done. eauto. Qed.

Lemma header_Deserialize_magic bytes :
  take (length kMagic) bytes <> kMagic -> exists what, header_Deserialize bytes = Throw (RuntimeError what).
Proof.
  intros. unfold header_Deserialize. case_decide; [eauto|]. rewrite decide_True by done. eauto.
Qed.

(** ** Bytes of a file *)

(** The [n] bytes at offset [off]. *)
Definition region (c : list byte) (off n : nat) : list byte := take n (drop off c).

Lemma length_splice c off d :
  d <> [] -> length (splice c off d) = Nat.max (length c) (off + length d).
Proof.
  intros Hd. unfold splice. rewrite decide_False by done.
  rewrite !length_app, length_take, length_replicate, length_drop. lia.
Qed.

Lemma region_splice_same c off d : region (splice c off d) off (length d) = d.
Proof.
  unfold region, splice. case_decide as Hd; [by subst|].
  rewrite (app_assoc (take off c)).
  assert (length (take off c ++ replicate (off - length c) x00) = off) as Hl
    by (rewrite length_app, length_take, length_replicate; lia).
  rewrite drop_app_length' by done. by rewrite take_app_length.
Qed.

Lemma region_app_l (a b : list byte) q n :
  (q + n <= length a)%nat -> region (a ++ b) q n = region a q n.
Proof.
  intros. unfold region. rewrite drop_app_le by lia. apply take_app_le. rewrite length_drop. lia.
Qed.

Lemma region_splice_before c off d q n :
  (q + n <= off)%nat -> (q + n <= length c)%nat ->
  region (splice c off d) q n = region c q n.
Proof.
  intros H1 H2. unfold splice. case_decide as Hd; [done|].
  rewrite region_app_l by (rewrite length_take; lia).
  rewrite <- (take_drop off c) at 2. symmetry. apply region_app_l. rewrite length_take. lia.
Qed.

Lemma region_splice_after c off d q n :
  (off + length d <= q)%nat -> (q + n <= length c)%nat ->
  region (splice c off d) q n = region c q n.
Proof.
  intros H1 H2. unfold region, splice. case_decide as Hd; [done|].
  replace (off - length c)%nat with 0%nat by lia. simpl. f_equal.
  rewrite app_assoc, drop_app_ge by (rewrite length_app, length_take; lia).
  rewrite drop_drop. f_equal. rewrite length_app, length_take. lia.
Qed.

Lemma region_all c off : region c off (length c - off) = drop off c.
Proof. unfold region. apply take_ge. by rewrite length_drop. Qed.

Lemma region_plus c off n m : region c off (n + m) = region c off n ++ region c (off + n) m.
Proof. unfold region. by rewrite <- (take_take_drop _ n m), drop_drop. Qed.

Lemma length_region c off n : (off + n <= length c)%nat -> length (region c off n) = n.
Proof. intros. unfold region. rewrite length_take, length_drop. lia. Qed.

Lemma drop_splice_end c off d :
  d <> [] -> (length c <= off)%nat -> drop off (splice c off d) = d.
Proof.
  intros Hd Hle. rewrite <- (region_all (splice c off d) off), length_splice by done.
  replace (Nat.max _ _ - off)%nat with (length d) by lia. apply region_splice_same.
Qed.

Section DiskManagerFacts.
Context {F : Type} `{PosixFileLaws F}.

Implicit Types d : DiskManager F.

Definition disk_bytes d : list byte := contents (fd_ d).

(** The header on disk is the header in memory. *)
Definition disk_wf d : Prop :=
  header_wf (header_ d) /\ 1 <= next_free_page_id_ (header_ d) /\
  region (disk_bytes d) 0 kSerializedSize = header_Serialize (header_ d).

Lemma page_offset_eq p : is_u32 p -> page_offset p = p * 4096.
Proof. unfold page_offset, kPageSizeBytes, is_u32. intros. apply u64_id. unfold is_u64. lia. Qed.

Lemma write_all_Ok bytes off e d u d' :
  0 <= off -> write_all bytes off e d = (Ok u, d') ->
  header_ d' = header_ d /\ disk_bytes d' = splice (disk_bytes d) (Z.to_nat off) bytes.
Proof.
  unfold write_all, disk_bytes. intros Hoff.
  destruct (sys_pwrite (fd_ d) bytes off) as [[k|] f] eqn:E; [|intros; simplify_eq].
  case_decide; intros; simplify_eq. simpl.
  apply pwrite_some in E as [_ E]; [|done]. by rewrite firstn_all in E.
Qed.

Lemma read_all_Ok n off e d bs d' :
  0 <= off -> read_all n off e d = (Ok bs, d') ->
  d' = d /\ bs = region (disk_bytes d) (Z.to_nat off) n /\ (Z.to_nat off + n <= length (disk_bytes d) \/ n = 0)%nat.
Proof.
  unfold read_all, region, disk_bytes. intros Hoff.
  destruct (sys_pread (fd_ d) n off) as [bs'|] eqn:E; [|intros; simplify_eq].
  case_decide; intros; simplify_eq. apply pread_prefix in E as Hp; [|done]. clear E.
  pose proof (prefix_length _ _ Hp) as Hl. rewrite length_take, length_drop in Hl.
  split_and!; [done| |lia]. apply prefix_length_eq; [done|]. rewrite length_take. lia.
Qed.

Lemma PersistHeader_Ok d u d' :
  header_wf (header_ d) -> 1 <= next_free_page_id_ (header_ d) ->
  PersistHeader d = (Ok u, d') ->
  disk_wf d' /\ header_ d' = header_ d /\
  disk_bytes d' = splice (disk_bytes d) 0 (header_Serialize (header_ d)).
Proof.
  intros Hh Hn HP. apply write_all_Ok in HP as [Hh' Hb]; [|lia].
  split_and!; [|done|done]. unfold disk_wf. rewrite Hh'. split_and!; [done..|].
  rewrite Hb. rewrite <- (length_header_Serialize (header_ d)). apply region_splice_same.
Qed.

(** Persisting the header touches only the header page's first bytes. *)
Lemma PersistHeader_frame (c : list byte) h q n :
  (kSerializedSize <= q)%nat -> (q + n <= length c)%nat ->
  region (splice c 0 (header_Serialize h)) q n = region c q n.
Proof.
  intros. apply region_splice_after; [|done]. by rewrite length_header_Serialize.
Qed.

Lemma AllocatePages_Ok d count p d' :
  disk_wf d -> AllocatePages count d = (Ok p, d') ->
  next_free_page_id_ (header_ d) + count < 2 ^ 32 -> 0 <= count ->
  0 < count /\ p = next_free_page_id_ (header_ d) /\ disk_wf d' /\
  header_ d' = mk_header (meta_offset_ (header_ d)) (p + count) /\
  disk_bytes d' = splice (disk_bytes d) 0 (header_Serialize (header_ d')).
Proof.
  intros (Hh & Hn & Hb) HA Hov Hc. unfold AllocatePages in HA.
  destruct (Z.eqb_spec count 0); [simplify_eq|].
  apply io_bind_Ok_inv in HA as (u & d1 & HP & HR). unfold mret, io_ret in HR. simplify_eq.
  destruct Hh as [Hm Hf].
  assert (u32 (next_free_page_id_ (header_ d) + count) = next_free_page_id_ (header_ d) + count) as Hu
    by (apply u32_id; unfold is_u32 in *; lia).
  apply PersistHeader_Ok in HP as (Hwf & Hh' & Hb'); simpl in *.
  - rewrite Hh', Hu in *. split_and!; try done; lia.
  - split; [done|]. simpl. apply u32_range.
  - rewrite Hu. lia.
Qed.

Lemma WritePages_Ok d p data u d' :
  is_u32 p -> WritePages p data d = (Ok u, d') ->
  p <> 0 /\ data <> [] /\ (exists n, length data = n * 4096)%nat /\ header_ d' = header_ d /\
  disk_bytes d' = splice (disk_bytes d) (Z.to_nat (p * 4096)) data.
Proof.
  intros Hp. unfold WritePages, kHeaderPageId.
  destruct (Z.eqb_spec p 0); [intros; simplify_eq|].
  case_bool_decide; simpl; [intros; simplify_eq|].
  destruct (Z.eqb_spec (Z.of_nat (length data) mod kPageSizeBytes) 0) as [Hm|]; simpl; [|intros; simplify_eq].
  intros HW. apply write_all_Ok in HW as [Hh Hb].
  - rewrite page_offset_eq in Hb by done. split_and!; try done.
    unfold kPageSizeBytes in Hm. exists (Z.to_nat (Z.of_nat (length data) / 4096)).
    apply Z.div_exact in Hm; lia.
  - rewrite page_offset_eq by done. unfold is_u32 in *. lia.
Qed.

Lemma ReadPages_Ok d p n bs d' :
  is_u32 p -> 0 <= n -> ReadPages p n d = (Ok bs, d') ->
  d' = d /\ bs = region (disk_bytes d) (Z.to_nat (p * 4096)) (Z.to_nat (n * 4096)) /\
  length bs = Z.to_nat (n * 4096).
Proof.
  intros Hp Hn. unfold ReadPages, kHeaderPageId, kPageSizeBytes.
  destruct (Z.eqb_spec n 0); [intros; simplify_eq|].
  destruct (Z.eqb_spec p 0); [intros; simplify_eq|].
  intros HR. apply read_all_Ok in HR as (-> & -> & Hl); rewrite page_offset_eq in * by done.
  - split_and!; try done. rewrite length_region; lia.
  - unfold is_u32 in *. lia.
Qed.

Lemma disk_write_below (c w : list byte) off q n :
  (off + length w <= q \/ q + n <= off)%nat -> (q + n <= length c)%nat ->
  region (splice c off w) q n = region c q n.
Proof. intros [?|?] ?; [by apply region_splice_after|by apply region_splice_before]. Qed.

Lemma length_splice_ge c off (w : list byte) : (length c <= length (splice c off w))%nat.
Proof. destruct (decide (w = [])) as [->|Hd]; [done|]. rewrite length_splice by done. lia. Qed.

Lemma FileSize_Ok d sz d' : FileSize d = (Ok sz, d') -> d' = d /\ sz = Z.of_nat (length (disk_bytes d)).
Proof.
  unfold FileSize. destruct (sys_fstat_size _) eqn:E; intros; simplify_eq.
  split; [done|]. by apply fstat_size.
Qed.

(** What a successful [WriteMetadataBlob] leaves on disk. *)
Lemma WriteMetadataBlob_Ok d blob u d' :
  disk_wf d -> blob <> [] -> Z.of_nat (length (disk_bytes d)) < 2 ^ 63 ->
  WriteMetadataBlob blob d = (Ok u, d') ->
  let off := Z.max (Z.of_nat (length (disk_bytes d))) (next_free_page_id_ (header_ d) * 4096) in
  disk_wf d' /\ header_ d' = mk_header off (next_free_page_id_ (header_ d)) /\
  disk_bytes d' = splice (splice (disk_bytes d) (Z.to_nat off) blob) 0 (header_Serialize (header_ d')).
Proof.
  intros ((Hm & Hf) & Hn & Hb) Hne Hsz HW off. unfold is_u32, is_u64 in *.
  unfold WriteMetadataBlob in HW.
  apply io_bind_Ok_inv in HW as (nf & d0 & HN & HW). unfold NextFreePageId in HN. simplify_eq.
  apply io_bind_Ok_inv in HW as (sz & d1 & HS & HW). apply FileSize_Ok in HS as [-> ->].
  apply io_bind_Ok_inv in HW as (u1 & d2 & HA & HW). rewrite bool_decide_false in HA by done.
  rewrite page_offset_eq in * by done. fold off in HA, HW.
  apply write_all_Ok in HA as [Hh2 Hb2]; [|lia].
  apply io_bind_Ok_inv in HW as (u2 & d3 & HM & HP). unfold SetMetaOffset in HM. simplify_eq.
  apply PersistHeader_Ok in HP as (Hwf & Hh & Hb'); simpl in *.
  - rewrite Hh2 in Hh. split_and!; [done|done|]. rewrite Hb', Hh, Hh2. unfold disk_bytes at 1. simpl.
    unfold disk_bytes in Hb2. by rewrite Hb2.
  - rewrite Hh2. split; simpl; unfold is_u64, is_u32; lia.
  - by rewrite Hh2.
Qed.

(** The blob is the tail of the file, from the recorded offset. *)
Lemma metadata_at_end d blob u d' :
  disk_wf d -> blob <> [] -> Z.of_nat (length (disk_bytes d)) < 2 ^ 63 ->
  WriteMetadataBlob blob d = (Ok u, d') ->
  let off := Z.to_nat (meta_offset_ (header_ d')) in
  region (disk_bytes d') off (length blob) = blob /\
  length (disk_bytes d') = (off + length blob)%nat /\ (4096 <= off)%nat /\
  (length (disk_bytes d) <= off)%nat.
Proof.
  intros Hwf Hne Hsz HW off.
  pose proof Hwf as (_ & Hn & _).
  destruct (WriteMetadataBlob_Ok d blob u d' Hwf Hne Hsz HW) as (_ & Hh & Hb).
  assert (off = Z.to_nat (Z.max (Z.of_nat (length (disk_bytes d))) (next_free_page_id_ (header_ d) * 4096)))
    as Ho by (unfold off; by rewrite Hh).
  rewrite <- Ho in Hb.
  assert (length (splice (disk_bytes d) off blob) = off + length blob)%nat as Hl
    by (rewrite length_splice by done; lia).
  assert (length (splice (splice (disk_bytes d) off blob) 0 (header_Serialize (header_ d'))) = off + length blob)%nat as Hl'.
  { rewrite length_splice; rewrite ?length_header_Serialize; unfold kSerializedSize; [lia|].
    intros E. apply (f_equal length) in E. by rewrite length_header_Serialize in E. }
  split_and!; [|by rewrite Hb|lia|lia].
  rewrite Hb, PersistHeader_frame; [apply region_splice_same|unfold kSerializedSize; lia|lia].
Qed.

Lemma metadata_keeps_pages d blob u d' q n :
  disk_wf d -> blob <> [] -> Z.of_nat (length (disk_bytes d)) < 2 ^ 63 ->
  WriteMetadataBlob blob d = (Ok u, d') ->
  (4096 <= q)%nat -> (q + n <= length (disk_bytes d))%nat ->
  region (disk_bytes d') q n = region (disk_bytes d) q n.
Proof.
  intros Hwf Hne Hsz HW Hq Hqn.
  destruct (WriteMetadataBlob_Ok d blob u d' Hwf Hne Hsz HW) as (_ & Hh & Hb).
  rewrite Hb, PersistHeader_frame; [|unfold kSerializedSize; lia|].
  - apply region_splice_before; lia.
  - pose proof (length_splice_ge (disk_bytes d)
      (Z.to_nat (Z.max (Z.of_nat (length (disk_bytes d))) (next_free_page_id_ (header_ d) * 4096))) blob). lia.
Qed.

(** C34. The blob is not protected by the page allocator: on a file that ends before the
    first free page, the next [AllocatePages] hands out the very page the metadata blob
    starts at, the header still points there, and after the pages are written
    [ReadMetadataBlob] reads page data in place of the metadata (until the next
    [WriteMetadataBlob] moves the blob). *)
Theorem allocated_pages_overwrite_metadata d d1 d2 d3 d4 blob bs data n p u v :
  disk_wf d -> blob <> [] -> Z.of_nat (length (disk_bytes d)) < 2 ^ 63 ->
  Z.of_nat (length (disk_bytes d)) <= next_free_page_id_ (header_ d) * 4096 ->
  0 < n -> next_free_page_id_ (header_ d) + n < 2 ^ 32 ->
  WriteMetadataBlob blob d = (Ok u, d1) ->
  AllocatePages n d1 = (Ok p, d2) ->
  WritePages p data d2 = (Ok v, d3) ->
  ReadMetadataBlob d3 = (Ok bs, d4) ->
  meta_offset_ (header_ d3) = p * 4096 /\ data `prefix_of` bs.
Proof.
  intros Hwf Hne Hsz Hend Hn Hov HM HA HW HR.
  pose proof Hwf as ((_ & Hf) & _ & _).
  destruct (WriteMetadataBlob_Ok d blob u d1 Hwf Hne Hsz HM) as (Hwf1 & Hh1 & _).
  apply AllocatePages_Ok in HA as (_ & -> & _ & Hh2 & _); [|done|by rewrite Hh1|lia].
  rewrite Hh1 in *; simpl in *.
  apply WritePages_Ok in HW as (_ & Hd & _ & Hh3 & Hb3); [|done].
  rewrite Hh3, Hh2. simpl. rewrite Z.max_r by done. split; [done|].
  unfold ReadMetadataBlob in HR.
  apply io_bind_Ok_inv in HR as (sz & w & HS & HR). apply FileSize_Ok in HS as [-> ->].
  unfold is_u32 in Hf. set (off := Z.to_nat (next_free_page_id_ (header_ d) * 4096)) in *.
  assert (length data <> 0)%nat as Hl0 by (by intros E%nil_length_inv).
  assert (off + length data <= length (disk_bytes d3))%nat as Hlen by (rewrite Hb3, length_splice by done; lia).
  unfold mbind, io_bind, io_get in HR. rewrite Hh3, Hh2 in HR. simpl in HR. rewrite Z.max_r in HR by done.
  destruct (Z.ltb_spec (Z.of_nat (length (disk_bytes d3))) (next_free_page_id_ (header_ d) * 4096)); [simplify_eq|].
  rewrite (proj2 (Z.ltb_lt 0 _)) in HR by lia.
  apply read_all_Ok in HR as (_ & -> & _); [|lia]. fold off. exists (region (disk_bytes d3) (off + length data)
    (length (disk_bytes d3) - off - length data)).
  replace (Z.to_nat (_ - _)) with (length data + (length (disk_bytes d3) - off - length data))%nat by lia.
  rewrite region_plus. f_equal. rewrite Hb3. apply region_splice_same.
Qed.

Context `{!ReliableFile F}.

Lemma read_all_total n off e d :
  0 <= off -> (Z.to_nat off + n <= length (disk_bytes d))%nat ->
  read_all n off e d = (Ok (region (disk_bytes d) (Z.to_nat off) n), d).
Proof.
  intros Hoff Hle. destruct (pread_total (fd_ d) n off Hoff) as (bs & E & Hl).
  pose proof (pread_prefix _ _ _ _ Hoff E) as Hp. fold (disk_bytes d) in *.
  assert (length bs = n) as Hn.
  { destruct Hl as [|[Hl Hl']]; [done|]. unfold disk_bytes in *. lia. }
  unfold read_all. rewrite E, decide_True by done. do 2 f_equal.
  apply prefix_length_eq; [done|]. pose proof (length_region (disk_bytes d) (Z.to_nat off) n Hle). lia.
Qed.

Lemma write_all_total bytes off e d :
  0 <= off -> exists f', write_all bytes off e d = (Ok tt, mk_disk f' (header_ d)).
Proof.
  intros Hoff. unfold write_all. destruct (pwrite_total (fd_ d) bytes off Hoff) as [f' ->].
  rewrite decide_True by done. eauto.
Qed.

Lemma WriteMetadataBlob_total blob d : exists d', WriteMetadataBlob blob d = (Ok tt, d').
Proof.
  unfold WriteMetadataBlob, NextFreePageId, FileSize, SetMetaOffset, PersistHeader, mbind, io_bind.
  destruct (fstat_total (fd_ d)) as [sz Hs]. rewrite Hs. pose proof (fstat_size _ _ Hs) as ->.
  case_bool_decide.
  - unfold mret, io_ret. edestruct write_all_total as [f' ->]; [done|]. eauto.
  - edestruct write_all_total as [f' ->]; [lia|]. edestruct write_all_total as [f'' ->]; [done|]. eauto.
Qed.

Lemma ReadPages_total d p n :
  is_u32 p -> p <> 0 -> 0 < n -> (Z.to_nat (p * 4096) + Z.to_nat (n * 4096) <= length (disk_bytes d))%nat ->
  ReadPages p n d = (Ok (region (disk_bytes d) (Z.to_nat (p * 4096)) (Z.to_nat (n * 4096))), d).
Proof.
  intros Hp Hp0 Hn Hle. unfold ReadPages, kHeaderPageId, kPageSizeBytes.
  rewrite (proj2 (Z.eqb_neq n 0)), (proj2 (Z.eqb_neq p 0)) by lia.
  rewrite <- (page_offset_eq p) in * by done. apply read_all_total; [|done].
  rewrite page_offset_eq by done. unfold is_u32 in *. lia.
Qed.

(** Pages written are read back unchanged, and no other page of the file
    changes: [WritePages] followed by [ReadPages] of the same range returns the data,
    and a disjoint range reads as before. *)
Theorem write_read_pages d d' p data u n q m bs :
  is_u32 p -> is_u32 q -> 0 < m ->
  WritePages p data d = (Ok u, d') -> Z.of_nat (length data) = n * 4096 ->
  (p + n <= q \/ q + m <= p) ->
  ReadPages q m d = (Ok bs, d) ->
  ReadPages p n d' = (Ok data, d') /\ ReadPages q m d' = (Ok bs, d').
Proof.
  intros Hp Hq Hm HW Hn Hdisj HR.
  apply WritePages_Ok in HW as (Hp0 & Hne & _ & Hh & Hb); [|done].
  assert (q <> 0) as Hq0.
  { intros ->. unfold ReadPages in HR. by destruct (Z.eqb_spec m 0); simplify_eq. }
  apply ReadPages_Ok in HR as (_ & -> & Hl); [|done|lia].
  assert (length data <> 0)%nat as Hl0 by (by intros E%nil_length_inv).
  assert (length (disk_bytes d') = Nat.max (length (disk_bytes d)) (Z.to_nat (p * 4096) + length data)) as Hlen
    by (rewrite Hb; by apply length_splice).
  unfold is_u32 in *.
  assert (Z.to_nat (q * 4096) + Z.to_nat (m * 4096) <= length (disk_bytes d))%nat as Hqm.
  { unfold region in Hl. rewrite length_take, length_drop in Hl. lia. }
  split.
  - rewrite ReadPages_total by (unfold is_u32; lia). do 2 f_equal. rewrite Hb.
    replace (Z.to_nat (n * 4096)) with (length data) by lia. apply region_splice_same.
  - rewrite ReadPages_total by (unfold is_u32; lia). do 2 f_equal. rewrite Hb.
    apply disk_write_below; lia.
Qed.

Lemma metadata_restart d d' blob u :
  disk_wf d -> blob <> [] -> Z.of_nat (length (disk_bytes d)) < 2 ^ 63 ->
  WriteMetadataBlob blob d = (Ok u, d') ->
  ReadMetadataBlob d' = (Ok blob, d') /\ disk_Open (Some (fd_ d')) = Ok d'.
Proof.
  intros Hwf Hne Hsz HW.
  destruct (metadata_at_end d blob u d' Hwf Hne Hsz HW) as (Hreg & Hlen & Hoff & Hge).
  destruct (WriteMetadataBlob_Ok d blob u d' Hwf Hne Hsz HW) as ((Hh & _ & Hdisk) & Hhd & _).
  destruct Hh as [[Hm0 Hm1] Hnf]. split.
  - unfold ReadMetadataBlob, FileSize, io_get.
    destruct (fstat_total (fd_ d')) as [sz Hs]. pose proof (fstat_size _ _ Hs) as ->.
    unfold mbind, io_bind. rewrite Hs. fold (disk_bytes d'). rewrite Hlen.
    assert (length blob <> 0)%nat as Hl0 by (by intros E%nil_length_inv).
    destruct (Z.ltb_spec (Z.of_nat (Z.to_nat (meta_offset_ (header_ d')) + length blob)) (meta_offset_ (header_ d')));
      [lia|].
    rewrite (proj2 (Z.ltb_lt 0 _)) by lia. rewrite read_all_total; [|lia|lia].
    replace (Z.to_nat (Z.of_nat _ - _)) with (length blob) by lia. by rewrite Hreg.
  - unfold disk_Open.
    pose proof (read_all_total kSerializedSize 0 "" d' ltac:(lia) ltac:(unfold kSerializedSize; lia)) as HR.
    unfold read_all in HR. destruct (sys_pread (fd_ d') kSerializedSize 0) as [hb|]; [|simplify_eq].
    destruct (decide (length hb = kSerializedSize)) as [Hhb|]; [|simplify_eq].
    change (Z.to_nat 0) with 0%nat in HR. rewrite Hdisk in HR. simplify_eq.
    rewrite <- (app_nil_r (header_Serialize _)), header_decodes by done. by destruct d'.
Qed.

(** C30. A metadata blob of at least one byte (the catalog writes no other) survives a restart, in
    a file of fewer than 2^63 bytes: once [WriteMetadataBlob] has returned,
    [ReadMetadataBlob] returns the blob, opening the file again gives the same
    header, and every page that was on disk still reads as before. *)
Theorem metadata_roundtrip d d' blob u :
  disk_wf d -> blob <> [] -> Z.of_nat (length (disk_bytes d)) < 2 ^ 63 ->
  WriteMetadataBlob blob d = (Ok u, d') ->
  ReadMetadataBlob d' = (Ok blob, d') /\
  disk_Open (Some (fd_ d')) = Ok d' /\
  (forall p n bs, is_u32 p -> 0 < n -> ReadPages p n d = (Ok bs, d) -> ReadPages p n d' = (Ok bs, d')).
Proof.
  intros Hwf Hne Hsz HW. destruct (metadata_restart d d' blob u Hwf Hne Hsz HW) as [HRM HO].
  destruct (metadata_at_end d blob u d' Hwf Hne Hsz HW) as (_ & Hlen & _ & Hge).
  split_and!; [done..|].
  intros p n bs Hp Hn HR. assert (p <> 0) as Hp0.
  { intros ->. unfold ReadPages in HR. by destruct (Z.eqb_spec n 0); simplify_eq. }
  apply ReadPages_Ok in HR as (_ & -> & Hl); [|done|lia].
  unfold region in Hl. rewrite length_take, length_drop in Hl. unfold is_u32 in *.
  rewrite ReadPages_total by (unfold is_u32; lia). do 2 f_equal.
  eapply metadata_keeps_pages; try done; lia.
Qed.

End DiskManagerFacts.

(** ** The theorems at a concrete file *)

(** A new file: a header and nothing else. *)
Definition fresh_disk : DiskManager mem_file :=
  let h := mk_header 20 1 in mk_disk (header_Serialize h : mem_file) h.

Lemma fresh_disk_wf : disk_wf fresh_disk.
Proof.
  split_and!; [split; done|done|]. unfold disk_bytes, contents, region. simpl.
  apply take_ge. by rewrite length_header_Serialize.
Qed.

Lemma fresh_disk_small : Z.of_nat (length (disk_bytes fresh_disk)) < 2 ^ 63.
Proof. unfold disk_bytes. simpl. by rewrite length_header_Serialize. Qed.

Lemma metadata_roundtrip_witness :
  let d' := snd (WriteMetadataBlob [x2a; x2b] fresh_disk) in
  ReadMetadataBlob d' = (Ok [x2a; x2b], d') /\ disk_Open (Some (fd_ d')) = Ok d'.
Proof.
  intros d'.
  assert (WriteMetadataBlob [x2a; x2b] fresh_disk = (Ok tt, d')) as HW by (unfold d'; vm_compute; reflexivity).
  clearbody d'. assert ([x2a; x2b] <> []) as Hne by discriminate.
  destruct (metadata_roundtrip fresh_disk d' [x2a; x2b] tt fresh_disk_wf Hne fresh_disk_small HW) as (HR & HO & _).
  exact (conj HR HO).
Defined.

(** Three blank data pages. *)
Definition blank_disk : DiskManager mem_file :=
  mk_disk (replicate (4 * Z.to_nat 4096) x00 : mem_file) (mk_header 20 4).
Definition page_of (b : byte) : list byte := replicate (Z.to_nat 4096) b.

Lemma write_read_pages_witness :
  let d' := snd (WritePages 1 (page_of x2a) blank_disk) in
  ReadPages 1 1 d' = (Ok (page_of x2a), d') /\ ReadPages 2 1 d' = (Ok (page_of x00), d').
Proof.
  intros d'.
  assert (WritePages 1 (page_of x2a) blank_disk = (Ok tt, d')) as HW by (unfold d'; vm_compute; reflexivity).
  assert (ReadPages 2 1 blank_disk = (Ok (page_of x00), blank_disk)) as HR by (vm_compute; reflexivity).
  assert (Z.of_nat (length (page_of x2a)) = 1 * 4096) as Hl by (vm_compute; reflexivity).
  clearbody d'.
  apply (write_read_pages blank_disk d' 1 (page_of x2a) tt 1 2 1 (page_of x00));
    [split; done|split; done|done|exact HW|exact Hl|left; done|exact HR].
Defined.

Lemma allocated_pages_overwrite_metadata_witness :
  let d1 := snd (WriteMetadataBlob [x2a] fresh_disk) in
  let d2 := snd (AllocatePages 1 d1) in
  let d3 := snd (WritePages 1 (page_of x00) d2) in
  meta_offset_ (header_ d3) = 1 * 4096 /\ page_of x00 `prefix_of` page_of x00.
Proof.
  intros d1 d2 d3.
  assert (WriteMetadataBlob [x2a] fresh_disk = (Ok tt, d1)) as H1 by (unfold d1; vm_compute; reflexivity).
  assert (AllocatePages 1 d1 = (Ok 1, d2)) as H2 by (unfold d2, d1; vm_compute; reflexivity).
  assert (WritePages 1 (page_of x00) d2 = (Ok tt, d3)) as H3 by (unfold d3, d2, d1; vm_compute; reflexivity).
  assert (ReadMetadataBlob d3 = (Ok (page_of x00), d3)) as H4 by (unfold d3, d2, d1; vm_compute; reflexivity).
  clearbody d1 d2 d3. assert ([x2a] <> []) as Hne by discriminate.
  assert (Z.of_nat (length (disk_bytes fresh_disk)) <= next_free_page_id_ (header_ fresh_disk) * 4096) as Hend
    by (vm_compute; discriminate).
  apply (allocated_pages_overwrite_metadata fresh_disk d1 d2 d3 d3 [x2a] (page_of x00) (page_of x00) 1 1 tt tt
    fresh_disk_wf Hne fresh_disk_small Hend); [done|done|exact H1|exact H2|exact H3|exact H4].
Defined.
