(* ===== verification/Descriptor.v ===== *)
(** Who owns the descriptor of the database file: the constructors, moves and the destructor
    of [DiskManager] ([disk_manager.cpp], lines 22 to 81). [Disk] models what a manager does
    to its file; this file models how long the file stays open and which of the
    [DiskManager] objects, of which moves leave emptied ones behind, may close it. *)

From S2P Require Import Prelude ByteIO Disk.

(** ** Objects and open descriptors *)

(** The [fd_] of each live [DiskManager], the descriptors that are open, and how often
    [close] was called on one that was not. *)
Record Process : Type := mk_process {
  objects : gmap nat Z;
  open_fds : gset Z;
  stray_closes : nat
}.
Definition no_objects : Process := mk_process ∅ ∅ 0.

(** [close(fd)]. *)
Definition sys_close (fd : Z) : io Process unit := fun s =>
  (Ok tt, if decide (fd ∈ open_fds s) then mk_process (objects s) (open_fds s ∖ {[fd]}) (stray_closes s)
          else mk_process (objects s) (open_fds s) (S (stray_closes s))).

(** [open(2)] as the kernel answered it, [None] for [-1]. *)
Definition sys_open (opened : option Z) : io Process unit := fun s =>
  (Ok tt, match opened with Some fd => mk_process (objects s) ({[fd]} ∪ open_fds s) (stray_closes s) | None => s end).

(** The field [fd_] of an object; to use an object that is not alive is undefined. *)
Definition fd_of (object : nat) : io Process Z := fun s =>
  (match objects s !! object with Some fd => Ok fd | None => Undefined end, s).
Definition set_fd (object : nat) (fd : Z) : io Process unit := fun s =>
  (Ok tt, mk_process (<[object := fd]> (objects s)) (open_fds s) (stray_closes s)).
Definition end_life (object : nat) : io Process unit := fun s =>
  (Ok tt, mk_process (delete object (objects s)) (open_fds s) (stray_closes s)).

(** [DiskManager::~DiskManager]. *)
Definition manager_destroy (this : nat) : io Process unit :=
  fd ← fd_of this;
  _ ← (if negb (fd =? -1) then sys_close fd else mret tt);
  end_life this.

(** [DiskManager::DiskManager(DiskManager&&)]. *)
Definition manager_move (this other : nat) : io Process unit :=
  fd ← fd_of other;
  _ ← set_fd this fd;
  set_fd other (-1).

(** [DiskManager::operator=(DiskManager&&)]. *)
Definition manager_assign (this other : nat) : io Process unit :=
  if negb (this =? other)%nat then
    fd ← fd_of this;
    _ ← (if negb (fd =? -1) then sys_close fd else mret tt);
    fd ← fd_of other;
    _ ← set_fd this fd;
    set_fd other (-1)
  else mret tt.

(** [DiskManager::CreateNew] into the object [this]; [persisted] is the outcome of
    [PersistHeader], which, when it throws, destroys the manager on the way out. *)
Definition manager_CreateNew (this : nat) (opened : option Z) (persisted : result unit) : io Process unit :=
  _ ← sys_open opened;
  match opened with
  | None => io_throw (RuntimeError "DiskManager::CreateNew: failed to create")
  | Some fd =>
      _ ← set_fd this fd;
      match persisted with
      | Throw e => _ ← manager_destroy this; io_throw e
      | r => io_lift r
      end
  end.

(** [DiskManager::Open] into the object [this]; [header_bytes] is what [pread] delivered. *)
Definition manager_Open (this : nat) (opened : option Z) (header_bytes : option (list byte)) : io Process unit :=
  _ ← sys_open opened;
  match opened with
  | None => io_throw (RuntimeError "DiskManager::Open: failed to open")
  | Some fd =>
      match header_bytes with
      | Some bytes =>
          if decide (length bytes = kSerializedSize) then
            match header_Deserialize bytes with
            | Throw e => _ ← sys_close fd; io_throw e
            | r => _ ← io_lift r; set_fd this fd
            end
          else (_ ← sys_close fd; io_throw (RuntimeError "DiskManager::Open: failed to read header"))
      | None => _ ← sys_close fd; io_throw (RuntimeError "DiskManager::Open: failed to read header")
      end
  end.

(** ** Events of a program *)

(** What code outside the class can do with managers: obtain one from a factory function,
    construct or assign one by moving, let one go out of scope. *)
Inductive event : Type :=
  | Created (this : nat) (opened : option Z) (persisted : result unit)
  | Opened (this : nat) (opened : option Z) (header_bytes : option (list byte))
  | Moved (this other : nat)
  | Assigned (this other : nat)
  | Destroyed (this : nat).

Definition run_event (e : event) : io Process unit :=
  match e with
  | Created this opened persisted => manager_CreateNew this opened persisted
  | Opened this opened header_bytes => manager_Open this opened header_bytes
  | Moved this other => manager_move this other
  | Assigned this other => manager_assign this other
  | Destroyed this => manager_destroy this
  end.

Definition alive (s : Process) (object : nat) : Prop := is_Some (objects s !! object).

(** [open] answers with a descriptor that is not in use. *)
Definition kernel_answers (s : Process) (opened : option Z) : Prop :=
  match opened with Some fd => 0 <= fd /\ fd ∉ open_fds s | None => True end.

(** What the language and the kernel guarantee of an event: objects are constructed where
    there is none and used while they are alive; input and output return or throw. *)
Definition allowed (s : Process) (e : event) : Prop :=
  match e with
  | Created this opened persisted =>
      ~ alive s this /\ kernel_answers s opened /\ match persisted with Ok _ | Throw _ => True | _ => False end
  | Opened this opened _ => ~ alive s this /\ kernel_answers s opened
  | Moved this other => ~ alive s this /\ alive s other
  | Assigned this other => alive s this /\ alive s other
  | Destroyed this => alive s this
  end.

Inductive process_step : Process -> Process -> Prop :=
  | process_event e s r s' : allowed s e -> run_event e s = (r, s') -> process_step s s'.

(** ** Ownership *)

(** Every open descriptor belongs to exactly one object, and an object that is not empty
    has an open one. *)
Record owned (s : Process) : Prop := {
  owned_open fd : fd ∈ open_fds s <-> fd <> -1 /\ exists object, objects s !! object = Some fd;
  owned_once a b fd : objects s !! a = Some fd -> objects s !! b = Some fd -> fd <> -1 -> a = b;
  owned_no_stray : stray_closes s = 0%nat
}.

Lemma owned_start : owned no_objects.
Proof. split; simpl; [|done..]. intros fd. split; [set_solver|]. intros (_ & object & Ho). by rewrite lookup_empty in Ho. Qed.

Section Ownership.
Context (s : Process) (Hs : owned s).

(** A new object takes a descriptor that was just opened. *)
Lemma owned_new this fd :
  objects s !! this = None -> fd ∉ open_fds s -> fd <> -1 ->
  owned (mk_process (<[this := fd]> (objects s)) ({[fd]} ∪ open_fds s) (stray_closes s)).
Proof.
  intros Hn Hf Hm. destruct Hs as [Ho Hu Hc]. split; simpl; [|intros a b fd'; rewrite !lookup_insert_Some; naive_solver|done].
  intros fd'. rewrite elem_of_union, elem_of_singleton, Ho. setoid_rewrite lookup_insert_Some. naive_solver.
Qed.

(** Closing the descriptor of an object leaves it as an empty one would be. *)
Definition released (this : nat) (fd : Z) : Process :=
  mk_process (<[this := -1]> (objects s)) (if decide (fd = -1) then open_fds s else open_fds s ∖ {[fd]}) (stray_closes s).

Lemma owned_released this fd : objects s !! this = Some fd -> owned (released this fd).
Proof.
  intros Ht. destruct Hs as [Ho Hu Hc]. split; simpl; [|intros a b fd'; rewrite !lookup_insert_Some; naive_solver|done].
  intros fd'. setoid_rewrite lookup_insert_Some. case_decide as Hm.
  - rewrite Ho. naive_solver.
  - rewrite elem_of_difference, elem_of_singleton, Ho. naive_solver.
Qed.

Lemma close_run this fd :
  objects s !! this = Some fd ->
  (if negb (fd =? -1) then sys_close fd else mret tt) s =
  (Ok tt, mk_process (objects s) (if decide (fd = -1) then open_fds s else open_fds s ∖ {[fd]}) (stray_closes s)).
Proof.
  intros Ht. destruct Hs as [Ho _ _]. destruct (Z.eqb_spec fd (-1)) as [->|Hm]; simpl; [by destruct s|].
  unfold sys_close. rewrite decide_True; [|naive_solver]. by rewrite decide_False.
Qed.

(** The descriptor of [other] passes to [this], which is new or empty. *)
Lemma owned_transfer this other fd :
  this <> other -> objects s !! this = None \/ objects s !! this = Some (-1) -> objects s !! other = Some fd ->
  owned (mk_process (<[other := -1]> (<[this := fd]> (objects s))) (open_fds s) (stray_closes s)).
Proof.
  intros Hne Ht Hf. destruct Hs as [Ho Hu Hc].
  assert (forall object fd', fd' <> -1 -> <[other := -1]> (<[this := fd]> (objects s)) !! object = Some fd' <->
    exists old, objects s !! old = Some fd' /\ object = if decide (old = other) then this else old) as Hnew.
  { intros object fd' Hm. rewrite !lookup_insert_Some. split.
    - intros [[_ ?]|[Hn [[-> ->]|[Ht' Hob]]]]; [done| |].
      + exists other. by rewrite decide_True.
      + exists object. by rewrite decide_False by congruence.
    - intros (old & Hold & ->). right. case_decide as Hd; [subst; split; [done|left; split; congruence]|]. split; [done|].
      right. split; [|done]. intros ->. destruct Ht; congruence. }
  split; simpl; [| |done].
  - intros fd'. rewrite Ho. split; intros [Hm Hex]; (split; [done|]); setoid_rewrite (fun object => Hnew object fd' Hm) in Hex || setoid_rewrite (fun object => Hnew object fd' Hm); naive_solver.
  - intros a b fd' Ha Hb Hm. apply (Hnew a fd' Hm) in Ha as (old & Ha & ->). apply (Hnew b fd' Hm) in Hb as (old' & Hb & ->).
    by rewrite (Hu old old' fd' Ha Hb Hm).
Qed.

Lemma owned_erased this :
  objects s !! this = Some (-1) -> owned (mk_process (delete this (objects s)) (open_fds s) (stray_closes s)).
Proof.
  intros Ht. destruct Hs as [Ho Hu Hc]. split; simpl; [|intros a b fd'; rewrite !lookup_delete_Some; naive_solver|done].
  intros fd'. rewrite Ho. setoid_rewrite lookup_delete_Some. naive_solver.
Qed.
End Ownership.

(** ** Every event keeps ownership *)

(** A call that returns or throws, in a state where ownership holds again. *)
Definition keeps_ownership (outcome : result unit * Process) : Prop :=
  match outcome.1 with Ok _ | Throw _ => owned outcome.2 | _ => False end.

Lemma header_Deserialize_returns bytes :
  length bytes = kSerializedSize -> (exists h, header_Deserialize bytes = Ok h) \/ exists e, header_Deserialize bytes = Throw e.
Proof.
  intros Hl. unfold header_Deserialize. rewrite decide_False by lia. case_decide as Hm; [by right; eauto|]. left.
  rewrite <- (take_drop (length kMagic) bytes), Hm. rewrite <- (take_drop 8 (drop (length kMagic) bytes)).
  eexists. rewrite <- (app_nil_r (kMagic ++ _)). apply decodes_run. eapply decodes_bind; [apply decodes_Skip|].
  eapply decodes_bind; [apply decodes_ReadU64_bytes; by rewrite length_take, length_drop, Hl|].
  apply (decodes_bind_ret _ (mk_header _)), decodes_ReadU32_bytes. by rewrite !length_drop, Hl.
Qed.

Section Events.
Context (s : Process) (Hs : owned s).

Lemma destroy_keeps this : alive s this -> keeps_ownership (manager_destroy this s).
Proof.
  intros [fd Hf]. unfold manager_destroy. erewrite io_bind_Ok; [|unfold fd_of; by rewrite Hf].
  erewrite io_bind_Ok; [|by apply (close_run s Hs this)]. unfold keeps_ownership. simpl.
  rewrite <- (delete_insert_eq (objects s) this (-1)).
  apply (owned_erased (released s this fd)); [by apply owned_released|apply lookup_insert_eq].
Qed.

Lemma move_keeps this other : ~ alive s this -> alive s other -> keeps_ownership (manager_move this other s).
Proof.
  intros Ht [fd Hf]. unfold manager_move. erewrite io_bind_Ok; [|unfold fd_of; by rewrite Hf].
  apply (owned_transfer s Hs); [|left; by apply eq_None_not_Some|done]. intros ->. apply Ht. by exists fd.
Qed.

Lemma assign_keeps this other : alive s this -> alive s other -> keeps_ownership (manager_assign this other s).
Proof.
  intros [fd Hf] [fd' Hf']. unfold manager_assign. destruct (Nat.eqb_spec this other) as [->|Hne]; [done|]. cbn [negb].
  erewrite io_bind_Ok; [|unfold fd_of; by rewrite Hf]. erewrite io_bind_Ok; [|by apply (close_run s Hs this)].
  erewrite io_bind_Ok; [|unfold fd_of; simpl; by rewrite Hf']. unfold keeps_ownership. simpl.
  rewrite <- (insert_insert_eq (objects s) this fd' (-1)).
  apply (owned_transfer (released s this fd)); [by apply owned_released|done|right; apply lookup_insert_eq|].
  simpl. by rewrite lookup_insert_ne.
Qed.

(** A descriptor that is closed before any object has it. *)
Lemma open_close fd : fd ∉ open_fds s -> (_ ← sys_open (Some fd); sys_close fd) s = (Ok tt, s).
Proof.
  intros Hf. unfold mbind, io_bind, sys_open, sys_close. simpl. rewrite decide_True by set_solver.
  destruct s as [objs fds n]; simpl in *. do 2 f_equal. set_solver.
Qed.
End Events.

Section Factories.
Context (s : Process) (Hs : owned s) (this : nat) (Hnew : ~ alive s this).

Lemma new_object fd : kernel_answers s (Some fd) ->
  owned (mk_process (<[this := fd]> (objects s)) ({[fd]} ∪ open_fds s) (stray_closes s)).
Proof. intros [Hp Hf]. apply owned_new; [done| |done|lia]. by apply eq_None_not_Some. Qed.

Lemma create_keeps opened persisted :
  kernel_answers s opened -> match persisted with Ok _ | Throw _ => True | _ => False end ->
  keeps_ownership (manager_CreateNew this opened persisted s).
Proof.
  intros Hk Hp. unfold manager_CreateNew. erewrite io_bind_Ok by done. destruct opened as [fd|]; [|done].
  erewrite io_bind_Ok by done. pose proof (new_object fd Hk) as Ho. destruct persisted as [[]|e| |]; [done| |done..].
  assert (alive (mk_process (<[this := fd]> (objects s)) ({[fd]} ∪ open_fds s) (stray_closes s)) this) as Hl
    by (eexists; apply lookup_insert_eq).
  pose proof (destroy_keeps _ Ho this Hl) as Hd. unfold keeps_ownership in *.
  unfold mbind, io_bind. simpl in *. destruct (manager_destroy this _) as [[[]|e'| |] s']; done.
Qed.

(** Every way in which [Open] fails after [open] closes the descriptor. *)
Lemma open_failed fd e :
  kernel_answers s (Some fd) -> keeps_ownership ((_ ← sys_open (Some fd); _ ← sys_close fd; io_throw e) s).
Proof.
  intros [Hp Hf]. pose proof (open_close s Hs fd Hf) as Hc. unfold mbind, io_bind in *. simpl in *. by injection Hc as ->.
Qed.

Lemma open_keeps opened header_bytes :
  kernel_answers s opened -> keeps_ownership (manager_Open this opened header_bytes s).
Proof.
  intros Hk. destruct opened as [fd|]; [|done]. unfold manager_Open.
  destruct header_bytes as [bytes|]; [|by apply open_failed]. case_decide as Hl; [|by apply open_failed].
  destruct (header_Deserialize_returns bytes Hl) as [[h ->]|[e ->]]; [|by apply open_failed]. by apply new_object.
Qed.
End Factories.

Lemma event_keeps s e : owned s -> allowed s e -> keeps_ownership (run_event e s).
Proof.
  intros Hs He. destruct e; simpl in *; naive_solver eauto using create_keeps, open_keeps, move_keeps, assign_keeps, destroy_keeps.
Qed.

Lemma reachable_owned s : rtc process_step no_objects s -> owned s.
Proof.
  pose proof owned_start as Hstart. revert Hstart. generalize no_objects. intros start Hstart Hr. revert Hstart. induction Hr as [|s1 s2 s3 Hstep _ IH]; [done|]. intros Hs. apply IH.
  destruct Hstep as [e s1 r s2 He Hrun]. pose proof (event_keeps _ _ Hs He) as Hk. unfold keeps_ownership in Hk.
  rewrite Hrun in Hk. by destruct r.
Qed.

(** C31. In every state that a program can reach by creating, opening, moving, assigning and
    destroying [DiskManager]s, whatever [open], [pread] and the header say: a further
    event returns or throws; [close] has never been called on a descriptor that was not
    open; every open descriptor is the [fd_] of exactly one object, so that none is lost,
    not even when a factory function throws; and with the last object the last
    descriptor is closed. *)
Theorem descriptors_owned s :
  rtc process_step no_objects s ->
  (forall e, allowed s e -> match (run_event e s).1 with Ok _ | Throw _ => True | _ => False end) /\
  stray_closes s = 0%nat /\
  (forall fd, fd ∈ open_fds s -> exists! object, objects s !! object = Some fd) /\
  (objects s = ∅ -> open_fds s = ∅).
Proof.
  intros Hs%reachable_owned. pose proof Hs as [Ho Hu Hc]. split_and!; [| done| |].
  - intros e He. pose proof (event_keeps s e Hs He) as Hk. unfold keeps_ownership in Hk. by destruct (run_event e s).1.
  - intros fd (Hm & object & Hf)%Ho. exists object. split; [done|]. intros b Hb. by apply (Hu object b fd).
  - intros He. apply set_eq. intros fd. rewrite Ho, He. setoid_rewrite lookup_empty. set_solver.
Qed.

(** A file is created, moved into a catalog, and the emptied local is destroyed. *)
Definition demo_events : list event := [Created 0 (Some 3) (Ok tt); Moved 1 0; Destroyed 0].
Definition demo_process : Process := foldl (fun s e => (run_event e s).2) no_objects demo_events.

Lemma descriptors_owned_witness :
  stray_closes demo_process = 0%nat /\ open_fds demo_process = {[3]} /\ objects demo_process = {[1%nat := 3]}.
Proof.
  split_and!; [|vm_compute; reflexivity..]. apply descriptors_owned.
  eapply rtc_l; [apply (process_event (Created 0 (Some 3) (Ok tt)) _ (Ok tt)); [|reflexivity]|].
  { split; [by intros [? ?]|]. by split. }
  eapply rtc_l; [apply (process_event (Moved 1 0) _ (Ok tt)); [|reflexivity]|].
  { split; [by intros [? ?]|by eexists]. }
  eapply rtc_l; [apply (process_event (Destroyed 0) _ (Ok tt)); [|reflexivity]|apply rtc_refl].
  by eexists.
Defined.
