(* ===== verification/Replacer.v ===== *)
(** Model of [src/storage/replacer.cpp]: the LRU replacer of the buffer pool. The
    [std::list] is a list of nodes with an identity, so that [position_], which holds
    list iterators, is a map to node identities. A [frame_id_t] is a natural
    number (it is used as a vector index). The second half refines it to an
    abstract machine, the list of (frame, evictable) pairs from least to most
    recently used. *)

From S2P Require Import Prelude.

Record LruReplacer : Type := mk_lru {
  evictable_count_ : Z;
  lru_order_ : list (nat * nat);   (* (node, frame), front = least recently used *)
  position_ : gmap nat nat;
  entries_ : gmap nat bool;         (* FrameEntry::evictable *)
  next_node : nat;                         (* the allocator's next list node *)
}.

Definition new_lru : LruReplacer := mk_lru 0 [] ∅ ∅ 0.

(** [lru_order_.erase(it)]: undefined when the iterator is not in the list. *)
Definition erase_node (n : nat) (l : list (nat * nat)) : result (list (nat * nat)) :=
  if decide (n ∈ l.*1) then Ok (filter (fun e => e.1 <> n) l) else Undefined.

Definition RecordAccess (r : LruReplacer) (frame_id : nat) : result LruReplacer :=
  '(order, entries) ← match position_ r !! frame_id with
    | Some it => order ← erase_node it (lru_order_ r); mret (order, entries_ r)
    | None =>
        (* emplace keeps an existing entry *)
        mret (lru_order_ r, match entries_ r !! frame_id with
                            | Some _ => entries_ r
                            | None => <[frame_id := false]> (entries_ r)
                            end)
    end;
  mret (mk_lru (evictable_count_ r) (order ++ [(next_node r, frame_id)])
          (<[frame_id := next_node r]> (position_ r)) entries (S (next_node r))).

Definition SetEvictable (r : LruReplacer) (frame_id : nat) (set_evictable : bool) : result LruReplacer :=
  match entries_ r !! frame_id with
  | None => Throw (OutOfRange "LruReplacer::SetEvictable: unknown frame_id")
  | Some evictable =>
      if eqb evictable set_evictable then mret r
      else mret (mk_lru (u64 (evictable_count_ r + (if set_evictable then 1 else -1)))
                   (lru_order_ r) (position_ r) (<[frame_id := set_evictable]> (entries_ r)) (next_node r))
  end.

(** [entries_.at]. *)
Definition entries_at (r : LruReplacer) (frame_id : nat) : result bool :=
  match entries_ r !! frame_id with Some e => Ok e | None => Throw (OutOfRange "unordered_map::at") end.

(** The scan of [Evict] from the node list [todo] on. *)
Fixpoint find_victim (r : LruReplacer) (todo : list (nat * nat)) : result (option (nat * nat)) :=
  match todo with
  | [] => mret None
  | (it, frame) :: todo' =>
      evictable ← entries_at r frame;
      if evictable : bool then mret (Some (it, frame)) else find_victim r todo'
  end.

Definition forget (r : LruReplacer) (it : nat) (frame_id : nat) : result LruReplacer :=
  order ← erase_node it (lru_order_ r);
  mret (mk_lru (u64 (evictable_count_ r - 1)) order
          (delete frame_id (position_ r)) (delete frame_id (entries_ r)) (next_node r)).

Definition Evict (r : LruReplacer) : result (option nat * LruReplacer) :=
  found ← find_victim r (lru_order_ r);
  match found with
  | Some (it, victim) => r' ← forget r it victim; mret (Some victim, r')
  | None => mret (None, r)
  end.

Definition Remove (r : LruReplacer) (frame_id : nat) : result LruReplacer :=
  match entries_ r !! frame_id with
  | None => mret r
  | Some evictable =>
      if negb evictable then Throw (RuntimeError "LruReplacer::Remove: frame is not evictable")
      else match position_ r !! frame_id with
           | Some it => forget r it frame_id
           | None => Throw (OutOfRange "unordered_map::at")
           end
  end.

Definition lru_Size (r : LruReplacer) : Z := evictable_count_ r.

(** ** The abstract machine *)

Fixpoint abs_flag (f : nat) (l : list (nat * bool)) : option bool :=
  match l with
  | [] => None
  | (g, e) :: l' => if decide (g = f) then Some e else abs_flag f l'
  end.

Definition abs_remove (f : nat) (l : list (nat * bool)) : list (nat * bool) := filter (fun e => e.1 <> f) l.

Definition abs_access (f : nat) (l : list (nat * bool)) : list (nat * bool) :=
  abs_remove f l ++ [(f, default false (abs_flag f l))].

Definition abs_set (f : nat) (b : bool) (l : list (nat * bool)) : list (nat * bool) :=
  map (fun e => if decide (e.1 = f) then (f, b) else e) l.

(** The least recently used evictable frame. *)
Definition abs_victim (l : list (nat * bool)) : option nat :=
  head (filter (fun e => e.2 = true) l).*1.

Definition abs_size (l : list (nat * bool)) : nat := length (filter (fun e => e.2 = true) l).

(** Calls of the replacer, and what a call gives back. *)
Inductive lru_op : Type :=
  | OpRecordAccess (f : nat)
  | OpSetEvictable (f : nat) (b : bool)
  | OpEvict
  | OpRemove (f : nat)
  | OpSize.

Inductive lru_out : Type :=
  | OutDone
  | OutVictim (v : option nat)
  | OutSize (n : Z)
  | OutThrow (e : exn).

Definition lru_step (op : lru_op) (r : LruReplacer) : result (lru_out * LruReplacer) :=
  let caught (m : result LruReplacer) :=
    match m with
    | Ok r' => Ok (OutDone, r')
    | Throw e => Ok (OutThrow e, r)
    | Undefined => Undefined
    | OutOfFuel => OutOfFuel
    end in
  match op with
  | OpRecordAccess f => caught (RecordAccess r f)
  | OpSetEvictable f b => caught (SetEvictable r f b)
  | OpEvict => '(v, r') ← Evict r; mret (OutVictim v, r')
  | OpRemove f => caught (Remove r f)
  | OpSize => mret (OutSize (lru_Size r), r)
  end.

Definition abs_step (op : lru_op) (l : list (nat * bool)) : lru_out * list (nat * bool) :=
  match op with
  | OpRecordAccess f => (OutDone, abs_access f l)
  | OpSetEvictable f b =>
      match abs_flag f l with
      | None => (OutThrow (OutOfRange "LruReplacer::SetEvictable: unknown frame_id"), l)
      | Some _ => (OutDone, abs_set f b l)
      end
  | OpEvict =>
      (OutVictim (abs_victim l), match abs_victim l with Some v => abs_remove v l | None => l end)
  | OpRemove f =>
      match abs_flag f l with
      | None => (OutDone, l)
      | Some false => (OutThrow (RuntimeError "LruReplacer::Remove: frame is not evictable"), l)
      | Some true => (OutDone, abs_remove f l)
      end
  | OpSize => (OutSize (u64 (Z.of_nat (abs_size l))), l)
  end.

Fixpoint lru_run (ops : list lru_op) (r : LruReplacer) : result (list lru_out * LruReplacer) :=
  match ops with
  | [] => Ok ([], r)
  | op :: ops' =>
      '(o, r1) ← lru_step op r;
      '(os, r2) ← lru_run ops' r1;
      mret (o :: os, r2)
  end.

Fixpoint abs_run (ops : list lru_op) (l : list (nat * bool)) : list lru_out * list (nat * bool) :=
  match ops with
  | [] => ([], l)
  | op :: ops' =>
      let '(o, l1) := abs_step op l in
      let '(os, l2) := abs_run ops' l1 in
      (o :: os, l2)
  end.

(** ** The invariant and the abstraction *)

Definition flag (r : LruReplacer) (f : nat) : bool := default false (entries_ r !! f).

Definition lru_view (r : LruReplacer) : list (nat * bool) :=
  map (fun e => (e.2, flag r e.2)) (lru_order_ r).

Definition lru_wf (r : LruReplacer) : Prop :=
  NoDup (lru_order_ r).*1 /\ NoDup (lru_order_ r).*2 /\
  (forall e, e ∈ lru_order_ r -> (e.1 < next_node r)%nat) /\
  (forall f n, position_ r !! f = Some n <-> (n, f) ∈ lru_order_ r) /\
  (forall f, is_Some (entries_ r !! f) <-> f ∈ (lru_order_ r).*2) /\
  evictable_count_ r = u64 (Z.of_nat (abs_size (lru_view r))).

Lemma new_lru_wf : lru_wf new_lru.
Proof.
  unfold lru_wf, new_lru. simpl. split_and!; [constructor|constructor|set_solver| | |done].
  - intros f n. rewrite lookup_empty. set_solver.
  - intros f. rewrite lookup_empty. split; [by intros [? ?]|set_solver].
Qed.

Lemma order_node_frame r n f e :
  lru_wf r -> (n, f) ∈ lru_order_ r -> e ∈ lru_order_ r -> e.1 = n <-> e.2 = f.
Proof.
  intros (H1 & H2 & _) Hnf He.
  apply list_elem_of_lookup in Hnf as [i Hi]. apply list_elem_of_lookup in He as [j Hj].
  split; intros Heq.
  - assert (i = j) as ->; [|rewrite Hi in Hj; by injection Hj as <-].
    eapply NoDup_lookup; [exact H1| |]; rewrite list_lookup_fmap; [by rewrite Hi|by rewrite Hj; simpl; rewrite Heq].
  - assert (i = j) as ->; [|rewrite Hi in Hj; by injection Hj as <-].
    eapply NoDup_lookup; [exact H2| |]; rewrite list_lookup_fmap; [by rewrite Hi|by rewrite Hj; simpl; rewrite Heq].
Qed.

(** Erasing the node of a frame is erasing the frame. *)
Lemma erase_node_frame r n f :
  lru_wf r -> (n, f) ∈ lru_order_ r ->
  erase_node n (lru_order_ r) = Ok (filter (fun e => e.2 <> f) (lru_order_ r)).
Proof.
  intros Hwf Hin. unfold erase_node. rewrite decide_True by (apply list_elem_of_fmap; by exists (n, f)).
  f_equal. apply filter_ext_in. intros e He. by rewrite (order_node_frame r n f e).
Qed.

Lemma abs_remove_view r f : abs_remove f (lru_view r) =
  map (fun e => (e.2, flag r e.2)) (filter (fun e => e.2 <> f) (lru_order_ r)).
Proof.
  unfold abs_remove, lru_view. generalize (lru_order_ r). intros l.
  induction l as [|e l IH]; [done|]. simpl. rewrite !filter_cons. simpl. rewrite IH. by case_decide.
Qed.

Lemma view_frames r : (lru_view r).*1 = (lru_order_ r).*2.
Proof. unfold lru_view. rewrite <- list_fmap_compose. by apply list_fmap_ext. Qed.

Lemma abs_flag_map (g : nat -> bool) (l : list (nat * nat)) f :
  abs_flag f (map (fun e => (e.2, g e.2)) l) = if decide (f ∈ l.*2) then Some (g f) else None.
Proof.
  induction l as [|[n h] l IH]; simpl.
  - done.
  - rewrite IH. destruct (decide (h = f)) as [->|Hne].
    + by rewrite decide_True by constructor.
    + destruct (decide (f ∈ l.*2)); [by rewrite decide_True by by constructor|].
      rewrite decide_False; [done|]. by intros [->|]%elem_of_cons.
Qed.

Lemma abs_flag_view r f : lru_wf r -> abs_flag f (lru_view r) = entries_ r !! f.
Proof.
  intros (_ & _ & _ & _ & He & _). unfold lru_view. rewrite abs_flag_map. unfold flag.
  case_decide as Hf; rewrite <- He in Hf.
  - destruct Hf as [b Hb]. by rewrite Hb.
  - by apply eq_None_not_Some in Hf.
Qed.

Lemma abs_flag_None f l : abs_flag f l = None -> f ∉ l.*1.
Proof.
  induction l as [|[g b] l IH]; simpl; [intros _ ?%elem_of_nil; done|].
  case_decide; [done|]. intros Hf [->|Hin]%elem_of_cons; [done|]. by apply IH.
Qed.

Lemma abs_remove_absent f l : f ∉ l.*1 -> abs_remove f l = l.
Proof.
  induction l as [|[g b] l IH]; simpl; intros Hf; [done|]. apply not_elem_of_cons in Hf as [Hne Hf].
  unfold abs_remove. rewrite filter_cons, decide_True by (simpl; intros ->; done).
  f_equal. by apply IH.
Qed.

Lemma abs_size_cons g b l : abs_size ((g, b) :: l) = ((if b then 1 else 0) + abs_size l)%nat.
Proof. unfold abs_size. rewrite filter_cons. simpl. by destruct b. Qed.

Lemma abs_size_remove f b l :
  NoDup l.*1 -> abs_flag f l = Some b ->
  abs_size l = ((if b then 1 else 0) + abs_size (abs_remove f l))%nat.
Proof.
  induction l as [|[g c] l IH]; simpl; [done|]. intros [Hg HN]%NoDup_cons.
  rewrite abs_size_cons. unfold abs_remove. rewrite filter_cons. simpl.
  destruct (decide (g = f)) as [->|Hne].
  - intros [= ->]. rewrite decide_False by congruence.
    fold (abs_remove f l). by rewrite abs_remove_absent.
  - intros Hf. rewrite decide_True by congruence. fold (abs_remove f l).
    rewrite abs_size_cons, (IH HN Hf). lia.
Qed.

Lemma abs_set_absent f b l : f ∉ l.*1 -> abs_set f b l = l.
Proof.
  induction l as [|[g c] l IH]; simpl; intros Hf; [done|]. apply not_elem_of_cons in Hf as [Hne Hf].
  unfold abs_set in *. rewrite IH by done. by rewrite decide_False by congruence.
Qed.

Lemma abs_size_set f b c l :
  NoDup l.*1 -> abs_flag f l = Some c ->
  (abs_size (abs_set f b l) + (if c then 1 else 0) = abs_size l + (if b then 1 else 0))%nat.
Proof.
  induction l as [|[g d] l IH]; simpl; [done|]. intros [Hg HN]%NoDup_cons.
  destruct (decide (g = f)) as [->|Hne].
  - intros [= ->]. fold (abs_set f b l). rewrite abs_set_absent by done. rewrite !abs_size_cons. lia.
  - intros Hf. fold (abs_set f b l). rewrite !abs_size_cons. specialize (IH HN Hf). lia.
Qed.

Lemma abs_size_access f l : NoDup l.*1 -> abs_size (abs_access f l) = abs_size l.
Proof.
  intros HN. unfold abs_access, abs_size at 1. rewrite filter_app, length_app.
  change (length (filter _ (abs_remove f l))) with (abs_size (abs_remove f l)).
  destruct (abs_flag f l) as [b|] eqn:Eb; simpl.
  - rewrite (abs_size_remove f b l), filter_cons by done. destruct b; simpl; lia.
  - rewrite abs_remove_absent; [simpl; lia|]. by apply abs_flag_None.
Qed.

Lemma abs_victim_size l : abs_victim l = None <-> abs_size l = 0%nat.
Proof.
  unfold abs_victim, abs_size. destruct (filter _ l); simpl; split; by intros.
Qed.

Lemma u64_add x y : u64 (u64 x + y) = u64 (x + y).
Proof. unfold u64. by rewrite Zplus_mod_idemp_l. Qed.

(** Forgetting a frame: what [Evict] and [Remove] do to the structure. *)
Lemma forget_view r n f b :
  lru_wf r -> (n, f) ∈ lru_order_ r -> entries_ r !! f = Some b ->
  exists r', forget r n f = Ok r' /\ lru_view r' = abs_remove f (lru_view r) /\
    (b = true -> lru_wf r').
Proof.
  intros Hwf Hin Hb. unfold forget. rewrite (erase_node_frame r n f) by done. simpl.
  pose proof Hwf as (H1 & H2 & Hlt & Hp & He & Hc).
  set (l := filter (fun e => e.2 <> f) (lru_order_ r)).
  assert (forall e, e ∈ l <-> e ∈ lru_order_ r /\ e.2 <> f) as Hl
    by (intros e; unfold l; rewrite list_elem_of_filter; tauto).
  eexists. split; [done|].
  assert (forall c p nn, lru_view (mk_lru c l p (delete f (entries_ r)) nn) = abs_remove f (lru_view r)) as Hview.
  { intros c p nn. rewrite abs_remove_view. unfold lru_view. simpl. apply map_ext_in.
    intros e [_ Hne]%list_elem_of_In%Hl. unfold flag. simpl. by rewrite lookup_delete_ne. }
  split; [apply Hview|]. intros ->. unfold lru_wf. rewrite Hview. simpl.
  split_and!.
  - eapply sublist_NoDup; [exact H1|]. apply fmap_sublist, sublist_filter.
  - eapply sublist_NoDup; [exact H2|]. apply fmap_sublist, sublist_filter.
  - intros e [? _]%Hl. by apply Hlt.
  - intros g m. rewrite lookup_delete_Some, Hp, Hl. simpl. intuition congruence.
  - intros g. destruct (decide (g = f)) as [->|Hne].
    + rewrite lookup_delete_eq. split; [by intros [? ?]|].
      intros ([? ?] & -> & [_ ?]%Hl)%list_elem_of_fmap. done.
    + rewrite lookup_delete_ne, He by done.
      rewrite !list_elem_of_fmap. setoid_rewrite Hl. naive_solver.
  - pose proof (abs_size_remove f true (lru_view r)) as Hs.
    rewrite view_frames, abs_flag_view in Hs by done. rewrite Hs in Hc by done.
    rewrite Hc. rewrite <- Z.add_opp_r, u64_add. f_equal. lia.
Qed.

(** ** Each operation implements the abstract one *)

(** The list and the entries that [RecordAccess] has before it appends the new node. *)
Definition other_nodes (r : LruReplacer) (f : nat) : list (nat * nat) := filter (fun e => e.2 <> f) (lru_order_ r).
Definition with_entry (r : LruReplacer) (f : nat) : gmap nat bool :=
  match entries_ r !! f with Some _ => entries_ r | None => <[f:=false]> (entries_ r) end.

Lemma elem_of_other_nodes r f e : e ∈ other_nodes r f <-> e ∈ lru_order_ r /\ e.2 <> f.
Proof. unfold other_nodes. rewrite list_elem_of_filter. tauto. Qed.

Lemma RecordAccess_lists r f :
  lru_wf r ->
  match position_ r !! f with
  | Some it => order ← erase_node it (lru_order_ r); mret (order, entries_ r)
  | None => mret (lru_order_ r, with_entry r f)
  end = Ok (other_nodes r f, with_entry r f).
Proof.
  intros Hwf. pose proof Hwf as (_ & _ & _ & Hp & He & _). unfold with_entry. destruct (position_ r !! f) as [n|] eqn:Hn.
  - apply Hp in Hn. rewrite (erase_node_frame r n f) by done. simpl.
    assert (is_Some (entries_ r !! f)) as [b ->]; [|done]. apply He, list_elem_of_fmap. by exists (n, f).
  - assert (f ∉ (lru_order_ r).*2) as Hf.
    { intros ([n g] & Heq & Hin)%list_elem_of_fmap. simpl in Heq. subst g. apply Hp in Hin. congruence. }
    unfold other_nodes. rewrite filter_all; [done|]. intros e Hin Heq. subst f. by apply Hf, list_elem_of_fmap_2.
Qed.

Lemma with_entry_flag r f g : default false (with_entry r f !! g) = flag r g.
Proof.
  unfold with_entry, flag. destruct (entries_ r !! f) eqn:E; [done|].
  destruct (decide (g = f)) as [->|]; [by rewrite lookup_insert_eq, E|by rewrite lookup_insert_ne].
Qed.

Lemma with_entry_frames r f :
  lru_wf r -> forall g, is_Some (with_entry r f !! g) <-> g ∈ (other_nodes r f).*2 \/ g = f.
Proof.
  intros (_ & _ & _ & _ & He & _) g. unfold with_entry.
  assert (g ∈ (other_nodes r f).*2 <-> g ∈ (lru_order_ r).*2 /\ g <> f) as ->.
  { rewrite !list_elem_of_fmap. setoid_rewrite elem_of_other_nodes. naive_solver. }
  rewrite <- He. destruct (decide (g = f)) as [->|Hne].
  - destruct (entries_ r !! f) eqn:E; [rewrite E|rewrite lookup_insert_eq]; naive_solver.
  - destruct (entries_ r !! f) eqn:E; [|rewrite lookup_insert_ne by done]; naive_solver.
Qed.

Lemma RecordAccess_view r f :
  lru_wf r -> exists r', RecordAccess r f = Ok r' /\ lru_wf r' /\ lru_view r' = abs_access f (lru_view r).
Proof.
  intros Hwf. pose proof Hwf as (H1 & H2 & Hlt & Hp & He & Hc). unfold RecordAccess.
  pose proof (RecordAccess_lists r f Hwf) as Horder. unfold with_entry at 1 in Horder. rewrite Horder. simpl. clear Horder.
  eexists. split; [done|]. pose proof (elem_of_other_nodes r f) as Hl.
  match goal with |- lru_wf ?r' /\ _ => assert (lru_view r' = abs_access f (lru_view r)) as Hview end.
  { unfold abs_access. rewrite abs_remove_view, abs_flag_view by done. unfold lru_view. simpl.
    rewrite map_app. simpl. f_equal; [apply map_ext; intros e; f_equal|do 2 f_equal]; apply with_entry_flag. }
  split; [|done]. unfold lru_wf. rewrite Hview. simpl. rewrite !fmap_app.
  split_and!.
  - apply NoDup_app. split_and!; [|intros n Hn Hn'|apply NoDup_singleton].
    + eapply sublist_NoDup; [exact H1|]. apply fmap_sublist, sublist_filter.
    + apply list_elem_of_fmap in Hn as (e & -> & [Hin _]%Hl). apply list_elem_of_singleton in Hn'.
      specialize (Hlt e Hin). simpl in Hn'. lia.
  - apply NoDup_app. split_and!; [|intros n Hn Hn'|apply NoDup_singleton].
    + eapply sublist_NoDup; [exact H2|]. apply fmap_sublist, sublist_filter.
    + apply list_elem_of_fmap in Hn as (e & -> & [_ Hne]%Hl). by apply list_elem_of_singleton in Hn'.
  - intros e [[Hin _]%Hl| ->%list_elem_of_singleton]%elem_of_app; simpl; [specialize (Hlt e Hin)|]; lia.
  - intros g n. rewrite elem_of_app, list_elem_of_singleton, Hl. simpl.
    destruct (decide (g = f)) as [->|Hne].
    + rewrite lookup_insert_eq. naive_solver.
    + rewrite lookup_insert_ne, Hp by done. naive_solver.
  - intros g. rewrite elem_of_app. simpl. rewrite list_elem_of_singleton. by apply with_entry_frames.
  - rewrite Hc. do 2 f_equal. rewrite abs_size_access; [done|]. by rewrite view_frames.
Qed.

Lemma SetEvictable_view r f b :
  lru_wf r ->
  match abs_flag f (lru_view r) with
  | None => SetEvictable r f b = Throw (OutOfRange "LruReplacer::SetEvictable: unknown frame_id")
  | Some _ => exists r', SetEvictable r f b = Ok r' /\ lru_wf r' /\ lru_view r' = abs_set f b (lru_view r)
  end.
Proof.
  intros Hwf. pose proof Hwf as (H1 & H2 & Hlt & Hp & He & Hc). rewrite abs_flag_view by done.
  unfold SetEvictable. destruct (entries_ r !! f) as [c|] eqn:Ef; [|done].
  assert (forall cc ents nn, (forall g, default false (ents !! g) = if decide (g = f) then b else flag r g) ->
    lru_view (mk_lru cc (lru_order_ r) (position_ r) ents nn) = abs_set f b (lru_view r)) as Hview.
  { intros cc ents nn Hents. unfold lru_view, abs_set. rewrite map_map. simpl. apply map_ext. intros e.
    simpl. unfold flag at 1. simpl. rewrite Hents. case_decide; [by subst|done]. }
  destruct (Bool.eqb_spec c b) as [->|Hne].
  - exists r. split_and!; [done..|]. destruct r as [cc o p ents nn]. apply Hview. intros g.
    case_decide; [subst; simpl in Ef; by rewrite Ef|done].
  - eexists. split; [done|]. simpl.
    assert (forall g, default false ((<[f:=b]> (entries_ r) : gmap nat bool) !! g) =
                      if decide (g = f) then b else flag r g) as Hents.
    { intros g. case_decide; [subst; by rewrite lookup_insert_eq|by rewrite lookup_insert_ne]. }
    rewrite Hview by done. split; [|done]. unfold lru_wf. rewrite Hview by done. simpl.
    split_and!; try done.
    + intros g. rewrite <- He. destruct (decide (g = f)) as [->|].
      * rewrite lookup_insert_eq, Ef. split; eauto.
      * by rewrite lookup_insert_ne.
    + pose proof (abs_size_set f b c (lru_view r)) as Hs.
      rewrite view_frames, abs_flag_view in Hs by done. specialize (Hs H2 Ef).
      rewrite Hc, u64_add. f_equal. destruct b, c; simpl in *; try done; lia.
Qed.

(** The scan stops at the first evictable frame. *)
Lemma find_victim_view r todo :
  (forall e, e ∈ todo -> is_Some (entries_ r !! e.2)) ->
  exists o, find_victim r todo = Ok o /\
    snd <$> o = head (filter (fun e => e.2 = true) (map (fun e => (e.2, flag r e.2)) todo)).*1 /\
    forall e, o = Some e -> e ∈ todo /\ entries_ r !! e.2 = Some true.
Proof.
  induction todo as [|[n f] todo IH]; intros Htodo; simpl; [by exists None|].
  destruct (Htodo (n, f)) as [b Hb]; [constructor|]. simpl in Hb.
  unfold entries_at. rewrite Hb. simpl. rewrite filter_cons. simpl.
  assert (flag r f = b) as -> by by unfold flag; rewrite Hb.
  destruct b; simpl.
  - exists (Some (n, f)). split_and!; [done..|]. intros e [= <-]. split; [constructor|done].
  - destruct IH as (o & -> & Ho & Hin); [intros e He; apply Htodo; by constructor|].
    exists o. split_and!; [done..|]. intros e He. destruct (Hin e He). split; [by constructor|done].
Qed.

Lemma Evict_view r :
  lru_wf r ->
  exists r', Evict r = Ok (abs_victim (lru_view r), r') /\ lru_wf r' /\
    lru_view r' = match abs_victim (lru_view r) with
                  | Some v => abs_remove v (lru_view r) | None => lru_view r end.
Proof.
  intros Hwf. pose proof Hwf as (H1 & H2 & Hlt & Hp & He & Hc).
  destruct (find_victim_view r (lru_order_ r)) as (o & Hf & Ho & Hin).
  { intros e Hin. apply He. by apply list_elem_of_fmap_2. }
  unfold Evict. rewrite Hf. simpl. unfold abs_victim, lru_view at 1 3. rewrite <- Ho.
  destruct o as [[n f]|]; simpl; [|by exists r].
  destruct (Hin (n, f)) as [Hel Hb]; [done|]. simpl in Hb.
  destruct (forget_view r n f true Hwf Hel Hb) as (r' & -> & Hv & Hwf'). simpl.
  exists r'. split_and!; [done|by apply Hwf'|done].
Qed.

Lemma Remove_view r f :
  lru_wf r ->
  match abs_flag f (lru_view r) with
  | None => Remove r f = Ok r
  | Some false => Remove r f = Throw (RuntimeError "LruReplacer::Remove: frame is not evictable")
  | Some true => exists r', Remove r f = Ok r' /\ lru_wf r' /\ lru_view r' = abs_remove f (lru_view r)
  end.
Proof.
  intros Hwf. pose proof Hwf as (H1 & H2 & Hlt & Hp & He & Hc). rewrite abs_flag_view by done.
  unfold Remove. destruct (entries_ r !! f) as [[]|] eqn:Ef; simpl; [|done|done].
  assert (f ∈ (lru_order_ r).*2) as ([n g] & Hg & Hel)%list_elem_of_fmap by (apply He; rewrite Ef; eauto).
  simpl in Hg. subst g. rewrite (proj2 (Hp f n) Hel).
  destruct (forget_view r n f true Hwf Hel Ef) as (r' & -> & Hv & Hwf').
  exists r'. split_and!; [done|by apply Hwf'|done].
Qed.

Lemma lru_step_view op r :
  lru_wf r -> exists r', lru_step op r = Ok (fst (abs_step op (lru_view r)), r') /\ lru_wf r' /\
    lru_view r' = snd (abs_step op (lru_view r)).
Proof.
  intros Hwf. destruct op as [f|f b| |f|]; simpl.
  - destruct (RecordAccess_view r f Hwf) as (r' & -> & ? & ?). eauto.
  - pose proof (SetEvictable_view r f b Hwf) as HS. destruct (abs_flag f (lru_view r)).
    + destruct HS as (r' & -> & ? & ?). eauto.
    + rewrite HS. eauto.
  - destruct (Evict_view r Hwf) as (r' & -> & ? & ?). eauto.
  - pose proof (Remove_view r f Hwf) as HR. destruct (abs_flag f (lru_view r)) as [[]|].
    + destruct HR as (r' & -> & ? & ?). eauto.
    + rewrite HR. eauto.
    + rewrite HR. eauto.
  - exists r. split_and!; [|done|done]. unfold lru_Size. by destruct Hwf as (_ & _ & _ & _ & _ & <-).
Qed.

Lemma lru_run_view ops r :
  lru_wf r -> exists r', lru_run ops r = Ok (fst (abs_run ops (lru_view r)), r') /\ lru_wf r' /\
    lru_view r' = snd (abs_run ops (lru_view r)).
Proof.
  revert r. induction ops as [|op ops IH]; intros r Hwf; simpl; [by exists r|].
  destruct (lru_step_view op r Hwf) as (r1 & -> & Hwf1 & Hv1). simpl.
  destruct (IH r1 Hwf1) as (r2 & -> & Hwf2 & Hv2). simpl.
  exists r2. rewrite Hv1 in Hv2 |- *.
  destruct (abs_step op (lru_view r)) as [o l1]. simpl in *. destruct (abs_run ops l1) as [os l2]. done.
Qed.

(** ** What the buffer pool uses: the effect of a call on the evictable flags *)

Lemma abs_flag_remove g f l :
  abs_flag g (abs_remove f l) = if decide (g = f) then None else abs_flag g l.
Proof.
  unfold abs_remove. induction l as [|[h b] l IH]; simpl; [by case_decide|].
  rewrite filter_cons. simpl. destruct (decide (h = f)) as [->|Hne].
  - rewrite decide_False by congruence. rewrite IH. case_decide; [done|]. by rewrite decide_False by congruence.
  - rewrite decide_True by congruence. simpl. rewrite IH.
    destruct (decide (h = g)); [|done]. by rewrite decide_False by congruence.
Qed.

Lemma abs_flag_snoc g l f b :
  abs_flag g (l ++ [(f, b)]) =
  match abs_flag g l with Some c => Some c | None => if decide (f = g) then Some b else None end.
Proof. induction l as [|[h c] l IH]; simpl; [done|]. by destruct (decide (h = g)). Qed.

Lemma abs_flag_set g f b l :
  abs_flag g (abs_set f b l) = if decide (g = f) then (fun _ => b) <$> abs_flag g l else abs_flag g l.
Proof.
  unfold abs_set. induction l as [|[h c] l IH]; simpl; [by case_decide|].
  rewrite IH. destruct (decide (h = f)) as [->|Hh]; simpl.
  - destruct (decide (g = f)) as [->|Hg]; [by rewrite !decide_True|]. by rewrite !decide_False by congruence.
  - destruct (decide (h = g)) as [->|]; [|done]. by rewrite decide_False by congruence.
Qed.

Lemma abs_victim_flag l v : abs_victim l = Some v -> NoDup l.*1 -> abs_flag v l = Some true.
Proof.
  unfold abs_victim. induction l as [|[h b] l IH]; simpl; [done|].
  rewrite filter_cons. simpl. intros Hv [Hh HN]%NoDup_cons.
  destruct b; simpl in Hv; [simplify_eq; by rewrite decide_True|].
  specialize (IH Hv HN). rewrite decide_False; [done|]. intros ->. apply Hh.
  clear -IH. induction l as [|[h c] l IHl]; simpl in *; [done|].
  case_decide; [subst; by constructor|]. constructor. auto.
Qed.

(** The number of frames [Evict] could still take. *)
Definition evictables (r : LruReplacer) : nat := abs_size (lru_view r).

(** A pool hit or a newly filled frame: the frame is known and pinned. *)
Lemma access_pin_entries r f :
  lru_wf r ->
  exists r1 r2, RecordAccess r f = Ok r1 /\ SetEvictable r1 f false = Ok r2 /\ lru_wf r2 /\
    (evictables r2 + (if decide (entries_ r !! f = Some true) then 1 else 0) = evictables r)%nat /\
    forall g, entries_ r2 !! g = if decide (g = f) then Some false else entries_ r !! g.
Proof.
  intros Hwf. destruct (RecordAccess_view r f Hwf) as (r1 & H1 & Hwf1 & Hv1).
  pose proof (SetEvictable_view r1 f false Hwf1) as HS.
  assert (forall g, abs_flag g (lru_view r1) =
    if decide (g = f) then Some (default false (entries_ r !! f)) else entries_ r !! g) as Hfl.
  { intros g. rewrite Hv1. unfold abs_access. rewrite abs_flag_snoc, abs_flag_remove, !abs_flag_view by done.
    destruct (decide (g = f)) as [->|]; [by rewrite decide_True|].
    destruct (entries_ r !! g); [done|]. by rewrite decide_False by congruence. }
  rewrite Hfl, decide_True in HS by done. destruct HS as (r2 & H2 & Hwf2 & Hv2).
  pose proof Hwf as (_ & HN & _). pose proof Hwf1 as (_ & HN1 & _). rewrite <- view_frames in HN, HN1.
  exists r1, r2. split_and!; [done..| |].
  { pose proof (abs_size_set f false (default false (entries_ r !! f)) (lru_view r1) HN1) as Hs.
    rewrite Hfl, decide_True, <- Hv2 in Hs by done. specialize (Hs eq_refl).
    rewrite Hv1, abs_size_access in Hs by done. fold (evictables r2) (evictables r) in Hs.
    destruct (entries_ r !! f) as [[]|]; simpl in *; lia. }
  intros g.
  rewrite <- (abs_flag_view r2), Hv2, abs_flag_set, !Hfl by done. by case_decide.
Qed.

Lemma Evict_entries r :
  lru_wf r ->
  exists o r', Evict r = Ok (o, r') /\ lru_wf r' /\
    match o with
    | Some v => entries_ r !! v = Some true /\ evictables r = S (evictables r') /\
        forall g, entries_ r' !! g = if decide (g = v) then None else entries_ r !! g
    | None => evictables r = 0%nat /\ evictables r' = 0%nat /\ forall g, entries_ r' !! g = entries_ r !! g
    end.
Proof.
  intros Hwf. destruct (Evict_view r Hwf) as (r' & HE & Hwf' & Hv). exists (abs_victim (lru_view r)), r'.
  split_and!; [done..|]. pose proof Hwf as (_ & HN & _). rewrite <- view_frames in HN.
  unfold evictables. destruct (abs_victim (lru_view r)) as [v|] eqn:Ev.
  - apply abs_victim_flag in Ev as Ef; [|done]. split_and!.
    + by rewrite <- (abs_flag_view r).
    + by rewrite Hv, (abs_size_remove v true).
    + intros g. by rewrite <- (abs_flag_view r'), Hv, abs_flag_remove, abs_flag_view by done.
  - rewrite Hv. apply abs_victim_size in Ev. split_and!; [done..|].
    intros g. by rewrite <- (abs_flag_view r'), Hv, abs_flag_view by done.
Qed.

Lemma SetEvictable_entries r f (b c : bool) :
  lru_wf r -> entries_ r !! f = Some c ->
  exists r', SetEvictable r f b = Ok r' /\ lru_wf r' /\
    (evictables r' + (if c then 1 else 0) = evictables r + (if b then 1 else 0))%nat /\
    forall g, entries_ r' !! g = if decide (g = f) then Some b else entries_ r !! g.
Proof.
  intros Hwf Hc. pose proof Hwf as (_ & HN & _). rewrite <- view_frames in HN. pose proof (SetEvictable_view r f b Hwf) as HS. rewrite abs_flag_view, Hc in HS by done.
  destruct HS as (r' & -> & Hwf' & Hv). exists r'. split_and!; [done..| |].
  { unfold evictables. rewrite Hv. apply abs_size_set; [done|]. by rewrite abs_flag_view. }
  intros g. rewrite <- (abs_flag_view r'), Hv, abs_flag_set, abs_flag_view by done.
  case_decide; [subst; by rewrite Hc|done].
Qed.

(** C29. The LRU replacer refines the abstract machine: on every sequence of calls from a
    new replacer it never runs into undefined behaviour, every call gives the
    result the list machine gives (the victim of [Evict] is the least recently used
    evictable frame, unknown and pinned frames raise the same exceptions, [Size]
    counts the evictable frames), and the invariant holds at the end. *)
Theorem lru_refines_list ops :
  exists r, lru_run ops new_lru = Ok (fst (abs_run ops []), r) /\ lru_wf r /\
    lru_view r = snd (abs_run ops []).
Proof. apply (lru_run_view ops new_lru new_lru_wf). Qed.
