(* ===== verification/BufferPool.v ===== *)
(** Model of [src/storage/buffer_pool_manager.cpp]. The pool's memory is one byte
    array and the pointer [FetchPage] returns is an offset into it. The disk manager
    the pool points to is shared with the rest of the engine, so operations act on
    a [Store]: the disk manager and the pool. *)

From S2P Require Import Prelude ByteIO Disk Replacer.

Definition kPage : nat := Z.to_nat kPageSizeBytes.

Record FrameMeta : Type := mk_frame {
  page_id : Z;
  pin_count : nat;
  is_dirty : bool;
  in_use : bool;
}.

Record BufferPool : Type := mk_pool {
  pool_size_ : nat;
  pages_ : list byte;
  frames_ : list FrameMeta;
  page_table_ : gmap Z nat;
  free_list_ : list nat;
  replacer_ : LruReplacer;
}.

Definition new_pool (pool_size : nat) : BufferPool :=
  mk_pool pool_size (replicate (pool_size * kPage) x00) (replicate pool_size (mk_frame 0 0 false false))
    ∅ (seq 0 pool_size) new_lru.

Section BufferPool.
Context {F : Type} `{PosixFile F}.

Record Store : Type := mk_store { disk_ : DiskManager F; pool_ : BufferPool }.

Definition on_disk {A} (m : io (DiskManager F) A) : io Store A :=
  io_zoom disk_ (fun d s => mk_store d (pool_ s)) m.
Definition on_pool {A} (m : io BufferPool A) : io Store A :=
  io_zoom pool_ (fun p s => mk_store (disk_ s) p) m.

Definition set_frames (fs : list FrameMeta) (p : BufferPool) : BufferPool :=
  mk_pool (pool_size_ p) (pages_ p) fs (page_table_ p) (free_list_ p) (replacer_ p).
Definition set_page_table (t : gmap Z nat) (p : BufferPool) : BufferPool :=
  mk_pool (pool_size_ p) (pages_ p) (frames_ p) t (free_list_ p) (replacer_ p).
Definition set_free_list (l : list nat) (p : BufferPool) : BufferPool :=
  mk_pool (pool_size_ p) (pages_ p) (frames_ p) (page_table_ p) l (replacer_ p).
Definition set_replacer (r : LruReplacer) (p : BufferPool) : BufferPool :=
  mk_pool (pool_size_ p) (pages_ p) (frames_ p) (page_table_ p) (free_list_ p) r.
Definition set_pages (b : list byte) (p : BufferPool) : BufferPool :=
  mk_pool (pool_size_ p) b (frames_ p) (page_table_ p) (free_list_ p) (replacer_ p).

(** [memcpy] out of and into the pool's memory. *)
Definition pool_read (ptr n : nat) : io BufferPool (list byte) := fun p =>
  if decide (ptr + n <= length (pages_ p))%nat then (Ok (region (pages_ p) ptr n), p) else (Undefined, p).
Definition pool_write (ptr : nat) (data : list byte) : io BufferPool unit := fun p =>
  if decide (ptr + length data <= length (pages_ p))%nat
  then (Ok tt, set_pages (splice (pages_ p) ptr data) p) else (Undefined, p).

Definition frame_at (frame : nat) : io BufferPool FrameMeta := fun p => (vec_get (frames_ p) frame, p).
Definition put_frame (frame : nat) (m : FrameMeta) : io BufferPool unit := fun p =>
  match vec_set (frames_ p) frame m with
  | Ok fs => (Ok tt, set_frames fs p)
  | _ => (Undefined, p)
  end.

Definition with_replacer (op : LruReplacer -> result LruReplacer) : io BufferPool unit := fun p =>
  match op (replacer_ p) with
  | Ok r => (Ok tt, set_replacer r p)
  | Throw e => (Throw e, p)
  | Undefined => (Undefined, p)
  | OutOfFuel => (OutOfFuel, p)
  end.

Definition FindFreeFrame : io BufferPool (option nat) := fun p =>
  match last (free_list_ p) with
  | Some frame => (Ok (Some frame), set_free_list (removelast (free_list_ p)) p)
  | None =>
      match Evict (replacer_ p) with
      | Ok (v, r) => (Ok v, set_replacer r p)
      | Throw e => (Throw e, p)
      | Undefined => (Undefined, p)
      | OutOfFuel => (OutOfFuel, p)
      end
  end.

Definition frame_ptr (frame : nat) : nat := frame * kPage.

(** [replacer_.RecordAccess(frame, page_id); replacer_.SetEvictable(frame, false)]. *)
Definition touch (frame : nat) : io BufferPool unit :=
  _ ← with_replacer (fun r => RecordAccess r frame);
  with_replacer (fun r => SetEvictable r frame false).

(** Write a dirty frame back to its page. *)
Definition write_back (frame : nat) (m : FrameMeta) : io Store unit :=
  buffer ← on_pool (pool_read (frame_ptr frame) kPage);
  on_disk (WritePages (page_id m) buffer).

Definition page_table_erase (page : Z) : io BufferPool unit := fun p =>
  (Ok tt, set_page_table (delete page (page_table_ p)) p).
Definition page_table_put (page : Z) (frame : nat) : io BufferPool unit := fun p =>
  (Ok tt, set_page_table (<[page := frame]> (page_table_ p)) p).

(** What the frame held before is written back if dirty, and leaves the page table. *)
Definition release_frame (frame : nat) : io Store unit :=
  m ← on_pool (frame_at frame);
  if in_use m then
    _ ← (if is_dirty m then write_back frame m else mret tt);
    on_pool (page_table_erase (page_id m))
  else mret tt.

Definition fill_frame (frame : nat) (page : Z) : io Store nat :=
  data ← on_disk (ReadPages page 1);
  _ ← on_pool (pool_write (frame_ptr frame) data);
  _ ← on_pool (put_frame frame (mk_frame page 1 false true));
  _ ← on_pool (page_table_put page frame);
  _ ← on_pool (touch frame);
  mret (frame_ptr frame).

Definition FetchPage (page : Z) : io Store nat := fun s =>
  match page_table_ (pool_ s) !! page with
  | Some frame =>
      on_pool (m ← frame_at frame;
               _ ← put_frame frame (mk_frame (page_id m) (S (pin_count m)) (is_dirty m) (in_use m));
               _ ← touch frame;
               mret (frame_ptr frame)) s
  | None =>
      (maybe_frame ← on_pool FindFreeFrame;
       match maybe_frame with
       | None => io_throw (RuntimeError
           "BufferPoolManager::FetchPage: no free or evictable frame -- every frame pinned simultaneously, which shouldn't happen for a single-threaded sequential scan")
       | Some frame => _ ← release_frame frame; fill_frame frame page
       end) s
  end.

Definition UnpinPage (page : Z) (dirty : bool) : io BufferPool unit := fun p =>
  match page_table_ p !! page with
  | None => (Ok tt, p)
  | Some frame =>
      (m ← frame_at frame;
       if decide (pin_count m = 0)%nat then mret tt
       else
         let pins := (pin_count m - 1)%nat in
         _ ← put_frame frame (mk_frame (page_id m) pins (is_dirty m || dirty) (in_use m));
         if decide (pins = 0)%nat then with_replacer (fun r => SetEvictable r frame true) else mret tt) p
  end.

Definition PoolSize (p : BufferPool) : nat := pool_size_ p.

(** [~BufferPoolManager]. *)
Definition pool_destroy : io Store unit := fun s =>
  for_range 0 (length (frames_ (pool_ s)))
    (fun i _ =>
       m ← on_pool (frame_at i);
       if in_use m && is_dirty m then write_back i m else mret tt) tt s.

End BufferPool.
Arguments Store F : clear implicits.

(** ** What the pool promises *)

Definition frame_bytes (p : BufferPool) (f : nat) : list byte := region (pages_ p) (frame_ptr f) kPage.

(** Evictable exactly when unpinned; an unpinned frame may also have left the
    replacer (when writing it back failed), until it is fetched again. *)
Definition evictable_ok (e : option bool) (pins : nat) : Prop :=
  if decide (pins = 0)%nat then e <> Some false else e = Some false.

Section BufferPoolFacts.
Context {F : Type} `{PosixFileLaws F}.

Implicit Types s : Store F.

Definition page_start (p : Z) : nat := Z.to_nat (p * kPageSizeBytes).
Definition page_exists (d : DiskManager F) (p : Z) : Prop :=
  (page_start p + kPage <= length (disk_bytes d))%nat.
#[global] Instance page_exists_dec d p : Decision (page_exists d p).
Proof. unfold page_exists. apply _. Defined.
Definition disk_page (d : DiskManager F) (p : Z) : list byte := region (disk_bytes d) (page_start p) kPage.

(** The contents of a page as the engine sees it: the cached copy, or the disk's. *)
Definition logical_page s (p : Z) : option (list byte) :=
  match page_table_ (pool_ s) !! p with
  | Some f => Some (frame_bytes (pool_ s) f)
  | None => if decide (page_exists (disk_ s) p) then Some (disk_page (disk_ s) p) else None
  end.

Definition pins s (p : Z) : nat :=
  match page_table_ (pool_ s) !! p with
  | Some f => match frames_ (pool_ s) !! f with Some m => pin_count m | None => 0 end
  | None => 0
  end.

(** A page in the page table: its frame is in use for it, off the free list, and
    unless dirty holds what the disk holds. *)
Definition mapped_ok s (p : Z) (f : nat) : Prop :=
  exists m, frames_ (pool_ s) !! f = Some m /\ page_id m = p /\ in_use m = true /\
    is_u32 p /\ 0 < p /\ ~ f ∈ free_list_ (pool_ s) /\
    evictable_ok (entries_ (replacer_ (pool_ s)) !! f) (pin_count m) /\
    page_exists (disk_ s) p /\
    (is_dirty m = false -> frame_bytes (pool_ s) f = disk_page (disk_ s) p).

Definition free_ok s (f : nat) : Prop :=
  exists m, frames_ (pool_ s) !! f = Some m /\ in_use m = false.

Record store_wf s : Prop := {
  sw_frames : length (frames_ (pool_ s)) = pool_size_ (pool_ s);
  sw_pages : length (pages_ (pool_ s)) = (pool_size_ (pool_ s) * kPage)%nat;
  sw_lru : lru_wf (replacer_ (pool_ s));
  sw_mapped : forall p f, page_table_ (pool_ s) !! p = Some f -> mapped_ok s p f;
  sw_entries : forall f b, entries_ (replacer_ (pool_ s)) !! f = Some b ->
    exists p, page_table_ (pool_ s) !! p = Some f;
  sw_free : forall f, f ∈ free_list_ (pool_ s) -> free_ok s f;
  sw_nodup : NoDup (free_list_ (pool_ s));
}.

(** The frames a fetch of an uncached page can use. *)
Definition budget s : nat := (length (free_list_ (pool_ s)) + evictables (replacer_ (pool_ s)))%nat.

(** What an operation never does, whatever its outcome: lose the contents of a page,
    or move, unpin or overwrite a pinned page. *)
Definition keeps s s' : Prop :=
  (forall p bs, is_u32 p -> logical_page s p = Some bs -> logical_page s' p = Some bs) /\
  (forall p f, page_table_ (pool_ s) !! p = Some f -> (0 < pins s p)%nat ->
     page_table_ (pool_ s') !! p = Some f /\ (pins s p <= pins s' p)%nat).

Lemma keeps_refl s : keeps s s.
Proof. done. Qed.

Lemma keeps_trans s1 s2 s3 : keeps s1 s2 -> keeps s2 s3 -> keeps s1 s3.
Proof.
  intros [L1 P1] [L2 P2]. split; [auto|]. intros p f Hp Hn.
  destruct (P1 p f Hp Hn) as [Hp' Hn']. destruct (P2 p f Hp') as [? ?]; [lia|]. split; [done|lia].
Qed.

Lemma page_start_inj p q : is_u32 p -> is_u32 q -> p <> q ->
  (page_start p + kPage <= page_start q \/ page_start q + kPage <= page_start p)%nat.
Proof. unfold is_u32, page_start, kPage, kPageSizeBytes. lia. Qed.

Lemma page_start_header p : 0 < p -> (kSerializedSize <= page_start p)%nat.
Proof. unfold page_start, kSerializedSize, kPageSizeBytes. lia. Qed.

(** Writing a page that exists, whatever the outcome. *)
Lemma WritePages_any d p data r d' :
  is_u32 p -> 0 < p -> page_exists d p -> length data = kPage ->
  WritePages p data d = (r, d') ->
  header_ d' = header_ d /\ length (disk_bytes d') = length (disk_bytes d) /\
  (forall off n, (off + n <= page_start p \/ page_start p + kPage <= off)%nat ->
     (off + n <= length (disk_bytes d))%nat -> region (disk_bytes d') off n = region (disk_bytes d) off n) /\
  (r = Ok tt /\ disk_page d' p = data \/ exists e, r = Throw e).
Proof.
  intros Hp Hp0 Hex Hl. unfold page_exists in Hex. unfold WritePages, kHeaderPageId.
  rewrite (proj2 (Z.eqb_neq p 0)) by lia. rewrite bool_decide_false by (by intros ->).
  rewrite Hl. change (Z.of_nat kPage mod kPageSizeBytes =? 0) with true. simpl.
  unfold write_all. rewrite page_offset_eq by done.
  destruct (sys_pwrite (fd_ d) data (p * 4096)) as [w f] eqn:E.
  assert (length (disk_bytes (mk_disk f (header_ d))) = length (disk_bytes d) /\
    forall off n, (off + n <= page_start p \/ page_start p + kPage <= off)%nat ->
     (off + n <= length (disk_bytes d))%nat ->
     region (disk_bytes (mk_disk f (header_ d))) off n = region (disk_bytes d) off n) as [Hlen Hreg].
  { unfold disk_bytes. simpl. destruct w as [k|]; [|by apply pwrite_none in E as ->].
    apply pwrite_some in E as [Hk E]; [|lia]. rewrite E. fold (disk_bytes d).
    change (Z.to_nat (p * 4096)) with (page_start p).
    assert (length (take k data) <= kPage)%nat as Ht by (rewrite length_take; lia).
    split.
    - destruct (decide (take k data = [])) as [Hn|Hn].
      + unfold splice. by rewrite decide_True.
      + rewrite length_splice by done. unfold disk_bytes in *. lia.
    - intros off n Hoff Hn. unfold disk_bytes in *. apply disk_write_below; [lia|done]. }
  destruct w as [k|]; [case_decide as Hk|]; intros; simplify_eq; split_and!; eauto.
  left. split; [done|]. apply pwrite_some in E as [_ E]; [|lia]. unfold disk_page, disk_bytes. simpl.
  rewrite E, firstn_all. change (Z.to_nat (p * 4096)) with (page_start p). rewrite <- Hl.
  apply region_splice_same.
Qed.

(** Memory of the frames. *)
Lemma frame_disjoint f g : f <> g ->
  (frame_ptr f + kPage <= frame_ptr g \/ frame_ptr g + kPage <= frame_ptr f)%nat.
Proof. unfold frame_ptr, kPage, kPageSizeBytes. lia. Qed.

Lemma frame_in_pool n f : (f < n)%nat -> (frame_ptr f + kPage <= n * kPage)%nat.
Proof. unfold frame_ptr, kPage, kPageSizeBytes. lia. Qed.

Lemma pool_write_frame p f data :
  length (pages_ p) = (pool_size_ p * kPage)%nat -> (f < pool_size_ p)%nat -> length data = kPage ->
  exists b, pool_write (frame_ptr f) data p = (Ok tt, set_pages b p) /\
    length b = length (pages_ p) /\
    forall g, (g < pool_size_ p)%nat ->
      region b (frame_ptr g) kPage = if decide (g = f) then data else frame_bytes p g.
Proof.
  intros Hp Hf Hl. pose proof (frame_in_pool _ _ Hf) as Hin.
  unfold pool_write. rewrite decide_True by lia. eexists. split; [done|]. split.
  - rewrite length_splice; [lia|]. by intros ->.
  - intros g Hg. case_decide as Hgf.
    + subst. rewrite <- Hl. apply region_splice_same.
    + pose proof (frame_in_pool _ _ Hg). pose proof (frame_disjoint _ _ Hgf).
      apply disk_write_below; lia.
Qed.

Lemma pool_read_frame p f :
  length (pages_ p) = (pool_size_ p * kPage)%nat -> (f < pool_size_ p)%nat ->
  pool_read (frame_ptr f) kPage p = (Ok (frame_bytes p f), p) /\ length (frame_bytes p f) = kPage.
Proof.
  intros Hp Hf. pose proof (frame_in_pool _ _ Hf). unfold pool_read, frame_bytes.
  rewrite decide_True by lia. split; [done|]. apply length_region. lia.
Qed.

Lemma touch_Ok p f :
  lru_wf (replacer_ p) ->
  exists r, touch f p = (Ok tt, set_replacer r p) /\ lru_wf r /\
    (evictables r + (if decide (entries_ (replacer_ p) !! f = Some true) then 1 else 0) =
       evictables (replacer_ p))%nat /\
    forall g, entries_ r !! g = if decide (g = f) then Some false else entries_ (replacer_ p) !! g.
Proof.
  intros Hwf. destruct (access_pin_entries (replacer_ p) f Hwf) as (r1 & r2 & H1 & H2 & Hwf2 & Hn & He).
  exists r2. split_and!; [|done..]. unfold touch, mbind, io_bind, with_replacer.
  by rewrite H1; simpl; rewrite H2.
Qed.

Lemma mapped_lt s p f : store_wf s -> page_table_ (pool_ s) !! p = Some f -> (f < pool_size_ (pool_ s))%nat.
Proof.
  intros Hwf Hp. destruct (sw_mapped s Hwf p f Hp) as (m & Hm & _).
  rewrite <- (sw_frames s Hwf). by eapply lookup_lt_Some.
Qed.

Lemma mapped_inj s p q f :
  store_wf s -> page_table_ (pool_ s) !! p = Some f -> page_table_ (pool_ s) !! q = Some f -> p = q.
Proof.
  intros Hwf Hp Hq. destruct (sw_mapped s Hwf p f Hp) as (m & Hm & <- & _).
  destruct (sw_mapped s Hwf q f Hq) as (m' & Hm' & <- & _). by simplify_eq.
Qed.

(** [touch] after [put_frame], the end of both paths of [FetchPage]. *)
Lemma put_touch_Ok p f m :
  (f < length (frames_ p))%nat -> lru_wf (replacer_ p) ->
  exists r, put_frame f m p = (Ok tt, set_frames (<[f:=m]> (frames_ p)) p) /\
    touch f (set_frames (<[f:=m]> (frames_ p)) p) =
      (Ok tt, set_replacer r (set_frames (<[f:=m]> (frames_ p)) p)) /\
    lru_wf r /\
    (evictables r + (if decide (entries_ (replacer_ p) !! f = Some true) then 1 else 0) =
       evictables (replacer_ p))%nat /\
    forall g, entries_ r !! g = if decide (g = f) then Some false else entries_ (replacer_ p) !! g.
Proof.
  intros Hf Hl. destruct (touch_Ok (set_frames (<[f:=m]> (frames_ p)) p) f Hl) as (r & Ht & Hr & Hn & He).
  exists r. split_and!; [|done..]. unfold put_frame. by rewrite vec_set_lt.
Qed.

Lemma FetchPage_hit s p f :
  store_wf s -> page_table_ (pool_ s) !! p = Some f ->
  exists s', FetchPage p s = (Ok (frame_ptr f), s') /\ store_wf s' /\ keeps s s' /\
    page_table_ (pool_ s') !! p = Some f /\ pins s' p = S (pins s p) /\
    (budget s <= budget s' + (if decide (pins s p = 0) then 1 else 0))%nat.
Proof.
  intros Hwf Hp. pose proof (mapped_lt s p f Hwf Hp) as Hf.
  destruct (sw_mapped s Hwf p f Hp) as (m & Hm & Hpid & Huse & Hu & Hp0 & Hfree & Hev & Hex & Hcoh).
  set (m' := mk_frame (page_id m) (S (pin_count m)) (is_dirty m) (in_use m)).
  destruct (put_touch_Ok (pool_ s) f m') as (r & Hput & Ht & Hr & Hevn & He).
  { by rewrite (sw_frames s Hwf). } { apply (sw_lru s Hwf). }
  eexists. split.
  { unfold FetchPage. rewrite Hp. unfold on_pool, io_zoom, mbind, io_bind, frame_at.
    rewrite (proj2 (vec_get_Ok _ _ _) Hm). fold m'. rewrite Hput, Ht. done. }
  assert (forall g, (<[f:=m']> (frames_ (pool_ s))) !! g = if decide (g = f) then Some m' else frames_ (pool_ s) !! g) as Hlk.
  { intros g. destruct (decide (g = f)); [subst; rewrite list_lookup_insert_eq; [done|by rewrite (sw_frames s Hwf)]|].
    by rewrite list_lookup_insert_ne. }
  split_and!.
  - split; simpl; try apply Hwf.
    + rewrite length_insert. apply Hwf.
    + done.
    + intros q g Hq. destruct (sw_mapped s Hwf q g Hq) as (n & Hn & Hrest). unfold mapped_ok. simpl.
      rewrite Hlk, He. destruct (decide (g = f)) as [->|].
      * assert (q = p) as -> by by eapply mapped_inj. exists m'. split_and!; try done.
      * exists n. done.
    + intros g b. rewrite He. destruct (decide (g = f)); [subst; eauto|]. apply (sw_entries s Hwf).
    + intros g Hg. destruct (sw_free s Hwf g Hg) as (n & Hn & Hn'). exists n. simpl. rewrite Hlk.
      rewrite decide_False; [done|]. by intros ->.
  - split; [done|]. intros q g Hq Hpos. split; [done|]. unfold pins in *. simpl. rewrite Hq in *.
    rewrite Hlk. destruct (decide (g = f)); [|done]. subst g. rewrite Hm. simpl. lia.
  - done.
  - unfold pins. simpl. by rewrite Hp, Hlk, decide_True, Hm.
  - unfold budget, pins. simpl. rewrite Hp, Hm. unfold evictable_ok in Hev.
    destruct (decide (pin_count m = 0)%nat); [case_decide; lia|].
    rewrite Hev, decide_False in Hevn by done. lia.
Qed.

(** A frame taken from the free list or the replacer: nobody else holds it. *)
Record avail s (f : nat) : Prop := {
  av_lt : (f < pool_size_ (pool_ s))%nat;
  av_entry : entries_ (replacer_ (pool_ s)) !! f = None;
  av_free : ~ f ∈ free_list_ (pool_ s);
  av_frame : exists m, frames_ (pool_ s) !! f = Some m /\
    if in_use m then page_table_ (pool_ s) !! page_id m = Some f
    else forall p, page_table_ (pool_ s) !! p <> Some f;
}.

(** A frame that holds no page at all. *)
Record detached s (f : nat) : Prop := {
  dt_lt : (f < pool_size_ (pool_ s))%nat;
  dt_entry : entries_ (replacer_ (pool_ s)) !! f = None;
  dt_free : ~ f ∈ free_list_ (pool_ s);
  dt_unmapped : forall p, page_table_ (pool_ s) !! p <> Some f;
}.

(** Changing only the free list and the replacer. *)
Lemma store_wf_free_replacer s l r :
  store_wf s -> l `sublist_of` free_list_ (pool_ s) -> lru_wf r ->
  (forall f, entries_ r !! f = entries_ (replacer_ (pool_ s)) !! f \/
     (entries_ r !! f = None /\ entries_ (replacer_ (pool_ s)) !! f = Some true)) ->
  let s' := mk_store (disk_ s) (set_replacer r (set_free_list l (pool_ s))) in
  store_wf s' /\ keeps s s'.
Proof.
  intros Hwf Hl Hr He s'. split; [|done]. split; simpl; try apply Hwf.
  - done.
  - intros p f Hp. destruct (sw_mapped s Hwf p f Hp) as (m & Hm & H1 & H2 & H3 & H4 & H5 & H6 & H7).
    exists m. destruct H7 as [H7 H8]. split_and!; try done; simpl.
    + intros Hin. apply H5. by eapply elem_of_sublist.
    + unfold evictable_ok in *. destruct (He f) as [->|[-> Ht]]; [done|].
      rewrite Ht in H6.
      destruct (decide (pin_count m = 0)%nat); congruence.
  - intros f b Hb. apply (sw_entries s Hwf f b). destruct (He f) as [<-|[Hn _]]; [done|congruence].
  - intros f Hf. apply (sw_free s Hwf). by eapply elem_of_sublist.
  - eapply sublist_NoDup; [apply (sw_nodup s Hwf)|done].
Qed.

Lemma last_removelast {A} (l : list A) x : last l = Some x -> l = removelast l ++ [x].
Proof. intros [l' ->]%last_Some. by rewrite removelast_last. Qed.

Lemma FindFreeFrame_spec s :
  store_wf s ->
  exists o s', on_pool FindFreeFrame s = (Ok o, s') /\ store_wf s' /\ keeps s s' /\
    disk_ s' = disk_ s /\ page_table_ (pool_ s') = page_table_ (pool_ s) /\
    match o with
    | Some f => avail s' f /\ budget s = S (budget s')
    | None => budget s = 0%nat
    end.
Proof.
  intros Hwf. unfold on_pool, io_zoom, FindFreeFrame. destruct (last (free_list_ (pool_ s))) as [f|] eqn:Hlast.
  - exists (Some f). eexists. split; [done|]. simpl.
    apply last_removelast in Hlast as Hfl. set (l := removelast _) in *.
    destruct (store_wf_free_replacer s l (replacer_ (pool_ s))) as [Hwf' Hk].
    { done. } { rewrite Hfl. by apply sublist_inserts_r. } { apply Hwf. } { auto. }
    assert (set_replacer (replacer_ (pool_ s)) (set_free_list l (pool_ s)) = set_free_list l (pool_ s)) as Heq
      by by destruct (pool_ s).
    rewrite Heq in *. split_and!; try done; [|unfold budget; simpl; rewrite Hfl, length_app; simpl; lia].
    assert (f ∈ free_list_ (pool_ s)) as Hin by (rewrite Hfl; apply elem_of_app; right; by constructor).
    destruct (sw_free s Hwf f Hin) as (m & Hm & Hu).
    assert (forall p, page_table_ (pool_ s) !! p <> Some f) as Hno.
    { intros p Hp. by destruct (sw_mapped s Hwf p f Hp) as (? & _ & _ & _ & _ & _ & ? & _). }
    split; simpl.
    + rewrite <- (sw_frames s Hwf). by eapply lookup_lt_Some.
    + destruct (entries_ _ !! f) as [b|] eqn:E; [|done].
      destruct (sw_entries s Hwf f b E) as [p Hp]. by destruct (Hno p).
    + pose proof (sw_nodup s Hwf) as HN. rewrite Hfl in HN. apply NoDup_app in HN as (_ & HN & _).
      intros Hin'. apply (HN f Hin'). by constructor.
    + exists m. by rewrite Hu.
  - apply last_None in Hlast. destruct (Evict_entries _ (sw_lru s Hwf)) as (o & r & -> & Hr & Ho).
    exists o. eexists. split; [done|]. simpl.
    destruct (store_wf_free_replacer s [] r) as [Hwf' Hk].
    { done. } { by rewrite Hlast. } { done. }
    { intros f. destruct o as [v|]; destruct Ho as (Hv & _ & Ho); rewrite Ho; [|by left].
      case_decide; [subst; by right|by left]. }
    assert (set_free_list [] (pool_ s) = pool_ s) as Heq by (destruct (pool_ s); simpl in *; by subst).
    rewrite Heq in *. split_and!; try done. unfold budget. simpl. rewrite Hlast. simpl.
    destruct o as [v|]; destruct Ho as (Hv & Hn & Ho); [|by rewrite Hv].
    destruct (sw_entries s Hwf v true Hv) as [p Hp].
    destruct (sw_mapped s Hwf p v Hp) as (m & Hm & H1 & H2 & H3 & H4 & H5 & H6 & H7).
    split; [|done]. split; simpl.
    + rewrite <- (sw_frames s Hwf). by eapply lookup_lt_Some.
    + by rewrite Ho, decide_True.
    + rewrite Hlast. set_solver.
    + exists m. by rewrite H2, H1.
Qed.

(** Dropping a frame's page from the page table once the disk holds its contents. *)
Lemma erase_spec s f m :
  store_wf s -> avail s f -> frames_ (pool_ s) !! f = Some m -> in_use m = true ->
  frame_bytes (pool_ s) f = disk_page (disk_ s) (page_id m) ->
  let s' := mk_store (disk_ s) (set_page_table (delete (page_id m) (page_table_ (pool_ s))) (pool_ s)) in
  store_wf s' /\ keeps s s' /\ detached s' f.
Proof.
  intros Hwf Hav Hm Hu Hb s'.
  destruct (av_frame s f Hav) as (m' & Hm' & Hmap). simplify_eq. rewrite Hu in Hmap.
  assert (forall p, page_table_ (pool_ s') !! p <> Some f) as Hno.
  { intros p. simpl. intros [Hne Hp]%lookup_delete_Some. by apply Hne, (mapped_inj s _ p f). }
  assert (pin_count m = 0%nat) as Hpin.
  { destruct (sw_mapped s Hwf _ f Hmap) as (m' & Hm' & _ & _ & _ & _ & _ & Hev & _). simplify_eq.
    rewrite (av_entry s f Hav) in Hev. unfold evictable_ok in Hev.
    case_decide; congruence. }
  split_and!.
  - split; simpl; try apply Hwf.
    + intros p g [_ Hp]%lookup_delete_Some. by apply (sw_mapped s Hwf).
    + intros g b Hg. destruct (sw_entries s Hwf g b Hg) as [p Hp]. exists p.
      rewrite lookup_delete_ne; [done|]. intros <-.
      rewrite Hmap in Hp. simplify_eq. by rewrite (av_entry s _ Hav) in Hg.
  - split.
    + intros p bs _. unfold logical_page. simpl. destruct (decide (p = page_id m)) as [->|].
      * rewrite lookup_delete_eq, Hmap, Hb. destruct (sw_mapped s Hwf _ f Hmap) as (? & _ & _ & _ & _ & _ & _ & _ & Hex & _).
        by rewrite decide_True.
      * by rewrite lookup_delete_ne.
    + intros p g Hp Hpos. unfold pins in *. simpl. rewrite Hp in *.
      rewrite lookup_delete_ne; [by rewrite Hp|]. intros <-. rewrite Hmap in Hp. simplify_eq.
      rewrite Hm in Hpos. lia.
  - split; [apply Hav..|done].
Qed.

(** A successful write-back makes the disk hold what the frame holds; any other outcome is
    an exception, and no page the engine sees changes. *)
Lemma write_back_spec s f m :
  store_wf s -> page_table_ (pool_ s) !! page_id m = Some f ->
  frames_ (pool_ s) !! f = Some m -> is_dirty m = true ->
  exists r d', write_back f m s = (r, mk_store d' (pool_ s)) /\
    store_wf (mk_store d' (pool_ s)) /\ keeps s (mk_store d' (pool_ s)) /\
    length (disk_bytes d') = length (disk_bytes (disk_ s)) /\
    (r = Ok tt /\ frame_bytes (pool_ s) f = disk_page d' (page_id m) \/ exists e, r = Throw e).
Proof.
  intros Hwf Hp Hm Hdirty. pose proof (mapped_lt s _ f Hwf Hp) as Hf.
  destruct (pool_read_frame (pool_ s) f (sw_pages s Hwf) Hf) as [Hr Hl].
  destruct (sw_mapped s Hwf _ f Hp) as (m' & Hm' & _ & Hu & Hu32 & Hp0 & Hfree & Hev & Hex & Hcoh). simplify_eq.
  unfold write_back, on_pool, on_disk, io_zoom, mbind, io_bind. rewrite Hr. simpl.
  destruct (WritePages (page_id m) (frame_bytes (pool_ s) f) (disk_ s)) as [r d'] eqn:EW.
  destruct (WritePages_any _ _ _ _ _ Hu32 Hp0 Hex Hl EW) as (Hh & Hlen & Hreg & Hout).
  exists r, d'.
  assert (forall q, page_exists d' q <-> page_exists (disk_ s) q) as Hexq by (intros q; unfold page_exists; by rewrite Hlen).
  assert (forall q, is_u32 q -> q <> page_id m -> page_exists (disk_ s) q -> disk_page d' q = disk_page (disk_ s) q) as Hq.
  { intros q Hq32 Hne Hqe. apply Hreg; [|done]. destruct (page_start_inj q (page_id m)); auto. }
  split_and!; [done| | |done|destruct Hout as [[-> ?]|?]; eauto].
  - split; simpl; try apply Hwf. intros q g Hg.
    destruct (sw_mapped s Hwf q g Hg) as (n & H1 & H2 & H3 & H4 & H5 & H6 & H7 & H8 & H9).
    exists n. split_and!; try done; simpl; [by apply Hexq|]. intros Hd. specialize (H9 Hd).
    destruct (decide (q = page_id m)) as [->|Hne]; [|by rewrite Hq].
    rewrite Hp in Hg. simplify_eq. congruence.
  - split; [|done]. intros q bs Hq32. unfold logical_page. simpl.
    destruct (page_table_ (pool_ s) !! q) eqn:Eq; [done|].
    rewrite (decide_ext (page_exists d' q) (page_exists (disk_ s) q)) by done.
    case_decide; [|done]. rewrite Hq; [done|done| |done]. congruence.
Qed.

Lemma release_frame_spec s f :
  store_wf s -> avail s f ->
  exists r s', release_frame f s = (r, s') /\ store_wf s' /\ keeps s s' /\
    length (disk_bytes (disk_ s')) = length (disk_bytes (disk_ s)) /\ budget s' = budget s /\
    (forall q, page_table_ (pool_ s) !! q = None -> page_table_ (pool_ s') !! q = None) /\
    (r = Ok tt /\ detached s' f \/ exists e, r = Throw e).
Proof.
  intros Hwf Hav. pose proof Hav as [Hlt He Hfr (m & Hm & Hmap)].
  unfold release_frame.
  erewrite (io_bind_Ok (on_pool (frame_at f)) _ s s m); [|unfold on_pool, io_zoom, frame_at;
    rewrite (proj2 (vec_get_Ok _ _ _) Hm); by destruct s].
  destruct (in_use m) eqn:Hu; [|by exists (Ok tt), s; split_and!; [..|left]].
  destruct (is_dirty m) eqn:Hd.
  - destruct (write_back_spec s f m Hwf Hmap Hm Hd) as (r & d' & HW & Hwf1 & Hk & Hlen & Hout).
    unfold mbind, io_bind. rewrite HW. destruct Hout as [[-> Hb]|[e ->]].
    + destruct (erase_spec (mk_store d' (pool_ s)) f m) as (Hwf2 & Hk2 & Hdt); try done.
      { split; [done..|]. exists m. by rewrite Hu. }
      exists (Ok tt). eexists. split; [done|]. split_and!; [done|by eapply keeps_trans|done|done| |by left].
      intros q Hq. simpl. rewrite lookup_delete_None. by right.
    + exists (Throw e). eexists. split; [done|]. split_and!; [done..|]. right. eauto.
  - destruct (sw_mapped s Hwf _ f Hmap) as (m' & Hm' & _ & _ & _ & _ & _ & _ & _ & Hcoh).
    rewrite Hm in Hm'. injection Hm' as <-.
    destruct (erase_spec s f m) as (Hwf2 & Hk2 & Hdt); try done; [by apply Hcoh|].
    exists (Ok tt). eexists. split; [done|]. split_and!; [done..| |by left].
    intros q Hq. simpl. rewrite lookup_delete_None. by right.
Qed.

Lemma ReadPages_any d p r d' :
  is_u32 p -> ReadPages p 1 d = (r, d') ->
  d' = d /\ ((0 < p /\ page_exists d p /\ r = Ok (disk_page d p)) \/ exists e, r = Throw e).
Proof.
  intros Hp HR. destruct r as [bs|e| |].
  - unfold ReadPages, kHeaderPageId in HR. simpl in HR.
    destruct (Z.eqb_spec p 0); [simplify_eq|].
    apply read_all_Ok in HR as (-> & -> & Hl); rewrite page_offset_eq in * by done; [|unfold is_u32 in *; lia].
    split; [done|]. left. split_and!; [unfold is_u32 in *; lia| |done].
    destruct Hl as [Hl|Hl]; [exact Hl|done].
  - split; [|eauto]. unfold ReadPages, read_all, io_throw in HR. repeat case_match; by simplify_eq.
  - exfalso. unfold ReadPages, read_all, io_throw in HR. repeat case_match; by simplify_eq.
  - exfalso. unfold ReadPages, read_all, io_throw in HR. repeat case_match; by simplify_eq.
Qed.

Lemma frames_insert_lookup s f m g :
  store_wf s -> (f < pool_size_ (pool_ s))%nat ->
  (<[f:=m]> (frames_ (pool_ s))) !! g = if decide (g = f) then Some m else frames_ (pool_ s) !! g.
Proof.
  intros Hwf Hf. destruct (decide (g = f)) as [->|]; [|by rewrite list_lookup_insert_ne].
  rewrite list_lookup_insert_eq; [done|by rewrite (sw_frames s Hwf)].
Qed.

(** The store once the detached frame [f] holds page [p]: [b] is the memory and [r] the
    replacer that result. *)
Section Loaded.
Context (s : Store F) (f : nat) (p : Z) (b : list byte) (r : LruReplacer).
Context (Hwf : store_wf s) (Hdt : detached s f) (Hp : is_u32 p) (Hnone : page_table_ (pool_ s) !! p = None)
  (Hp0 : 0 < p) (Hex : page_exists (disk_ s) p).
Context (Hbl : length b = length (pages_ (pool_ s)))
  (Hb : forall g, (g < pool_size_ (pool_ s))%nat ->
    region b (frame_ptr g) kPage = if decide (g = f) then disk_page (disk_ s) p else frame_bytes (pool_ s) g).
Context (Hr : lru_wf r)
  (Hre : forall g, entries_ r !! g = if decide (g = f) then Some false else entries_ (replacer_ (pool_ s)) !! g).

Definition loaded : Store F :=
  mk_store (disk_ s) (set_replacer r (set_frames (<[f:=mk_frame p 1 false true]> (frames_ (pool_ s)))
    (set_page_table (<[p:=f]> (page_table_ (pool_ s))) (set_pages b (pool_ s))))).

Lemma loaded_frame g : frames_ (pool_ loaded) !! g = if decide (g = f) then Some (mk_frame p 1 false true) else frames_ (pool_ s) !! g.
Proof. apply frames_insert_lookup; [done|apply Hdt]. Qed.

Lemma loaded_other q g :
  page_table_ (pool_ s) !! q = Some g -> g <> f /\ region b (frame_ptr g) kPage = frame_bytes (pool_ s) g.
Proof.
  intros Hq. assert (g <> f) as Hne by (intros ->; by apply (dt_unmapped s f Hdt q)). split; [done|].
  rewrite Hb by by eapply mapped_lt. by rewrite decide_False.
Qed.

Lemma loaded_bytes : region b (frame_ptr f) kPage = disk_page (disk_ s) p.
Proof. rewrite Hb by apply Hdt. by rewrite decide_True. Qed.

Lemma loaded_wf : store_wf loaded.
Proof.
  split; simpl; try apply Hwf; try done.
  - rewrite length_insert. apply Hwf.
  - rewrite Hbl. apply Hwf.
  - intros q g. rewrite lookup_insert_Some. intros [[<- <-]|[Hne Hq]].
    + exists (mk_frame p 1 false true). rewrite loaded_frame. simpl. rewrite Hre, !decide_True by done.
      split_and!; try done; [apply Hdt|]. intros _. apply loaded_bytes.
    + destruct (sw_mapped s Hwf q g Hq) as (n & H1 & H2 & H3 & H4 & H5 & H6 & H7 & H8 & H9).
      destruct (loaded_other q g Hq) as [Hgf Hgb].
      exists n. rewrite loaded_frame. simpl. rewrite Hre, !decide_False by done. split_and!; try done.
      intros Hd. rewrite <- H9 by done. exact Hgb.
  - intros g c. rewrite Hre. destruct (decide (g = f)) as [Hg|Hg]; [subst; exists p; by rewrite lookup_insert_eq|].
    intros Hc. destruct (sw_entries s Hwf g c Hc) as [q Hq]. exists q.
    rewrite lookup_insert_ne; [done|]. intros <-. congruence.
  - intros g Hg. destruct (sw_free s Hwf g Hg) as (n & Hn & Hn'). exists n. rewrite loaded_frame.
    rewrite decide_False; [done|]. intros ->. by apply (dt_free s f Hdt).
Qed.

Lemma loaded_keeps : keeps s loaded.
Proof.
  split.
  - intros q bs _. unfold logical_page. simpl. destruct (decide (q = p)) as [->|Hne].
    + rewrite Hnone, lookup_insert_eq, decide_True by done. intros [= <-]. f_equal. apply loaded_bytes.
    + rewrite lookup_insert_ne by done. destruct (page_table_ (pool_ s) !! q) as [g|] eqn:Eq; [|done].
      intros [= <-]. f_equal. apply (loaded_other q g Eq).
  - intros q g Hq Hpos. assert (q <> p) by congruence. unfold pins in *. simpl.
    rewrite lookup_insert_ne by done. rewrite Hq in *. split; [done|].
    rewrite (frames_insert_lookup _ _ _ _ Hwf (dt_lt _ _ Hdt)), decide_False by apply (loaded_other q g Hq). done.
Qed.

Lemma loaded_pins : pins loaded p = 1%nat.
Proof. unfold pins. simpl. by rewrite lookup_insert_eq, (frames_insert_lookup _ _ _ _ Hwf (dt_lt _ _ Hdt)), decide_True. Qed.
End Loaded.

(** The page of [fill_frame] is not in the page table yet. *)
Lemma fill_frame_spec s f p :
  store_wf s -> detached s f -> is_u32 p -> page_table_ (pool_ s) !! p = None ->
  exists r s', fill_frame f p s = (r, s') /\ store_wf s' /\ keeps s s' /\
    match r with
    | Ok ptr => ptr = frame_ptr f /\ page_table_ (pool_ s') !! p = Some f /\ pins s' p = 1%nat /\
                0 < p /\ page_exists (disk_ s) p /\ budget s' = budget s
    | Throw _ => True
    | _ => False
    end.
Proof.
  intros Hwf Hdt Hp Hnone. pose proof Hdt as [Hlt He Hfr Hno].
  unfold fill_frame, mbind, io_bind, on_disk, on_pool, io_zoom.
  destruct (ReadPages p 1 (disk_ s)) as [r d'] eqn:ER.
  destruct (ReadPages_any _ _ _ _ Hp ER) as (-> & [(Hp0 & Hex & ->)|[e ->]]); simpl.
  2: { exists (Throw e), s. split_and!; [by destruct s|done|apply keeps_refl|done]. }
  assert (length (disk_page (disk_ s) p) = kPage) as Hl by (apply length_region; exact Hex).
  destruct (pool_write_frame (pool_ s) f _ (sw_pages s Hwf) Hlt Hl) as (b & HPW & Hbl & Hb).
  rewrite HPW. simpl. set (m := mk_frame p 1 false true).
  destruct (put_touch_Ok (set_page_table (<[p:=f]> (page_table_ (pool_ s))) (set_pages b (pool_ s))) f m)
    as (r & Hput & Ht & Hr & Hevn & Hre).
  { simpl. by rewrite (sw_frames s Hwf). } { apply (sw_lru s Hwf). }
  unfold put_frame at 1. rewrite vec_set_lt by (simpl; by rewrite (sw_frames s Hwf)). simpl.
  change (set_page_table (<[p:=f]> (page_table_ (pool_ s))) (set_frames (<[f:=m]> (frames_ (pool_ s))) (set_pages b (pool_ s))))
    with (set_frames (<[f:=m]> (frames_ (pool_ s))) (set_page_table (<[p:=f]> (page_table_ (pool_ s))) (set_pages b (pool_ s)))).
  simpl in Ht. rewrite Ht. eexists (Ok (frame_ptr f)), (loaded s f p b r).
  split_and!; [done|by apply loaded_wf|by apply loaded_keeps|done|by apply lookup_insert_eq|by apply loaded_pins|done|done|].
  unfold budget. simpl in *. rewrite He, decide_False in Hevn by done. lia.
Qed.

Lemma on_pool_bind {A B} (m : io BufferPool A) (k : A -> io (Store F) B) s r s' :
  on_pool m s = (r, s') ->
  (on_pool m ≫= k) s = match r with
    | Ok a => k a s' | Throw e => (Throw e, s') | Undefined => (Undefined, s') | OutOfFuel => (OutOfFuel, s') end.
Proof. intros E. unfold mbind, io_bind. by rewrite E. Qed.

Lemma FetchPage_spec s p :
  store_wf s -> is_u32 p ->
  exists r s', FetchPage p s = (r, s') /\ store_wf s' /\ keeps s s' /\
    match r with
    | Ok ptr => exists f, ptr = frame_ptr f /\ page_table_ (pool_ s') !! p = Some f /\
        logical_page s p = Some (frame_bytes (pool_ s') f) /\ pins s' p = S (pins s p) /\
        (budget s <= budget s' + (if decide (pins s p = 0) then 1 else 0))%nat
    | Throw _ => pins s p = 0%nat
    | _ => False
    end.
Proof.
  intros Hwf Hp. destruct (page_table_ (pool_ s) !! p) as [f|] eqn:Hpt.
  - destruct (FetchPage_hit s p f Hwf Hpt) as (s' & HF & Hwf' & Hk & Hpt' & Hpin & Hbud).
    exists (Ok (frame_ptr f)), s'. split_and!; [done..|]. exists f. split_and!; try done.
    assert (logical_page s p = Some (frame_bytes (pool_ s) f)) as Hl by by unfold logical_page; rewrite Hpt.
    apply Hk in Hl as Hl'; [|done]. rewrite Hl, <- Hl'. unfold logical_page. by rewrite Hpt'.
  - assert (pins s p = 0%nat) as Hpin0 by by unfold pins; rewrite Hpt.
    unfold FetchPage. rewrite Hpt.
    destruct (FindFreeFrame_spec s Hwf) as (o & s1 & HFF & Hwf1 & Hk1 & Hd1 & Hpt1 & Ho).
    rewrite (on_pool_bind _ _ _ _ _ HFF). destruct o as [f|].
    2: { eexists _, _. by split_and!. }
    destruct Ho as [Hav Hb1].
    destruct (release_frame_spec s1 f Hwf1 Hav) as (r2 & s2 & HR & Hwf2 & Hk2 & Hlen & Hb2 & Hnone & Hout).
    unfold mbind, io_bind. rewrite HR. destruct Hout as [[-> Hdt]|[e ->]].
    2: { eexists _, _. split_and!; [done..|by eapply keeps_trans|done]. }
    destruct (fill_frame_spec s2 f p Hwf2 Hdt Hp) as (r3 & s3 & HFill & Hwf3 & Hk3 & Hres).
    { apply Hnone. by rewrite Hpt1. }
    rewrite HFill. exists r3, s3.
    assert (keeps s s3) as Hk by (eapply keeps_trans; [done|]; by eapply keeps_trans).
    destruct r3 as [ptr|e| |]; split_and!; try done.
    destruct Hres as (-> & Hpt3 & Hpin3 & Hp0 & Hex & Hb3). exists f.
    split_and!; [done|done| |by rewrite Hpin0|rewrite decide_True by done; lia].
    assert (exists bs, logical_page s p = Some bs) as [bs Hbs].
    { unfold logical_page. rewrite Hpt, decide_True; [eauto|].
      unfold page_exists in *. rewrite <- Hd1, <- Hlen. done. }
    rewrite Hbs. apply Hk in Hbs; [|done]. rewrite <- Hbs. unfold logical_page. by rewrite Hpt3.
Qed.

(** ** Pins of the other pages *)

Lemma with_replacer_pool op p r p' :
  with_replacer op p = (r, p') -> frames_ p' = frames_ p /\ page_table_ p' = page_table_ p.
Proof. unfold with_replacer. destruct (op (replacer_ p)); intros; by simplify_eq. Qed.

Lemma touch_pool f p r p' : touch f p = (r, p') -> frames_ p' = frames_ p /\ page_table_ p' = page_table_ p.
Proof.
  unfold touch, mbind, io_bind. destruct (with_replacer _ p) as [r1 p1] eqn:E1.
  apply with_replacer_pool in E1 as [H1 H2]. destruct r1; intros E2; [|by simplify_eq..].
  apply with_replacer_pool in E2 as [-> ->]. done.
Qed.

Lemma FindFreeFrame_pool s r s' :
  on_pool FindFreeFrame s = (r, s') ->
  frames_ (pool_ s') = frames_ (pool_ s) /\ page_table_ (pool_ s') = page_table_ (pool_ s).
Proof. unfold on_pool, io_zoom, FindFreeFrame. intros HF. repeat case_match; by simplify_eq. Qed.

Lemma release_frame_pool s f r s' :
  release_frame f s = (r, s') ->
  frames_ (pool_ s') = frames_ (pool_ s) /\
  forall q g, page_table_ (pool_ s') !! q = Some g -> page_table_ (pool_ s) !! q = Some g.
Proof.
  unfold release_frame, write_back, mbind, io_bind, mret, io_ret, on_pool, on_disk, io_zoom, frame_at, pool_read, page_table_erase.
  destruct (vec_get (frames_ (pool_ s)) f) as [m|e| |]; intros HR; try by simplify_eq.
  assert (forall q g, delete (page_id m) (page_table_ (pool_ s)) !! q = Some g -> page_table_ (pool_ s) !! q = Some g)
    as Hdel by by intros q g [_ Hq]%lookup_delete_Some.
  destruct (in_use m); [|by simplify_eq/=]. destruct (is_dirty m); [|by simplify_eq/=].
  simpl in HR. case_decide; [|by simplify_eq/=]. simpl in HR.
  destruct (WritePages (page_id m) _ (disk_ s)) as [[] d]; by simplify_eq/=.
Qed.

Lemma fill_frame_pool s f p r s' :
  fill_frame f p s = (r, s') ->
  (forall g, g <> f -> frames_ (pool_ s') !! g = frames_ (pool_ s) !! g) /\
  (forall q g, q <> p -> page_table_ (pool_ s') !! q = Some g -> page_table_ (pool_ s) !! q = Some g).
Proof.
  unfold fill_frame, mbind, io_bind, mret, io_ret, on_pool, on_disk, io_zoom, pool_write, put_frame, vec_set, page_table_put.
  destruct (ReadPages p 1 (disk_ s)) as [[data|e| |] d]; intros HF; try by simplify_eq.
  case_decide; [|by simplify_eq]. simpl in HF. case_decide; [|by simplify_eq]. simpl in HF.
  match type of HF with context [touch f ?p'] => destruct (touch f p') as [rt pt] eqn:Ht end.
  apply touch_pool in Ht as [Hf Hpt]. simpl in *.
  assert (pool_ s' = pt) as -> by (destruct rt; by simplify_eq). rewrite Hf, Hpt. split.
  - intros g Hg. by rewrite list_lookup_insert_ne.
  - intros q g Hq. by rewrite lookup_insert_ne.
Qed.

(** A fetch pins no page but its own. *)
Lemma FetchPage_others s p r s' q :
  store_wf s -> is_u32 p -> FetchPage p s = (r, s') -> q <> p -> (pins s' q <= pins s q)%nat.
Proof.
  intros Hwf Hp HF Hq. destruct (page_table_ (pool_ s) !! p) as [f|] eqn:Hpt.
  - unfold FetchPage in HF. rewrite Hpt in HF.
    destruct (sw_mapped s Hwf p f Hpt) as (m & Hm & _). pose proof (mapped_lt s p f Hwf Hpt) as Hlt.
    unfold mbind, io_bind, mret, io_ret, on_pool, io_zoom, frame_at in HF. rewrite (proj2 (vec_get_Ok _ _ _) Hm) in HF.
    unfold put_frame in HF. rewrite vec_set_lt in HF by (by rewrite (sw_frames s Hwf)).
    match type of HF with context [touch f ?p'] => destruct (touch f p') as [rt pt] eqn:Ht end.
    apply touch_pool in Ht as [Hf Ht]. simpl in *.
    assert (pool_ s' = pt) as Hs by (destruct rt; by simplify_eq).
    unfold pins. rewrite Hs, Hf, Ht. destruct (page_table_ (pool_ s) !! q) as [g|] eqn:Hg; [|done].
    rewrite list_lookup_insert_ne; [done|]. intros ->. apply Hq. by eapply mapped_inj.
  - unfold FetchPage in HF. rewrite Hpt in HF.
    destruct (FindFreeFrame_spec s Hwf) as (o & s1 & HFF & Hwf1 & _ & _ & _ & Ho).
    rewrite (on_pool_bind _ _ _ _ _ HFF) in HF. apply FindFreeFrame_pool in HFF as [Hf1 Hpt1].
    assert (forall s2, frames_ (pool_ s2) = frames_ (pool_ s) ->
      (forall q g, page_table_ (pool_ s2) !! q = Some g -> page_table_ (pool_ s) !! q = Some g) ->
      (pins s2 q <= pins s q)%nat) as Hsub.
    { intros s2 Hf2 Hpt2. unfold pins. destruct (page_table_ (pool_ s2) !! q) as [g|] eqn:Hg; [|lia].
      by rewrite (Hpt2 q g Hg), Hf2. }
    destruct o as [f|]; [|unfold io_throw in HF; simplify_eq; apply Hsub; [done|intros ? ?; by rewrite Hpt1]].
    destruct Ho as [Hav _].
    destruct (release_frame_spec s1 f Hwf1 Hav) as (r2 & s2 & HR & Hwf2 & _ & _ & _ & _ & Hout).
    unfold mbind, io_bind in HF. rewrite HR in HF. apply release_frame_pool in HR as [Hf2 Hpt2].
    rewrite Hf1 in Hf2. rewrite Hpt1 in Hpt2. destruct Hout as [[-> Hdt]|[e ->]]; [|simplify_eq; by apply Hsub].
    apply fill_frame_pool in HF as [Hf3 Hpt3].
    unfold pins. destruct (page_table_ (pool_ s') !! q) as [g|] eqn:Hg; [|lia].
    apply (Hpt3 q g Hq) in Hg. rewrite Hf3 by (intros ->; by apply (dt_unmapped s2 f Hdt q)).
    by rewrite (Hpt2 q g Hg), Hf2.
Qed.

(** A fetch caches no page but its own. *)
Lemma FetchPage_caches s p r s' q g :
  FetchPage p s = (r, s') -> page_table_ (pool_ s') !! q = Some g -> q <> p -> page_table_ (pool_ s) !! q = Some g.
Proof.
  intros HF Hg Hq. destruct (page_table_ (pool_ s) !! p) as [f|] eqn:Hpt.
  - unfold FetchPage in HF. rewrite Hpt in HF.
    unfold mbind, io_bind, mret, io_ret, on_pool, io_zoom, frame_at, put_frame in HF.
    destruct (vec_get (frames_ (pool_ s)) f) as [m|e| |]; [|by simplify_eq..].
    destruct (vec_set (frames_ (pool_ s)) f _) as [fs|e| |]; [|by simplify_eq..].
    match type of HF with context [touch f ?p'] => destruct (touch f p') as [rt pt] eqn:Ht end.
    apply touch_pool in Ht as [_ Ht]. simpl in *. assert (pool_ s' = pt) as Hs by (destruct rt; by simplify_eq). congruence.
  - unfold FetchPage in HF. rewrite Hpt in HF. unfold mbind at 1, io_bind at 1 in HF.
    destruct (on_pool FindFreeFrame s) as [o s1] eqn:HFF. apply FindFreeFrame_pool in HFF as [_ Hpt1]. rewrite <- Hpt1.
    destruct o as [[f|]|e| |]; [|unfold io_throw in HF; by simplify_eq..]. unfold mbind, io_bind in HF.
    destruct (release_frame f s1) as [r2 s2] eqn:HR. apply release_frame_pool in HR as [_ Hpt2]. apply Hpt2.
    destruct r2; [|by simplify_eq..]. apply fill_frame_pool in HF as [_ Hpt3]. by apply Hpt3.
Qed.

(** ** Unpinning *)

(** What [SetEvictable] does to the replacer of a frame that loses its last pin. *)
Lemma unpin_replacer s f m :
  store_wf s -> entries_ (replacer_ (pool_ s)) !! f = Some false -> pin_count m <> 0%nat ->
  exists r', (if decide (pin_count m - 1 = 0)%nat then SetEvictable (replacer_ (pool_ s)) f true else Ok (replacer_ (pool_ s))) = Ok r' /\
    lru_wf r' /\ (evictables r' = evictables (replacer_ (pool_ s)) + (if decide (pin_count m = 1) then 1 else 0))%nat /\
    forall g, entries_ r' !! g = if decide (g = f) then Some (bool_decide (pin_count m - 1 = 0)%nat)
                                 else entries_ (replacer_ (pool_ s)) !! g.
Proof.
  intros Hwf Hev Hnz. destruct (SetEvictable_entries _ f true false (sw_lru s Hwf) Hev) as (r & HS & Hr & Hn & Hre).
  destruct (decide (pin_count m - 1 = 0)%nat) as [Hz|Hz].
  - exists r. rewrite decide_True by lia. split_and!; [done..|lia|]. intros g. rewrite Hre. by rewrite bool_decide_true.
  - exists (replacer_ (pool_ s)). rewrite decide_False by lia. split_and!; [done|apply (sw_lru s Hwf)|lia|]. intros g.
    case_decide; [subst; by rewrite Hev, bool_decide_false|done].
Qed.

(** The store once the metadata of the frame [f] of page [p] has lost a pin. *)
Section Unpinned.
Context (s : Store F) (p : Z) (f : nat) (m : FrameMeta) (dirty : bool) (r' : LruReplacer).
Context (Hwf : store_wf s) (Hp : page_table_ (pool_ s) !! p = Some f) (Hm : frames_ (pool_ s) !! f = Some m)
  (Hnz : pin_count m <> 0%nat).
Context (Hr' : lru_wf r')
  (He' : forall g, entries_ r' !! g = if decide (g = f) then Some (bool_decide (pin_count m - 1 = 0)%nat)
                                      else entries_ (replacer_ (pool_ s)) !! g).

Definition unpinned_frame : FrameMeta := mk_frame (page_id m) (pin_count m - 1) (is_dirty m || dirty) (in_use m).
Definition unpinned : Store F :=
  mk_store (disk_ s) (set_replacer r' (set_frames (<[f:=unpinned_frame]> (frames_ (pool_ s))) (pool_ s))).

Lemma unpinned_lookup g :
  <[f:=unpinned_frame]> (frames_ (pool_ s)) !! g = if decide (g = f) then Some unpinned_frame else frames_ (pool_ s) !! g.
Proof. apply frames_insert_lookup; [done|by eapply mapped_lt]. Qed.

Lemma unpinned_wf : store_wf unpinned.
Proof.
  split; simpl; try apply Hwf; try done.
  - rewrite length_insert. apply Hwf.
  - intros q g Hq. destruct (sw_mapped s Hwf q g Hq) as (n & H1 & H2 & H3 & H4 & H5 & H6 & H7 & H8 & H9).
    unfold mapped_ok. simpl. rewrite unpinned_lookup, He'. destruct (decide (g = f)) as [->|]; [|by exists n].
    assert (q = p) as -> by by eapply mapped_inj. assert (n = m) as -> by congruence. exists unpinned_frame. split_and!; try done.
    + unfold evictable_ok, unpinned_frame. simpl. case_bool_decide as Hz; [by rewrite decide_True|by rewrite decide_False].
    + simpl. intros [Hd _]%orb_false_iff. by apply H9.
  - intros g b. rewrite He'. destruct (decide (g = f)); [subst; eauto|]. apply (sw_entries s Hwf).
  - intros g Hg. destruct (sw_free s Hwf g Hg) as (n & Hn1 & Hn2). exists n. simpl. rewrite unpinned_lookup.
    rewrite decide_False; [done|]. intros ->. by destruct (sw_mapped s Hwf p f Hp) as (? & _ & _ & _ & _ & _ & ? & _).
Qed.

Lemma unpinned_pins q : pins unpinned q = if decide (q = p) then (pins s p - 1)%nat else pins s q.
Proof.
  unfold pins. simpl. destruct (decide (q = p)) as [->|Hq]. { by rewrite Hp, unpinned_lookup, Hm, decide_True. }
  destruct (page_table_ (pool_ s) !! q) as [g|] eqn:Eq; [|done]. rewrite unpinned_lookup, decide_False; [done|].
  intros ->. apply Hq. by eapply mapped_inj.
Qed.
End Unpinned.

Lemma UnpinPage_spec s p dirty :
  store_wf s ->
  exists s', on_pool (UnpinPage p dirty) s = (Ok tt, s') /\ store_wf s' /\
    disk_ s' = disk_ s /\ page_table_ (pool_ s') = page_table_ (pool_ s) /\
    pages_ (pool_ s') = pages_ (pool_ s) /\
    (forall q, pins s' q = if decide (q = p) then (pins s p - 1)%nat else pins s q) /\
    (budget s' = budget s + (if decide (pins s p = 1) then 1 else 0))%nat.
Proof.
  intros Hwf. unfold on_pool, io_zoom, UnpinPage.
  destruct (page_table_ (pool_ s) !! p) as [f|] eqn:Hp.
  2: { exists s. assert (pins s p = 0%nat) as Hp0 by by unfold pins; rewrite Hp.
       split_and!; [by destruct s|done..| |rewrite Hp0; simpl; lia].
       intros q. case_decide; [subst; by rewrite Hp0|done]. }
  destruct (sw_mapped s Hwf p f Hp) as (m & Hm & _ & _ & _ & _ & _ & Hev & _ & _).
  assert (pins s p = pin_count m) as Hpins by by unfold pins; rewrite Hp, Hm.
  unfold mbind, io_bind, frame_at. rewrite (proj2 (vec_get_Ok _ _ _) Hm).
  destruct (decide (pin_count m = 0)%nat) as [Hz|Hnz].
  { exists s. rewrite Hpins. split_and!; [by destruct s|done..| |rewrite Hz; simpl; lia].
    intros q. case_decide; [subst; rewrite Hpins; lia|done]. }
  unfold evictable_ok in Hev. rewrite decide_False in Hev by done.
  destruct (unpin_replacer s f m Hwf Hev Hnz) as (r' & HS & Hr' & Hn' & He').
  unfold put_frame. rewrite vec_set_lt by (rewrite (sw_frames s Hwf); by eapply mapped_lt).
  exists (unpinned s f m dirty r'). split_and!; [|by apply (unpinned_wf s p)|done..|by apply (unpinned_pins s p)|].
  - unfold unpinned, with_replacer. simpl. destruct (decide (pin_count m - 1 = 0)%nat).
    + simpl. by rewrite HS.
    + by injection HS as <-.
  - rewrite Hpins. unfold budget. simpl. lia.
Qed.

Lemma logical_page_same s s' :
  disk_ s' = disk_ s -> page_table_ (pool_ s') = page_table_ (pool_ s) ->
  pages_ (pool_ s') = pages_ (pool_ s) -> forall q, logical_page s' q = logical_page s q.
Proof. intros Hd Hp Hb q. unfold logical_page, frame_bytes. by rewrite Hd, Hp, Hb. Qed.

(** ** A fetch succeeds when the device works and a frame is left *)

Context `{!ReliableFile F}.

Lemma WritePages_total d p data :
  is_u32 p -> 0 < p -> length data = kPage -> exists d', WritePages p data d = (Ok tt, d').
Proof.
  intros Hp Hp0 Hl. unfold WritePages, kHeaderPageId.
  rewrite (proj2 (Z.eqb_neq p 0)) by lia. rewrite bool_decide_false by (by intros ->).
  rewrite Hl. change (Z.of_nat kPage mod kPageSizeBytes =? 0) with true. simpl.
  unfold write_all. rewrite page_offset_eq by done.
  destruct (pwrite_total (fd_ d) data (p * 4096)) as [f ->]; [lia|]. rewrite decide_True by done. eauto.
Qed.

Lemma release_frame_total s f :
  store_wf s -> avail s f -> exists s', release_frame f s = (Ok tt, s').
Proof.
  intros Hwf Hav. pose proof Hav as [Hlt _ _ (m & Hm & Hmap)]. unfold release_frame.
  erewrite (io_bind_Ok (on_pool (frame_at f)) _ s s m); [|unfold on_pool, io_zoom, frame_at;
    rewrite (proj2 (vec_get_Ok _ _ _) Hm); by destruct s].
  destruct (in_use m); [|eauto]. destruct (is_dirty m); [|eexists; done].
  destruct (pool_read_frame (pool_ s) f (sw_pages s Hwf) Hlt) as [Hr Hl].
  destruct (sw_mapped s Hwf _ f Hmap) as (m' & Hm' & Hid & _ & Hu32 & Hp0 & _).
  destruct (WritePages_total (disk_ s) (page_id m) _ Hu32 Hp0 Hl) as [d' HW].
  unfold mbind, io_bind, write_back, on_pool, on_disk, io_zoom, mbind, io_bind. rewrite Hr. simpl.
  rewrite HW. simpl. eauto.
Qed.

Lemma ReadPages_page d p :
  is_u32 p -> 0 < p -> page_exists d p -> ReadPages p 1 d = (Ok (disk_page d p), d).
Proof.
  intros Hp Hp0 Hex. unfold disk_page, page_start, kPage, kPageSizeBytes in *.
  rewrite (ReadPages_total d p 1); [done|done|lia|lia|]. exact Hex.
Qed.

Lemma FetchPage_total s p :
  store_wf s -> is_u32 p -> 0 < p -> page_exists (disk_ s) p ->
  (0 < budget s)%nat \/ is_Some (page_table_ (pool_ s) !! p) ->
  exists ptr s', FetchPage p s = (Ok ptr, s').
Proof.
  intros Hwf Hp Hp0 Hex Hbud. destruct (page_table_ (pool_ s) !! p) as [f|] eqn:Hpt.
  { destruct (FetchPage_hit s p f Hwf Hpt) as (s' & HF & _). eauto. }
  destruct Hbud as [Hbud|[? ?]]; [|done]. unfold FetchPage. rewrite Hpt.
  destruct (FindFreeFrame_spec s Hwf) as (o & s1 & HFF & Hwf1 & Hk1 & Hd1 & Hpt1 & Ho).
  rewrite (on_pool_bind _ _ _ _ _ HFF). destruct o as [f|]; [|lia]. destruct Ho as [Hav _].
  destruct (release_frame_total s1 f Hwf1 Hav) as [s2 HR].
  destruct (release_frame_spec s1 f Hwf1 Hav) as (r2 & s2' & HR' & Hwf2 & Hk2 & Hlen & Hb2 & Hnone & Hout).
  rewrite HR in HR'. simplify_eq. destruct Hout as [[_ [Hlt _ _ _]]|[? ?]]; [|done].
  unfold mbind, io_bind. rewrite HR. unfold fill_frame, mbind, io_bind, on_disk, on_pool, io_zoom.
  assert (page_exists (disk_ s2') p) as Hex2 by (unfold page_exists in *; by rewrite Hlen, Hd1).
  rewrite (ReadPages_page (disk_ s2') p) by done. simpl.
  assert (length (disk_page (disk_ s2') p) = kPage) as Hl by (apply length_region; exact Hex2).
  destruct (pool_write_frame (pool_ s2') f _ (sw_pages _ Hwf2) Hlt Hl) as (b & -> & _). simpl.
  unfold put_frame. rewrite vec_set_lt by (simpl; by rewrite (sw_frames _ Hwf2)). simpl.
  match goal with |- context [touch f ?p'] => destruct (touch_Ok p' f) as (r & -> & _); [apply (sw_lru _ Hwf2)|] end.
  simpl. eauto.
Qed.

End BufferPoolFacts.

(** ** Calls in sequence *)

Section Trace.
Context {F : Type} `{PosixFileLaws F}.

Inductive pool_call : Type := CallFetch (p : Z) | CallUnpin (p : Z) (dirty : bool).

Definition call_ok (c : pool_call) : Prop := match c with CallFetch p | CallUnpin p _ => is_u32 p end.

Definition pool_step (c : pool_call) : io (Store F) (option nat) :=
  match c with
  | CallFetch p => (ptr ← FetchPage p; mret (Some ptr))
  | CallUnpin p dirty => _ ← on_pool (UnpinPage p dirty); mret None
  end.

(** A caller that goes on after an exception: the outcome of every call. *)
Fixpoint pool_run (cs : list pool_call) (s : Store F) : list (result (option nat)) * Store F :=
  match cs with
  | [] => ([], s)
  | c :: cs' =>
      let '(r, s1) := pool_step c s in
      let '(rs, s2) := pool_run cs' s1 in (r :: rs, s2)
  end.

Definition returns_or_throws {A} (r : result A) : Prop :=
  match r with Ok _ | Throw _ => True | _ => False end.

Lemma new_pool_wf (d : DiskManager F) n : store_wf (mk_store d (new_pool n)).
Proof.
  split; simpl.
  - apply length_replicate.
  - apply length_replicate.
  - apply new_lru_wf.
  - intros p f. by rewrite lookup_empty.
  - intros f b. by rewrite lookup_empty.
  - intros f Hf%elem_of_seq. eexists. split; [apply lookup_replicate_2; lia|done].
  - apply NoDup_seq.
Qed.

Lemma new_pool_logical (d : DiskManager F) n p :
  page_exists d p -> logical_page (mk_store d (new_pool n)) p = Some (disk_page d p).
Proof. intros. unfold logical_page. simpl. rewrite lookup_empty. by rewrite decide_True. Qed.

Lemma pool_step_spec c (s : Store F) :
  store_wf s -> call_ok c ->
  exists r s', pool_step c s = (r, s') /\ store_wf s' /\ returns_or_throws r /\
    forall p bs, is_u32 p -> logical_page s p = Some bs -> logical_page s' p = Some bs.
Proof.
  intros Hwf Hc. destruct c as [p|p dirty]; simpl in *.
  - destruct (FetchPage_spec s p Hwf Hc) as (r & s' & HF & Hwf' & [Hl _] & Hr).
    exists (Some <$> r), s'. split_and!; [|done|by destruct r|done].
    unfold mbind, io_bind. rewrite HF. by destruct r.
  - destruct (UnpinPage_spec s p dirty Hwf) as (s' & HU & Hwf' & Hd & Hpt & Hb & _).
    exists (Ok None), s'. rewrite (on_pool_bind _ _ _ _ _ HU). split_and!; try done.
    intros q bs _. by rewrite (logical_page_same s s').
Qed.

(** C20. Whatever the calls of [FetchPage] and [UnpinPage] on a new pool, in any order and
    with any dirty flags, every call returns or throws (never undefined behaviour),
    the pool's invariant holds at the end (in particular a clean cached page equals
    the page on disk, an evictable frame is unpinned, and no frame serves two
    pages), and every page that was on disk still has its original contents. *)
Theorem pool_calls_safe (d : DiskManager F) n cs rs s' :
  Forall call_ok cs ->
  pool_run cs (mk_store d (new_pool n)) = (rs, s') ->
  store_wf s' /\ Forall returns_or_throws rs /\
  forall p, is_u32 p -> page_exists d p -> logical_page s' p = Some (disk_page d p).
Proof.
  intros Hcs.
  enough (G : forall s, store_wf s -> pool_run cs s = (rs, s') ->
    store_wf s' /\ Forall returns_or_throws rs /\
    forall p bs, is_u32 p -> logical_page s p = Some bs -> logical_page s' p = Some bs).
  { intros HR. destruct (G _ (new_pool_wf d n) HR) as (Hwf & Hrs & Hl). split_and!; [done..|].
    intros p Hp Hex. apply Hl; [done|]. by apply new_pool_logical. }
  revert rs. induction Hcs as [|c cs Hc Hcs IH]; intros rs s Hwf HR; simpl in HR; [by simplify_eq|].
  destruct (pool_step_spec c s Hwf Hc) as (r & s1 & Hstep & Hwf1 & Hr & Hl). rewrite Hstep in HR.
  destruct (pool_run cs s1) as [rs1 s2] eqn:E. simplify_eq.
  destruct (IH rs1 s1 Hwf1 E) as (Hwf2 & Hrs & Hl2). split_and!; [done|by constructor|]. eauto.
Qed.

(** C28. [FetchPage] on any reachable pool: it returns or throws; if it returns, the pointer
    designates the page's contents and the page is pinned once more; whatever the
    outcome, no page changes its contents and no pinned page is moved or unpinned. *)
Theorem FetchPage_correct (s : Store F) p :
  store_wf s -> is_u32 p ->
  exists r s', FetchPage p s = (r, s') /\ store_wf s' /\
    match r with
    | Ok ptr => exists bs, logical_page s p = Some bs /\
        pool_read ptr kPage (pool_ s') = (Ok bs, pool_ s') /\ pins s' p = S (pins s p)
    | Throw _ => True
    | _ => False
    end /\
    (forall q bs, is_u32 q -> logical_page s q = Some bs -> logical_page s' q = Some bs) /\
    (forall q f, page_table_ (pool_ s) !! q = Some f -> (0 < pins s q)%nat ->
       page_table_ (pool_ s') !! q = Some f /\ (pins s q <= pins s' q)%nat).
Proof.
  intros Hwf Hp. destruct (FetchPage_spec s p Hwf Hp) as (r & s' & HF & Hwf' & [Hl Hpin] & Hr).
  exists r, s'. split_and!; [done|done| |done|done]. destruct r as [ptr|e| |]; try done.
  destruct Hr as (f & -> & Hpt & Hlog & Hpins & _). exists (frame_bytes (pool_ s') f). split_and!; [done| |done].
  apply pool_read_frame; [apply (sw_pages s' Hwf')|by apply (mapped_lt s' p)].
Qed.

(** C32. A pool does not run out of frames under balanced use: while a frame is free or
    evictable a fetch of an existing page succeeds, and once the page is unpinned
    again at least as many frames are usable as before. *)
Theorem fetch_unpin_balanced `{!ReliableFile F} (s : Store F) p dirty :
  store_wf s -> is_u32 p -> 0 < p -> page_exists (disk_ s) p ->
  (0 < budget s)%nat \/ is_Some (page_table_ (pool_ s) !! p) ->
  exists ptr s1 s2, FetchPage p s = (Ok ptr, s1) /\ on_pool (UnpinPage p dirty) s1 = (Ok tt, s2) /\
    store_wf s2 /\ (budget s <= budget s2)%nat /\ pins s2 p = pins s p.
Proof.
  intros Hwf Hp Hp0 Hex Hb. destruct (FetchPage_total s p Hwf Hp Hp0 Hex Hb) as (ptr & s1 & HF).
  destruct (FetchPage_spec s p Hwf Hp) as (r & s1' & HF' & Hwf1 & _ & Hr). rewrite HF in HF'. simplify_eq.
  destruct Hr as (f & _ & _ & _ & Hpins & Hbud).
  destruct (UnpinPage_spec s1' p dirty Hwf1) as (s2 & HU & Hwf2 & _ & _ & _ & Hpins2 & Hbud2).
  exists ptr, s1', s2. rewrite Hpins2, decide_True by done. rewrite Hpins in *. split_and!; try done.
  - destruct (decide (pins s p = 0)%nat); [rewrite decide_True in Hbud2 by lia|]; lia.
  - lia.
Qed.

(** A frame is lost when reading its page fails: [FetchPage] takes the frame before it
    reads the page and does not give it back when [ReadPages] throws, so in a pool of
    one frame a single failed fetch makes every later fetch fail. *)
Theorem failed_fetch_loses_frame (d : DiskManager F) p q :
  is_u32 p -> ~ page_exists d p ->
  exists e s', FetchPage p (mk_store d (new_pool 1)) = (Throw e, s') /\
    exists e', FetchPage q s' = (Throw e', s').
Proof.
  intros Hp Hno. destruct (ReadPages p 1 d) as [r d'] eqn:ER.
  destruct (ReadPages_any _ _ _ _ Hp ER) as (-> & [(_ & Hex & _)|[e ->]]); [done|].
  eexists e, _. split.
  - unfold FetchPage. simpl. rewrite lookup_empty. unfold mbind, io_bind, on_pool, io_zoom. simpl.
    unfold release_frame, mbind, io_bind, on_pool, io_zoom. simpl.
    unfold fill_frame, mbind, io_bind, on_disk, io_zoom. simpl. by rewrite ER.
  - eexists. unfold FetchPage. simpl. by rewrite lookup_empty.
Qed.

End Trace.

(** ** The theorems at a concrete pool *)

Definition one_frame : Store mem_file := mk_store blank_disk (new_pool 1).

Lemma blank_page_exists p : bool_decide (page_exists blank_disk p) = true -> page_exists blank_disk p.
Proof. apply bool_decide_eq_true_1. Qed.

Lemma pool_calls_safe_witness :
  let calls := [CallFetch 1; CallFetch 2; CallUnpin 1 true; CallFetch 2] in
  let out := pool_run calls one_frame in
  Forall returns_or_throws out.1 /\ logical_page out.2 1 = Some (disk_page blank_disk 1).
Proof.
  intros calls out.
  assert (pool_run calls one_frame = (out.1, out.2)) as HR by apply surjective_pairing.
  clearbody out.
  assert (Forall call_ok calls) as Hok by (repeat constructor; done).
  destruct (pool_calls_safe blank_disk 1 calls out.1 out.2 Hok HR) as (_ & Hrs & Hl).
  split; [exact Hrs|]. apply Hl; [split; done|]. apply blank_page_exists. vm_compute. reflexivity.
Defined.

Lemma FetchPage_correct_witness :
  exists r s', FetchPage 1 one_frame = (r, s') /\ store_wf s'.
Proof.
  assert (is_u32 1) as Hp by (split; done).
  destruct (FetchPage_correct one_frame 1 (new_pool_wf blank_disk 1) Hp) as (r & s' & HF & Hwf & _).
  exists r, s'. exact (conj HF Hwf).
Defined.

Lemma fetch_unpin_balanced_witness :
  exists ptr s1 s2, FetchPage 1 one_frame = (Ok ptr, s1) /\ on_pool (UnpinPage 1 true) s1 = (Ok tt, s2) /\
    (1 <= budget s2)%nat /\ pins s2 1 = 0%nat.
Proof.
  assert (is_u32 1) as Hp by (split; done).
  assert (page_exists blank_disk 1) as Hex by (apply blank_page_exists; vm_compute; reflexivity).
  assert ((0 < budget one_frame)%nat) as Hb by (unfold budget; simpl; lia).
  destruct (fetch_unpin_balanced one_frame 1 true (new_pool_wf blank_disk 1) Hp ltac:(done) Hex (or_introl Hb))
    as (ptr & s1 & s2 & HF & HU & _ & Hbud & Hpins).
  exists ptr, s1, s2. split_and!; [exact HF|exact HU| |].
  - unfold budget in Hbud at 1. simpl in Hbud. lia.
  - rewrite Hpins. unfold pins. simpl. by rewrite lookup_empty.
Defined.

Lemma failed_fetch_loses_frame_witness :
  exists e s', FetchPage 9 one_frame = (Throw e, s') /\ exists e', FetchPage 1 s' = (Throw e', s').
Proof.
  apply (failed_fetch_loses_frame blank_disk 9 1); [split; done|].
  apply (bool_decide_eq_false_1 (page_exists blank_disk 9)). vm_compute. reflexivity.
Defined.
