(* ===== verification/Schema.v ===== *)
(** Model of [include/gistdb/catalog/column_def.hpp], [src/catalog/table_object.cpp] and
    [src/catalog/schema_section.cpp]: column definitions, the table object with its
    row groups, and the serialized list of table schemas. *)

From S2P Require Import Prelude ByteIO Scalar Footer.

Record ColumnDef : Type := mk_column { name : string; type : TypeId; ordinal : Z }.
#[global] Instance ColumnDef_eq_dec : EqDecision ColumnDef.
Proof. solve_decision. Defined.

(** ** [TableObject] *)

Record TableObject : Type := mk_table {
  tbl_id_ : Z;
  table_name_ : string;
  tbl_columns_ : list ColumnDef;
  column_ordinal_map_ : gmap string Z;
  row_groups_ : list RowGroupFooterEntry;
  total_row_count_ : Z;
}.

(** [unordered_map::emplace] keeps an entry that is already there. *)
Definition emplace {K V} `{Countable K} (k : K) (v : V) (m : gmap K V) : gmap K V :=
  match m !! k with Some _ => m | None => <[k := v]> m end.

Definition ordinal_map (columns : list ColumnDef) : gmap string Z :=
  foldl (fun m column => emplace (name column) (ordinal column) m) ∅ columns.

Definition new_table (table_id : Z) (table_name : string) (columns : list ColumnDef) : TableObject :=
  mk_table table_id table_name columns (ordinal_map columns) [] 0.

Definition NumColumns (t : TableObject) : nat := length (tbl_columns_ t).

Definition Column (t : TableObject) (ordinal : nat) : result ColumnDef := vec_get (tbl_columns_ t) ordinal.

(** [nullptr] is [None]. *)
Definition FindColumn (t : TableObject) (name : string) : result (option ColumnDef) :=
  match column_ordinal_map_ t !! name with
  | None => mret None
  | Some ord => c ← vec_get (tbl_columns_ t) (Z.to_nat ord); mret (Some c)
  end.

Definition table_AddRowGroup (t : TableObject) (row_group : RowGroupFooterEntry) : result TableObject :=
  if negb (table_id_ row_group =? tbl_id_ t) then
    Throw (InvalidArgument "TableObject::AddRowGroup: row group's table_id does not match")
  else
    mret (mk_table (tbl_id_ t) (table_name_ t) (tbl_columns_ t) (column_ordinal_map_ t)
            (row_groups_ t ++ [row_group]) (u64 (total_row_count_ t + row_count_ row_group))).

(** ** [SchemaSection] *)

Record TableSchemaEntry : Type := mk_schema_entry {
  table_id : Z;
  table_name : string;
  columns : list ColumnDef;
}.

Record SchemaSection : Type := mk_schema { next_table_id_ : Z; tables_ : list TableSchemaEntry }.

Definition empty_schema : SchemaSection := mk_schema 0 [].

Definition AddTable (s : SchemaSection) (table_name : string) (columns : list ColumnDef) : Z * SchemaSection :=
  (next_table_id_ s,
   mk_schema (u32 (next_table_id_ s + 1))
     (tables_ s ++ [mk_schema_entry (next_table_id_ s) table_name columns])).

Definition NumTables (s : SchemaSection) : nat := length (tables_ s).
Definition Table (s : SchemaSection) (index : nat) : result TableSchemaEntry := vec_get (tables_ s) index.

(** [static_cast<std::uint8_t>(type)]. *)
Definition type_byte (t : TypeId) : Z := match t with kInteger => 0 | kFloat => 1 | kVarchar => 2 end.

Definition schema_WriteColumn (buf : list byte) (column : ColumnDef) : list byte :=
  WriteU32 (WriteU8 (WriteString buf (name column)) (type_byte (type column))) (ordinal column).

Definition ReadTypeId : io ByteReader TypeId :=
  raw ← ReadU8;
  if 2 <? raw then io_throw (RuntimeError "SchemaSection::Deserialize: invalid TypeId byte")
  else mret (if raw =? 0 then kInteger else if raw =? 1 then kFloat else kVarchar).

Definition schema_ReadColumn : io ByteReader ColumnDef :=
  name ← ReadString;
  type ← ReadTypeId;
  ordinal ← ReadU32;
  mret (mk_column name type ordinal).

Definition WriteTable (buf : list byte) (t : TableSchemaEntry) : list byte :=
  let buf := WriteU32 buf (table_id t) in
  let buf := WriteString buf (table_name t) in
  let buf := WriteU32 buf (u32 (Z.of_nat (length (columns t)))) in
  foldl schema_WriteColumn buf (columns t).

Definition schema_Serialize (s : SchemaSection) : list byte :=
  foldl WriteTable
    (WriteU32 (WriteU32 [] (next_table_id_ s)) (u32 (Z.of_nat (length (tables_ s))))) (tables_ s).

Definition ReadTable : io ByteReader TableSchemaEntry :=
  table_id ← ReadU32;
  table_name ← ReadString;
  num_columns ← ReadU32;
  columns ← for_range 0 (Z.to_nat num_columns) (fun _ cs => c ← schema_ReadColumn; mret (cs ++ [c])) [];
  mret (mk_schema_entry table_id table_name columns).

Definition schema_Deserialize (bytes : list byte) : result SchemaSection :=
  fst ((next_table_id ← ReadU32;
        num_tables ← ReadU32;
        tables ← for_range 0 (Z.to_nat num_tables) (fun _ ts => t ← ReadTable; mret (ts ++ [t])) [];
        mret (mk_schema next_table_id tables)) (mk_reader bytes 0)).

(** ** Table objects *)

(** The columns are numbered by their position, and names are distinct. *)
Definition ordinals_ok (cs : list ColumnDef) : Prop := forall i c, cs !! i = Some c -> ordinal c = Z.of_nat i.
Definition columns_wf (cs : list ColumnDef) : Prop := NoDup (map name cs) /\ ordinals_ok cs.

Lemma emplace_fresh {K V} `{Countable K} (k : K) (v : V) m : m !! k = None -> emplace k v m = <[k := v]> m.
Proof. intros Hm. unfold emplace. by rewrite Hm. Qed.

Lemma lookup_emplace {K V} `{Countable K} (k : K) (v : V) (m : gmap K V) k' :
  emplace k v m !! k' = match m !! k' with Some v' => Some v' | None => if decide (k = k') then Some v else None end.
Proof.
  unfold emplace. destruct (m !! k) eqn:E.
  - destruct (m !! k') eqn:E'; [done|]. destruct (decide (k = k')); [congruence|done].
  - destruct (decide (k = k')) as [<-|Hne]; [by rewrite lookup_insert_eq, E|].
    rewrite lookup_insert_ne by done. by destruct (m !! k').
Qed.

(** The first column of a name is the one the map finds. *)
Lemma ordinal_map_lookup cs n :
  ordinal_map cs !! n = ordinal <$> head (filter (fun c => name c = n) cs).
Proof.
  unfold ordinal_map. induction cs as [|c cs IH] using rev_ind; [done|].
  rewrite foldl_app. simpl. rewrite lookup_emplace, IH, filter_app.
  destruct (filter _ cs) as [|c' l] eqn:E; simpl; [|done].
  rewrite filter_cons. by case_decide.
Qed.

Lemma FindColumn_spec t n :
  column_ordinal_map_ t = ordinal_map (tbl_columns_ t) -> ordinals_ok (tbl_columns_ t) ->
  FindColumn t n = Ok (head (filter (fun c => name c = n) (tbl_columns_ t))).
Proof.
  intros Hm Hord. unfold FindColumn. rewrite Hm, ordinal_map_lookup.
  destruct (head (filter _ (tbl_columns_ t))) as [c|] eqn:E; simpl; [|done].
  assert (c ∈ tbl_columns_ t) as Hc.
  { apply head_Some_elem_of, list_elem_of_filter in E. apply E. }
  apply list_elem_of_lookup in Hc as [i Hi]. rewrite (Hord i c Hi), Nat2Z.id.
  by rewrite (proj2 (vec_get_Ok _ _ _) Hi).
Qed.

(** ** The schema format *)

Definition column_def_wf (c : ColumnDef) : Prop :=
  is_u32 (Z.of_nat (String.length (name c))) /\ is_u32 (ordinal c).

Definition schema_entry_wf (t : TableSchemaEntry) : Prop :=
  is_u32 (table_id t) /\ is_u32 (Z.of_nat (String.length (table_name t))) /\
  is_u32 (Z.of_nat (length (columns t))) /\ Forall column_def_wf (columns t).

Definition schema_wf (s : SchemaSection) : Prop :=
  is_u32 (next_table_id_ s) /\ is_u32 (Z.of_nat (length (tables_ s))) /\ Forall schema_entry_wf (tables_ s).

Lemma schema_WriteColumn_app buf c :
  schema_WriteColumn buf c =
  buf ++ (le_bytes 4 (u32 (Z.of_nat (String.length (name c)))) ++ bytes_of_string (name c)) ++
  le_bytes 1 (type_byte (type c)) ++ le_bytes 4 (ordinal c).
Proof. unfold schema_WriteColumn. by write_app. Qed.

Lemma schema_WriteColumn_appends : appends schema_WriteColumn.
Proof. intros buf c. by rewrite !(schema_WriteColumn_app _ c). Qed.

Lemma decodes_ReadTypeId t : decodes ReadTypeId (le_bytes 1 (type_byte t)) t.
Proof.
  unfold ReadTypeId. rewrite <- (app_nil_r (le_bytes _ _)). eapply decodes_bind.
  - apply decodes_ReadU8_le. by destruct t.
  - destruct t; simpl; apply decodes_ret.
Qed.

Lemma decodes_schema_ReadColumn c :
  column_def_wf c -> decodes schema_ReadColumn (schema_WriteColumn [] c) c.
Proof.
  intros [Hn Ho]. rewrite schema_WriteColumn_app, app_nil_l. destruct c as [n t o]; simpl in *.
  unfold schema_ReadColumn. eapply decodes_bind; [by apply decodes_ReadString|].
  eapply decodes_bind; [apply decodes_ReadTypeId|].
  apply (decodes_bind_ret _ (mk_column n t)). by apply decodes_ReadU32.
Qed.

Lemma WriteTable_app buf t :
  WriteTable buf t =
  buf ++ le_bytes 4 (table_id t) ++
  (le_bytes 4 (u32 (Z.of_nat (String.length (table_name t)))) ++ bytes_of_string (table_name t)) ++
  le_bytes 4 (u32 (Z.of_nat (length (columns t)))) ++ concat (map (schema_WriteColumn []) (columns t)).
Proof.
  unfold WriteTable. rewrite foldl_appends by apply schema_WriteColumn_appends. by write_app.
Qed.

Lemma decodes_ReadTable t : schema_entry_wf t -> decodes ReadTable (WriteTable [] t) t.
Proof.
  intros (Hi & Hn & Hl & Hc). rewrite WriteTable_app, app_nil_l. destruct t as [i n cs]; simpl in *.
  unfold ReadTable. rewrite (u32_id (Z.of_nat (length cs))) by done. decode_step.
  eapply decodes_bind; [by apply decodes_ReadString|]. decode_step. rewrite Nat2Z.id.
  apply (decodes_bind_ret _ (mk_schema_entry i n)).
  apply (decodes_for_range schema_ReadColumn (schema_WriteColumn []) cs 0 []).
  intros c Hin. apply decodes_schema_ReadColumn. rewrite Forall_forall in Hc. auto.
Qed.

Lemma schema_Serialize_app s :
  schema_Serialize s = le_bytes 4 (next_table_id_ s) ++ le_bytes 4 (u32 (Z.of_nat (length (tables_ s)))) ++
  concat (map (WriteTable []) (tables_ s)).
Proof.
  unfold schema_Serialize. rewrite foldl_appends; [by write_app|].
  intros buf t. by rewrite !(WriteTable_app _ t).
Qed.

Lemma schema_decodes s post : schema_wf s -> schema_Deserialize (schema_Serialize s ++ post) = Ok s.
Proof.
  intros (Hn & Hl & Ht). unfold schema_Deserialize. apply decodes_run.
  rewrite schema_Serialize_app, u32_id by done. destruct s as [n ts]; simpl in *.
  do 2 decode_step. rewrite Nat2Z.id. apply (decodes_bind_ret _ (mk_schema n)).
  apply (decodes_for_range ReadTable (WriteTable []) ts 0 []).
  intros t Hin. apply decodes_ReadTable. rewrite Forall_forall in Ht. auto.
Qed.
