(* ===== verification/Catalog.v ===== *)
(** Model of [src/catalog/catalog.cpp]: the catalog owns the disk manager, the schema
    section and the table objects, writes them as one metadata blob and rebuilds
    them when a database is opened. The iteration order of the
    [std::unordered_map] of tables is unspecified, so it is a parameter
    ([MapOrder]). *)

From S2P Require Import Prelude ByteIO Scalar Footer Disk Schema.

(** [for (auto& entry : tables_by_name_)]. *)
Class MapOrder : Type := iterate : gmap string TableObject -> list (string * TableObject).
Class MapOrderLaws `{MapOrder} : Prop := iterate_perm m : iterate m ≡ₚ map_to_list m.

#[global] Instance list_order : MapOrder := fun m => map_to_list m.
#[global] Instance list_order_laws : MapOrderLaws.
Proof. by intros m. Qed.

(** ** The metadata blob *)

Definition CombineSchemaAndFooter (schema : SchemaSection) (footer : Footer) : list byte :=
  let schema_bytes := schema_Serialize schema in
  let footer_bytes := footer_Serialize footer in
  WriteU32 [] (u32 (Z.of_nat (length schema_bytes))) ++ schema_bytes ++ footer_bytes.

Definition SplitSchemaAndFooter (combined : list byte) : result (SchemaSection * Footer) :=
  schema_length ← fst (ReadU32 (mk_reader combined 0));
  let n := Z.to_nat schema_length in
  if decide (4 + n <= length combined)%nat then
    schema ← schema_Deserialize (take n (drop 4 combined));
    footer ← footer_Deserialize (drop (4 + n) combined);
    mret (schema, footer)
  else Undefined.

Section Catalog.
Context {F : Type} `{PosixFile F} `{MapOrder}.

Record Catalog : Type := mk_catalog {
  disk_manager_ : DiskManager F;
  schema_section_ : SchemaSection;
  tables_by_name_ : gmap string TableObject;
}.

Definition on_disk_manager {A} (m : io (DiskManager F) A) : io Catalog A :=
  io_zoom disk_manager_ (fun d c => mk_catalog d (schema_section_ c) (tables_by_name_ c)) m.
Definition set_schema (s : SchemaSection) : io Catalog unit := fun c =>
  (Ok tt, mk_catalog (disk_manager_ c) s (tables_by_name_ c)).
Definition set_tables (ts : gmap string TableObject) : io Catalog unit := fun c =>
  (Ok tt, mk_catalog (disk_manager_ c) (schema_section_ c) ts).

Definition collect_footer (entries : list (string * TableObject)) : Footer :=
  foldl (fun footer entry => foldl footer_AddRowGroup footer (row_groups_ entry.2)) [] entries.

Definition PersistMetadata : io Catalog unit := fun c =>
  on_disk_manager (WriteMetadataBlob
    (CombineSchemaAndFooter (schema_section_ c) (collect_footer (iterate (tables_by_name_ c))))) c.

(** First loop of [ReconstructFromDisk]: a table object per schema entry.
    [table_by_id] maps to nodes of [tables_by_name_], here to their keys. *)
Definition register_table (entry : TableSchemaEntry) (table_by_id : gmap Z string) : io Catalog (gmap Z string) :=
  c ← io_get;
  _ ← set_tables (emplace (table_name entry)
        (new_table (table_id entry) (table_name entry) (columns entry)) (tables_by_name_ c));
  mret (emplace (table_id entry) (table_name entry) table_by_id).

(** Second loop: a row group goes to the table of its id. *)
Definition attach_row_group (table_by_id : gmap Z string) (row_group : RowGroupFooterEntry) (u : unit)
    : io Catalog unit :=
  match table_by_id !! table_id_ row_group with
  | None => io_throw (RuntimeError
      "Catalog::Open: row group references an unknown table_id -- corrupt metadata")
  | Some name =>
      c ← io_get;
      match tables_by_name_ c !! name with
      | None => io_lift Undefined
      | Some table =>
          table' ← io_lift (table_AddRowGroup table row_group);
          set_tables (<[name := table']> (tables_by_name_ c))
      end
  end.

Definition ReconstructFromDisk : io Catalog unit :=
  combined ← on_disk_manager ReadMetadataBlob;
  '(schema, footer) ← io_lift (SplitSchemaAndFooter combined);
  _ ← set_schema schema;
  table_by_id ← for_each (tables_ schema) register_table ∅;
  for_each footer (attach_row_group table_by_id) tt.

(** [~Catalog]: the metadata is written whatever happened before, and the
    outcome is ignored. What is left is the file. *)
Definition catalog_destroy (c : Catalog) : F := fd_ (disk_manager_ (snd (PersistMetadata c))).

(** A local [Catalog] is returned, or destroyed when its set-up throws; the second
    component is the file afterwards. *)
Definition return_catalog (r : result unit * Catalog) : result Catalog * option F :=
  match r with
  | (Ok _, c) => (Ok c, Some (fd_ (disk_manager_ c)))
  | (Throw e, c) => (Throw e, Some (catalog_destroy c))
  | (Undefined, c) => (Undefined, Some (fd_ (disk_manager_ c)))
  | (OutOfFuel, c) => (OutOfFuel, Some (fd_ (disk_manager_ c)))
  end.

Definition catalog_of_disk (dm : result (DiskManager F)) (opened : option F) (setup : io Catalog unit)
    : result Catalog * option F :=
  match dm with
  | Ok d => return_catalog (setup (mk_catalog d empty_schema ∅))
  | Throw e => (Throw e, opened)
  | Undefined => (Undefined, opened)
  | OutOfFuel => (OutOfFuel, opened)
  end.

Definition catalog_CreateNew (opened : option F) : result Catalog * option F :=
  catalog_of_disk (disk_CreateNew opened) opened PersistMetadata.

Definition catalog_Open (opened : option F) : result Catalog * option F :=
  catalog_of_disk (disk_Open opened) opened ReconstructFromDisk.

Definition CreateTable (table_name : string) (columns : list ColumnDef) : io Catalog Z :=
  c ← io_get;
  match tables_by_name_ c !! table_name with
  | Some _ => io_throw (InvalidArgument
      ("Catalog::CreateTable: table '" ++ table_name ++ "' already exists"))
  | None =>
      let '(table_id, schema) := AddTable (schema_section_ c) table_name columns in
      _ ← set_schema schema;
      _ ← set_tables (emplace table_name (new_table table_id table_name columns) (tables_by_name_ c));
      _ ← PersistMetadata;
      mret table_id
  end.

Definition GetTable (c : Catalog) (table_name : string) : option TableObject :=
  tables_by_name_ c !! table_name.

Definition GetTableById (c : Catalog) (table_id : Z) : option TableObject :=
  snd <$> head (filter (fun e => tbl_id_ e.2 = table_id) (iterate (tables_by_name_ c))).

Definition Flush : io Catalog unit := PersistMetadata.

Definition AddRowGroup (table_name : string) (row_group : RowGroupFooterEntry) : io Catalog unit :=
  c ← io_get;
  match tables_by_name_ c !! table_name with
  | None => io_throw (InvalidArgument ("Catalog::AddRowGroup: unknown table '" ++ table_name ++ "'"))
  | Some table =>
      table' ← io_lift (table_AddRowGroup table row_group);
      set_tables (<[table_name := table']> (tables_by_name_ c))
  end.

(** [std::sort] of the names. *)
Fixpoint insert_sorted (x : string) (l : list string) : list string :=
  match l with
  | [] => [x]
  | y :: l' => if str_ltb y x then y :: insert_sorted x l' else x :: y :: l'
  end.
Definition sort_names (l : list string) : list string := foldr insert_sorted [] l.

Definition TableNames (c : Catalog) : list string := sort_names (iterate (tables_by_name_ c)).*1.

End Catalog.
Arguments Catalog F : clear implicits.

(** ** The table a schema entry and its row groups denote *)

Definition total_rows (rgs : list RowGroupFooterEntry) : Z :=
  foldl (fun n rg => u64 (n + row_count_ rg)) 0 rgs.

Definition table_with (e : TableSchemaEntry) (rgs : list RowGroupFooterEntry) : TableObject :=
  mk_table (table_id e) (table_name e) (columns e) (ordinal_map (columns e)) rgs (total_rows rgs).

Definition of_table (id : Z) (rgs : list RowGroupFooterEntry) : list RowGroupFooterEntry :=
  filter (fun rg => table_id_ rg = id) rgs.

Lemma table_with_nil e : table_with e [] = new_table (table_id e) (table_name e) (columns e).
Proof. done. Qed.

Lemma table_with_add e rgs rg :
  table_id_ rg = table_id e -> table_AddRowGroup (table_with e rgs) rg = Ok (table_with e (rgs ++ [rg])).
Proof.
  intros Hid. unfold table_AddRowGroup, table_with, total_rows. simpl.
  by rewrite Hid, Z.eqb_refl, foldl_app.
Qed.

Lemma of_table_snoc id rgs rg :
  of_table id (rgs ++ [rg]) = of_table id rgs ++ (if decide (table_id_ rg = id) then [rg] else []).
Proof. unfold of_table. rewrite filter_app, filter_cons. by case_decide. Qed.

(** The metadata is consistent: names and ids of the schema entries are distinct, ids are
    below the next one, and the map has one table per entry with its row groups. *)
Record meta_wf (s : SchemaSection) (ts : gmap string TableObject) : Prop := {
  mw_names : NoDup (map table_name (tables_ s));
  mw_ids : NoDup (map table_id (tables_ s));
  mw_next : Forall (fun e => table_id e < next_table_id_ s) (tables_ s);
  mw_entry : forall e, e ∈ tables_ s -> exists rgs, ts !! table_name e = Some (table_with e rgs) /\
    Forall (fun rg => table_id_ rg = table_id e) rgs;
  mw_dom : forall n, is_Some (ts !! n) -> exists e, e ∈ tables_ s /\ table_name e = n;
}.

(** Everything fits its field in the file. *)
Definition meta_fits (s : SchemaSection) (ts : gmap string TableObject) : Prop :=
  schema_wf s /\ (forall n t, ts !! n = Some t -> Forall row_group_wf (row_groups_ t)) /\
  is_u32 (Z.of_nat (length (schema_Serialize s))) /\
  is_u32 (Z.of_nat (length (concat (map (fun e => row_groups_ e.2) (map_to_list ts))))).

Lemma mw_lookup s ts n t : meta_wf s ts -> ts !! n = Some t ->
  exists e rgs, e ∈ tables_ s /\ table_name e = n /\ t = table_with e rgs /\
    Forall (fun rg => table_id_ rg = table_id e) rgs.
Proof.
  intros Hwf Ht. destruct (mw_dom s ts Hwf n) as (e & He & <-); [eauto|].
  destruct (mw_entry s ts Hwf e He) as (rgs & Hl & Hall). simplify_eq. eauto 10.
Qed.

Lemma collect_footer_app es acc :
  foldl (fun footer (entry : string * TableObject) => foldl footer_AddRowGroup footer (row_groups_ entry.2)) acc es =
  acc ++ concat (map (fun e => row_groups_ e.2) es).
Proof.
  revert acc. induction es as [|e es IH]; intros acc; simpl; [by rewrite app_nil_r|].
  rewrite IH, app_assoc. f_equal. clear. generalize (row_groups_ e.2). intros l. revert acc.
  induction l as [|x l IH]; intros acc; simpl; [by rewrite app_nil_r|].
  rewrite IH. unfold footer_AddRowGroup. by rewrite <- app_assoc.
Qed.

Lemma split_combine s f :
  schema_wf s -> footer_wf f -> is_u32 (Z.of_nat (length (schema_Serialize s))) ->
  SplitSchemaAndFooter (CombineSchemaAndFooter s f) = Ok (s, f).
Proof.
  intros Hs Hf Hl. unfold SplitSchemaAndFooter, CombineSchemaAndFooter.
  rewrite WriteU32_app, app_nil_l, u32_id by done.
  rewrite (decodes_run _ _ (Z.of_nat (length (schema_Serialize s)))) by by apply decodes_ReadU32.
  rewrite bind_Ok, Nat2Z.id.
  rewrite decide_True by (rewrite !length_app, length_le_bytes; lia).
  assert (drop 4 (le_bytes 4 (Z.of_nat (length (schema_Serialize s))) ++ schema_Serialize s ++ footer_Serialize f) =
    schema_Serialize s ++ footer_Serialize f) as Hd by by rewrite drop_app_length' by by rewrite length_le_bytes.
  rewrite <- drop_drop, Hd, take_app_length, drop_app_length.
  rewrite <- (app_nil_r (schema_Serialize s)), schema_decodes by done.
  by rewrite <- (app_nil_r (footer_Serialize f)), footer_decodes.
Qed.

(** ** Rebuilding the tables *)

Section Rebuild.
Context {F : Type} `{PosixFileLaws F} `{MapOrderLaws}.

Implicit Types c : Catalog F.

Definition registered (es : list TableSchemaEntry) (ids : gmap Z string) (ts : gmap string TableObject) : Prop :=
  (forall e, e ∈ es -> ts !! table_name e = Some (table_with e []) /\ ids !! table_id e = Some (table_name e)) /\
  (forall n, is_Some (ts !! n) -> exists e, e ∈ es /\ table_name e = n) /\
  (forall i, is_Some (ids !! i) -> exists e, e ∈ es /\ table_id e = i).

Lemma emplace_lookup_Some {K V} `{Countable K} (k k' : K) (v v' : V) (m : gmap K V) :
  m !! k = None -> emplace k v m !! k' = Some v' <-> (k = k' /\ v = v') \/ (k <> k' /\ m !! k' = Some v').
Proof. intros Hm. rewrite emplace_fresh by done. apply lookup_insert_Some. Qed.

Lemma register_all es d s :
  NoDup (map table_name es) -> NoDup (map table_id es) ->
  exists ids ts, for_each es register_table ∅ (mk_catalog d s ∅ : Catalog F) = (Ok ids, mk_catalog d s ts) /\
    registered es ids ts.
Proof.
  intros HN HI.
  destruct (for_each_io_inv (fun dn ids c => exists ts, c = mk_catalog d s ts /\ registered dn ids ts)
    register_table es ∅ (mk_catalog d s ∅ : Catalog F)) as (ids & c & HE & ts & -> & Hr); [| |eauto].
  - intros dn e todo ids c -> (ts & -> & Hr1 & Hr2 & Hr3).
    assert (ts !! table_name e = None) as Hn.
    { apply eq_None_not_Some. intros Hs. destruct (Hr2 _ Hs) as (e' & He' & Heq).
      rewrite map_app in HN. apply NoDup_app in HN as (_ & HN & _). apply (HN (table_name e)).
      - rewrite <- Heq. by apply list_elem_of_fmap_2.
      - simpl. by constructor. }
    assert (ids !! table_id e = None) as Hi.
    { apply eq_None_not_Some. intros Hs. destruct (Hr3 _ Hs) as (e' & He' & Heq).
      rewrite map_app in HI. apply NoDup_app in HI as (_ & HI & _). apply (HI (table_id e)).
      - rewrite <- Heq. by apply list_elem_of_fmap_2.
      - simpl. by constructor. }
    do 2 eexists. split; [done|]. eexists. split; [done|]. simpl. rewrite !emplace_fresh by done. split_and!.
    + intros e' [He'| ->%list_elem_of_singleton]%elem_of_app; [|by rewrite !lookup_insert_eq].
      destruct (Hr1 e' He') as [H1' H2']. rewrite !lookup_insert_ne; [done|congruence|congruence].
    + intros n. destruct (decide (n = table_name e)) as [->|Hne].
      * intros _. exists e. split; [|done]. apply elem_of_app. right. by constructor.
      * rewrite lookup_insert_ne by done. intros Hs. destruct (Hr2 n Hs) as (e' & He' & Heq).
        exists e'. split; [|done]. apply elem_of_app. by left.
    + intros i. destruct (decide (i = table_id e)) as [->|Hne].
      * intros _. exists e. split; [|done]. apply elem_of_app. right. by constructor.
      * rewrite lookup_insert_ne by done. intros Hs. destruct (Hr3 i Hs) as (e' & He' & Heq).
        exists e'. split; [|done]. apply elem_of_app. by left.
  - exists ∅. split; [done|]. split_and!; [set_solver|intros n; by rewrite lookup_empty; intros []|
      intros i; by rewrite lookup_empty; intros []].
Qed.

Lemma attach_all es ids ts d s (f : Footer) :
  NoDup (map table_name es) -> NoDup (map table_id es) -> registered es ids ts ->
  Forall (fun rg => exists e, e ∈ es /\ table_id_ rg = table_id e) f ->
  exists ts', for_each f (attach_row_group ids) tt (mk_catalog d s ts : Catalog F) = (Ok tt, mk_catalog d s ts') /\
    (forall e, e ∈ es -> ts' !! table_name e = Some (table_with e (of_table (table_id e) f))) /\
    (forall n, is_Some (ts' !! n) -> exists e, e ∈ es /\ table_name e = n).
Proof.
  intros HN HI (Hr1 & Hr2 & _) Hf.
  destruct (for_each_io_inv (fun dn (_ : unit) c => exists ts', c = mk_catalog d s ts' /\
     (forall e, e ∈ es -> ts' !! table_name e = Some (table_with e (of_table (table_id e) dn))) /\
     (forall n, is_Some (ts' !! n) -> exists e, e ∈ es /\ table_name e = n))
    (attach_row_group ids) f tt (mk_catalog d s ts : Catalog F)) as ([] & c & HE & ts' & -> & Hr); [| |eauto].
  - intros dn rg todo [] c -> (ts' & -> & Ht1 & Ht2).
    apply Forall_app in Hf as [_ [(e & He & Hid) _]%Forall_cons].
    destruct (Hr1 e He) as [_ Hids]. exists tt. eexists. split.
    { unfold attach_row_group. rewrite Hid, Hids. unfold mbind, io_bind, io_get. simpl.
      rewrite (Ht1 e He). unfold io_lift. rewrite table_with_add by done. done. }
    eexists. split; [done|]. split.
    + intros e' He'. rewrite of_table_snoc, Hid. destruct (decide (table_id e = table_id e')) as [Heq|Hne].
      * assert (e = e') as -> by by eapply (nodup_map_inj table_id es). by rewrite lookup_insert_eq.
      * rewrite lookup_insert_ne, app_nil_r; [by apply Ht1|]. intros Heq. apply Hne.
        by rewrite (nodup_map_inj table_name es e e' HN He He' Heq).
    + intros n. destruct (decide (n = table_name e)) as [->|Hne']; [eauto|]. rewrite lookup_insert_ne by done. auto.
  - exists ts. split_and!; [done| |done]. intros e He. by apply Hr1.
Qed.

Lemma of_table_app id r1 r2 : of_table id (r1 ++ r2) = of_table id r1 ++ of_table id r2.
Proof. apply filter_app. Qed.

(** What the footer holds for a table, whatever the iteration order. *)
Lemma footer_of_others s ts e (l : list (string * TableObject)) :
  meta_wf s ts -> e ∈ tables_ s ->
  (forall n t, (n, t) ∈ l -> ts !! n = Some t /\ n <> table_name e) ->
  of_table (table_id e) (concat (map (fun e => row_groups_ e.2) l)) = [].
Proof.
  intros Hwf He Hl. induction l as [|[n t] l IH]; [done|]. simpl. rewrite of_table_app, IH, app_nil_r.
  - destruct (Hl n t) as [Ht Hn]; [constructor|]. destruct (mw_lookup s ts n t Hwf Ht) as (e' & rgs & He' & <- & -> & Hall).
    simpl. apply filter_none. intros rg Hrg Hid. rewrite Forall_forall in Hall. rewrite (Hall rg Hrg) in Hid.
    apply Hn. by rewrite (nodup_map_inj table_id _ e e' (mw_ids _ _ Hwf) He He').
  - intros n' t' Hin. apply Hl. by constructor.
Qed.

Lemma footer_of_table s ts e rgs (l : list (string * TableObject)) :
  meta_wf s ts -> l ≡ₚ map_to_list ts -> e ∈ tables_ s -> ts !! table_name e = Some (table_with e rgs) ->
  of_table (table_id e) (collect_footer l) = rgs.
Proof.
  intros Hwf Hl He Hts. unfold collect_footer. rewrite collect_footer_app, app_nil_l.
  assert (NoDup l.*1) as HN by (rewrite Hl; apply NoDup_fst_map_to_list).
  assert ((table_name e, table_with e rgs) ∈ l) as Hin by (rewrite Hl; by apply elem_of_map_to_list).
  assert (forall n t, (n, t) ∈ l -> ts !! n = Some t) as Hlk by (intros n t; rewrite Hl; apply elem_of_map_to_list).
  apply list_elem_of_split in Hin as (l1 & l2 & ->). rewrite fmap_app in HN. simpl in HN.
  apply NoDup_app in HN as (_ & Hn1 & [Hn2 _]%NoDup_cons).
  rewrite map_app, concat_app. simpl. rewrite !of_table_app.
  rewrite (footer_of_others s ts e l1), (footer_of_others s ts e l2), app_nil_r; try done.
  - simpl. apply filter_all. intros rg Hrg. destruct (mw_entry s ts Hwf e He) as (rgs' & Hts' & Hall).
    rewrite Hts in Hts'. injection Hts' as <- _. rewrite Forall_forall in Hall. auto.
  - intros n t Hin. split; [apply Hlk; set_solver|]. intros ->. apply Hn2.
    by apply (list_elem_of_fmap_2 fst) in Hin.
  - intros n t Hin. split; [apply Hlk; set_solver|]. intros ->.
    apply (list_elem_of_fmap_2 fst) in Hin. apply (Hn1 _ Hin). by constructor.
Qed.

End Rebuild.

(** ** Operations keep the metadata consistent *)

Section CatalogFacts.
Context {F : Type} `{PosixFileLaws F} `{MapOrderLaws}.

Implicit Types c : Catalog F.

Definition catalog_meta_wf c : Prop := meta_wf (schema_section_ c) (tables_by_name_ c).
Definition catalog_fits c : Prop := meta_fits (schema_section_ c) (tables_by_name_ c).
Definition catalog_disk_ok c : Prop :=
  disk_wf (disk_manager_ c) /\ Z.of_nat (length (disk_bytes (disk_manager_ c))) < 2 ^ 63.

Lemma combine_nonempty s f : CombineSchemaAndFooter s f <> [].
Proof.
  unfold CombineSchemaAndFooter. rewrite WriteU32_app. intros E. apply (f_equal length) in E.
  rewrite !length_app, length_le_bytes in E. simpl in E. lia.
Qed.

Definition persisted_blob c : list byte :=
  CombineSchemaAndFooter (schema_section_ c) (collect_footer (iterate (tables_by_name_ c))).

Lemma PersistMetadata_inv c u c' :
  PersistMetadata c = (Ok u, c') ->
  WriteMetadataBlob (persisted_blob c) (disk_manager_ c) = (Ok u, disk_manager_ c') /\
  schema_section_ c' = schema_section_ c /\ tables_by_name_ c' = tables_by_name_ c.
Proof.
  unfold PersistMetadata, on_disk_manager, io_zoom, persisted_blob.
  destruct (WriteMetadataBlob _ _) as [r d] eqn:E. intros; simplify_eq. done.
Qed.

Lemma PersistMetadata_disk c u c' :
  catalog_disk_ok c -> PersistMetadata c = (Ok u, c') -> disk_wf (disk_manager_ c').
Proof.
  intros [Hwf Hsz] HP. apply PersistMetadata_inv in HP as (HW & _ & _).
  by apply (WriteMetadataBlob_Ok _ _ _ _ Hwf (combine_nonempty _ _) Hsz HW).
Qed.

Lemma meta_wf_empty : meta_wf empty_schema ∅.
Proof.
  split; simpl; [constructor|constructor|constructor|set_solver|]. intros n. rewrite lookup_empty. by intros [].
Qed.

Lemma meta_wf_create s ts n cols :
  meta_wf s ts -> ts !! n = None -> 0 <= next_table_id_ s -> next_table_id_ s + 1 < 2 ^ 32 ->
  meta_wf (snd (AddTable s n cols)) (emplace n (new_table (next_table_id_ s) n cols) ts).
Proof.
  intros Hwf Hn Hlo Hhi. pose proof Hwf as [HN HI Hnext Hent Hdom]. unfold AddTable. simpl.
  rewrite u32_id by (unfold is_u32; lia). rewrite emplace_fresh by done.
  assert (forall e, e ∈ tables_ s -> table_name e <> n) as Hfresh.
  { intros e He <-. destruct (Hent e He) as (rgs & Hl & _). congruence. }
  assert (forall e, e ∈ tables_ s -> table_id e < next_table_id_ s) as Hlt by by apply Forall_forall.
  split; simpl.
  - rewrite map_app. apply NoDup_app. split_and!; [done| |apply NoDup_singleton].
    intros m (e & -> & He)%list_elem_of_fmap Hm%list_elem_of_singleton. by apply (Hfresh e).
  - rewrite map_app. apply NoDup_app. split_and!; [done| |apply NoDup_singleton].
    intros m (e & -> & He)%list_elem_of_fmap Hm%list_elem_of_singleton. simpl in Hm. specialize (Hlt e He). lia.
  - apply Forall_app_2; [|repeat constructor; simpl; lia].
    eapply Forall_impl; [exact Hnext|]. simpl. intros. lia.
  - intros e [He| ->%list_elem_of_singleton]%elem_of_app.
    + destruct (Hent e He) as (rgs & Hl & Hall). exists rgs. rewrite lookup_insert_ne; [done|].
      intros Heq. by apply (Hfresh e).
    + exists []. simpl. by rewrite lookup_insert_eq.
  - intros m. destruct (decide (m = n)) as [->|Hne].
    + intros _. eexists. split; [apply elem_of_app; right; by constructor|done].
    + rewrite lookup_insert_ne by done. intros Hs. destruct (Hdom m Hs) as (e & He & Heq).
      exists e. split; [|done]. apply elem_of_app. by left.
Qed.

Lemma meta_wf_add s ts n t rg t' :
  meta_wf s ts -> ts !! n = Some t -> table_AddRowGroup t rg = Ok t' ->
  meta_wf s (<[n := t']> ts) /\ row_groups_ t' = row_groups_ t ++ [rg].
Proof.
  intros Hwf Ht HA. destruct (mw_lookup s ts n t Hwf Ht) as (e & rgs & He & <- & -> & Hall).
  assert (table_id_ rg = table_id e) as Hid.
  { unfold table_AddRowGroup in HA. simpl in HA. by destruct (Z.eqb_spec (table_id_ rg) (table_id e)). }
  rewrite table_with_add in HA by done. injection HA as <-. split; [|done].
  pose proof Hwf as [HN HI Hnext Hent Hdom]. split; try done.
  - intros e' He'. destruct (decide (table_name e' = table_name e)) as [Heq|Hne].
    + assert (e' = e) as -> by by eapply (nodup_map_inj table_name).
      exists (rgs ++ [rg]). rewrite lookup_insert_eq. split; [done|]. apply Forall_app_2; [done|by constructor].
    + rewrite lookup_insert_ne by done. by apply Hent.
  - intros m. destruct (decide (m = table_name e)) as [->|Hne]; [eauto|]. rewrite lookup_insert_ne by done. auto.
Qed.

(** The states the catalog's operations lead to from an empty one. *)
Inductive catalog_reachable : Catalog F -> Prop :=
  | reach_new d : disk_wf d -> catalog_reachable (mk_catalog d empty_schema ∅)
  | reach_create c name cols id c' :
      catalog_reachable c -> catalog_disk_ok c ->
      0 <= next_table_id_ (schema_section_ c) -> next_table_id_ (schema_section_ c) + 1 < 2 ^ 32 ->
      CreateTable name cols c = (Ok id, c') -> catalog_reachable c'
  | reach_add c name rg c' :
      catalog_reachable c -> AddRowGroup name rg c = (Ok tt, c') -> catalog_reachable c'
  | reach_flush c c' :
      catalog_reachable c -> catalog_disk_ok c -> Flush c = (Ok tt, c') -> catalog_reachable c'
  | reach_pages c d : 
      (* pages allocated and written by others sharing the disk manager *)
      catalog_reachable c -> disk_wf d ->
      catalog_reachable (mk_catalog d (schema_section_ c) (tables_by_name_ c)).

Lemma CreateTable_inv name cols c id c' :
  CreateTable name cols c = (Ok id, c') ->
  tables_by_name_ c !! name = None /\ id = next_table_id_ (schema_section_ c) /\
  schema_section_ c' = snd (AddTable (schema_section_ c) name cols) /\
  tables_by_name_ c' = emplace name (new_table id name cols) (tables_by_name_ c) /\
  exists u, PersistMetadata (mk_catalog (disk_manager_ c) (schema_section_ c') (tables_by_name_ c')) = (Ok u, c').
Proof.
  unfold CreateTable. intros HC. apply io_bind_Ok_inv in HC as (c0 & c1 & HG & HC).
  injection HG as <- <-. destruct (tables_by_name_ c !! name) eqn:Hn; [done|].
  unfold AddTable in HC. apply io_bind_Ok_inv in HC as (u1 & c2 & HS & HC). unfold set_schema in HS. simplify_eq.
  apply io_bind_Ok_inv in HC as (u2 & c3 & HT & HC). unfold set_tables in HT. simplify_eq. simpl in HC.
  apply io_bind_Ok_inv in HC as (u3 & c4 & HP & HR). unfold mret, io_ret in HR. simplify_eq.
  destruct (PersistMetadata_inv _ _ _ HP) as (_ & Hs & Ht). simpl in *. rewrite Hs, Ht. split_and!; eauto.
Qed.

Lemma AddRowGroup_inv name rg c c' :
  AddRowGroup name rg c = (Ok tt, c') ->
  exists t t', tables_by_name_ c !! name = Some t /\ table_AddRowGroup t rg = Ok t' /\
    c' = mk_catalog (disk_manager_ c) (schema_section_ c) (<[name := t']> (tables_by_name_ c)).
Proof.
  unfold AddRowGroup. intros HA. apply io_bind_Ok_inv in HA as (c0 & c1 & HG & HA).
  injection HG as <- <-. destruct (tables_by_name_ c !! name) as [t|] eqn:Hn; [|done].
  apply io_bind_Ok_inv in HA as (t' & c2 & HL & HT). unfold io_lift in HL. unfold set_tables in HT. simplify_eq.
  eauto 10.
Qed.

Lemma reachable_wf c : catalog_reachable c -> catalog_meta_wf c /\ disk_wf (disk_manager_ c).
Proof.
  unfold catalog_meta_wf.
  induction 1 as [d Hd|c name cols id c' _ [IH IHd] Hok Hlo Hhi HC|c name rg c' _ [IH IHd] HA|
                  c c' _ [IH IHd] Hok HF|c d _ [IH IHd] Hd]; simpl.
  - split; [apply meta_wf_empty|done].
  - destruct (CreateTable_inv _ _ _ _ _ HC) as (Hn & -> & Hs & Ht & u & HP). split.
    + rewrite Hs, Ht. by apply meta_wf_create.
    + by eapply PersistMetadata_disk; [|exact HP].
  - destruct (AddRowGroup_inv _ _ _ _ HA) as (t & t' & Ht & Ht' & ->). simpl. split; [|done].
    by eapply meta_wf_add.
  - destruct (PersistMetadata_inv _ _ _ HF) as (_ & -> & ->). split; [done|]. by eapply PersistMetadata_disk.
  - done.
Qed.

(** Looking a table up by its id. *)
Lemma GetTableById_None c id :
  (forall n t, tables_by_name_ c !! n = Some t -> tbl_id_ t <> id) -> GetTableById c id = None.
Proof.
  intros Hall. unfold GetTableById. rewrite filter_none; [done|].
  intros [n t] Hin. rewrite (iterate_perm (tables_by_name_ c)) in Hin. simpl.
  apply (Hall n). by apply elem_of_map_to_list.
Qed.

Lemma GetTableById_Some c n t id :
  catalog_meta_wf c -> tables_by_name_ c !! n = Some t -> tbl_id_ t = id -> GetTableById c id = Some t.
Proof.
  intros Hwf Hn Hid. unfold GetTableById.
  assert ((n, t) ∈ iterate (tables_by_name_ c)) as Hin
    by (rewrite (iterate_perm (tables_by_name_ c)); by apply elem_of_map_to_list).
  destruct (filter _ _) as [|[m u] l] eqn:E.
  - exfalso. assert ((n, t) ∈ ([] : list (string * TableObject))) as Hc; [|by apply not_elem_of_nil in Hc].
    rewrite <- E. by apply list_elem_of_filter.
  - assert ((m, u) ∈ (m, u) :: l) as Hm by constructor. rewrite <- E in Hm.
    apply list_elem_of_filter in Hm as [Hu Hm]. simpl in *.
    rewrite (iterate_perm (tables_by_name_ c)) in Hm. apply elem_of_map_to_list in Hm.
    destruct (mw_lookup _ _ n t Hwf Hn) as (e & rgs & He & <- & -> & _).
    destruct (mw_lookup _ _ m u Hwf Hm) as (e' & rgs' & He' & <- & -> & _). simpl in *.
    assert (e' = e) as -> by (eapply (nodup_map_inj table_id); [apply (mw_ids _ _ Hwf)|done|done|congruence]).
    congruence.
Qed.

Context `{!ReliableFile F}.

Lemma collect_footer_wf ts (s : SchemaSection) :
  meta_fits s ts -> footer_wf (collect_footer (iterate ts)).
Proof.
  intros (_ & Hrg & _ & Hlen). unfold collect_footer. rewrite collect_footer_app, app_nil_l. split.
  - assert (concat (map (fun e => row_groups_ e.2) (iterate ts)) ≡ₚ
      concat (map (fun e : string * TableObject => row_groups_ e.2) (map_to_list ts))) as ->; [|done].
    rewrite <- !flat_map_concat_map. apply Permutation_flat_map, iterate_perm.
  - apply Forall_concat, Forall_map, Forall_forall. intros [n t] Hin. simpl.
    apply (Hrg n). rewrite (iterate_perm ts) in Hin. by apply elem_of_map_to_list.
Qed.

Lemma reconstruct_Ok c d :
  catalog_meta_wf c -> catalog_fits c -> ReadMetadataBlob d = (Ok (persisted_blob c), d) ->
  ReconstructFromDisk (mk_catalog d empty_schema ∅) = (Ok tt, mk_catalog d (schema_section_ c) (tables_by_name_ c)).
Proof.
  unfold catalog_meta_wf, catalog_fits. intros Hwf Hfit HR. pose proof Hfit as (Hs & _ & Hsl & _).
  set (s := schema_section_ c) in *. set (ts := tables_by_name_ c) in *.
  unfold ReconstructFromDisk.
  erewrite (io_bind_Ok (on_disk_manager ReadMetadataBlob)); [|unfold on_disk_manager, io_zoom; simpl; by rewrite HR].
  assert (SplitSchemaAndFooter (persisted_blob c) = Ok (s, collect_footer (iterate ts))) as Hsplit
    by exact (split_combine s (collect_footer (iterate ts)) Hs (collect_footer_wf ts s Hfit) Hsl).
  erewrite (io_bind_Ok (io_lift _)); [|unfold io_lift; by rewrite Hsplit].
  simpl. erewrite (io_bind_Ok (set_schema s)); [|done]. simpl.
  destruct (register_all (tables_ s) d s (mw_names _ _ Hwf) (mw_ids _ _ Hwf)) as (ids & ts0 & HE & Hreg).
  rewrite (io_bind_Ok _ _ _ _ _ HE).
  assert (forall rg, rg ∈ collect_footer (iterate ts) -> exists e, e ∈ tables_ s /\ table_id_ rg = table_id e) as Hknown.
  { intros rg. unfold collect_footer. rewrite collect_footer_app, app_nil_l.
    intros (rgs & ([n t] & <- & Hin)%in_map_iff & Hrg)%list_elem_of_In%in_concat.
    apply list_elem_of_In in Hin, Hrg. simpl in Hrg.
    rewrite (iterate_perm ts) in Hin. apply elem_of_map_to_list in Hin.
    destruct (mw_lookup s ts n t Hwf Hin) as (e & rgs & He & _ & -> & Hall). exists e. split; [done|].
    rewrite Forall_forall in Hall. by apply Hall. }
  destruct (attach_all (tables_ s) ids ts0 d s (collect_footer (iterate ts)) (mw_names _ _ Hwf) (mw_ids _ _ Hwf) Hreg)
    as (ts' & -> & Ht1 & Ht2); [by apply Forall_forall|].
  do 3 f_equal. apply map_eq. intros n.
  destruct (ts !! n) as [t|] eqn:Et.
  - destruct (mw_lookup s ts n t Hwf Et) as (e & rgs & He & <- & -> & _). rewrite (Ht1 e He).
    by rewrite (footer_of_table s ts e rgs _ Hwf (iterate_perm ts) He Et).
  - apply eq_None_not_Some. intros Hs'. destruct (Ht2 n Hs') as (e & He & <-).
    destruct (mw_entry _ _ Hwf e He) as (rgs & Hl & _). congruence.
Qed.

Lemma reopen_spec c c' :
  catalog_reachable c -> catalog_fits c -> catalog_disk_ok c ->
  Flush c = (Ok tt, c') ->
  catalog_Open (Some (fd_ (disk_manager_ c'))) = (Ok c', Some (fd_ (disk_manager_ c'))) /\
  schema_section_ c' = schema_section_ c /\ tables_by_name_ c' = tables_by_name_ c.
Proof.
  intros [Hmeta _]%reachable_wf Hfit [Hwf Hsz] HF.
  destruct (PersistMetadata_inv _ _ _ HF) as (HW & Hs & Ht). split; [|done].
  destruct (metadata_restart _ _ _ _ Hwf (combine_nonempty _ _) Hsz HW) as (HR & HO).
  unfold catalog_Open, catalog_of_disk. rewrite HO.
  rewrite (reconstruct_Ok c (disk_manager_ c') Hmeta Hfit HR). simpl. rewrite <- Hs, <- Ht. by destruct c'.
Qed.

(** C19. The catalog survives a restart: in any state the operations lead to (tables created,
    row groups added, pages written by others, flushes), once [Flush] returns,
    opening the file gives back exactly the same catalog: header, schema section,
    every table with its columns, row groups in order and row count. *)
Theorem catalog_reopen c c' :
  catalog_reachable c -> catalog_fits c -> catalog_disk_ok c ->
  Flush c = (Ok tt, c') ->
  catalog_Open (Some (fd_ (disk_manager_ c'))) = (Ok c', Some (fd_ (disk_manager_ c'))) /\
  schema_section_ c' = schema_section_ c /\ tables_by_name_ c' = tables_by_name_ c.
Proof. apply reopen_spec. Qed.

Lemma empty_fits : meta_fits empty_schema ∅.
Proof.
  split_and!; [by split_and!|by intros n t; rewrite lookup_empty| |by rewrite map_to_list_empty].
  rewrite schema_Serialize_app, !length_app, !length_le_bytes. done.
Qed.

(** C33. A failed open destroys the catalog: when [SplitSchemaAndFooter] rejects the blob that was
    read from a file with an exception, the [Catalog], in which nothing has been put yet, is
    destroyed, and its destructor writes the metadata of an empty catalog and points the
    file's header to it; the next [Catalog::Open] of the file succeeds and finds no
    tables. (An exception from the loops that follow, for a row group of an unknown
    table, leaves a partly filled catalog, which is not what this is about.) *)
Theorem failed_open_erases_catalog f d blob e :
  disk_Open (Some f) = Ok d -> disk_wf d -> Z.of_nat (length (disk_bytes d)) < 2 ^ 63 ->
  ReadMetadataBlob d = (Ok blob, d) -> SplitSchemaAndFooter blob = Throw e ->
  exists f' c', catalog_Open (Some f) = (Throw e, Some f') /\
    catalog_Open (Some f') = (Ok c', Some f') /\
    tables_by_name_ c' = ∅ /\ schema_section_ c' = empty_schema.
Proof.
  intros HO Hwf Hsz HR HS. set (c0 := mk_catalog d empty_schema ∅ : Catalog F).
  destruct (WriteMetadataBlob_total (persisted_blob c0) d) as [d' HW].
  assert (Flush c0 = (Ok tt, mk_catalog d' empty_schema ∅)) as HF.
  { unfold Flush, PersistMetadata, on_disk_manager, io_zoom. simpl.
    unfold persisted_blob in HW. simpl in HW. by rewrite HW. }
  destruct (reopen_spec c0 _ (reach_new d Hwf) empty_fits (conj Hwf Hsz) HF) as [HR2 _].
  exists (fd_ d'), (mk_catalog d' empty_schema ∅). split_and!; [|done|done|done].
  unfold catalog_Open, catalog_of_disk. rewrite HO. fold c0.
  assert (ReconstructFromDisk c0 = (Throw e, c0)) as ->.
  { unfold ReconstructFromDisk, mbind, io_bind, on_disk_manager, io_zoom. simpl. rewrite HR. simpl.
    unfold io_lift. by rewrite HS. }
  simpl. unfold catalog_destroy. unfold Flush in HF. by rewrite HF.
Qed.

(** [CreateTable]: a name in use is refused with [std::invalid_argument] and nothing
    changes; otherwise the new table gets the next id (an id no other table has),
    is found under its name and by its id, and every other table is unchanged. *)
Theorem CreateTable_correct c name cols r c' :
  catalog_reachable c -> catalog_disk_ok c ->
  0 <= next_table_id_ (schema_section_ c) -> next_table_id_ (schema_section_ c) + 1 < 2 ^ 32 ->
  CreateTable name cols c = (r, c') ->
  match GetTable c name with
  | Some _ => c' = c /\ exists what, r = Throw (InvalidArgument what)
  | None => forall id, r = Ok id ->
      GetTableById c id = None /\
      GetTable c' name = Some (new_table id name cols) /\
      GetTableById c' id = Some (new_table id name cols) /\
      (forall n, n <> name -> GetTable c' n = GetTable c n) /\ catalog_reachable c'
  end.
Proof.
  intros Hreach Hok Hlo Hhi HC. unfold GetTable. pose proof (reachable_wf c Hreach) as [Hwf _].
  destruct (tables_by_name_ c !! name) as [t|] eqn:Hn.
  { unfold CreateTable, mbind, io_bind, io_get in HC. rewrite Hn in HC. unfold io_throw in HC. simplify_eq. eauto. }
  intros id ->. assert (catalog_reachable c') as Hreach' by by eapply reach_create.
  pose proof (reachable_wf c' Hreach') as [Hwf' _].
  destruct (CreateTable_inv _ _ _ _ _ HC) as (_ & -> & Hs & Ht & _). rewrite emplace_fresh in Ht by done.
  split_and!; [| | | |done].
  - apply GetTableById_None. intros n t Hl. destruct (mw_lookup _ _ n t Hwf Hl) as (e & rgs & He & _ & -> & _).
    pose proof (mw_next _ _ Hwf) as Hnext. rewrite Forall_forall in Hnext. specialize (Hnext e He). simpl. lia.
  - by rewrite Ht, lookup_insert_eq.
  - apply (GetTableById_Some c' name); [done|by rewrite Ht, lookup_insert_eq|done].
  - intros n Hne. by rewrite Ht, lookup_insert_ne.
Qed.

End CatalogFacts.

(** ** The theorems at a concrete database *)

Definition empty_catalog : Catalog mem_file := mk_catalog fresh_disk empty_schema ∅.
Definition id_column : ColumnDef := mk_column "id" kInteger 0.
Definition created : Catalog mem_file := snd (CreateTable "t" [id_column] empty_catalog).

Lemma empty_catalog_ok : catalog_reachable empty_catalog /\ catalog_disk_ok empty_catalog.
Proof. split; [apply reach_new, fresh_disk_wf|]. split; [apply fresh_disk_wf|apply fresh_disk_small]. Qed.

Lemma created_eq : CreateTable "t" [id_column] empty_catalog = (Ok 0, created).
Proof. vm_compute. reflexivity. Qed.

Lemma CreateTable_correct_witness :
  GetTableById created 0 = Some (new_table 0 "t" [id_column]) /\ catalog_reachable created.
Proof.
  destruct empty_catalog_ok as [Hr Hok].
  destruct (CreateTable_correct empty_catalog "t" [id_column] (Ok 0) created Hr Hok ltac:(done) ltac:(done)
    created_eq 0 eq_refl) as (_ & _ & Hid & _ & Hreach). exact (conj Hid Hreach).
Defined.

Lemma created_ok : catalog_reachable created /\ catalog_disk_ok created /\ catalog_fits created.
Proof.
  destruct empty_catalog_ok as [Hr Hok]. split_and!.
  - by eapply reach_create; [exact Hr|exact Hok| | |exact created_eq].
  - destruct (CreateTable_inv _ _ _ _ _ created_eq) as (_ & _ & _ & _ & u & HP). split.
    + eapply PersistMetadata_disk; [|exact HP]. exact Hok.
    + vm_compute. done.
  - split_and!; [| |by vm_compute|by vm_compute].
    + split_and!; [by vm_compute|by vm_compute|]. repeat constructor; by vm_compute.
    + assert (tables_by_name_ created = {["t" := new_table 0 "t" [id_column]]}) as -> by (vm_compute; reflexivity).
      intros n t [_ <-]%lookup_singleton_Some. constructor.
Qed.

Lemma catalog_reopen_witness :
  let c' := snd (Flush created) in
  catalog_Open (Some (fd_ (disk_manager_ c'))) = (Ok c', Some (fd_ (disk_manager_ c'))) /\
  tables_by_name_ c' = tables_by_name_ created.
Proof.
  intros c'. destruct created_ok as (Hr & Hok & Hfit).
  assert (Flush created = (Ok tt, c')) as HF by (unfold c'; vm_compute; reflexivity). clearbody c'.
  destruct (catalog_reopen created c' Hr Hfit Hok HF) as (HO & _ & Ht). exact (conj HO Ht).
Defined.

(** A file whose metadata has an unnamed table with a column of type byte 9. *)
Definition damaged_blob : list byte :=
  le_bytes 4 25 ++ le_bytes 4 1 ++ le_bytes 4 1 ++ le_bytes 4 0 ++ le_bytes 4 0 ++ le_bytes 4 1 ++ le_bytes 4 0 ++ [x09].
Definition damaged_disk : DiskManager mem_file :=
  let h := mk_header 20 1 in mk_disk (header_Serialize h ++ damaged_blob : mem_file) h.

Lemma damaged_disk_wf : disk_wf damaged_disk.
Proof. split_and!; [split; done|done|]. vm_compute. reflexivity. Qed.

Lemma failed_open_erases_catalog_witness :
  exists e f' c', catalog_Open (Some (fd_ damaged_disk)) = (Throw e, Some f') /\
    catalog_Open (Some f') = (Ok c', Some f') /\ tables_by_name_ c' = ∅.
Proof.
  assert (exists e, SplitSchemaAndFooter damaged_blob = Throw e) as [e HS] by (eexists; vm_compute; reflexivity).
  assert (disk_Open (Some (fd_ damaged_disk)) = Ok damaged_disk) as HO by (vm_compute; reflexivity).
  assert (ReadMetadataBlob damaged_disk = (Ok damaged_blob, damaged_disk)) as HR by (vm_compute; reflexivity).
  assert (Z.of_nat (length (disk_bytes damaged_disk)) < 2 ^ 63) as Hsz by (by vm_compute).
  destruct (failed_open_erases_catalog (fd_ damaged_disk) damaged_disk damaged_blob e HO damaged_disk_wf Hsz HR HS)
    as (f' & c' & H1 & H2 & H3 & _).
  exists e, f', c'. exact (conj H1 (conj H2 H3)).
Defined.
