(* ===== verification/Chunk.v ===== *)
(** Model of [include/gistdb/execution/data_chunk.hpp], [src/execution/data_chunk.cpp] and
    the [std::variant] of the three column types that the executor uses under the
    names [ColumnView], [ColumnVariant] and [ColumnStorage]. A [ColumnView] is a
    pointer to a column of the operator that produced the chunk; it is only
    dereferenced before that operator's next [GetNext], so the model carries the
    column itself. *)

From S2P Require Import Prelude Scalar ByteIO Bitmap Columns.

(** ** Values and columns *)

(** [std::variant<std::int32_t, float, std::string>]. *)
Inductive Value : Type :=
  | VInt (z : Z)
  | VFloat (f : f32)
  | VStr (s : string).
#[global] Instance Value_eq_dec : EqDecision Value.
Proof. solve_decision. Defined.

Definition type_of (v : Value) : TypeId :=
  match v with VInt _ => kInteger | VFloat _ => kFloat | VStr _ => kVarchar end.

(** What [AppendNull] stores under a null. *)
Definition zero_of (ty : TypeId) : Value :=
  match ty with kInteger => VInt 0 | kFloat => VFloat f32_zero | kVarchar => VStr "" end.

Inductive ColumnStorage : Type :=
  | IntCol (c : FixedWidth.FixedWidthColumn Z)
  | FloatCol (c : FixedWidth.FixedWidthColumn f32)
  | VarcharCol (c : Varchar.VarcharColumn).

Definition empty_column (ty : TypeId) : ColumnStorage :=
  match ty with
  | kInteger => IntCol FixedWidth.empty
  | kFloat => FloatCol FixedWidth.empty
  | kVarchar => VarcharCol Varchar.empty
  end.

Definition col_type (c : ColumnStorage) : TypeId :=
  match c with IntCol _ => kInteger | FloatCol _ => kFloat | VarcharCol _ => kVarchar end.

(** [std::visit] of the member functions. *)
Definition col_Size (c : ColumnStorage) : nat :=
  match c with
  | IntCol c => FixedWidth.Size c
  | FloatCol c => FixedWidth.Size c
  | VarcharCol c => Varchar.Size c
  end.

Definition col_IsNull (c : ColumnStorage) (i : nat) : result bool :=
  match c with
  | IntCol c => FixedWidth.IsNull c i
  | FloatCol c => FixedWidth.IsNull c i
  | VarcharCol c => Varchar.IsNull c i
  end.

Definition col_IsValid (c : ColumnStorage) (i : nat) : result bool :=
  match c with
  | IntCol c => FixedWidth.IsValid c i
  | FloatCol c => FixedWidth.IsValid c i
  | VarcharCol c => Varchar.IsValid c i
  end.

Definition col_GetValue (c : ColumnStorage) (i : nat) : result Value :=
  match c with
  | IntCol c => VInt <$> FixedWidth.GetValue c i
  | FloatCol c => VFloat <$> FixedWidth.GetValue c i
  | VarcharCol c => VStr <$> Varchar.GetValue c i
  end.

(** [std::get<ColType>(out).Append(value)]. *)
Definition col_Append (c : ColumnStorage) (v : Value) : result ColumnStorage :=
  match c, v with
  | IntCol c, VInt z => IntCol <$> FixedWidth.Append c z
  | FloatCol c, VFloat f => FloatCol <$> FixedWidth.Append c f
  | VarcharCol c, VStr s => VarcharCol <$> Varchar.Append c s
  | _, _ => Throw BadVariantAccess
  end.

Definition col_AppendNull (c : ColumnStorage) : result ColumnStorage :=
  match c with
  | IntCol c => IntCol <$> FixedWidth.AppendNull c
  | FloatCol c => FloatCol <$> FixedWidth.AppendNull c
  | VarcharCol c => VarcharCol <$> Varchar.AppendNull c
  end.

(** [if (s.IsNull(row)) out.AppendNull(); else out.Append(s.GetValue(row));] *)
Definition col_CopyRow (out source : ColumnStorage) (row : nat) : result ColumnStorage :=
  n ← col_IsNull source row;
  if n : bool then col_AppendNull out else (v ← col_GetValue source row; col_Append out v).

(** ** What a column holds *)

(** A row of a column: the stored value and whether it is valid. *)
Definition cell_of (r : Value * bool) : option Value := if r.2 then Some r.1 else None.

Definition str_len (v : Value) : Z := match v with VStr s => Z.of_nat (String.length s) | _ => 0 end.
Definition str_size (rs : list (Value * bool)) : Z := foldr (fun r n => str_len r.1 + n) 0 rs.

(** A VARCHAR column addresses its bytes with 32-bit offsets. *)
Definition fits (rs : list (Value * bool)) : Prop := str_size rs < 2 ^ 31.

Definition col_repr (c : ColumnStorage) (ty : TypeId) (rs : list (Value * bool)) : Prop :=
  match c with
  | IntCol c => ty = kInteger /\ FixedWidth.wf c /\
      rs = zip_with (fun x b => (VInt x, b)) (FixedWidth.values_ c) (FixedWidth.bits c)
  | FloatCol c => ty = kFloat /\ FixedWidth.wf c /\
      rs = zip_with (fun x b => (VFloat x, b)) (FixedWidth.values_ c) (FixedWidth.bits c)
  | VarcharCol c => ty = kVarchar /\ exists l, Varchar.repr c l /\
      rs = map (fun o => (VStr (Varchar.row_string o), bool_decide (is_Some o))) l
  end.

Lemma col_repr_type c ty rs : col_repr c ty rs -> col_type c = ty.
Proof. destruct c; simpl; by intros (-> & _). Qed.

Lemma str_size_app r1 r2 : str_size (r1 ++ r2) = str_size r1 + str_size r2.
Proof. unfold str_size. induction r1 as [|r r1 IH]; simpl; [done|]. rewrite IH. lia. Qed.

Lemma str_len_nonneg v : 0 <= str_len v.
Proof. destruct v; simpl; lia. Qed.

Lemma str_size_nonneg rs : 0 <= str_size rs.
Proof. induction rs as [|r rs IH]; simpl; [lia|]. pose proof (str_len_nonneg r.1). lia. Qed.

Lemma rows_size_str_size l :
  Varchar.rows_size l = str_size (map (fun o => (VStr (Varchar.row_string o), bool_decide (is_Some o))) l).
Proof.
  induction l as [|o l IH]; [done|]. change (o :: l) with ([o] ++ l).
  rewrite Varchar.rows_size_app, IH. simpl. f_equal. unfold Varchar.rows_size.
  rewrite Varchar.rows_data_one. unfold Varchar.row_bytes. by rewrite length_bytes_of_string.
Qed.

Lemma empty_column_repr ty : col_repr (empty_column ty) ty [].
Proof.
  destruct ty; simpl; split_and!; try done; try apply FixedWidth.empty_wf.
  exists []. split; [apply Varchar.empty_repr|done].
Qed.

Lemma zip_snoc {A} (f : A -> bool -> Value * bool) (xs : list A) bs x b :
  length xs = length bs -> zip_with f (xs ++ [x]) (bs ++ [b]) = zip_with f xs bs ++ [f x b].
Proof. intros Hl. by rewrite zip_with_app. Qed.

Lemma col_repr_length c ty rs : col_repr c ty rs -> col_Size c = length rs.
Proof.
  destruct c as [c|c|c]; simpl.
  - intros (_ & Hwf & ->). rewrite length_zip_with, FixedWidth.length_bits by done. unfold FixedWidth.Size. lia.
  - intros (_ & Hwf & ->). rewrite length_zip_with, FixedWidth.length_bits by done. unfold FixedWidth.Size. lia.
  - intros (_ & l & Hr & ->). by rewrite length_map, (Varchar.Size_repr c l).
Qed.

Lemma col_repr_lookup c ty rs i v b :
  col_repr c ty rs -> rs !! i = Some (v, b) ->
  type_of v = ty /\ col_GetValue c i = Ok v /\ col_IsNull c i = Ok (negb b) /\ col_IsValid c i = Ok b.
Proof.
  destruct c as [c|c|c]; simpl.
  - intros (-> & Hwf & ->) (x & b' & Heq & Hx & Hb)%lookup_zip_with_Some. simplify_eq. split_and!; [done| | |].
    + by rewrite (FixedWidth.GetValue_spec c i x).
    + by apply FixedWidth.IsNull_spec.
    + by apply FixedWidth.IsValid_spec.
  - intros (-> & Hwf & ->) (x & b' & Heq & Hx & Hb)%lookup_zip_with_Some. simplify_eq. split_and!; [done| | |].
    + by rewrite (FixedWidth.GetValue_spec c i x).
    + by apply FixedWidth.IsNull_spec.
    + by apply FixedWidth.IsValid_spec.
  - intros (-> & l & Hr & ->). rewrite list_lookup_fmap. destruct (l !! i) as [o|] eqn:Ho; [|done].
    simpl. intros; simplify_eq. split_and!; [done| | |].
    + by rewrite (Varchar.GetValue_repr c l i o).
    + rewrite (Varchar.IsNull_repr c l i o) by done. by destruct o.
    + by apply (Varchar.IsValid_repr c l).
Qed.

Lemma col_Append_repr c ty rs v :
  col_repr c ty rs -> type_of v = ty -> fits (rs ++ [(v, true)]) ->
  exists c', col_Append c v = Ok c' /\ col_repr c' ty (rs ++ [(v, true)]).
Proof.
  intros Hr Hv Hfit. destruct c as [c|c|c]; simpl in Hr.
  - destruct Hr as (-> & Hwf & ->). destruct v as [x| |]; try done. simpl.
    destruct (FixedWidth.Append_spec c x Hwf) as (c' & -> & Hwf' & Hv' & Hb'). simpl.
    eexists. split; [done|]. simpl. split_and!; [done..|]. rewrite Hv', Hb', zip_snoc; [done|].
    by rewrite FixedWidth.length_bits.
  - destruct Hr as (-> & Hwf & ->). destruct v as [|x|]; try done. simpl.
    destruct (FixedWidth.Append_spec c x Hwf) as (c' & -> & Hwf' & Hv' & Hb'). simpl.
    eexists. split; [done|]. simpl. split_and!; [done..|]. rewrite Hv', Hb', zip_snoc; [done|].
    by rewrite FixedWidth.length_bits.
  - destruct Hr as (-> & l & Hr & ->). destruct v as [| |s]; try done. simpl.
    destruct (Varchar.Append_repr c l s Hr) as (c' & -> & Hr').
    { rewrite rows_size_str_size, map_app. exact Hfit. }
    simpl. eexists. split; [done|]. simpl. split; [done|]. exists (l ++ [Some s]). by rewrite map_app.
Qed.

Lemma col_AppendNull_repr c ty rs :
  col_repr c ty rs -> exists c', col_AppendNull c = Ok c' /\ col_repr c' ty (rs ++ [(zero_of ty, false)]).
Proof.
  intros Hr. destruct c as [c|c|c]; simpl in Hr.
  - destruct Hr as (-> & Hwf & ->). simpl.
    destruct (FixedWidth.AppendNull_spec c Hwf) as (c' & -> & Hwf' & Hv' & Hb'). simpl.
    eexists. split; [done|]. simpl. split_and!; [done..|]. rewrite Hv', Hb', zip_snoc; [done|].
    by rewrite FixedWidth.length_bits.
  - destruct Hr as (-> & Hwf & ->). simpl.
    destruct (FixedWidth.AppendNull_spec c Hwf) as (c' & -> & Hwf' & Hv' & Hb'). simpl.
    eexists. split; [done|]. simpl. split_and!; [done..|]. rewrite Hv', Hb', zip_snoc; [done|].
    by rewrite FixedWidth.length_bits.
  - destruct Hr as (-> & l & Hr & ->). simpl.
    destruct (Varchar.AppendNull_repr c l Hr) as (c' & -> & Hr'). simpl.
    eexists. split; [done|]. simpl. split; [done|]. exists (l ++ [None]). by rewrite map_app.
Qed.

(** The row a copy leaves: nulls are normalized. *)
Definition norm_raw (ty : TypeId) (r : Value * bool) : Value * bool := if r.2 then r else (zero_of ty, false).

Lemma norm_raw_cell ty r : cell_of (norm_raw ty r) = cell_of r.
Proof. by destruct r as [v []]. Qed.

Lemma str_len_norm ty r : str_len (norm_raw ty r).1 <= str_len r.1.
Proof. destruct r as [v []]; simpl; [lia|]. pose proof (str_len_nonneg v). destruct ty; simpl; lia. Qed.

Lemma col_CopyRow_repr out src ty rs rs' i r :
  col_repr out ty rs -> col_repr src ty rs' -> rs' !! i = Some r -> fits (rs ++ [r]) ->
  exists c', col_CopyRow out src i = Ok c' /\ col_repr c' ty (rs ++ [norm_raw ty r]).
Proof.
  intros Ho Hs Hi Hfit. destruct r as [v b].
  destruct (col_repr_lookup src ty rs' i v b Hs Hi) as (Hty & Hg & Hn & _).
  unfold col_CopyRow. rewrite Hn. destruct b; simpl.
  - rewrite Hg. simpl. by apply col_Append_repr.
  - by apply col_AppendNull_repr.
Qed.

Lemma col_repr_fits c rs : col_repr c kVarchar rs -> fits rs.
Proof.
  destruct c as [c|c|c]; simpl; [by intros []|by intros []|].
  intros (_ & l & (_ & _ & _ & _ & Hs) & ->). unfold fits. by rewrite <- rows_size_str_size.
Qed.

Lemma str_size_fixed ty rs : ty <> kVarchar -> (forall r, r ∈ rs -> type_of r.1 = ty) -> str_size rs = 0.
Proof.
  intros Hty. induction rs as [|[v b] rs IH]; intros Hrs; [done|]. simpl.
  rewrite IH by (intros r Hr; apply Hrs; by constructor).
  specialize (Hrs (v, b) ltac:(constructor)). simpl in Hrs. by destruct v; simpl in *; subst.
Qed.

Lemma col_repr_typed c ty rs r : col_repr c ty rs -> r ∈ rs -> type_of r.1 = ty.
Proof.
  intros Hr [i Hi]%list_elem_of_lookup. destruct r as [v b].
  by destruct (col_repr_lookup c ty rs i v b Hr Hi).
Qed.

Lemma col_repr_fits_any c ty rs : col_repr c ty rs -> fits rs.
Proof.
  intros Hr. destruct (decide (ty = kVarchar)) as [->|Hne]; [by eapply col_repr_fits|].
  unfold fits. rewrite (str_size_fixed ty); [done|done|]. intros r Hin. by eapply col_repr_typed.
Qed.

(** ** [DataChunk] *)

Record DataChunk : Type := mk_chunk {
  chunk_rows_ : nat;
  selection_vector_ : ValidityBitmap;
  chunk_columns_ : list ColumnStorage;
}.

Definition new_chunk (row_count : nat) : result DataChunk :=
  if kVectorSize <? Z.of_nat row_count then
    Throw (InvalidArgument "DataChunk: row_count exceeds kVectorSize")
  else mret (mk_chunk row_count (new_bitmap row_count true) []).

Definition AddColumn (chunk : DataChunk) (column : ColumnStorage) : result DataChunk :=
  if negb (col_Size column =? chunk_rows_ chunk)%nat then
    Throw (InvalidArgument "DataChunk::AddColumn: column size does not match chunk row count")
  else mret (mk_chunk (chunk_rows_ chunk) (selection_vector_ chunk) (chunk_columns_ chunk ++ [column])).

Definition chunk_NumColumns (chunk : DataChunk) : nat := length (chunk_columns_ chunk).
Definition chunk_Column (chunk : DataChunk) (ordinal : nat) : result ColumnStorage :=
  vec_get (chunk_columns_ chunk) ordinal.

Definition IsRowSelected (chunk : DataChunk) (index : nat) : result bool :=
  IsValid (selection_vector_ chunk) index.

Definition SetRowSelected (chunk : DataChunk) (index : nat) (selected : bool) : result DataChunk :=
  sel ← SetValid (selection_vector_ chunk) index selected;
  mret (mk_chunk (chunk_rows_ chunk) sel (chunk_columns_ chunk)).

Definition CountSelectedRows (chunk : DataChunk) : result Z :=
  nulls ← CountNulls (selection_vector_ chunk);
  mret (u32 (Z.of_nat (chunk_rows_ chunk) - Z.of_nat nulls)).

(** ** What a chunk holds *)

(** A table fragment: typed columns of raw rows, all of the same length. *)
Abbreviation colspec := (prod TypeId (list (prod Value bool))) (only parsing).

Definition no_raw : Value * bool := (VInt 0, false).

Definition raw_row (cols : list colspec) (i : nat) : list (Value * bool) :=
  map (fun p => default no_raw (p.2 !! i)) cols.

Definition cell_row (cols : list colspec) (i : nat) : list (option Value) := map cell_of (raw_row cols i).

Definition selected (sel : list bool) : list nat := filter (fun i => sel !! i = Some true) (seq 0 (length sel)).

(** The rows a chunk delivers to its consumer: the selected ones, as nullable values. *)
Definition live_rows (cols : list colspec) (sel : list bool) : list (list (option Value)) :=
  map (cell_row cols) (selected sel).

Definition columns_repr (cs : list ColumnStorage) (n : nat) (cols : list colspec) : Prop :=
  Forall2 (fun c p => col_repr c p.1 p.2 /\ length p.2 = n) cs cols.

Record chunk_repr (chunk : DataChunk) (cols : list colspec) (sel : list bool) : Prop := {
  cr_rows : chunk_rows_ chunk = length sel;
  cr_size : (length sel <= 1024)%nat;
  cr_sel_wf : bm_wf (selection_vector_ chunk);
  cr_sel : bm_view (selection_vector_ chunk) = sel;
  cr_cols : columns_repr (chunk_columns_ chunk) (length sel) cols;
}.

Lemma new_chunk_repr n :
  (n <= 1024)%nat -> exists chunk, new_chunk n = Ok chunk /\ chunk_repr chunk [] (replicate n true) /\
    chunk_columns_ chunk = [].
Proof.
  intros Hn. unfold new_chunk, kVectorSize. rewrite (proj2 (Z.ltb_ge _ _)) by lia.
  eexists. split; [done|]. split; [|done]. split; simpl; rewrite ?length_replicate; try done.
  - apply new_bitmap_wf.
  - apply new_bitmap_view.
  - constructor.
Qed.

Lemma AddColumn_repr chunk cols sel c ty rs :
  chunk_repr chunk cols sel -> col_repr c ty rs -> length rs = length sel ->
  exists chunk', AddColumn chunk c = Ok chunk' /\ chunk_repr chunk' (cols ++ [(ty, rs)]) sel.
Proof.
  intros [Hr Hs Hwf Hsel Hc] Hcr Hl. unfold AddColumn.
  rewrite (col_repr_length c ty rs Hcr), Hl, Hr, Nat.eqb_refl. simpl.
  eexists. split; [done|]. split; simpl; try done. apply Forall2_app; [done|]. by constructor.
Qed.

Lemma AddColumn_mismatch chunk c :
  col_Size c <> chunk_rows_ chunk -> exists what, AddColumn chunk c = Throw (InvalidArgument what).
Proof. intros Hne. unfold AddColumn. rewrite (proj2 (Nat.eqb_neq _ _) Hne). simpl. eauto. Qed.

Lemma IsRowSelected_repr chunk cols sel i b :
  chunk_repr chunk cols sel -> sel !! i = Some b -> IsRowSelected chunk i = Ok b.
Proof. intros [_ _ Hwf Hsel _] Hi. apply IsValid_view; [done|]. by rewrite Hsel. Qed.

Lemma SetRowSelected_repr chunk cols sel i b :
  chunk_repr chunk cols sel -> (i < length sel)%nat ->
  exists chunk', SetRowSelected chunk i b = Ok chunk' /\ chunk_repr chunk' cols (<[i := b]> sel) /\
    chunk_columns_ chunk' = chunk_columns_ chunk.
Proof.
  intros [Hr Hs Hwf Hsel Hc] Hi. unfold SetRowSelected.
  destruct (SetValid_view (selection_vector_ chunk) i b Hwf) as (bm & -> & Hwf' & Hv').
  { by rewrite <- length_bm_view, Hsel. }
  simpl. eexists. split; [done|]. split; [|done]. split; simpl; rewrite ?length_insert; try done.
  by rewrite Hv', Hsel.
Qed.

Lemma CountSelectedRows_repr chunk cols sel :
  chunk_repr chunk cols sel -> CountSelectedRows chunk = Ok (Z.of_nat (length (selected sel))).
Proof.
  intros [Hr Hs Hwf Hsel Hc]. unfold CountSelectedRows. rewrite CountNulls_view by done.
  simpl. rewrite Hsel, Hr. unfold mret, result_ret. f_equal.
  assert (count_false sel + length (selected sel) = length sel)%nat as Hcount.
  { clear. unfold selected, count_false. induction sel as [|b sel IH] using rev_ind; [done|].
    rewrite !length_app, Nat.add_1_r, seq_S, !filter_app, !length_app. simpl.
    rewrite (filter_ext_in (fun i => (sel ++ [b]) !! i = Some true) (fun i => sel !! i = Some true) (seq 0 _)).
    - rewrite (filter_cons _ (length sel)), lookup_app_r, Nat.sub_diag by lia. simpl. destruct b; simpl; lia.
    - intros i Hi%elem_of_seq. rewrite lookup_app_l by lia. done. }
  rewrite u32_id by (unfold is_u32; lia). lia.
Qed.

Lemma columns_repr_lookup cs n cols j c :
  columns_repr cs n cols -> cs !! j = Some c ->
  exists ty rs, cols !! j = Some (ty, rs) /\ col_repr c ty rs /\ length rs = n.
Proof. intros HF Hj. destruct (Forall2_lookup_l _ _ _ _ _ HF Hj) as ([ty rs] & ? & ? & ?). eauto 10. Qed.

Lemma columns_repr_lookup_r cs n cols j ty rs :
  columns_repr cs n cols -> cols !! j = Some (ty, rs) ->
  exists c, cs !! j = Some c /\ col_repr c ty rs /\ length rs = n.
Proof. intros HF Hj. destruct (Forall2_lookup_r _ _ _ _ _ HF Hj) as (c & ? & ? & ?). eauto. Qed.

Lemma raw_row_lookup cols i j ty rs :
  cols !! j = Some (ty, rs) -> raw_row cols i !! j = Some (default no_raw (rs !! i)).
Proof. intros Hj. unfold raw_row. by rewrite list_lookup_fmap, Hj. Qed.

(** ** Every well-typed table fragment is held by some chunk *)

Definition raw_ok (ty : TypeId) (r : Value * bool) : Prop := type_of r.1 = ty /\ (r.2 = false -> r.1 = zero_of ty).
#[global] Instance raw_ok_dec ty r : Decision (raw_ok ty r).
Proof. unfold raw_ok. apply _. Defined.

Lemma column_exists ty rs : Forall (raw_ok ty) rs -> fits rs -> exists c, col_repr c ty rs.
Proof.
  induction rs as [|[v b] rs IH] using rev_ind; intros Hrs Hfit; [eexists; apply empty_column_repr|].
  apply Forall_app in Hrs as [Hrs [[Hty Hz] _]%Forall_cons]. simpl in *.
  assert (fits rs) as Hfit' by (unfold fits in *; rewrite str_size_app in Hfit; pose proof (str_size_nonneg [(v, b)]); lia).
  destruct (IH Hrs Hfit') as [c Hc]. destruct b.
  - destruct (col_Append_repr c ty rs v Hc Hty Hfit) as (c' & _ & Hc'). eauto.
  - rewrite (Hz eq_refl). destruct (col_AppendNull_repr c ty rs Hc) as (c' & _ & Hc'). eauto.
Qed.

Definition fragment_ok (n : nat) (p : TypeId * list (Value * bool)) : Prop :=
  length p.2 = n /\ Forall (raw_ok p.1) p.2 /\ fits p.2.

Lemma chunk_exists cols n :
  (n <= 1024)%nat -> Forall (fragment_ok n) cols -> exists chunk, chunk_repr chunk cols (replicate n true).
Proof.
  intros Hn. induction cols as [|[ty rs] cols IH] using rev_ind; intros Hc.
  - destruct (new_chunk_repr n Hn) as (chunk & _ & Hr & _). eauto.
  - apply Forall_app in Hc as [Hc [(Hl & Hrs & Hfit) _]%Forall_cons]. destruct (IH Hc) as [chunk Hch].
    destruct (column_exists ty rs Hrs Hfit) as [c Hcr]. simpl in *.
    destruct (AddColumn_repr chunk cols (replicate n true) c ty rs Hch Hcr) as (chunk' & _ & Hch').
    { by rewrite length_replicate. }
    eauto.
Qed.
