(* ===== verification/Rows.v ===== *)
(** Tables as lists of rows. The executor fills vectors of columns row by row (hash join,
    aggregation, inserts); this file has the loop they share ([update_each]), the
    row-major table such a vector of columns holds ([rows_repr]) and the lemmas that
    appending a row to every column appends a row to the table. *)

From S2P Require Import Prelude Scalar ByteIO Bitmap Columns Chunk.

(** [for (i = 0; i < items.size(); ++i) f(items[i], i)]. *)
Definition update_each {A} (f : nat -> A -> result A) (items : list A) : result (list A) :=
  for_range 0 (length items) (fun i items => x ← vec_get items i; x ← f i x; vec_set items i x) items.

(** [if (is_null) out.AppendNull(); else out.Append(value)] with the value of type [type]. *)
Definition col_AppendCell (out : ColumnStorage) (o : option Value) : result ColumnStorage :=
  match o with None => col_AppendNull out | Some v => col_Append out v end.

(** Adding every column of a vector to a chunk. *)
Definition add_columns (columns : list ColumnStorage) (output : DataChunk) : result DataChunk :=
  for_each columns (fun column output => AddColumn output column) output.

(** ** The row-major view *)

(** How a column of type [ty] stores a nullable value. *)
Definition raw_of_cell (ty : TypeId) (o : option Value) : Value * bool :=
  match o with Some v => (v, true) | None => (zero_of ty, false) end.

(** The nullable value of column [j] of a row. *)
Definition cell_at (row : list (option Value)) (j : nat) : option Value := default None (row !! j).

Definition column_of (ty : TypeId) (j : nat) (rows : list (list (option Value))) : list (Value * bool) :=
  map (fun row => raw_of_cell ty (cell_at row j)) rows.

Definition specs_of (tys : list TypeId) (rows : list (list (option Value))) : list colspec :=
  imap (fun j ty => (ty, column_of ty j rows)) tys.

Definition rows_repr (cols : list ColumnStorage) (tys : list TypeId) (rows : list (list (option Value))) : Prop :=
  columns_repr cols (length rows) (specs_of tys rows).

Definition cell_typed (ty : TypeId) (o : option Value) : Prop := forall v, o = Some v -> type_of v = ty.
Definition cell_len (o : option Value) : Z := match o with Some v => str_len v | None => 0 end.

(** The bytes of column [j]. *)
Definition col_bytes (rows : list (list (option Value))) (j : nat) : Z :=
  foldr (fun row n => cell_len (cell_at row j) + n) 0 rows.

Lemma cell_at_Some row j v : cell_at row j = Some v <-> row !! j = Some (Some v).
Proof. unfold cell_at. destruct (row !! j) as [[w|]|]; simpl; split; congruence. Qed.

Lemma raw_of_cell_norm ty r : raw_of_cell ty (cell_of r) = norm_raw ty r.
Proof. by destruct r as [v []]. Qed.

Lemma cell_of_raw ty o : cell_of (raw_of_cell ty o) = o.
Proof. by destruct o. Qed.

Lemma str_len_raw ty o : str_len (raw_of_cell ty o).1 = cell_len o.
Proof. destruct o; [done|]. by destruct ty. Qed.

Lemma length_specs_of tys rows : length (specs_of tys rows) = length tys.
Proof. apply length_imap. Qed.

Lemma specs_of_lookup tys rows j :
  specs_of tys rows !! j = (fun ty => (ty, column_of ty j rows)) <$> tys !! j.
Proof. apply list_lookup_imap. Qed.

Lemma specs_of_types tys rows : (specs_of tys rows).*1 = tys.
Proof.
  apply list_eq. intros j. rewrite list_lookup_fmap, specs_of_lookup. by destruct (tys !! j).
Qed.

Lemma str_size_column ty j rows : str_size (column_of ty j rows) = col_bytes rows j.
Proof. induction rows as [|row rows IH]; [done|]. simpl. by rewrite IH, str_len_raw. Qed.

Lemma col_bytes_app r1 r2 j : col_bytes (r1 ++ r2) j = col_bytes r1 j + col_bytes r2 j.
Proof. induction r1 as [|row r1 IH]; simpl; [done|]. rewrite IH. lia. Qed.

Lemma cell_len_nonneg o : 0 <= cell_len o.
Proof. destruct o; simpl; [apply str_len_nonneg|lia]. Qed.

Lemma col_bytes_nonneg rows j : 0 <= col_bytes rows j.
Proof. induction rows as [|row rows IH]; simpl; [lia|]. pose proof (cell_len_nonneg (cell_at row j)). lia. Qed.

Lemma col_bytes_bound rows j b :
  (forall row, row ∈ rows -> cell_len (cell_at row j) <= b) -> col_bytes rows j <= b * Z.of_nat (length rows).
Proof.
  induction rows as [|row rows IH]; intros Hb; [simpl; lia|]. cbn [col_bytes foldr length].
  specialize (Hb row) as Hrow. assert (cell_len (cell_at row j) <= b) by (apply Hrow; by constructor).
  assert (col_bytes rows j <= b * Z.of_nat (length rows)) by (apply IH; intros r Hr; apply Hb; by constructor).
  unfold col_bytes in *. lia.
Qed.

Lemma column_of_snoc ty j rows row :
  column_of ty j (rows ++ [row]) = column_of ty j rows ++ [raw_of_cell ty (cell_at row j)].
Proof. unfold column_of. by rewrite map_app. Qed.

(** The rows of a table read back through the chunk view. *)
Lemma cell_row_specs tys rows i row :
  rows !! i = Some row -> length row = length tys -> cell_row (specs_of tys rows) i = row.
Proof.
  intros Hi Hl. apply list_eq. intros j. unfold cell_row, raw_row. rewrite !list_lookup_fmap, specs_of_lookup.
  destruct (tys !! j) as [ty|] eqn:Ej; simpl.
  - unfold column_of. rewrite list_lookup_fmap, Hi. simpl. rewrite cell_of_raw. unfold cell_at.
    destruct (lookup_lt_is_Some_2 row j) as [o Ho]; [|by rewrite Ho].
    rewrite Hl. by eapply lookup_lt_Some.
  - symmetry. apply lookup_ge_None. rewrite Hl. by apply lookup_ge_None.
Qed.

Lemma selected_all n : selected (replicate n true) = seq 0 n.
Proof.
  unfold selected. rewrite length_replicate. apply filter_all.
  intros i Hi%elem_of_seq. apply lookup_replicate_2. lia.
Qed.

Lemma live_rows_specs tys rows :
  Forall (fun row => length row = length tys) rows ->
  live_rows (specs_of tys rows) (replicate (length rows) true) = rows.
Proof.
  intros Hl. unfold live_rows. rewrite selected_all. symmetry. apply list_eq_seq.
  intros i row Hi. apply cell_row_specs; [done|]. rewrite Forall_lookup in Hl. by eapply Hl.
Qed.

(** ** Reading *)

Lemma rows_repr_length cols tys rows : rows_repr cols tys rows -> length cols = length tys.
Proof. intros Hr. by rewrite (Forall2_length _ _ _ Hr), length_specs_of. Qed.

Lemma rows_repr_lookup cols tys rows j ty :
  rows_repr cols tys rows -> tys !! j = Some ty ->
  exists col, cols !! j = Some col /\ col_repr col ty (column_of ty j rows).
Proof.
  intros Hr Hj. destruct (columns_repr_lookup_r cols (length rows) _ j ty (column_of ty j rows) Hr) as (col & ? & ? & _);
    [|eauto]. by rewrite specs_of_lookup, Hj.
Qed.

Lemma rows_repr_empty tys : rows_repr (map empty_column tys) tys [].
Proof.
  unfold rows_repr. apply Forall2_same_length_lookup_2; [by rewrite length_map, length_specs_of|].
  intros j col p Hc Hp. rewrite specs_of_lookup in Hp. rewrite list_lookup_fmap in Hc.
  destruct (tys !! j) as [ty|]; [|done]. simpl in *. simplify_eq. split; [|done]. apply empty_column_repr.
Qed.

(** ** Updating every column *)

Lemma update_each_spec {A} (f : nat -> A -> result A) cols cols' :
  length cols' = length cols ->
  (forall c col, cols !! c = Some col -> exists col', f c col = Ok col' /\ cols' !! c = Some col') ->
  update_each f cols = Ok cols'.
Proof.
  intros Hl Hf. unfold update_each.
  destruct (for_range_inv (fun i s => s = take i cols' ++ drop i cols)
    (fun i items => x ← vec_get items i; x ← f i x; vec_set items i x) 0 (length cols) cols)
    as (s & -> & ->); [|done|].
  - intros i s Hi ->. destruct (lookup_lt_is_Some_2 cols i) as [col Hcol]; [lia|].
    destruct (Hf i col Hcol) as (col' & Hf' & Hcol').
    assert (length (take i cols') = i) as Hti by (rewrite length_take; lia).
    rewrite (drop_S _ _ _ Hcol). rewrite (proj2 (vec_get_Ok _ _ _)) by by apply list_lookup_middle.
    rewrite bind_Ok, Hf', bind_Ok, vec_set_lt.
    + eexists. split; [done|]. rewrite insert_app_r_alt, Hti, Nat.sub_diag by lia. simpl.
      by rewrite (take_S_r _ _ _ Hcol'), <- app_assoc.
    + rewrite length_app. simpl. lia.
  - simpl. by rewrite drop_all, app_nil_r, <- Hl, firstn_all.
Qed.

(** Appending a nullable value to every column appends a row to the table. *)
Lemma append_row_each f cols tys rows row :
  rows_repr cols tys rows ->
  (forall j ty col, tys !! j = Some ty -> col_repr col ty (column_of ty j rows) ->
    cols !! j = Some col ->
    exists col', f j col = Ok col' /\ col_repr col' ty (column_of ty j rows ++ [raw_of_cell ty (cell_at row j)])) ->
  exists cols', update_each f cols = Ok cols' /\ rows_repr cols' tys (rows ++ [row]) /\
    forall j col col', cols !! j = Some col -> cols' !! j = Some col' -> f j col = Ok col'.
Proof.
  intros Hr Hf. pose proof (rows_repr_length _ _ _ Hr) as Hlen.
  destruct (list_choice (fun j col' => forall ty col, tys !! j = Some ty -> cols !! j = Some col ->
      f j col = Ok col' /\ col_repr col' ty (column_of ty j (rows ++ [row]))) (length cols)) as (cols' & Hl' & Hc').
  - intros j Hj. destruct (lookup_lt_is_Some_2 tys j) as [ty Hty]; [lia|].
    destruct (rows_repr_lookup cols tys rows j ty Hr Hty) as (col & Hcol & Hcr).
    destruct (Hf j ty col Hty Hcr Hcol) as (col' & Hf' & Hcr'). exists col'. intros ty' col0 ? ?. simplify_eq.
    by rewrite column_of_snoc.
  - assert (forall j col col', cols !! j = Some col -> cols' !! j = Some col' -> f j col = Ok col') as Heach.
    { intros j col col' Hcol Hcol'.
      destruct (lookup_lt_is_Some_2 tys j) as [ty Hty]; [apply lookup_lt_Some in Hcol; lia|].
      by destruct (Hc' j col' Hcol' ty col Hty Hcol). }
    exists cols'. split_and!; [| |exact Heach].
    + apply update_each_spec; [done|]. intros c col Hcol.
      destruct (lookup_lt_is_Some_2 cols' c) as [col' Hcol']; [apply lookup_lt_Some in Hcol; lia|]. eauto.
    + apply Forall2_same_length_lookup_2; [by rewrite length_specs_of, Hl', Hlen|].
      intros j col' p Hcol' Hp. rewrite specs_of_lookup in Hp.
      destruct (tys !! j) as [ty|] eqn:Hty; [|done]. simpl in Hp. injection Hp as <-.
      destruct (lookup_lt_is_Some_2 cols j) as [col Hcol]; [apply lookup_lt_Some in Hcol'; lia|].
      destruct (Hc' j col' Hcol' ty col Hty Hcol) as [_ Hcr]. split; [done|]. simpl.
      unfold column_of. by rewrite length_map.
Qed.

Lemma append_row_repr f cols tys rows row :
  rows_repr cols tys rows ->
  (forall j ty col, tys !! j = Some ty -> col_repr col ty (column_of ty j rows) ->
    cols !! j = Some col ->
    exists col', f j col = Ok col' /\ col_repr col' ty (column_of ty j rows ++ [raw_of_cell ty (cell_at row j)])) ->
  exists cols', update_each f cols = Ok cols' /\ rows_repr cols' tys (rows ++ [row]).
Proof. intros Hr Hf. destruct (append_row_each f cols tys rows row Hr Hf) as (cols' & ? & ? & _). eauto. Qed.

Lemma col_AppendCell_repr col ty rs o :
  col_repr col ty rs -> cell_typed ty o -> str_size rs + cell_len o < 2 ^ 31 ->
  exists col', col_AppendCell col o = Ok col' /\ col_repr col' ty (rs ++ [raw_of_cell ty o]).
Proof.
  intros Hr Hty Hs. destruct o as [v|]; simpl.
  - apply col_Append_repr; [done|by apply Hty|]. unfold fits. rewrite str_size_app. simpl in *. lia.
  - by apply col_AppendNull_repr.
Qed.

(** Copying a row of another column. *)
Lemma col_CopyRow_cell out src ty rs rs' i r :
  col_repr out ty rs -> col_repr src ty rs' -> rs' !! i = Some r -> str_size rs + cell_len (cell_of r) < 2 ^ 31 ->
  exists c', col_CopyRow out src i = Ok c' /\ col_repr c' ty (rs ++ [raw_of_cell ty (cell_of r)]).
Proof.
  intros Ho Hs Hi Hfit. destruct r as [v b].
  destruct (col_repr_lookup src ty rs' i v b Hs Hi) as (Hty & Hg & Hn & _).
  unfold col_CopyRow. rewrite Hn. destruct b; simpl.
  - rewrite Hg. simpl. apply col_Append_repr; [done|done|]. unfold fits. rewrite str_size_app. simpl in *. lia.
  - by apply col_AppendNull_repr.
Qed.

(** ** A vector of columns made into a chunk *)

Lemma add_columns_spec output sel cols specs base :
  chunk_repr output base sel -> columns_repr cols (length sel) specs ->
  exists output', add_columns cols output = Ok output' /\ chunk_repr output' (base ++ specs) sel.
Proof.
  revert output base specs. induction cols as [|col cols IH]; intros output base specs Hout Hcols.
  - inversion Hcols; subst. exists output. by rewrite app_nil_r.
  - inversion Hcols as [|? [ty rs] ? specs' [Hcol Hlen] Hcols']; subst. unfold add_columns. simpl.
    destruct (AddColumn_repr output base sel col ty rs Hout Hcol Hlen) as (o' & -> & Ho'). rewrite bind_Ok.
    destruct (IH o' (base ++ [(ty, rs)]) specs' Ho' Hcols') as (o'' & HE & Ho'').
    exists o''. split; [exact HE|]. by rewrite <- app_assoc in Ho''.
Qed.
