(* ===== verification/Expr.v ===== *)
(** Model of [src/execution/bound_expression.cpp], and the reference semantics of bound
    expressions the evaluator is proved against: [row_eval] on the stored values of
    a row, [sql_eval] on its nullable values. *)

From S2P Require Import Prelude Scalar Chunk.

Inductive ExpressionType : Type := ExprInteger | ExprFloat | ExprVarchar | ExprBoolean.
#[global] Instance ExpressionType_eq_dec : EqDecision ExpressionType.
Proof. solve_decision. Defined.

Inductive BinaryOperator : Type :=
  | kAdd | kSubtract | kMultiply | kDivide
  | kEqual | kNotEqual | kLessThan | kLessThanOrEqual | kGreaterThan | kGreaterThanOrEqual
  | kAnd | kOr.
#[global] Instance BinaryOperator_eq_dec : EqDecision BinaryOperator.
Proof. solve_decision. Defined.

Inductive UnaryOperator : Type := kNot.

(** [std::variant<BoundColumnRef, ConstNode, BinaryOpNode, UnaryOpNode>]. *)
Inductive BoundExpression : Type :=
  | BoundColumnRef (table_id ordinal : Z) (type : TypeId)
  | ConstNode (value : Value)
  | BinaryOpNode (op : BinaryOperator) (left right : BoundExpression) (arithmetic_result_type : ExpressionType)
  | UnaryOpNode (op : UnaryOperator) (operand : BoundExpression).

Definition ToExpressionType (type : TypeId) : ExpressionType :=
  match type with kInteger => ExprInteger | kFloat => ExprFloat | kVarchar => ExprVarchar end.

Definition IsArithmeticOperator (op : BinaryOperator) : bool :=
  match op with kAdd | kSubtract | kMultiply | kDivide => true | _ => false end.

Definition IsLogicalOperator (op : BinaryOperator) : bool :=
  match op with kAnd | kOr => true | _ => false end.

Definition ResultTypeForBinaryOp (op : BinaryOperator) (arithmetic_result_type : ExpressionType) : ExpressionType :=
  match op with
  | kAdd | kSubtract | kMultiply | kDivide => arithmetic_result_type
  | _ => ExprBoolean
  end.

Definition ResultType (e : BoundExpression) : ExpressionType :=
  match e with
  | BoundColumnRef _ _ type => ToExpressionType type
  | ConstNode (VInt _) => ExprInteger
  | ConstNode (VFloat _) => ExprFloat
  | ConstNode (VStr _) => ExprVarchar
  | BinaryOpNode op _ _ arithmetic_result_type => ResultTypeForBinaryOp op arithmetic_result_type
  | UnaryOpNode _ _ => ExprBoolean
  end.

Definition MakeColumnRef (table_id ordinal : Z) (type : TypeId) : BoundExpression :=
  BoundColumnRef table_id ordinal type.
Definition MakeIntConst (value : Z) : BoundExpression := ConstNode (VInt value).
Definition MakeFloatConst (value : f32) : BoundExpression := ConstNode (VFloat value).
Definition MakeStringConst (value : string) : BoundExpression := ConstNode (VStr value).
Definition MakeArithmeticOp (op : BinaryOperator) (left right : BoundExpression) (result_type : ExpressionType)
    : BoundExpression := BinaryOpNode op left right result_type.
Definition MakeBooleanOp (op : BinaryOperator) (left right : BoundExpression) : BoundExpression :=
  BinaryOpNode op left right ExprInteger.
Definition MakeNot (operand : BoundExpression) : BoundExpression := UnaryOpNode kNot operand.

(** ** The operators on values ([expression_evaluator.cpp]) *)

(** Signed overflow, and [INT_MIN / -1], are undefined. *)
Definition checked_i32 (z : Z) : result Z := if decide (is_i32 z) then Ok z else Undefined.

Definition ApplyIntArithmetic (op : BinaryOperator) (lhs rhs : Z) : result Z :=
  match op with
  | kAdd => checked_i32 (lhs + rhs)
  | kSubtract => checked_i32 (lhs - rhs)
  | kMultiply => checked_i32 (lhs * rhs)
  | kDivide => if rhs =? 0 then mret 0 else checked_i32 (Z.quot lhs rhs)
  | _ => mret 0
  end.

Definition ApplyFloatArithmetic (op : BinaryOperator) (lhs rhs : f32) : f32 :=
  match op with
  | kAdd => f32_add lhs rhs
  | kSubtract => f32_sub lhs rhs
  | kMultiply => f32_mul lhs rhs
  | kDivide => f32_div lhs rhs
  | _ => f32_zero
  end.

(** [ApplyComparison<T>], given the [==], [<] and [<=] of [T]. *)
Definition ApplyComparison {T} (eqb ltb leb : T -> T -> bool) (op : BinaryOperator) (lhs rhs : T) : bool :=
  match op with
  | kEqual => eqb lhs rhs
  | kNotEqual => negb (eqb lhs rhs)
  | kLessThan => ltb lhs rhs
  | kLessThanOrEqual => leb lhs rhs
  | kGreaterThan => ltb rhs lhs
  | kGreaterThanOrEqual => leb rhs lhs
  | _ => false
  end.

Definition compare_int := ApplyComparison Z.eqb Z.ltb Z.leb.
Definition compare_float := ApplyComparison f32_eqb f32_ltb f32_leb.
Definition compare_string := ApplyComparison String.eqb str_ltb str_leb.

(** ** Typing *)

Definition is_numeric (t : ExpressionType) : bool :=
  match t with ExprInteger | ExprFloat => true | _ => false end.

Definition infer_binary (op : BinaryOperator) (at_ : ExpressionType) (l r : ExpressionType) : option ExpressionType :=
  if IsArithmeticOperator op then
    (if decide (at_ = ExprFloat) then (if is_numeric l && is_numeric r then Some ExprFloat else None)
     else if decide (at_ = ExprInteger /\ l = ExprInteger /\ r = ExprInteger) then Some ExprInteger else None)
  else if IsLogicalOperator op then
    (if decide (l = ExprBoolean /\ r = ExprBoolean) then Some ExprBoolean else None)
  else if decide (l = ExprVarchar /\ r = ExprVarchar) then Some ExprBoolean
  else if is_numeric l && is_numeric r then Some ExprBoolean else None.

(** The type of an expression over columns of the given types; [None] for expressions
    the binder does not build. *)
Fixpoint infer (tys : list TypeId) (e : BoundExpression) : option ExpressionType :=
  match e with
  | BoundColumnRef _ ord ty =>
      match tys !! Z.to_nat ord with
      | Some ty' => if decide (ty' = ty) then Some (ToExpressionType ty) else None
      | None => None
      end
  | ConstNode v => Some (ToExpressionType (type_of v))
  | BinaryOpNode op l r at_ =>
      tl ← infer tys l; tr ← infer tys r; infer_binary op at_ tl tr
  | UnaryOpNode kNot e => t ← infer tys e; if decide (t = ExprBoolean) then Some ExprBoolean else None
  end.

(** ** Reference semantics on stored values *)

Inductive RowVal : Type :=
  | RVal (v : Value) (valid : bool)
  | RBool (b : bool) (valid : bool).

Definition to_option {A} (r : result A) : option A := match r with Ok a => Some a | _ => None end.

Definition as_float (v : Value) : option f32 :=
  match v with VInt z => Some (f32_of_int z) | VFloat f => Some f | VStr _ => None end.

Definition value_compare (op : BinaryOperator) (a b : Value) : option bool :=
  match a, b with
  | VStr x, VStr y => Some (compare_string op x y)
  | VInt x, VInt y => Some (compare_int op x y)
  | _, _ => x ← as_float a; y ← as_float b; Some (compare_float op x y)
  end.

Definition row_arith (op : BinaryOperator) (at_ : ExpressionType) (a b : Value) (va vb : bool) : option RowVal :=
  if decide (at_ = ExprFloat) then
    x ← as_float a; y ← as_float b; Some (RVal (VFloat (ApplyFloatArithmetic op x y)) (va && vb))
  else match a, b with
       | VInt x, VInt y =>
           z ← to_option (ApplyIntArithmetic op x y);
           Some (RVal (VInt z) (va && vb && negb (bool_decide (op = kDivide) && (y =? 0))))
       | _, _ => None
       end.

Definition row_binary (op : BinaryOperator) (at_ : ExpressionType) (l r : RowVal) : option RowVal :=
  if IsArithmeticOperator op then
    match l, r with RVal a va, RVal b vb => row_arith op at_ a b va vb | _, _ => None end
  else if IsLogicalOperator op then
    match l, r with
    | RBool a va, RBool b vb =>
        Some (RBool (if bool_decide (op = kAnd) then a && b else a || b) (va && vb))
    | _, _ => None
    end
  else
    match l, r with
    | RVal a va, RVal b vb => c ← value_compare op a b; Some (RBool c (va && vb))
    | _, _ => None
    end.

(** [None] when the arithmetic overflows (or the expression is not well typed). *)
Fixpoint row_eval (e : BoundExpression) (row : list (Value * bool)) : option RowVal :=
  match e with
  | BoundColumnRef _ ord ty =>
      match row !! Z.to_nat ord with
      | Some r => Some (RVal (norm_raw ty r).1 (norm_raw ty r).2)
      | None => None
      end
  | ConstNode v => Some (RVal v true)
  | BinaryOpNode op l r at_ => a ← row_eval l row; b ← row_eval r row; row_binary op at_ a b
  | UnaryOpNode kNot e =>
      match row_eval e row with Some (RBool b v) => Some (RBool (negb b) v) | _ => None end
  end.

(** ** Reference semantics on nullable values *)

Inductive SqlVal : Type := SqlValue (v : option Value) | SqlBool (b : option bool).

Definition sql_binary (op : BinaryOperator) (at_ : ExpressionType) (l r : SqlVal) : option SqlVal :=
  match l, r with
  | SqlValue (Some a), SqlValue (Some b) =>
      if IsArithmeticOperator op then
        if decide (at_ = ExprFloat) then
          x ← as_float a; y ← as_float b; Some (SqlValue (Some (VFloat (ApplyFloatArithmetic op x y))))
        else match a, b with
             | VInt x, VInt y =>
                 if bool_decide (op = kDivide) && (y =? 0) then Some (SqlValue None)
                 else z ← to_option (ApplyIntArithmetic op x y); Some (SqlValue (Some (VInt z)))
             | _, _ => None
             end
      else if IsLogicalOperator op then None
      else c ← value_compare op a b; Some (SqlBool (Some c))
  | SqlValue _, SqlValue _ =>
      if IsArithmeticOperator op then Some (SqlValue None)
      else if IsLogicalOperator op then None else Some (SqlBool None)
  | SqlBool a, SqlBool b =>
      if IsLogicalOperator op then
        match a, b with
        | Some x, Some y => Some (SqlBool (Some (if bool_decide (op = kAnd) then x && y else x || y)))
        | _, _ => Some (SqlBool None)
        end
      else None
  | _, _ => None
  end.

(** Nulls propagate through every operator, AND and OR included; an integer division by
    zero is null. *)
Fixpoint sql_eval (e : BoundExpression) (row : list (option Value)) : option SqlVal :=
  match e with
  | BoundColumnRef _ ord _ => SqlValue <$> row !! Z.to_nat ord
  | ConstNode v => Some (SqlValue (Some v))
  | BinaryOpNode op l r at_ => a ← sql_eval l row; b ← sql_eval r row; sql_binary op at_ a b
  | UnaryOpNode kNot e =>
      match sql_eval e row with Some (SqlBool b) => Some (SqlBool (negb <$> b)) | _ => None end
  end.

Definition mask_row (r : RowVal) : SqlVal :=
  match r with
  | RVal v valid => SqlValue (if valid then Some v else None)
  | RBool b valid => SqlBool (if valid then Some b else None)
  end.

Definition rowval_type (r : RowVal) : ExpressionType :=
  match r with RVal v _ => ToExpressionType (type_of v) | RBool _ _ => ExprBoolean end.

(** ** Facts *)

Lemma infer_ResultType tys e t : infer tys e = Some t -> ResultType e = t.
Proof.
  destruct e as [i ord ty|v|op l r at_|[] e]; simpl.
  - destruct (tys !! _) as [ty'|]; [|done]. case_decide; [|done]. by intros [= <-].
  - intros [= <-]. by destruct v.
  - destruct (infer tys l) as [tl|]; [|done]. destruct (infer tys r) as [tr|]; [|done]. simpl.
    unfold infer_binary, ResultTypeForBinaryOp.
    destruct op; simpl; repeat case_decide; try case_match; intros; simplify_eq; try done; naive_solver.
  - destruct (infer tys e); [|done]. simpl. case_decide; [|done]. by intros [= <-].
Qed.

(** Masking commutes with the operators: what lies under a null does not matter. *)
Lemma sql_binary_mask op at_ l r v :
  row_binary op at_ l r = Some v -> sql_binary op at_ (mask_row l) (mask_row r) = Some (mask_row v).
Proof.
  unfold row_binary, sql_binary, row_arith.
  destruct (IsArithmeticOperator op) eqn:Ha; [|destruct (IsLogicalOperator op) eqn:Hl].
  - destruct l as [a va|p q], r as [b vb|p' q']; try done. case_decide.
    + destruct (as_float a) as [x|] eqn:Ex; [|done]. destruct (as_float b) as [y|] eqn:Ey; [|done]. simpl.
      intros [= <-]. destruct va, vb; simpl; try done. by rewrite Ex, Ey.
    + destruct a as [x| |], b as [y| |]; try done.
      destruct (ApplyIntArithmetic op x y) as [z| | |] eqn:Ez; try done. simpl. intros [= <-].
      destruct va, vb; simpl; try done.
      destruct (bool_decide (op = kDivide) && (y =? 0)); simpl; [done|by rewrite Ez].
  - destruct l as [p q|a va], r as [p' q'|b vb]; try done. intros [= <-]. destruct va, vb; done.
  - destruct l as [a va|p q], r as [b vb|p' q']; try done.
    destruct (value_compare op a b) as [c|] eqn:Ec; [|done]. simpl. intros [= <-].
    destruct va, vb; simpl; try done. by rewrite Ec.
Qed.

Lemma sql_eval_mask e row v :
  row_eval e row = Some v -> sql_eval e (map cell_of row) = Some (mask_row v).
Proof.
  revert v. induction e as [i ord ty|c|op l IHl r IHr at_|[] e IH]; intros v; simpl.
  - rewrite list_lookup_fmap. destruct (row !! Z.to_nat ord) as [[x []]|]; [| |done]; by intros [= <-].
  - by intros [= <-].
  - destruct (row_eval l row) as [a|]; [|done]. destruct (row_eval r row) as [b|]; [|done]. simpl.
    intros Hb. rewrite (IHl a), (IHr b) by done. simpl. by apply sql_binary_mask.
  - destruct (row_eval e row) as [[|b w]|]; try done. intros [= <-].
    rewrite (IH (RBool b w)) by done. by destruct w.
Qed.

Lemma as_float_numeric a : is_numeric (ToExpressionType (type_of a)) = true -> is_Some (as_float a).
Proof. destruct a; simpl; eauto; done. Qed.

Lemma as_float_None_numeric a : as_float a = None -> is_numeric (ToExpressionType (type_of a)) = false.
Proof. by destruct a. Qed.
