(* ===== verification/Eval.v ===== *)
(** Model of [src/execution/expression_evaluator.cpp], and the proof that evaluating an
    expression over a chunk, column at a time and in two passes, gives in each row
    the value of the row-wise reference semantics of [Expr.v]. *)

From S2P Require Import Prelude Scalar ByteIO Bitmap Columns Chunk Expr.

(** [std::variant] of a column and [BooleanResult]. *)
Inductive EvaluationResult : Type :=
  | ColResult (c : ColumnStorage)
  | BooleanResult (values validity : ValidityBitmap).

Definition EvaluateColumnRef (ordinal : nat) (chunk : DataChunk) : result EvaluationResult :=
  column ← chunk_Column chunk ordinal;
  ColResult <$> for_range 0 (col_Size column) (fun i res => col_CopyRow res column i)
                  (empty_column (col_type column)).

Definition EvaluateConst (value : Value) (row_count : nat) : result EvaluationResult :=
  ColResult <$> for_range 0 row_count (fun _ res => col_Append res value) (empty_column (type_of value)).

Definition IsFloatResult (res : EvaluationResult) : bool :=
  match res with ColResult (FloatCol _) => true | _ => false end.

Definition AsInt (res : EvaluationResult) (i : nat) : result Z :=
  match res with
  | ColResult (IntCol c) => FixedWidth.GetValue c i
  | _ => Throw BadVariantAccess
  end.

Definition AsFloat (res : EvaluationResult) (i : nat) : result f32 :=
  match res with
  | ColResult (FloatCol c) => FixedWidth.GetValue c i
  | _ => f32_of_int <$> AsInt res i
  end.

Definition AsString (res : EvaluationResult) (i : nat) : result string :=
  match res with
  | ColResult (VarcharCol c) => Varchar.GetValue c i
  | _ => Throw BadVariantAccess
  end.

Definition IsValidAt (res : EvaluationResult) (i : nat) : result bool :=
  match res with
  | ColResult c => col_IsValid c i
  | BooleanResult _ validity => Bitmap.IsValid validity i
  end.

(** [IsValidAt(left, i) && IsValidAt(right, i)]. *)
Definition BothValidAt (left right : EvaluationResult) (i : nat) : result bool :=
  l ← IsValidAt left i; if l : bool then IsValidAt right i else mret false.

Definition EvaluateArithmeticInt (op : BinaryOperator) (left right : EvaluationResult) (row_count : nat)
    : result EvaluationResult :=
  res ← for_range 0 row_count
    (fun i res => l ← AsInt left i; r ← AsInt right i; v ← ApplyIntArithmetic op l r;
                  FixedWidth.Append res v) FixedWidth.empty;
  res ← for_range 0 row_count
    (fun i res =>
       operands_valid ← BothValidAt left right i;
       would_divide_by_zero ← (if bool_decide (op = kDivide) then (r ← AsInt right i; mret (r =? 0)) else mret false);
       if negb operands_valid || would_divide_by_zero then FixedWidth.SetNull res i true else mret res) res;
  mret (ColResult (IntCol res)).

Definition EvaluateArithmeticFloat (op : BinaryOperator) (left right : EvaluationResult) (row_count : nat)
    : result EvaluationResult :=
  res ← for_range 0 row_count
    (fun i res => l ← AsFloat left i; r ← AsFloat right i;
                  FixedWidth.Append res (ApplyFloatArithmetic op l r)) FixedWidth.empty;
  res ← for_range 0 row_count
    (fun i res =>
       valid ← BothValidAt left right i;
       if negb valid then FixedWidth.SetNull res i true else mret res) res;
  mret (ColResult (FloatCol res)).

Definition CompareRow (op : BinaryOperator) (left right : EvaluationResult) (i : nat) : result bool :=
  match left with
  | ColResult (VarcharCol _) =>
      l ← AsString left i; r ← AsString right i; mret (compare_string op l r)
  | _ =>
      if IsFloatResult left || IsFloatResult right then
        l ← AsFloat left i; r ← AsFloat right i; mret (compare_float op l r)
      else
        l ← AsInt left i; r ← AsInt right i; mret (compare_int op l r)
  end.

(** [for (i) bitmap.SetValid(i, f(i))], on a bitmap of [row_count] rows. *)
Definition fill_bitmap (row_count : nat) (f : nat -> result bool) : result ValidityBitmap :=
  for_range 0 row_count (fun i bm => b ← f i; SetValid bm i b) (new_bitmap row_count true).

Definition EvaluateComparison (op : BinaryOperator) (left right : EvaluationResult) (row_count : nat)
    : result EvaluationResult :=
  values ← fill_bitmap row_count (CompareRow op left right);
  validity ← fill_bitmap row_count (BothValidAt left right);
  mret (BooleanResult values validity).

Definition EvaluateLogical (op : BinaryOperator) (lvalues lvalidity rvalues rvalidity : ValidityBitmap)
    (row_count : nat) : result EvaluationResult :=
  values ← fill_bitmap row_count (fun i =>
    l ← Bitmap.IsValid lvalues i;
    if bool_decide (op = kAnd) then (if l : bool then Bitmap.IsValid rvalues i else mret false)
    else (if l : bool then mret true else Bitmap.IsValid rvalues i));
  validity ← fill_bitmap row_count (fun i =>
    l ← Bitmap.IsValid lvalidity i; if l : bool then Bitmap.IsValid rvalidity i else mret false);
  mret (BooleanResult values validity).

Definition get_boolean (res : EvaluationResult) : result (ValidityBitmap * ValidityBitmap) :=
  match res with
  | BooleanResult values validity => mret (values, validity)
  | _ => Throw BadVariantAccess
  end.

Definition EvaluateBinary (op : BinaryOperator) (arithmetic_result_type : ExpressionType)
    (left right : EvaluationResult) (row_count : nat) : result EvaluationResult :=
  if IsArithmeticOperator op then
    if decide (arithmetic_result_type = ExprFloat) then EvaluateArithmeticFloat op left right row_count
    else EvaluateArithmeticInt op left right row_count
  else if IsLogicalOperator op then
    '(lvalues, lvalidity) ← get_boolean left;
    '(rvalues, rvalidity) ← get_boolean right;
    EvaluateLogical op lvalues lvalidity rvalues rvalidity row_count
  else EvaluateComparison op left right row_count.

Definition EvaluateUnary (operand : EvaluationResult) (row_count : nat) : result EvaluationResult :=
  '(ovalues, ovalidity) ← get_boolean operand;
  values ← fill_bitmap row_count (fun i => v ← Bitmap.IsValid ovalues i; mret (negb v));
  validity ← fill_bitmap row_count (fun i => Bitmap.IsValid ovalidity i);
  mret (BooleanResult values validity).

Fixpoint EvaluateExpr (expr : BoundExpression) (chunk : DataChunk) : result EvaluationResult :=
  match expr with
  | BoundColumnRef _ ordinal _ => EvaluateColumnRef (Z.to_nat ordinal) chunk
  | ConstNode value => EvaluateConst value (chunk_rows_ chunk)
  | BinaryOpNode op l r at_ =>
      left ← EvaluateExpr l chunk;
      right ← EvaluateExpr r chunk;
      EvaluateBinary op at_ left right (chunk_rows_ chunk)
  | UnaryOpNode kNot e =>
      operand ← EvaluateExpr e chunk;
      EvaluateUnary operand (chunk_rows_ chunk)
  end.

Definition Evaluate (expr : BoundExpression) (chunk : DataChunk) : result EvaluationResult :=
  EvaluateExpr expr chunk.

(** ** What a result holds *)

Definition raw_val (r : Value * bool) : RowVal := RVal r.1 r.2.

Definition res_repr (res : EvaluationResult) (ty : ExpressionType) (rvs : list RowVal) : Prop :=
  match res with
  | ColResult c => exists cty rs, ty = ToExpressionType cty /\ col_repr c cty rs /\ rvs = map raw_val rs
  | BooleanResult values validity =>
      ty = ExprBoolean /\ bm_wf values /\ bm_wf validity /\ num_rows_ values = length rvs /\
      num_rows_ validity = length rvs /\
      rvs = zip_with RBool (bm_view values) (bm_view validity)
  end.

Lemma ToExpressionType_inj a b : ToExpressionType a = ToExpressionType b -> a = b.
Proof. by destruct a, b. Qed.

Lemma ToExpressionType_not_bool a : ToExpressionType a <> ExprBoolean.
Proof. by destruct a. Qed.

Lemma res_repr_lookup_val res ty rvs i v b :
  res_repr res ty rvs -> rvs !! i = Some (RVal v b) ->
  ty = ToExpressionType (type_of v) /\ IsValidAt res i = Ok b.
Proof.
  destruct res as [c|bv bd]; simpl.
  - intros (cty & rs & -> & Hr & ->). rewrite list_lookup_fmap. destruct (rs !! i) as [[x y]|] eqn:E; [|done].
    simpl. intros [= -> ->]. by destruct (col_repr_lookup c cty rs i v b Hr E) as (-> & _ & _ & ->).
  - intros (_ & _ & _ & _ & _ & ->) (x & y & ? & _)%lookup_zip_with_Some. done.
Qed.

Lemma res_repr_lookup_bool res ty rvs i v b :
  res_repr res ty rvs -> rvs !! i = Some (RBool v b) ->
  exists values validity, res = BooleanResult values validity /\
    Bitmap.IsValid values i = Ok v /\ Bitmap.IsValid validity i = Ok b.
Proof.
  destruct res as [c|bv bd]; simpl.
  - intros (cty & rs & -> & Hr & ->). rewrite list_lookup_fmap. by destruct (rs !! i) as [[x y]|].
  - intros (_ & H1 & H2 & _ & _ & ->) (x & y & [= <- <-] & Hx & Hy)%lookup_zip_with_Some.
    exists bv, bd. split_and!; [done|by apply IsValid_view..].
Qed.

Lemma res_repr_int res rvs i z b :
  res_repr res ExprInteger rvs -> rvs !! i = Some (RVal (VInt z) b) -> AsInt res i = Ok z.
Proof.
  destruct res as [c|]; [|by intros []]. intros (cty & rs & Hty & Hr & ->). rewrite list_lookup_fmap.
  destruct (rs !! i) as [[x y]|] eqn:E; [|done]. simpl. intros [= -> ->].
  destruct (col_repr_lookup c cty rs i _ _ Hr E) as (_ & HG & _). destruct c as [c|c|c]; simpl in *.
  - destruct (FixedWidth.GetValue c i); by simplify_eq/=.
  - by destruct Hr as [-> _].
  - by destruct Hr as [-> _].
Qed.

Lemma res_repr_float res ty rvs i v b f :
  res_repr res ty rvs -> rvs !! i = Some (RVal v b) -> as_float v = Some f -> AsFloat res i = Ok f.
Proof.
  destruct res as [c|]; simpl.
  2: { intros (_ & _ & _ & _ & _ & ->) (x & y & ? & _)%lookup_zip_with_Some. done. }
  intros (cty & rs & Hty & Hr & ->). rewrite list_lookup_fmap.
  destruct (rs !! i) as [[x y]|] eqn:E; [|done]. simpl. intros [= -> ->].
  destruct (col_repr_lookup c cty rs i _ _ Hr E) as (Ht & HG & _). destruct c as [c|c|c]; simpl in *.
  - destruct (FixedWidth.GetValue c i) eqn:Eg; simplify_eq/=. intros [= <-]. done.
  - destruct (FixedWidth.GetValue c i) eqn:Eg; simplify_eq/=. by intros [= <-].
  - destruct (Varchar.GetValue c i) eqn:Eg; by simplify_eq/=.
Qed.

Lemma res_repr_string res ty rvs i s b :
  res_repr res ty rvs -> rvs !! i = Some (RVal (VStr s) b) ->
  (exists c, res = ColResult (VarcharCol c)) /\ AsString res i = Ok s.
Proof.
  destruct res as [c|]; simpl.
  2: { intros (_ & _ & _ & _ & _ & ->) (x & y & ? & _)%lookup_zip_with_Some. done. }
  intros (cty & rs & Hty & Hr & ->). rewrite list_lookup_fmap.
  destruct (rs !! i) as [[x y]|] eqn:E; [|done]. simpl. intros [= -> ->].
  destruct (col_repr_lookup c cty rs i _ _ Hr E) as (Ht & HG & _). destruct c as [c|c|c]; simpl in *.
  - destruct (FixedWidth.GetValue c i) eqn:Eg; by simplify_eq/=.
  - destruct (FixedWidth.GetValue c i) eqn:Eg; by simplify_eq/=.
  - destruct (Varchar.GetValue c i) eqn:Eg; simplify_eq/=. eauto.
Qed.

(** ** The loops *)

Lemma fill_bitmap_spec n f g :
  (forall i, (i < n)%nat -> f i = Ok (g i)) ->
  exists bm, fill_bitmap n f = Ok bm /\ bm_wf bm /\ num_rows_ bm = n /\ bm_view bm = map g (seq 0 n).
Proof.
  intros Hf. unfold fill_bitmap.
  destruct (for_range_inv (fun i bm => bm_wf bm /\ num_rows_ bm = n /\
      forall j, (j < i)%nat -> bm_view bm !! j = Some (g j))
    (fun i bm => b ← f i; SetValid bm i b) 0 n (new_bitmap n true)) as (bm & HE & Hwf & Hn & Hv).
  - intros i bm Hi (Hwf & Hn & Hv). rewrite Hf by lia. simpl.
    destruct (SetValid_view bm i (g i) Hwf) as (bm' & HS & Hwf' & Hv'); [lia|]. exists bm'.
    split_and!; [done|done| |].
    + by rewrite <- (length_bm_view bm'), Hv', length_insert, length_bm_view.
    + intros j Hj. rewrite Hv'. destruct (decide (j = i)) as [->|].
      * apply list_lookup_insert_eq. rewrite length_bm_view. lia.
      * rewrite list_lookup_insert_ne by done. apply Hv. lia.
  - split_and!; [apply new_bitmap_wf|done|lia].
  - exists bm. split_and!; [done..|]. rewrite <- Hn, <- length_bm_view. apply list_eq_seq.
    intros i x Hx. assert (i < n)%nat by (rewrite <- Hn, <- length_bm_view; by eapply lookup_lt_Some).
    rewrite Hv in Hx by (simpl; lia). congruence.
Qed.

Lemma map_seq_S {A} (g : nat -> A) i : map g (seq 0 (S i)) = map g (seq 0 i) ++ [g i].
Proof. by rewrite seq_S, map_app. Qed.

Lemma append_loop_spec {T} `{Scalar T} n (f : nat -> result T) g :
  (forall i, (i < n)%nat -> f i = Ok (g i)) ->
  exists c, for_range 0 n (fun i res => v ← f i; FixedWidth.Append res v) FixedWidth.empty = Ok c /\
    FixedWidth.wf c /\ FixedWidth.values_ c = map g (seq 0 n) /\ FixedWidth.bits c = replicate n true.
Proof.
  intros Hf.
  destruct (for_range_inv (fun i c => FixedWidth.wf c /\ FixedWidth.values_ c = map g (seq 0 i) /\
      FixedWidth.bits c = replicate i true)
    (fun i res => v ← f i; FixedWidth.Append res v) 0 n FixedWidth.empty) as (c & HE & HI); [| |by exists c].
  - intros i c Hi (Hwf & Hv & Hb). rewrite Hf, bind_Ok by lia.
    destruct (FixedWidth.Append_spec c (g i) Hwf) as (c' & HA & Hwf' & Hv' & Hb'). exists c'.
    by rewrite HA, Hv', Hv, Hb', Hb, map_seq_S, replicate_S_end.
  - split_and!; [apply FixedWidth.empty_wf|done|done].
Qed.

Lemma null_loop_spec {T} `{Scalar T} n (f : nat -> result bool) (ok : nat -> bool)
    (c : FixedWidth.FixedWidthColumn T) :
  (forall i, (i < n)%nat -> f i = Ok (negb (ok i))) ->
  FixedWidth.wf c -> FixedWidth.Size c = n -> FixedWidth.bits c = replicate n true ->
  exists c', for_range 0 n (fun i res => null ← f i;
       if null : bool then FixedWidth.SetNull res i true else mret res) c = Ok c' /\
    FixedWidth.wf c' /\ FixedWidth.values_ c' = FixedWidth.values_ c /\
    FixedWidth.bits c' = map ok (seq 0 n).
Proof.
  intros Hf Hwf Hn Hb.
  destruct (for_range_inv (fun i c' => FixedWidth.wf c' /\ FixedWidth.values_ c' = FixedWidth.values_ c /\
      FixedWidth.bits c' = map ok (seq 0 i) ++ replicate (n - i) true)
    (fun i res => null ← f i; if null : bool then FixedWidth.SetNull res i true else mret res) 0 n c)
    as (c' & HE & Hwf' & Hv' & Hb').
  - intros i c' Hi (Hwf' & Hv' & Hb'). rewrite Hf, bind_Ok by lia.
    assert (replicate (n - i) true = true :: replicate (n - S i) true) as Hrep
      by (by replace (n - i)%nat with (S (n - S i)) by lia).
    assert (forall b, <[i := b]> (map ok (seq 0 i) ++ replicate (n - i) true) =
      (map ok (seq 0 i) ++ [b]) ++ replicate (n - S i) true) as Hins.
    { intros b. rewrite Hrep, insert_app_r_alt by (by rewrite length_map, length_seq).
      rewrite length_map, length_seq, Nat.sub_diag, <- app_assoc. done. }
    assert (FixedWidth.bits c' !! i = Some true) as Hbi.
    { rewrite Hb', lookup_app_r, length_map, length_seq, Nat.sub_diag, Hrep; [done|].
      by rewrite length_map, length_seq. }
    rewrite map_seq_S. destruct (ok i); simpl.
    + exists c'. split_and!; [done..|]. rewrite <- Hins, <- Hb'. symmetry. by apply list_insert_id.
    + destruct (FixedWidth.SetNull_spec c' i true Hwf') as (c'' & HS & Hwf'' & Hv'' & Hb'').
      { unfold FixedWidth.Size in *. rewrite Hv'. lia. }
      exists c''. split_and!; [done|done|congruence|]. by rewrite Hb'', Hb', Hins.
  - split_and!; [done..|]. by rewrite Nat.sub_0_r.
  - exists c'. split_and!; [done..|]. rewrite Hb'. simpl. by rewrite Nat.sub_diag, app_nil_r.
Qed.

Lemma for_range_ext {S} lo n (f g : nat -> S -> result S) s :
  (forall i s, (lo <= i < lo + n)%nat -> f i s = g i s) -> for_range lo n f s = for_range lo n g s.
Proof.
  revert lo s. induction n as [|n IH]; intros lo s Hfg; simpl; [done|].
  rewrite Hfg by lia. destruct (g lo s); [|done..]. simpl. apply IH. intros. apply Hfg. lia.
Qed.

(** The two-pass arithmetic: raw values first, then the nulls. *)
Lemma two_pass_repr {T} `{Scalar T} (inj : T -> Value) (mk : FixedWidth.FixedWidthColumn T -> ColumnStorage)
    cty n (g : nat -> T) (ok : nat -> bool) c vs :
  (forall c rs, FixedWidth.wf c ->
     rs = zip_with (fun x b => (inj x, b)) (FixedWidth.values_ c) (FixedWidth.bits c) -> col_repr (mk c) cty rs) ->
  FixedWidth.wf c -> FixedWidth.values_ c = map g (seq 0 n) -> FixedWidth.bits c = map ok (seq 0 n) ->
  length vs = n -> (forall i v, vs !! i = Some v -> v = RVal (inj (g i)) (ok i)) ->
  res_repr (ColResult (mk c)) (ToExpressionType cty) vs.
Proof.
  intros Hmk Hwf Hv Hb Hl Hvs. simpl.
  exists cty, (map (fun i => (inj (g i), ok i)) (seq 0 n)). split; [done|]. split.
  - apply Hmk; [done|]. rewrite Hv, Hb. clear. induction (seq 0 n) as [|i l IH]; [done|]. simpl. by rewrite IH.
  - rewrite map_map. rewrite <- Hl. apply list_eq_seq. intros i v Hi. by rewrite (Hvs i v Hi).
Qed.

(** ** The operators *)

Definition rv_int (vs : list RowVal) (i : nat) : Z :=
  match vs !! i with Some (RVal (VInt z) _) => z | _ => 0 end.
Definition rv_float (vs : list RowVal) (i : nat) : f32 :=
  match vs !! i with Some (RVal (VFloat f) _) => f | _ => f32_zero end.
Definition rv_valid (vs : list RowVal) (i : nat) : bool :=
  match vs !! i with Some (RVal _ b) | Some (RBool _ b) => b | None => false end.
Definition rv_bool (vs : list RowVal) (i : nat) : bool :=
  match vs !! i with Some (RBool b _) => b | _ => false end.

(** The operands of a binary operator and its rows. *)
Record operands (op : BinaryOperator) (at_ : ExpressionType) (n : nat) (tl tr : ExpressionType)
    (left right : EvaluationResult) (ls rs vs : list RowVal) : Prop := {
  od_left : res_repr left tl ls;
  od_right : res_repr right tr rs;
  od_len : length vs = n;
  od_llen : length ls = n;
  od_rlen : length rs = n;
  od_rows : forall i v, vs !! i = Some v ->
    exists a b, ls !! i = Some a /\ rs !! i = Some b /\ row_binary op at_ a b = Some v;
}.

Lemma BothValidAt_spec left right tl tr ls rs i a b va vb :
  res_repr left tl ls -> res_repr right tr rs ->
  ls !! i = Some (RVal a va) -> rs !! i = Some (RVal b vb) ->
  BothValidAt left right i = Ok (va && vb).
Proof.
  intros Hl Hr Hi Hj. unfold BothValidAt.
  destruct (res_repr_lookup_val _ _ _ _ _ _ Hl Hi) as [_ ->]. simpl.
  destruct va; [|done]. by destruct (res_repr_lookup_val _ _ _ _ _ _ Hr Hj) as [_ ->].
Qed.

Lemma op_rows_lt op at_ n tl tr left right ls rs vs i :
  operands op at_ n tl tr left right ls rs vs -> (i < n)%nat ->
  exists v a b, vs !! i = Some v /\ ls !! i = Some a /\ rs !! i = Some b /\ row_binary op at_ a b = Some v.
Proof.
  intros Hod Hi. destruct (lookup_lt_is_Some_2 vs i) as [v Hv]; [by rewrite (od_len _ _ _ _ _ _ _ _ _ _ Hod)|].
  destruct (od_rows _ _ _ _ _ _ _ _ _ _ Hod i v Hv) as (a & b & ? & ? & ?). eauto 10.
Qed.

Lemma row_binary_arith op at_ a b v :
  IsArithmeticOperator op = true -> row_binary op at_ a b = Some v ->
  exists x y va vb, a = RVal x va /\ b = RVal y vb /\ row_arith op at_ x y va vb = Some v.
Proof. unfold row_binary. intros ->. destruct a, b; try done. eauto 10. Qed.

Lemma EvaluateArithmeticInt_spec op at_ n tl tr left right ls rs vs :
  operands op at_ n tl tr left right ls rs vs ->
  IsArithmeticOperator op = true -> at_ <> ExprFloat -> tl = ExprInteger -> tr = ExprInteger ->
  exists res, EvaluateArithmeticInt op left right n = Ok res /\ res_repr res ExprInteger vs.
Proof.
  intros Hod Hop Hat -> ->. pose proof Hod as [Hl Hr Hlen _ _ _].
  assert (forall i, (i < n)%nat -> exists x y va vb z, ls !! i = Some (RVal (VInt x) va) /\
    rs !! i = Some (RVal (VInt y) vb) /\ ApplyIntArithmetic op x y = Ok z /\
    vs !! i = Some (RVal (VInt z) (va && vb && negb (bool_decide (op = kDivide) && (y =? 0)))) /\
    AsInt left i = Ok x /\ AsInt right i = Ok y /\ BothValidAt left right i = Ok (va && vb)) as Hrow.
  { intros i Hi. destruct (op_rows_lt _ _ _ _ _ _ _ _ _ _ i Hod Hi) as (v & a & b & Hv & Ha & Hb & Hrb).
    destruct (row_binary_arith op at_ a b v Hop Hrb) as (x & y & va & vb & -> & -> & Hra).
    unfold row_arith in Hra. rewrite decide_False in Hra by done.
    destruct x as [x| |], y as [y| |]; try done.
    destruct (ApplyIntArithmetic op x y) as [z| | |] eqn:Ez; try done. simpl in Hra. injection Hra as <-.
    exists x, y, va, vb, z. split_and!; try done; [by eapply res_repr_int|by eapply res_repr_int|].
    by eapply BothValidAt_spec. }
  unfold EvaluateArithmeticInt.
  rewrite (for_range_ext 0 n _ (fun i res => v ← Ok (rv_int vs i); FixedWidth.Append res v)).
  2: { intros i res Hi. destruct (Hrow i) as (x & y & va & vb & z & _ & _ & Hz & Hv & -> & -> & _); [lia|].
       simpl. rewrite Hz. unfold rv_int. by rewrite Hv. }
  destruct (append_loop_spec n (fun i => Ok (rv_int vs i)) (rv_int vs)) as (c & -> & Hwf & Hc & Hb); [done|].
  rewrite bind_Ok.
  rewrite (for_range_ext 0 n _ (fun i res => null ← Ok (negb (rv_valid vs i));
    if null : bool then FixedWidth.SetNull res i true else mret res)).
  2: { intros i res Hi. destruct (Hrow i) as (x & y & va & vb & z & _ & _ & Hz & Hv & _ & Hy & ->); [lia|].
       unfold rv_valid. rewrite Hv. simpl. destruct (bool_decide (op = kDivide)); simpl; rewrite ?Hy; simpl;
         by destruct (va && vb), (y =? 0). }
  destruct (null_loop_spec n (fun i => Ok (negb (rv_valid vs i))) (rv_valid vs) c) as (c' & -> & Hwf' & Hc' & Hb');
    [done|done|by unfold FixedWidth.Size; rewrite Hc, length_map, length_seq|done|].
  rewrite bind_Ok. eexists. split; [done|].
  apply (two_pass_repr VInt IntCol kInteger n (rv_int vs) (rv_valid vs)); try done; [by rewrite Hc'|].
  intros i v Hi. destruct (Hrow i) as (x & y & va & vb & z & _ & _ & _ & Hv & _).
  { rewrite <- Hlen. by eapply lookup_lt_Some. }
  unfold rv_int, rv_valid. rewrite Hi in *. by injection Hv as ->.
Qed.

Lemma EvaluateArithmeticFloat_spec op n tl tr left right ls rs vs :
  operands op ExprFloat n tl tr left right ls rs vs ->
  IsArithmeticOperator op = true ->
  exists res, EvaluateArithmeticFloat op left right n = Ok res /\ res_repr res ExprFloat vs.
Proof.
  intros Hod Hop. pose proof Hod as [Hl Hr Hlen _ _ _].
  assert (forall i, (i < n)%nat -> exists va vb x y,
    vs !! i = Some (RVal (VFloat (ApplyFloatArithmetic op x y)) (va && vb)) /\
    AsFloat left i = Ok x /\ AsFloat right i = Ok y /\ BothValidAt left right i = Ok (va && vb)) as Hrow.
  { intros i Hi. destruct (op_rows_lt _ _ _ _ _ _ _ _ _ _ i Hod Hi) as (v & a & b & Hv & Ha & Hb & Hrb).
    destruct (row_binary_arith op ExprFloat a b v Hop Hrb) as (x & y & va & vb & -> & -> & Hra).
    unfold row_arith in Hra. rewrite decide_True in Hra by done.
    destruct (as_float x) as [fx|] eqn:Ex; [|done]. destruct (as_float y) as [fy|] eqn:Ey; [|done].
    simpl in Hra. injection Hra as <-. exists va, vb, fx, fy.
    split_and!; [done|by eapply res_repr_float|by eapply res_repr_float|by eapply BothValidAt_spec]. }
  unfold EvaluateArithmeticFloat.
  rewrite (for_range_ext 0 n _ (fun i res => v ← Ok (rv_float vs i); FixedWidth.Append res v)).
  2: { intros i res Hi. destruct (Hrow i) as (va & vb & x & y & Hv & -> & -> & _); [lia|].
       simpl. unfold rv_float. by rewrite Hv. }
  destruct (append_loop_spec n (fun i => Ok (rv_float vs i)) (rv_float vs)) as (c & -> & Hwf & Hc & Hb); [done|].
  rewrite bind_Ok.
  rewrite (for_range_ext 0 n _ (fun i res => null ← Ok (negb (rv_valid vs i));
    if null : bool then FixedWidth.SetNull res i true else mret res)).
  2: { intros i res Hi. destruct (Hrow i) as (va & vb & x & y & Hv & _ & _ & ->); [lia|].
       unfold rv_valid. by rewrite Hv. }
  destruct (null_loop_spec n (fun i => Ok (negb (rv_valid vs i))) (rv_valid vs) c) as (c' & -> & Hwf' & Hc' & Hb');
    [done|done|by unfold FixedWidth.Size; rewrite Hc, length_map, length_seq|done|].
  rewrite bind_Ok. eexists. split; [done|].
  apply (two_pass_repr VFloat FloatCol kFloat n (rv_float vs) (rv_valid vs)); try done; [by rewrite Hc'|].
  intros i v Hi. destruct (Hrow i) as (va & vb & x & y & Hv & _).
  { rewrite <- Hlen. by eapply lookup_lt_Some. }
  unfold rv_float, rv_valid. rewrite Hi in *. by injection Hv as ->.
Qed.

(** A pair of filled bitmaps represents the rows they were filled from. *)
Lemma bool_repr n values validity (vs : list RowVal) :
  length vs = n -> bm_wf values -> bm_wf validity -> num_rows_ values = n -> num_rows_ validity = n ->
  bm_view values = map (rv_bool vs) (seq 0 n) -> bm_view validity = map (rv_valid vs) (seq 0 n) ->
  (forall i v, vs !! i = Some v -> exists b w, v = RBool b w) ->
  res_repr (BooleanResult values validity) ExprBoolean vs.
Proof.
  intros Hl H1 H2 H3 H4 H5 H6 Hvs. simpl. split_and!; [done|done|done|congruence|congruence|].
  rewrite H5, H6. assert (zip_with RBool (map (rv_bool vs) (seq 0 n)) (map (rv_valid vs) (seq 0 n)) =
    map (fun i => RBool (rv_bool vs i) (rv_valid vs i)) (seq 0 n)) as ->.
  { clear. induction (seq 0 n) as [|i l IH]; [done|]. simpl. by rewrite IH. }
  rewrite <- Hl. apply list_eq_seq. intros i v Hi. destruct (Hvs i v Hi) as (b & w & ->).
  unfold rv_bool, rv_valid. by rewrite Hi.
Qed.

Lemma IsFloatResult_type res ty rvs : res_repr res ty rvs -> IsFloatResult res = bool_decide (ty = ExprFloat).
Proof.
  destruct res as [c|]; simpl; [|by intros (-> & _)].
  intros (cty & rs & -> & Hr & _). by destruct c; destruct Hr as (-> & _).
Qed.

Lemma CompareRow_numeric op left right ty ls i :
  res_repr left ty ls -> ty <> ExprVarchar ->
  CompareRow op left right i =
  if IsFloatResult left || IsFloatResult right then
    l ← AsFloat left i; r ← AsFloat right i; mret (compare_float op l r)
  else l ← AsInt left i; r ← AsInt right i; mret (compare_int op l r).
Proof.
  intros Hl Hty. destruct left as [[c|c|c]|lv ld]; try done.
  destruct Hl as (cty & rs & -> & [-> _] & _). done.
Qed.

Lemma CompareRow_spec op left right tl tr ls rs i a b va vb c :
  res_repr left tl ls -> res_repr right tr rs ->
  ls !! i = Some (RVal a va) -> rs !! i = Some (RVal b vb) -> value_compare op a b = Some c ->
  CompareRow op left right i = Ok c.
Proof.
  intros Hl Hr Ha Hb Hc.
  destruct (res_repr_lookup_val _ _ _ _ _ _ Hl Ha) as [-> _].
  destruct (res_repr_lookup_val _ _ _ _ _ _ Hr Hb) as [-> _].
  pose proof (IsFloatResult_type _ _ _ Hl) as Hfl. pose proof (IsFloatResult_type _ _ _ Hr) as Hfr.
  destruct (decide (type_of a = kVarchar)) as [Hstr|Hnum].
  - destruct a as [x|x|x]; try done. destruct b as [y|y|y]; simpl in Hc; try done. injection Hc as <-.
    destruct (res_repr_string _ _ _ _ _ _ Hl Ha) as [(lc & ->) HS]. unfold CompareRow. rewrite HS, bind_Ok.
    destruct (res_repr_string _ _ _ _ _ _ Hr Hb) as [_ HS']. by rewrite HS'.
  - rewrite (CompareRow_numeric op left right _ ls i Hl) by by destruct a.
    rewrite Hfl, Hfr. destruct a as [x|x|x], b as [y|y|y]; simpl in Hc; try done; injection Hc as <-; simpl.
    + rewrite (res_repr_int _ _ _ _ _ Hl Ha), bind_Ok. by rewrite (res_repr_int _ _ _ _ _ Hr Hb).
    + rewrite (res_repr_float _ _ _ _ _ _ _ Hl Ha eq_refl), bind_Ok.
      by rewrite (res_repr_float _ _ _ _ _ _ _ Hr Hb eq_refl).
    + rewrite (res_repr_float _ _ _ _ _ _ _ Hl Ha eq_refl), bind_Ok.
      by rewrite (res_repr_float _ _ _ _ _ _ _ Hr Hb eq_refl).
    + rewrite (res_repr_float _ _ _ _ _ _ _ Hl Ha eq_refl), bind_Ok.
      by rewrite (res_repr_float _ _ _ _ _ _ _ Hr Hb eq_refl).
Qed.

Lemma row_binary_compare op at_ a b v :
  IsArithmeticOperator op = false -> IsLogicalOperator op = false -> row_binary op at_ a b = Some v ->
  exists x y va vb c, a = RVal x va /\ b = RVal y vb /\ value_compare op x y = Some c /\ v = RBool c (va && vb).
Proof.
  unfold row_binary. intros -> ->. destruct a as [x va|], b as [y vb|]; try done.
  destruct (value_compare op x y) as [c|] eqn:E; [|done]. intros [= <-]. eauto 10.
Qed.

Lemma EvaluateComparison_spec op at_ n tl tr left right ls rs vs :
  operands op at_ n tl tr left right ls rs vs ->
  IsArithmeticOperator op = false -> IsLogicalOperator op = false ->
  exists res, EvaluateComparison op left right n = Ok res /\ res_repr res ExprBoolean vs.
Proof.
  intros Hod Hop Hop'. pose proof Hod as [Hl Hr Hlen _ _ _].
  assert (forall i, (i < n)%nat -> exists c w, vs !! i = Some (RBool c w) /\
    CompareRow op left right i = Ok c /\ BothValidAt left right i = Ok w) as Hrow.
  { intros i Hi. destruct (op_rows_lt _ _ _ _ _ _ _ _ _ _ i Hod Hi) as (v & a & b & Hv & Ha & Hb & Hrb).
    destruct (row_binary_compare op at_ a b v Hop Hop' Hrb) as (x & y & va & vb & c & -> & -> & Hc & ->).
    exists c, (va && vb). split_and!; [done|by eapply CompareRow_spec|by eapply BothValidAt_spec]. }
  unfold EvaluateComparison.
  destruct (fill_bitmap_spec n (CompareRow op left right) (rv_bool vs)) as (bv & -> & Hv1 & Hv2 & Hv3).
  { intros i Hi. destruct (Hrow i Hi) as (c & w & Hv & -> & _). unfold rv_bool. by rewrite Hv. }
  destruct (fill_bitmap_spec n (BothValidAt left right) (rv_valid vs)) as (bd & -> & Hd1 & Hd2 & Hd3).
  { intros i Hi. destruct (Hrow i Hi) as (c & w & Hv & _ & ->). unfold rv_valid. by rewrite Hv. }
  simpl. eexists. split; [done|]. apply (bool_repr n); try done.
  intros i v Hi. destruct (Hrow i) as (c & w & Hv & _); [rewrite <- Hlen; by eapply lookup_lt_Some|].
  rewrite Hi in Hv. simplify_eq. eauto.
Qed.

Lemma res_repr_boolean res rvs :
  res_repr res ExprBoolean rvs -> exists values validity, res = BooleanResult values validity.
Proof.
  destruct res as [c|bv bd]; simpl; [|eauto]. intros (cty & rs & Hty & _). by destruct cty.
Qed.

Lemma EvaluateLogical_spec op at_ n lv ld rv rd ls rs vs :
  operands op at_ n ExprBoolean ExprBoolean (BooleanResult lv ld) (BooleanResult rv rd) ls rs vs ->
  IsArithmeticOperator op = false -> IsLogicalOperator op = true ->
  exists res, EvaluateLogical op lv ld rv rd n = Ok res /\ res_repr res ExprBoolean vs.
Proof.
  intros Hod Hop Hop'. pose proof Hod as [Hl Hr Hlen _ _ _].
  assert (forall i, (i < n)%nat -> exists a va b vb,
    vs !! i = Some (RBool (if bool_decide (op = kAnd) then a && b else a || b) (va && vb)) /\
    Bitmap.IsValid lv i = Ok a /\ Bitmap.IsValid rv i = Ok b /\
    Bitmap.IsValid ld i = Ok va /\ Bitmap.IsValid rd i = Ok vb) as Hrow.
  { intros i Hi. destruct (op_rows_lt _ _ _ _ _ _ _ _ _ _ i Hod Hi) as (v & a & b & Hv & Ha & Hb & Hrb).
    unfold row_binary in Hrb. rewrite Hop, Hop' in Hrb. destruct a as [|a va], b as [|b vb]; try done.
    injection Hrb as <-. exists a, va, b, vb.
    destruct (res_repr_lookup_bool _ _ _ _ _ _ Hl Ha) as (? & ? & [= <- <-] & H1 & H2).
    by destruct (res_repr_lookup_bool _ _ _ _ _ _ Hr Hb) as (? & ? & [= <- <-] & H3 & H4). }
  unfold EvaluateLogical.
  match goal with |- context [fill_bitmap n ?f ≫= _] => destruct (fill_bitmap_spec n f (rv_bool vs)) as (bv & -> & Hv1 & Hv2 & Hv3) end.
  { intros i Hi. destruct (Hrow i Hi) as (a & va & b & vb & Hv & -> & Hb & _). simpl. unfold rv_bool. rewrite Hv.
    destruct (bool_decide (op = kAnd)), a; simpl; by rewrite ?Hb. }
  rewrite bind_Ok.
  match goal with |- context [fill_bitmap n ?f ≫= _] => destruct (fill_bitmap_spec n f (rv_valid vs)) as (bd & -> & Hd1 & Hd2 & Hd3) end.
  { intros i Hi. destruct (Hrow i Hi) as (a & va & b & vb & Hv & _ & _ & -> & Hb). simpl. unfold rv_valid. rewrite Hv.
    destruct va; simpl; by rewrite ?Hb. }
  simpl. eexists. split; [done|]. apply (bool_repr n); try done.
  intros i v Hi. destruct (Hrow i) as (a & va & b & vb & Hv & _); [rewrite <- Hlen; by eapply lookup_lt_Some|].
  rewrite Hi in Hv. simplify_eq. eauto.
Qed.

Lemma EvaluateUnary_spec n operand os vs :
  res_repr operand ExprBoolean os -> length os = n -> length vs = n ->
  (forall i v, vs !! i = Some v -> exists b w, os !! i = Some (RBool b w) /\ v = RBool (negb b) w) ->
  exists res, EvaluateUnary operand n = Ok res /\ res_repr res ExprBoolean vs.
Proof.
  intros Ho Hlo Hlv Hvs. destruct (res_repr_boolean _ _ Ho) as (ov & od & ->).
  assert (forall i, (i < n)%nat -> exists b w, vs !! i = Some (RBool (negb b) w) /\
    Bitmap.IsValid ov i = Ok b /\ Bitmap.IsValid od i = Ok w) as Hrow.
  { intros i Hi. destruct (lookup_lt_is_Some_2 vs i) as [v Hv]; [by rewrite Hlv|].
    destruct (Hvs i v Hv) as (b & w & Hos & ->). exists b, w.
    by destruct (res_repr_lookup_bool _ _ _ _ _ _ Ho Hos) as (? & ? & [= <- <-] & H1 & H2). }
  unfold EvaluateUnary. simpl.
  match goal with |- context [fill_bitmap n ?f ≫= _] => destruct (fill_bitmap_spec n f (rv_bool vs)) as (bv & -> & Hv1 & Hv2 & Hv3) end.
  { intros i Hi. destruct (Hrow i Hi) as (b & w & Hv & -> & _). simpl. unfold rv_bool. by rewrite Hv. }
  rewrite bind_Ok.
  match goal with |- context [fill_bitmap n ?f ≫= _] => destruct (fill_bitmap_spec n f (rv_valid vs)) as (bd & -> & Hd1 & Hd2 & Hd3) end.
  { intros i Hi. destruct (Hrow i Hi) as (b & w & Hv & _ & ->). unfold rv_valid. by rewrite Hv. }
  simpl. eexists. split; [done|]. apply (bool_repr n); try done.
  intros i v Hi. destruct (Hvs i v Hi) as (b & w & _ & ->). eauto.
Qed.

Lemma EvaluateBinary_spec op at_ n tl tr ty left right ls rs vs :
  operands op at_ n tl tr left right ls rs vs -> infer_binary op at_ tl tr = Some ty ->
  exists res, EvaluateBinary op at_ left right n = Ok res /\ res_repr res ty vs.
Proof.
  intros Hod Hty. unfold infer_binary in Hty. unfold EvaluateBinary.
  destruct (IsArithmeticOperator op) eqn:Ha; [|destruct (IsLogicalOperator op) eqn:Hlo].
  - destruct (decide (at_ = ExprFloat)) as [->|Hne].
    + destruct (is_numeric tl && is_numeric tr); [|done]. injection Hty as <-. by eapply EvaluateArithmeticFloat_spec.
    + case_decide as Hd; [|done]. destruct Hd as (_ & Hl & Hr). injection Hty as <-.
      by eapply EvaluateArithmeticInt_spec.
  - case_decide as Hd; [|done]. destruct Hd as [-> ->]. injection Hty as <-.
    destruct (res_repr_boolean _ _ (od_left _ _ _ _ _ _ _ _ _ _ Hod)) as (lv & ld & ->).
    destruct (res_repr_boolean _ _ (od_right _ _ _ _ _ _ _ _ _ _ Hod)) as (rv & rd & ->).
    simpl. by eapply EvaluateLogical_spec.
  - assert (ty = ExprBoolean) as ->.
    { case_decide; [by injection Hty|]. destruct (is_numeric tl && is_numeric tr); by simplify_eq. }
    by eapply EvaluateComparison_spec.
Qed.

(** ** Columns and constants *)

Lemma str_size_take_le k rs : str_size (take k rs) <= str_size rs.
Proof.
  rewrite <- (take_drop k rs) at 2. rewrite str_size_app. pose proof (str_size_nonneg (drop k rs)). lia.
Qed.

Lemma str_size_norm ty rs : str_size (map (norm_raw ty) rs) <= str_size rs.
Proof. induction rs as [|r rs IH]; simpl; [lia|]. pose proof (str_len_norm ty r). lia. Qed.

(** Copying a prefix of a column row by row. *)
Lemma copy_loop_spec column ty rs :
  col_repr column ty rs ->
  exists c, for_range 0 (length rs) (fun i res => col_CopyRow res column i) (empty_column ty) = Ok c /\
    col_repr c ty (map (norm_raw ty) rs).
Proof.
  intros Hr.
  destruct (for_range_inv (fun i c => col_repr c ty (map (norm_raw ty) (take i rs)))
    (fun i res => col_CopyRow res column i) 0 (length rs) (empty_column ty)) as (c & HE & HI).
  - intros i c Hi Hc. destruct (lookup_lt_is_Some_2 rs i) as [r Hr_i]; [lia|].
    destruct (col_CopyRow_repr c column ty (map (norm_raw ty) (take i rs)) rs i r Hc Hr Hr_i) as (c' & HC & Hc').
    { pose proof (col_repr_fits_any _ _ _ Hr) as Hfit. unfold fits in *. rewrite str_size_app.
      pose proof (str_size_norm ty (take i rs)). pose proof (str_size_take_le (S i) rs) as Ht.
      rewrite (take_S_r _ _ _ Hr_i), str_size_app in Ht. lia. }
    exists c'. split; [done|]. by rewrite (take_S_r _ _ _ Hr_i), map_app.
  - simpl. apply empty_column_repr.
  - exists c. split; [done|]. simpl in HI. by rewrite take_ge in HI by lia.
Qed.

Lemma str_size_replicate n v b : str_size (replicate n (v, b)) = Z.of_nat n * str_len v.
Proof. induction n as [|n IH]; [done|]. simpl. rewrite IH. lia. Qed.

Lemma const_loop_spec v n :
  Z.of_nat n * str_len v < 2 ^ 31 ->
  exists c, for_range 0 n (fun _ res => col_Append res v) (empty_column (type_of v)) = Ok c /\
    col_repr c (type_of v) (replicate n (v, true)).
Proof.
  intros Hfit.
  destruct (for_range_inv (fun i c => col_repr c (type_of v) (replicate i (v, true)))
    (fun _ res => col_Append res v) 0 n (empty_column (type_of v))) as (c & HE & HI); [| |by exists c].
  - intros i c Hi Hc.
    destruct (col_Append_repr c (type_of v) (replicate i (v, true)) v Hc) as (c' & HA & Hc'); [done| |].
    { unfold fits. rewrite <- replicate_S_end, str_size_replicate. pose proof (str_len_nonneg v). nia. }
    exists c'. split; [done|]. by rewrite replicate_S_end.
  - simpl. apply empty_column_repr.
Qed.

(** Every string constant, repeated for every row, fits a VARCHAR column. *)
Fixpoint consts_fit (n : nat) (e : BoundExpression) : Prop :=
  match e with
  | BoundColumnRef _ _ _ => True
  | ConstNode v => Z.of_nat n * str_len v < 2 ^ 31
  | BinaryOpNode _ l r _ => consts_fit n l /\ consts_fit n r
  | UnaryOpNode _ e => consts_fit n e
  end.

(** ** The evaluator implements the row-wise semantics *)

(** The rows of a result that has one value per row. *)
Lemma map_rows_eq {A B} (f : A -> B) (xs : list A) (vs : list B) :
  length vs = length xs -> (forall i v x, vs !! i = Some v -> xs !! i = Some x -> f x = v) -> vs = map f xs.
Proof.
  intros Hl Hv. symmetry. apply list_eq. intros i. rewrite list_lookup_fmap. destruct (vs !! i) as [v|] eqn:Hi.
  - destruct (lookup_lt_is_Some_2 xs i) as [x Hx]; [apply lookup_lt_Some in Hi; lia|]. rewrite Hx. simpl. f_equal. eauto.
  - apply lookup_ge_None in Hi. by rewrite (proj2 (lookup_ge_None xs i)) by lia.
Qed.

Lemma EvaluateColumnRef_spec chunk cols sel tid ord cty ty vs :
  chunk_repr chunk cols sel -> infer cols.*1 (BoundColumnRef tid ord cty) = Some ty -> length vs = length sel ->
  (forall i v, vs !! i = Some v -> row_eval (BoundColumnRef tid ord cty) (raw_row cols i) = Some v) ->
  exists res, EvaluateExpr (BoundColumnRef tid ord cty) chunk = Ok res /\ res_repr res ty vs.
Proof.
  intros [Hrows _ _ _ Hcols] Hty Hlen Hvs. simpl in *.
  unfold EvaluateColumnRef, chunk_Column. destruct (cols.*1 !! Z.to_nat ord) as [ty'|] eqn:Et; [|done].
  case_decide as Heq; [|done]. subst ty'. injection Hty as <-.
  rewrite list_lookup_fmap in Et. destruct (cols !! Z.to_nat ord) as [[cty' rs]|] eqn:Ec; [|done].
  simpl in Et. injection Et as ->.
  destruct (columns_repr_lookup_r _ _ _ _ _ _ Hcols Ec) as (c & Hc & Hr & Hl).
  rewrite (proj2 (vec_get_Ok _ _ _) Hc), bind_Ok, (col_repr_length _ _ _ Hr), (col_repr_type _ _ _ Hr).
  destruct (copy_loop_spec c cty rs Hr) as (c' & -> & Hr'). simpl. eexists. split; [done|].
  exists cty, (map (norm_raw cty) rs). split_and!; [done..|].
  rewrite map_map. apply map_rows_eq; [congruence|]. intros i v rw Hi Hrw.
  specialize (Hvs i v Hi). rewrite (raw_row_lookup _ _ _ _ _ Ec), Hrw in Hvs. simpl in *. by injection Hvs as <-.
Qed.

Lemma EvaluateConst_spec chunk cols sel value ty vs :
  chunk_repr chunk cols sel -> infer cols.*1 (ConstNode value) = Some ty -> consts_fit (length sel) (ConstNode value) ->
  length vs = length sel -> (forall i v, vs !! i = Some v -> row_eval (ConstNode value) (raw_row cols i) = Some v) ->
  exists res, EvaluateExpr (ConstNode value) chunk = Ok res /\ res_repr res ty vs.
Proof.
  intros [Hrows _ _ _ _] [= <-] Hfit Hlen Hvs. simpl in *. unfold EvaluateConst. rewrite Hrows.
  destruct (const_loop_spec value (length sel) Hfit) as (c & -> & Hr). simpl. eexists. split; [done|].
  exists (type_of value), (replicate (length sel) (value, true)). split_and!; [done..|].
  apply map_rows_eq; [by rewrite length_replicate|]. intros i v x Hi [-> _]%lookup_replicate. by injection (Hvs i v Hi).
Qed.

Lemma EvaluateExpr_spec chunk cols sel e ty vs :
  chunk_repr chunk cols sel -> infer cols.*1 e = Some ty -> consts_fit (length sel) e ->
  length vs = length sel ->
  (forall i v, vs !! i = Some v -> row_eval e (raw_row cols i) = Some v) ->
  exists res, EvaluateExpr e chunk = Ok res /\ res_repr res ty vs.
Proof.
  intros Hch. pose proof Hch as [Hrows _ _ _ _].
  revert ty vs. induction e as [tid ord cty|v|op l IHl r IHr at_|[] e IH]; intros ty vs Hty Hfit Hlen Hvs; simpl in *.
  - by apply (EvaluateColumnRef_spec chunk cols sel tid ord cty).
  - by apply (EvaluateConst_spec chunk cols sel).
  - destruct (infer cols.*1 l) as [tl|] eqn:El; [|done]. destruct (infer cols.*1 r) as [tr|] eqn:Er; [|done].
    simpl in Hty. destruct Hfit as [Hfl Hfr].
    assert (forall i, (i < length sel)%nat -> exists a b v, row_eval l (raw_row cols i) = Some a /\
      row_eval r (raw_row cols i) = Some b /\ row_binary op at_ a b = Some v /\ vs !! i = Some v) as Hrow.
    { intros i Hi. destruct (lookup_lt_is_Some_2 vs i) as [v Hv]; [lia|]. specialize (Hvs i v Hv).
      destruct (row_eval l _) as [a|] eqn:Ea; [|done]. destruct (row_eval r _) as [b|] eqn:Eb; [|done].
      simpl in Hvs. eauto 10. }
    destruct (list_choice (fun i a => row_eval l (raw_row cols i) = Some a) (length sel)) as (ls & Hll & Hls).
    { intros i Hi. destruct (Hrow i Hi) as (a & _ & _ & Ha & _). eauto. }
    destruct (list_choice (fun i b => row_eval r (raw_row cols i) = Some b) (length sel)) as (rs & Hrl & Hrs).
    { intros i Hi. destruct (Hrow i Hi) as (_ & b & _ & _ & Hb & _). eauto. }
    destruct (IHl tl ls eq_refl Hfl Hll Hls) as (left & -> & Hleft).
    destruct (IHr tr rs eq_refl Hfr Hrl Hrs) as (right & -> & Hright). simpl. rewrite Hrows.
    eapply EvaluateBinary_spec; [|exact Hty]. split; try done.
    intros i v Hv. assert (i < length sel)%nat as Hi by (rewrite <- Hlen; by eapply lookup_lt_Some).
    destruct (Hrow i Hi) as (a & b & v' & Ha & Hb & Hab & Hv'). simplify_eq.
    destruct (lookup_lt_is_Some_2 ls i) as [a' Ha']; [lia|]. destruct (lookup_lt_is_Some_2 rs i) as [b' Hb']; [lia|].
    exists a', b'. split_and!; [done..|]. apply Hls in Ha'. apply Hrs in Hb'. congruence.
  - destruct (infer cols.*1 e) as [te|] eqn:Ee; [|done]. simpl in Hty. case_decide as Hte; [|done].
    subst te. injection Hty as <-.
    destruct (list_choice (fun i a => row_eval e (raw_row cols i) = Some a) (length sel)) as (os & Hol & Hos).
    { intros i Hi. destruct (lookup_lt_is_Some_2 vs i) as [v Hv]; [lia|]. specialize (Hvs i v Hv).
      destruct (row_eval e _); [eauto|done]. }
    destruct (IH ExprBoolean os eq_refl Hfit Hol Hos) as (o & -> & Ho). rewrite bind_Ok, Hrows.
    apply (EvaluateUnary_spec _ _ os); try done.
    intros i v Hv. specialize (Hvs i v Hv).
    destruct (lookup_lt_is_Some_2 os i) as [a Ha]; [apply lookup_lt_Some in Hv; lia|].
    rewrite (Hos i a Ha) in Hvs. destruct a as [|b w]; [done|]. injection Hvs as <-. eauto.
Qed.

(** Reading one row of a result, as its consumers do. *)
Definition read_result (res : EvaluationResult) (i : nat) : result SqlVal :=
  match res with
  | ColResult c =>
      n ← col_IsNull c i;
      if n : bool then mret (SqlValue None) else (v ← col_GetValue c i; mret (SqlValue (Some v)))
  | BooleanResult values validity =>
      valid ← Bitmap.IsValid validity i;
      if valid : bool then (b ← Bitmap.IsValid values i; mret (SqlBool (Some b))) else mret (SqlBool None)
  end.

Lemma read_result_spec res ty rvs i v :
  res_repr res ty rvs -> rvs !! i = Some v -> read_result res i = Ok (mask_row v).
Proof.
  intros Hr Hi. destruct v as [v b|v b].
  - destruct res as [c|bv bd]; simpl in Hr.
    2: { destruct Hr as (_ & _ & _ & _ & _ & ->). by apply lookup_zip_with_Some in Hi as (x & y & ? & _). }
    destruct Hr as (cty & rs & -> & Hr & ->). rewrite list_lookup_fmap in Hi.
    destruct (rs !! i) as [[x y]|] eqn:E; [|done]. injection Hi as -> ->.
    destruct (col_repr_lookup c cty rs i v b Hr E) as (_ & HG & HN & _). simpl. rewrite HN. simpl.
    destruct b; simpl; [by rewrite HG|done].
  - destruct (res_repr_lookup_bool _ _ _ _ _ _ Hr Hi) as (bv & bd & -> & HV & HD). simpl. rewrite HD.
    destruct b; simpl; [by rewrite HV|done].
Qed.

(** Every row's arithmetic stays within [int32]. *)
Definition rows_safe (e : BoundExpression) (cols : list colspec) (n : nat) : Prop :=
  forall i, (i < n)%nat -> is_Some (row_eval e (raw_row cols i)).

Lemma Evaluate_spec chunk cols sel e ty :
  chunk_repr chunk cols sel -> infer cols.*1 e = Some ty -> consts_fit (length sel) e ->
  rows_safe e cols (length sel) ->
  exists res vs, Evaluate e chunk = Ok res /\ res_repr res ty vs /\ length vs = length sel /\
    forall i v, vs !! i = Some v -> row_eval e (raw_row cols i) = Some v.
Proof.
  intros Hch Hty Hfit Hsafe.
  destruct (list_choice (fun i v => row_eval e (raw_row cols i) = Some v) (length sel)) as (vs & Hl & Hvs); [done|].
  destruct (EvaluateExpr_spec chunk cols sel e ty vs Hch Hty Hfit Hl Hvs) as (res & HE & Hr). eauto 10.
Qed.

(** C11. The vectorized evaluator implements row-wise SQL semantics: on a chunk of typed
    columns, evaluating a well-typed expression whose integer arithmetic does not
    overflow returns, without throwing, a result of the expression's [ResultType]
    whose every row is the value of the expression on the nullable values of that
    row (nulls propagate, an integer division by zero is null). *)
Theorem Evaluate_correct chunk cols sel e ty :
  chunk_repr chunk cols sel -> infer cols.*1 e = Some ty -> consts_fit (length sel) e ->
  rows_safe e cols (length sel) ->
  ResultType e = ty /\
  exists res, Evaluate e chunk = Ok res /\
    forall i, (i < length sel)%nat ->
      exists v, read_result res i = Ok v /\ sql_eval e (cell_row cols i) = Some v.
Proof.
  intros Hch Hty Hfit Hsafe. split; [by apply (infer_ResultType cols.*1)|].
  destruct (Evaluate_spec chunk cols sel e ty Hch Hty Hfit Hsafe) as (res & vs & HE & Hr & Hl & Hvs).
  exists res. split; [done|]. intros i Hi. destruct (lookup_lt_is_Some_2 vs i) as [v Hv]; [lia|].
  exists (mask_row v). split; [by eapply read_result_spec|]. apply sql_eval_mask. by apply Hvs.
Qed.

(** ** The theorem at a concrete chunk *)

(** An INTEGER column of a row 5 and a null row, and the expression [10 / column]. *)
Definition two_rows : list colspec := [(kInteger, [(VInt 5, true); (VInt 0, false)])].
Definition ten_over : BoundExpression := BinaryOpNode kDivide (ConstNode (VInt 10)) (BoundColumnRef 0 0 kInteger) ExprInteger.

Lemma two_rows_fragment : Forall (fragment_ok 2) two_rows.
Proof.
  constructor; [|constructor]. split_and!; [done| |by vm_compute].
  constructor; [by split|]. constructor; [by split|constructor].
Qed.

Lemma ten_over_safe : rows_safe ten_over two_rows 2.
Proof. intros [|[|i]] Hi; [by eexists|by eexists|lia]. Qed.

Lemma Evaluate_correct_witness :
  exists chunk res, chunk_repr chunk two_rows [true; true] /\ Evaluate ten_over chunk = Ok res /\
    read_result res 0 = Ok (SqlValue (Some (VInt 2))) /\ read_result res 1 = Ok (SqlValue None).
Proof.
  destruct (chunk_exists two_rows 2 ltac:(lia) two_rows_fragment) as [chunk Hch]. exists chunk.
  assert (consts_fit 2 ten_over) as Hfit by (split_and!; done).
  destruct (Evaluate_correct chunk two_rows [true; true] ten_over ExprInteger Hch eq_refl Hfit ten_over_safe)
    as (_ & res & HE & Hrow).
  destruct (Hrow 0%nat ltac:(simpl; lia)) as (v0 & H0 & E0). destruct (Hrow 1%nat ltac:(simpl; lia)) as (v1 & H1 & E1).
  injection E0 as <-. injection E1 as <-. exists res. split_and!; [exact Hch|exact HE|exact H0|exact H1].
Defined.
