(* ===== verification/Operators.v ===== *)
(** The [Operator] interface of [include/gistdb/execution/operator.hpp] as a typeclass, what
    a client may assume of an operator ([delivers]: the finite stream of chunks
    its [GetNext] calls return), and the two streaming operators,
    [filter_operator.cpp] and [projection_operator.cpp], proved against it. *)

From S2P Require Import Prelude Scalar ByteIO Bitmap Columns Chunk Expr Eval.

(** [GetNext] on a state [S] of the operator, over a shared world [W] (the buffer pool
    and the disk). The fuel bounds the number of chunks an operator that drains its
    child pulls from it. *)
Class Operator (W S : Type) : Type := GetNext : nat -> S -> io W (option DataChunk * S).

(** ** Streams *)

Abbreviation chunkspec := (prod (list colspec) (list bool)) (only parsing).

(** The rows a stream of chunks delivers. *)
Definition rows_of (cs : list chunkspec) : list (list (option Value)) :=
  concat (map (fun c => live_rows c.1 c.2) cs).

Lemma rows_of_cons c cs : rows_of (c :: cs) = live_rows c.1 c.2 ++ rows_of cs.
Proof. done. Qed.

Section Delivers.
Context {W : Type} (inv : W -> Prop) {S : Type} `{Operator W S} (fuel : nat).

(** From any world where the invariant holds, [GetNext] returns the chunks [cs] one
    after the other and then none, and the invariant still holds. *)
Fixpoint delivers (s : S) (cs : list chunkspec) : Prop :=
  forall w, inv w ->
  match cs with
  | [] => exists s' w', GetNext fuel s w = (Ok (None, s'), w') /\ inv w'
  | c :: cs' => exists chunk s' w', GetNext fuel s w = (Ok (Some chunk, s'), w') /\ inv w' /\
      chunk_repr chunk c.1 c.2 /\ delivers s' cs'
  end.

End Delivers.

Lemma live_rows_take cols sel i :
  live_rows cols (take (S i) sel) = live_rows cols (take i sel) ++
    (if decide (sel !! i = Some true) then [cell_row cols i] else []).
Proof.
  unfold live_rows, selected. destruct (sel !! i) as [b|] eqn:Hb.
  - rewrite (take_S_r _ _ _ Hb), length_app, Nat.add_1_r, seq_S, filter_app, map_app. simpl length.
    pose proof (lookup_lt_Some _ _ _ Hb) as Hi. assert (length (take i sel) = i) as Hl by (rewrite length_take; lia).
    f_equal.
    + f_equal. apply filter_ext_in. intros j Hj%elem_of_seq. by rewrite lookup_app_l by lia.
    + rewrite Nat.add_0_l, Hl, filter_cons, list_lookup_middle by done.
      by destruct b.
  - rewrite decide_False by done. apply lookup_ge_None in Hb. by rewrite !take_ge, app_nil_r by lia.
Qed.

(** ** Draining a child *)

(** The loop of the operators that consume their whole input before they produce:
    [while (std::optional<DataChunk> chunk = child->GetNext()) consume( *chunk)]. *)
Fixpoint drain_child {W S St} `{Operator W S} (fuel n : nat) (consume : DataChunk -> St -> result St) (child : S) (st : St)
    : io W (S * St) :=
  match n with
  | O => io_lift OutOfFuel
  | Datatypes.S n' =>
      '(chunk, child) ← GetNext fuel child;
      match chunk with
      | None => mret (child, st)
      | Some chunk => st ← io_lift (consume chunk st); drain_child fuel n' consume child st
      end
  end.

(** A loop over the rows of a chunk that looks at the selected ones: an invariant on the rows
    seen so far, of all the rows there will be ([total]). *)
Lemma for_live_rows {St} (I : list (list (option Value)) -> St -> Prop) (body : nat -> St -> result St)
    chunk c done_ rest total st :
  chunk_repr chunk c.1 c.2 -> I done_ st -> done_ ++ live_rows c.1 c.2 ++ rest = total ->
  (forall i b dn st post, c.2 !! i = Some b -> I dn st ->
     dn ++ (if b : bool then [cell_row c.1 i] else []) ++ post = total ->
     exists st', body i st = Ok st' /\ I (dn ++ (if b : bool then [cell_row c.1 i] else [])) st') ->
  exists st', for_range 0 (chunk_rows_ chunk) body st = Ok st' /\ I (done_ ++ live_rows c.1 c.2) st'.
Proof.
  intros Hch Hst Htot Hbody. rewrite (cr_rows _ _ _ Hch).
  destruct (for_range_inv (fun i st => I (done_ ++ live_rows c.1 (take i c.2)) st) body 0 (length c.2) st)
    as (st' & HE & Hst'); [|by rewrite take_0, app_nil_r|].
  - intros i sti Hi Hsti. destruct (lookup_lt_is_Some_2 c.2 i) as [b Hb]; [lia|].
    assert (forall n, exists post, live_rows c.1 (take (n + S i) c.2) = live_rows c.1 (take (S i) c.2) ++ post) as Hpre.
    { induction n as [|n [post IH]]; [exists []; by rewrite app_nil_r|]. rewrite Nat.add_succ_l, live_rows_take, IH.
      eexists. by rewrite <- app_assoc. }
    destruct (Hpre (length c.2)) as [post Hpost]. rewrite take_ge, live_rows_take, Hb in Hpost by lia.
    assert ((if decide (Some b = Some true) then [cell_row c.1 i] else []) = if b then [cell_row c.1 i] else []) as Hb'
      by by destruct b.
    rewrite Hb' in Hpost.
    destruct (Hbody i b (done_ ++ live_rows c.1 (take i c.2)) sti (post ++ rest) Hb Hsti) as (st' & HE & Hst').
    { rewrite <- Htot, Hpost, <- !app_assoc. done. }
    exists st'. split; [done|]. by rewrite live_rows_take, Hb, Hb', app_assoc.
  - exists st'. split; [done|]. simpl in Hst'. by rewrite firstn_all in Hst'.
Qed.

Lemma drain_child_spec {W S St} (inv : W -> Prop) `{Operator W S} fuel (consume : DataChunk -> St -> result St)
    (I : list (list (option Value)) -> St -> Prop) cs n (child : S) st done_ total w :
  delivers inv fuel child cs -> (length cs < n)%nat -> inv w -> I done_ st -> done_ ++ rows_of cs = total ->
  (forall chunk c dn st rest, c ∈ cs -> chunk_repr chunk c.1 c.2 -> dn ++ live_rows c.1 c.2 ++ rest = total -> I dn st ->
     exists st', consume chunk st = Ok st' /\ I (dn ++ live_rows c.1 c.2) st') ->
  exists child' st' w', drain_child fuel n consume child st w = (Ok (child', st'), w') /\ inv w' /\ I total st'.
Proof.
  revert n child st done_ w. induction cs as [|c cs IH]; intros [|n] child st dn w Hd Hn Hw Hst Htot Hc;
    [simpl in Hn; lia| |simpl in Hn; lia|]; specialize (Hd w Hw); simpl in Hd.
  - destruct Hd as (s' & w' & HG & Hw'). exists s', st, w'. simpl. rewrite (io_bind_Ok _ _ _ _ _ HG).
    split_and!; [done|done|]. unfold rows_of in Htot. simpl in Htot. by rewrite app_nil_r in Htot; subst.
  - destruct Hd as (chunk & s' & w' & HG & Hw' & Hch & Hd). simpl. rewrite (io_bind_Ok _ _ _ _ _ HG).
    rewrite rows_of_cons in Htot.
    destruct (Hc chunk c dn st (rows_of cs)) as (st' & HB & Hst'); [by constructor|done|done|done|].
    erewrite io_bind_Ok; [|unfold io_lift; by rewrite HB].
    apply (IH n s' st' (dn ++ live_rows c.1 c.2) w'); [done|simpl in Hn; lia|done|done|by rewrite <- app_assoc|].
    intros. apply (Hc chunk0 c0 dn0 st0 rest); [by constructor|done..].
Qed.

(** ** [FilterOperator] *)

Section Filter.
Context {W S : Type} `{Operator W S}.

Record FilterOperator : Type := mk_filter { filter_child_ : S; predicate_ : BoundExpression }.

Definition filter_row (values validity : ValidityBitmap) (i : nat) (chunk : DataChunk) : result DataChunk :=
  selected ← IsRowSelected chunk i;
  passes ← (if selected : bool then
              v ← Bitmap.IsValid values i;
              if v : bool then Bitmap.IsValid validity i else mret false
            else mret false);
  SetRowSelected chunk i passes.

Definition filter_chunk (predicate : BoundExpression) (chunk : DataChunk) : result DataChunk :=
  predicate_result ← Evaluate predicate chunk;
  '(values, validity) ← get_boolean predicate_result;
  for_range 0 (chunk_rows_ chunk) (filter_row values validity) chunk.

#[global] Instance FilterOperator_op : Operator W FilterOperator := fun fuel op =>
  '(chunk, child) ← GetNext fuel (filter_child_ op);
  match chunk with
  | None => mret (None, mk_filter child (predicate_ op))
  | Some chunk =>
      chunk' ← io_lift (filter_chunk (predicate_ op) chunk);
      mret (Some chunk', mk_filter child (predicate_ op))
  end.

End Filter.
Arguments FilterOperator S : clear implicits.

(** ** [ProjectionOperator] *)

Section Projection.
Context {W S : Type} `{Operator W S}.

Record ProjectionOperator : Type := mk_projection {
  projection_child_ : S;
  expressions_ : list BoundExpression;
  last_batch_ : list EvaluationResult;
}.

Definition add_result (res : EvaluationResult) (output : DataChunk) : result DataChunk :=
  match res with
  | BooleanResult _ _ => Throw (RuntimeError
      "Projecting a bare boolean-valued expression is not yet supported -- no DataChunk column type or display format exists for it")
  | ColResult column => AddColumn output column
  end.

Definition evaluate_all (expressions : list BoundExpression) (input : DataChunk) : result (list EvaluationResult) :=
  for_each expressions (fun e batch => r ← Evaluate e input; mret (batch ++ [r])) [].

Definition copy_selection (input output : DataChunk) : result DataChunk :=
  for_range 0 (chunk_rows_ input)
    (fun row output => s ← IsRowSelected input row; SetRowSelected output row s) output.

Definition project_chunk (batch : list EvaluationResult) (input : DataChunk) : result DataChunk :=
  output ← new_chunk (chunk_rows_ input);
  output ← copy_selection input output;
  for_each batch add_result output.

#[global] Instance ProjectionOperator_op : Operator W ProjectionOperator := fun fuel op =>
  '(input, child) ← GetNext fuel (projection_child_ op);
  match input with
  | None => mret (None, mk_projection child (expressions_ op) (last_batch_ op))
  | Some input =>
      batch ← io_lift (evaluate_all (expressions_ op) input);
      output ← io_lift (project_chunk batch input);
      mret (Some output, mk_projection child (expressions_ op) batch)
  end.

End Projection.
Arguments ProjectionOperator S : clear implicits.

(** ** Filtering *)

Lemma filter_map {A B} (f : A -> B) (P : B -> Prop) `{!forall x, Decision (P x)} (l : list A) :
  filter P (map f l) = map f (filter (fun x => P (f x)) l).
Proof.
  induction l as [|x l IH]; [done|]. simpl. rewrite !filter_cons, IH.
  by destruct (decide (P (f x))).
Qed.

Definition passes (predicate : BoundExpression) (row : list (option Value)) : Prop :=
  sql_eval predicate row = Some (SqlBool (Some true)).
#[global] Instance SqlVal_eq_dec : EqDecision SqlVal.
Proof. solve_decision. Defined.
#[global] Instance passes_dec p row : Decision (passes p row).
Proof. unfold passes. apply _. Defined.

(** What the evaluator needs of a chunk to compute a predicate or a projection. *)
Definition evaluable (e : BoundExpression) (ty : ExpressionType) (c : chunkspec) : Prop :=
  infer c.1.*1 e = Some ty /\ consts_fit (length c.2) e /\ rows_safe e c.1 (length c.2).

Definition filtered (predicate : BoundExpression) (c : chunkspec) : chunkspec :=
  (c.1, map (fun i => bool_decide (c.2 !! i = Some true /\ passes predicate (cell_row c.1 i)))
            (seq 0 (length c.2))).

Lemma filter_chunk_spec predicate chunk c :
  chunk_repr chunk c.1 c.2 -> evaluable predicate ExprBoolean c ->
  exists chunk', filter_chunk predicate chunk = Ok chunk' /\
    chunk_repr chunk' (filtered predicate c).1 (filtered predicate c).2.
Proof.
  intros Hch (Hty & Hfit & Hsafe). pose proof Hch as [Hrows _ _ _ _].
  destruct (Evaluate_spec chunk c.1 c.2 predicate ExprBoolean Hch Hty Hfit Hsafe) as (res & vs & HE & Hr & Hl & Hvs).
  destruct (res_repr_boolean _ _ Hr) as (bv & bd & ->).
  unfold filter_chunk. rewrite HE, bind_Ok. simpl. rewrite Hrows.
  set (f := fun i => bool_decide (c.2 !! i = Some true /\ passes predicate (cell_row c.1 i))).
  destruct (for_range_inv (fun i chunk' => chunk_repr chunk' c.1 (map f (seq 0 i) ++ drop i c.2))
    (filter_row bv bd) 0 (length c.2) chunk) as (chunk' & HF & Hch').
  - intros i chunk' Hi Hch'. destruct (lookup_lt_is_Some_2 c.2 i) as [b Hb]; [lia|].
    assert ((map f (seq 0 i) ++ drop i c.2) !! i = Some b) as Hsel.
    { rewrite lookup_app_r, length_map, length_seq, Nat.sub_diag, lookup_drop, Nat.add_0_r; [done|].
      by rewrite length_map, length_seq. }
    destruct (lookup_lt_is_Some_2 vs i) as [v Hv]; [lia|].
    assert (exists x w, v = RBool x w /\ Bitmap.IsValid bv i = Ok x /\ Bitmap.IsValid bd i = Ok w) as (x & w & -> & HV & HD).
    { destruct v as [x w|x w]; [destruct Hr as (_ & _ & _ & _ & _ & ->);
        by apply lookup_zip_with_Some in Hv as (? & ? & ? & _)|].
      destruct (res_repr_lookup_bool _ _ _ _ _ _ Hr Hv) as (? & ? & [= <- <-] & ? & ?). eauto. }
    unfold filter_row. rewrite (IsRowSelected_repr _ _ _ _ _ Hch' Hsel), bind_Ok, HV, HD.
    assert (f i = b && x && w) as Hf.
    { assert (sql_eval predicate (cell_row c.1 i) = Some (SqlBool (if w then Some x else None))) as Hsql
        by exact (sql_eval_mask predicate (raw_row c.1 i) (RBool x w) (Hvs i _ Hv)).
      unfold f. destruct (b && x && w) eqn:E.
      - apply bool_decide_true. destruct b, x, w; done.
      - apply bool_decide_false. unfold passes. rewrite Hsql, Hb. intros [Hb1 Hp].
        destruct b, x, w; simpl in *; congruence. }
    assert (((if b then v ← Ok x; if v : bool then Ok w else mret false else mret false) : result bool) = Ok (b && x && w)) as ->
      by by destruct b, x.
    rewrite bind_Ok, <- Hf.
    destruct (SetRowSelected_repr chunk' _ _ i (f i) Hch') as (chunk'' & HS & Hch'' & _).
    { rewrite length_app, length_map, length_seq, length_drop. lia. }
    exists chunk''. split; [done|]. rewrite map_seq_S, <- app_assoc. simpl.
    rewrite (drop_S _ _ _ Hb) in Hch''. rewrite insert_app_r_alt in Hch'' by by rewrite length_map, length_seq.
    by rewrite length_map, length_seq, Nat.sub_diag in Hch''.
  - done.
  - exists chunk'. split; [done|]. simpl in *. by rewrite drop_all, app_nil_r in Hch'.
Qed.

Lemma live_rows_filtered predicate c :
  live_rows (filtered predicate c).1 (filtered predicate c).2 =
  filter (passes predicate) (live_rows c.1 c.2).
Proof.
  unfold live_rows, selected, filtered. simpl. rewrite length_map, length_seq.
  rewrite filter_map, list_filter_filter. f_equal.
  apply filter_ext_in. intros i Hi%elem_of_seq. rewrite map_seq_lookup by lia. simpl.
  split.
  - intros [= [? ?]%bool_decide_eq_true]. done.
  - intros [? ?]. f_equal. by apply bool_decide_eq_true.
Qed.

(** ** Projecting *)

(** The value of a non-boolean expression on a row. *)
Definition eval_cell (e : BoundExpression) (row : list (option Value)) : option Value :=
  match sql_eval e row with Some (SqlValue v) => v | _ => None end.

Definition project_row (es : list BoundExpression) (row : list (option Value)) : list (option Value) :=
  map (fun e => eval_cell e row) es.

Definition raw_of (v : option RowVal) : Value * bool := match v with Some (RVal v b) => (v, b) | _ => no_raw end.

(** The column an expression computes over a chunk. *)
Definition projected_column (c : chunkspec) (p : BoundExpression * TypeId) : colspec :=
  (p.2, map (fun i => raw_of (row_eval p.1 (raw_row c.1 i))) (seq 0 (length c.2))).

Definition projected (ps : list (BoundExpression * TypeId)) (c : chunkspec) : chunkspec :=
  (map (projected_column c) ps, c.2).

Lemma projected_column_repr chunk c p :
  chunk_repr chunk c.1 c.2 -> evaluable p.1 (ToExpressionType p.2) c ->
  exists column, Evaluate p.1 chunk = Ok (ColResult column) /\
    col_repr column (projected_column c p).1 (projected_column c p).2.
Proof.
  intros Hch (Hty & Hfit & Hsafe).
  destruct (Evaluate_spec chunk c.1 c.2 p.1 _ Hch Hty Hfit Hsafe) as (res & vs & HE & Hr & Hl & Hvs).
  destruct res as [column|bv bd]; [|destruct Hr as [Hb _]; by destruct (ToExpressionType_not_bool p.2)].
  destruct Hr as (cty & rs & Hcty & Hcol & Hrs). apply ToExpressionType_inj in Hcty. subst cty.
  exists column. split; [done|]. unfold projected_column. simpl.
  assert (map (fun i => raw_of (row_eval p.1 (raw_row c.1 i))) (seq 0 (length c.2)) = rs) as ->; [|done].
  symmetry. rewrite <- Hl, Hrs, length_map. apply list_eq_seq. intros i [v b] Hi.
  rewrite (Hvs i (RVal v b)); [done|]. by rewrite Hrs, list_lookup_fmap, Hi.
Qed.

Lemma evaluate_all_spec chunk c ps :
  chunk_repr chunk c.1 c.2 -> Forall (fun p => evaluable p.1 (ToExpressionType p.2) c) ps ->
  exists cols, evaluate_all ps.*1 chunk = Ok (map ColResult cols) /\
    columns_repr cols (length c.2) (map (projected_column c) ps).
Proof.
  intros Hch Hps. unfold evaluate_all.
  destruct (for_each_inv (fun dn batch => exists cols, batch = map ColResult cols /\
      columns_repr cols (length c.2) (map (projected_column c) (take (length dn) ps)))
    (fun e batch => r ← Evaluate e chunk; mret (batch ++ [r])) ps.*1 []) as (batch & HE & cols & -> & Hcols).
  - intros dn e todo batch Heq (cols & -> & Hcols).
    assert (exists p, ps !! length dn = Some p /\ p.1 = e) as (p & Hp & <-).
    { assert (ps.*1 !! length dn = Some e) as Hl by (rewrite Heq; by apply list_lookup_middle).
      rewrite list_lookup_fmap in Hl. destruct (ps !! length dn) as [p|]; [|done].
      exists p. split; [done|]. by injection Hl. }
    destruct (projected_column_repr chunk c p Hch) as (column & -> & Hcol).
    { rewrite Forall_lookup in Hps. by eapply Hps. }
    simpl. eexists. split; [done|]. exists (cols ++ [column]). split; [by rewrite map_app|].
    rewrite length_app. simpl. rewrite Nat.add_1_r, (take_S_r _ _ _ Hp), map_app.
    apply Forall2_app; [done|]. constructor; [|done]. split; [done|].
    unfold projected_column. simpl. by rewrite length_map, length_seq.
  - exists []. split; [done|]. constructor.
  - exists cols. split; [done|]. by rewrite length_fmap, firstn_all in Hcols.
Qed.

Lemma copy_selection_spec input output c cols :
  chunk_repr input c.1 c.2 -> chunk_repr output cols (replicate (length c.2) true) ->
  exists output', copy_selection input output = Ok output' /\ chunk_repr output' cols c.2 /\
    chunk_columns_ output' = chunk_columns_ output.
Proof.
  intros Hin Hout. unfold copy_selection. pose proof Hin as [-> _ _ _ _].
  destruct (for_range_inv (fun i output' =>
      chunk_repr output' cols (take i c.2 ++ replicate (length c.2 - i) true) /\
      chunk_columns_ output' = chunk_columns_ output)
    (fun row output => s ← IsRowSelected input row; SetRowSelected output row s) 0 (length c.2) output)
    as (output' & HE & Hout' & Hcols).
  - intros i o Hi [Ho Hcols]. destruct (lookup_lt_is_Some_2 c.2 i) as [b Hb]; [lia|].
    rewrite (IsRowSelected_repr _ _ _ _ _ Hin Hb), bind_Ok.
    destruct (SetRowSelected_repr o _ _ i b Ho) as (o' & HS & Ho' & Hc').
    { rewrite length_app, length_take, length_replicate. lia. }
    exists o'. split; [done|]. split; [|congruence].
    rewrite insert_app_r_alt, length_take, Nat.min_l, Nat.sub_diag in Ho' by (rewrite ?length_take; lia).
    replace (length c.2 - i)%nat with (S (length c.2 - S i)) in Ho' by lia. simpl in Ho'.
    rewrite (take_S_r _ _ _ Hb), <- app_assoc. done.
  - split; [|done]. by rewrite Nat.sub_0_r.
  - exists output'. split_and!; [done| |done]. simpl in Hout'.
    by rewrite firstn_all, Nat.sub_diag, app_nil_r in Hout'.
Qed.

Lemma add_results_spec output sel cols specs base :
  chunk_repr output base sel -> columns_repr cols (length sel) specs ->
  exists output', for_each (map ColResult cols) add_result output = Ok output' /\
    chunk_repr output' (base ++ specs) sel.
Proof.
  revert output base specs. induction cols as [|col cols IH]; intros output base specs Hout Hcols.
  - inversion Hcols; subst. exists output. by rewrite app_nil_r.
  - inversion Hcols as [|? [ty rs] ? specs' [Hcol Hlen] Hcols']; subst. simpl.
    destruct (AddColumn_repr output base sel col ty rs Hout Hcol Hlen) as (o' & -> & Ho'). simpl.
    destruct (IH o' (base ++ [(ty, rs)]) specs' Ho' Hcols') as (o'' & -> & Ho'').
    exists o''. split; [done|]. by rewrite <- app_assoc in Ho''.
Qed.

Lemma project_chunk_spec chunk c ps :
  chunk_repr chunk c.1 c.2 -> Forall (fun p => evaluable p.1 (ToExpressionType p.2) c) ps ->
  exists batch output, evaluate_all ps.*1 chunk = Ok batch /\ project_chunk batch chunk = Ok output /\
    chunk_repr output (projected ps c).1 (projected ps c).2.
Proof.
  intros Hch Hps. destruct (evaluate_all_spec chunk c ps Hch Hps) as (cols & HE & Hcols).
  exists (map ColResult cols). unfold project_chunk. pose proof Hch as [-> Hsz _ _ _].
  destruct (new_chunk_repr (length c.2) Hsz) as (o1 & -> & Ho1 & Hc1). rewrite bind_Ok.
  destruct (copy_selection_spec chunk o1 c [] Hch Ho1) as (o2 & -> & Ho2 & Hc2). rewrite bind_Ok.
  destruct (add_results_spec o2 c.2 cols (map (projected_column c) ps) [] Ho2 Hcols) as (o3 & HA & Ho3). eauto.
Qed.

Lemma live_rows_projected ps c :
  Forall (fun p => evaluable p.1 (ToExpressionType p.2) c) ps ->
  live_rows (projected ps c).1 (projected ps c).2 = map (project_row ps.*1) (live_rows c.1 c.2).
Proof.
  intros Hps. unfold live_rows, projected. simpl. rewrite map_map. apply map_ext_in.
  intros i Hi%list_elem_of_In. unfold selected in Hi. apply list_elem_of_filter in Hi as [_ Hi%elem_of_seq].
  unfold cell_row at 1, raw_row. rewrite !map_map. unfold project_row.
  change (map (fun e => eval_cell e (cell_row c.1 i)) ps.*1) with (map (fun e => eval_cell e (cell_row c.1 i)) (map fst ps)).
  rewrite map_map. apply map_ext_in. intros [e ty] Hp%list_elem_of_In. simpl.
  rewrite Forall_forall in Hps. destruct (Hps _ Hp) as (Hty & Hfit & Hsafe). simpl in *.
  rewrite map_seq_lookup by lia. simpl. destruct (Hsafe i) as [v Hv]; [lia|]. rewrite Hv.
  unfold eval_cell, cell_row. rewrite (sql_eval_mask e _ v Hv).
  destruct v as [v b|b w]; simpl; [by destruct b|done].
Qed.

(** ** The streams of the operators *)

Section StreamingOperators.
Context {W : Type} (inv : W -> Prop) {S : Type} `{Operator W S} (fuel : nat).

Lemma filter_delivers child cs predicate :
  delivers inv fuel child cs -> Forall (evaluable predicate ExprBoolean) cs ->
  delivers inv fuel (mk_filter child predicate) (map (filtered predicate) cs).
Proof.
  intros Hd Hev. revert child Hd. induction Hev as [|c cs Hc Hev IH]; intros child Hd w Hw; specialize (Hd w Hw); simpl in *.
  - destruct Hd as (s' & w' & HG & Hw'). exists (mk_filter s' predicate), w'. split; [|done].
    unfold GetNext at 1, FilterOperator_op. simpl. by rewrite (io_bind_Ok _ _ _ _ _ HG).
  - destruct Hd as (chunk & s' & w' & HG & Hw' & Hch & Hd).
    destruct (filter_chunk_spec predicate chunk c Hch Hc) as (chunk' & HF & Hch').
    exists chunk', (mk_filter s' predicate), w'. split_and!; [|done|done|by apply IH].
    unfold GetNext at 1, FilterOperator_op. simpl. rewrite (io_bind_Ok _ _ _ _ _ HG).
    unfold mbind, io_bind, io_lift. by rewrite HF.
Qed.

Lemma rows_of_filtered cs predicate : rows_of (map (filtered predicate) cs) = filter (passes predicate) (rows_of cs).
Proof. induction cs as [|c cs IH]; [done|]. by rewrite map_cons, !rows_of_cons, live_rows_filtered, filter_app, IH. Qed.

Lemma projection_delivers child cs ps batch :
  delivers inv fuel child cs ->
  Forall (fun c => Forall (fun p => evaluable p.1 (ToExpressionType p.2) c) ps) cs ->
  delivers inv fuel (mk_projection child ps.*1 batch) (map (projected ps) cs).
Proof.
  intros Hd Hev. revert child batch Hd. induction Hev as [|c cs Hc Hev IH]; intros child batch Hd w Hw; specialize (Hd w Hw); simpl in *.
  - destruct Hd as (s' & w' & HG & Hw'). exists (mk_projection s' ps.*1 batch), w'. split; [|done].
    unfold GetNext at 1, ProjectionOperator_op. simpl. by rewrite (io_bind_Ok _ _ _ _ _ HG).
  - destruct Hd as (chunk & s' & w' & HG & Hw' & Hch & Hd).
    destruct (project_chunk_spec chunk c ps Hch Hc) as (batch' & output & HE & HP & Ho).
    exists output, (mk_projection s' ps.*1 batch'), w'. split_and!; [|done|done|by apply IH].
    unfold GetNext at 1, ProjectionOperator_op. simpl. rewrite (io_bind_Ok _ _ _ _ _ HG).
    unfold mbind, io_bind, io_lift. by rewrite HE, HP.
Qed.

Lemma rows_of_projected cs ps :
  Forall (fun c => Forall (fun p => evaluable p.1 (ToExpressionType p.2) c) ps) cs ->
  rows_of (map (projected ps) cs) = map (project_row ps.*1) (rows_of cs).
Proof.
  induction 1 as [|c cs Hc Hev IH]; [done|]. by rewrite map_cons, !rows_of_cons, live_rows_projected, map_app, IH.
Qed.

(** C26. [FilterOperator] selects the rows its predicate is true of: over any child that
    delivers chunks on which the predicate is a well-typed boolean expression that does
    not overflow, it delivers the same chunks with the selection narrowed, and the
    rows delivered are exactly those for which the predicate evaluates to true (not
    false, not null), in order. *)
Theorem FilterOperator_correct child cs predicate :
  delivers inv fuel child cs -> Forall (evaluable predicate ExprBoolean) cs ->
  delivers inv fuel (mk_filter child predicate) (map (filtered predicate) cs) /\
  rows_of (map (filtered predicate) cs) = filter (passes predicate) (rows_of cs).
Proof. intros Hd Hev. split; [by apply filter_delivers|apply rows_of_filtered]. Qed.

(** C27. [ProjectionOperator] computes its expressions: over any child that delivers chunks on
    which every expression is well typed, not boolean, and does not overflow, it delivers
    a chunk per input chunk with the same selection, and each row delivered is the
    expressions' values on the corresponding input row. *)
Theorem ProjectionOperator_correct child cs ps batch :
  delivers inv fuel child cs ->
  Forall (fun c => Forall (fun p => evaluable p.1 (ToExpressionType p.2) c) ps) cs ->
  delivers inv fuel (mk_projection child ps.*1 batch) (map (projected ps) cs) /\
  rows_of (map (projected ps) cs) = map (project_row ps.*1) (rows_of cs).
Proof. intros Hd Hev. split; [by apply projection_delivers|by apply rows_of_projected]. Qed.

End StreamingOperators.

(** ** An operator that replays chunks, and the theorems over it *)

#[global] Instance replay_op : Operator unit (list DataChunk) := fun _ chunks =>
  match chunks with
  | [] => mret (None, [])
  | chunk :: chunks' => mret (Some chunk, chunks')
  end.

Lemma replay_delivers fuel chunks cs :
  Forall2 (fun chunk c => chunk_repr chunk c.1 c.2) chunks cs -> delivers (fun _ : unit => True) fuel chunks cs.
Proof. induction 1 as [|chunk c chunks cs Hc _ IH]; intros [] _; do 2 eexists; eauto 10. Qed.

Definition is_five : BoundExpression := BinaryOpNode kEqual (BoundColumnRef 0 0 kInteger) (ConstNode (VInt 5)) ExprInteger.

Lemma two_rows_evaluable : evaluable is_five ExprBoolean (two_rows, [true; true]).
Proof. split; [done|]. split; [by split_and!|]. intros [|[|i]] Hi; [by eexists|by eexists|simpl in *; lia]. Qed.

Lemma ten_over_evaluable : evaluable ten_over ExprInteger (two_rows, [true; true]).
Proof. split; [done|]. split; [by split_and!|apply ten_over_safe]. Qed.

Lemma FilterOperator_correct_witness :
  exists chunk, chunk_repr chunk two_rows [true; true] /\
    delivers (fun _ : unit => True) 0 (mk_filter [chunk] is_five) [(two_rows, [true; false])].
Proof.
  destruct (chunk_exists two_rows 2 ltac:(lia) two_rows_fragment) as [chunk Hch]. exists chunk. split; [exact Hch|].
  apply (FilterOperator_correct (fun _ : unit => True) 0 [chunk] [(two_rows, [true; true])] is_five).
  - apply replay_delivers. by constructor.
  - constructor; [exact two_rows_evaluable|constructor].
Defined.

Lemma ProjectionOperator_correct_witness :
  exists chunk, chunk_repr chunk two_rows [true; true] /\
    delivers (fun _ : unit => True) 0 (mk_projection [chunk] [ten_over] [])
      [([(kInteger, [(VInt 2, true); (VInt 0, false)])], [true; true])].
Proof.
  destruct (chunk_exists two_rows 2 ltac:(lia) two_rows_fragment) as [chunk Hch]. exists chunk. split; [exact Hch|].
  apply (ProjectionOperator_correct (fun _ : unit => True) 0 [chunk] [(two_rows, [true; true])] [(ten_over, kInteger)] []).
  - apply replay_delivers. by constructor.
  - constructor; [|constructor]. constructor; [exact ten_over_evaluable|constructor].
Defined.
