(* ===== verification/HashJoin.v ===== *)
(** Model of [src/execution/hash_join_operator.cpp]. The build phase drains the build child
    into columns and a table from key bytes to build rows; each [GetNext] then emits
    up to [kVectorSize] joined rows from the current probe chunk, with a cursor that
    survives between calls. Proved to deliver exactly the rows of a nested-loop
    equi-join in which null keys match nothing. Key bytes are those of a
    little-endian machine. *)

From S2P Require Import Prelude Scalar ByteIO Bitmap Columns Chunk Rows Expr Eval Operators.

#[global] Instance byte_countable : Countable byte := inj_countable Byte.to_N Byte.of_N Byte.of_to_N.

(** The [std::string] of key bytes. *)
Abbreviation KeyBytes := (list byte) (only parsing).

Definition MakeEmptyColumns (types : list TypeId) : list ColumnStorage := map empty_column types.

Definition MakeEmptyColumnsLike (chunk : DataChunk) : list ColumnStorage :=
  map (fun column => empty_column (col_type column)) (chunk_columns_ chunk).

(** The bytes a non-null value contributes to the key: the value's representation, a
    VARCHAR's prefixed with its length. *)
Definition value_key_bytes (v : Value) : KeyBytes :=
  match v with
  | VInt z => le_bytes 4 (u32 z)
  | VFloat f => le_bytes 4 (f32_bits f)
  | VStr s => le_bytes 4 (u32 (Z.of_nat (String.length s))) ++ bytes_of_string s
  end.

Fixpoint compute_key (chunk : DataChunk) (key_ordinals : list nat) (row : nat) (key : KeyBytes)
    : result (option KeyBytes) :=
  match key_ordinals with
  | [] => mret (Some key)
  | ordinal :: key_ordinals' =>
      column ← chunk_Column chunk ordinal;
      is_null ← col_IsNull column row;
      if is_null : bool then mret None
      else
        value ← col_GetValue column row;
        compute_key chunk key_ordinals' row (key ++ value_key_bytes value)
  end.

Definition ComputeJoinKey (chunk : DataChunk) (key_ordinals : list nat) (row : nat) : result (option KeyBytes) :=
  compute_key chunk key_ordinals row [].

(** A build column of another type than the chunk's is left alone. *)
Definition AppendBuildRow (build_columns : list ColumnStorage) (chunk : DataChunk) (row : nat)
    : result (list ColumnStorage) :=
  update_each (fun c out_col =>
    in_col ← chunk_Column chunk c;
    if decide (col_type out_col = col_type in_col) then col_CopyRow out_col in_col row else mret out_col)
    build_columns.

(** [std::get<SType>(out)] throws when the types differ. *)
Definition AppendFromColumnStorage (out source : ColumnStorage) (row : nat) : result ColumnStorage :=
  if decide (col_type out = col_type source) then col_CopyRow out source row else Throw BadVariantAccess.

Definition AppendFromChunkColumn (out : ColumnStorage) (chunk : DataChunk) (ordinal row : nat) : result ColumnStorage :=
  column ← chunk_Column chunk ordinal; AppendFromColumnStorage out column row.

(** ** The build side *)

Record BuildTable : Type := mk_build {
  build_columns_ : list ColumnStorage;
  build_row_count_ : nat;
  hash_table_ : gmap (list byte) (list nat);
}.

Definition empty_build (types : list TypeId) : BuildTable := mk_build (MakeEmptyColumns types) 0 ∅.

(** [hash_table_[key].push_back(index)]. *)
Definition table_push (key : KeyBytes) (index : nat) (t : gmap (list byte) (list nat)) : gmap (list byte) (list nat) :=
  <[key := default [] (t !! key) ++ [index]]> t.

Definition build_row (key_ordinals : list nat) (chunk : DataChunk) (i : nat) (t : BuildTable) : result BuildTable :=
  selected ← IsRowSelected chunk i;
  if negb selected then mret t
  else
    key ← ComputeJoinKey chunk key_ordinals i;
    match key with
    | None => mret t
    | Some key =>
        let new_index := Z.to_nat (u32 (Z.of_nat (build_row_count_ t))) in
        columns ← AppendBuildRow (build_columns_ t) chunk i;
        mret (mk_build columns (S (build_row_count_ t)) (table_push key new_index (hash_table_ t)))
    end.

Definition build_chunk (key_ordinals : list nat) (chunk : DataChunk) (t : BuildTable) : result BuildTable :=
  for_range 0 (chunk_rows_ chunk) (build_row key_ordinals chunk) t.

(** ** The probe side *)

Record ProbeCursor : Type := mk_cursor {
  current_probe_row_ : nat;
  current_matches_ : list nat;
  current_match_index_ : nat;
}.

(** The inner loop: to the next probe row with a match left, or past the last row. *)
Fixpoint find_match (fuel : nat) (key_ordinals : list nat) (t : BuildTable) (chunk : DataChunk) (cur : ProbeCursor)
    : result ProbeCursor :=
  match fuel with
  | O => OutOfFuel
  | S fuel' =>
      let row := current_probe_row_ cur in
      if (row <? chunk_rows_ chunk)%nat && (length (current_matches_ cur) <=? current_match_index_ cur)%nat then
        let next := mk_cursor (S row) (current_matches_ cur) (current_match_index_ cur) in
        selected ← IsRowSelected chunk row;
        if negb selected then find_match fuel' key_ordinals t chunk next
        else
          key ← ComputeJoinKey chunk key_ordinals row;
          match key with
          | None => find_match fuel' key_ordinals t chunk next
          | Some key =>
              let matches := default [] (hash_table_ t !! key) in
              if bool_decide (matches = [])
              then find_match fuel' key_ordinals t chunk (mk_cursor (S row) matches 0)
              else find_match fuel' key_ordinals t chunk (mk_cursor row matches 0)
          end
      else mret cur
  end.

(** Every iteration moves the row or finds a match, which ends the loop. *)
Definition match_fuel (chunk : DataChunk) : nat := S (S (chunk_rows_ chunk)).

Record JoinOutput : Type := mk_output {
  current_output_build_ : list ColumnStorage;
  current_output_probe_ : list ColumnStorage;
  emitted : nat;
}.

Definition emit_row (t : BuildTable) (chunk : DataChunk) (cur : ProbeCursor) (out : JoinOutput) : result JoinOutput :=
  build_row ← vec_get (current_matches_ cur) (current_match_index_ cur);
  output_build ← update_each (fun c o =>
    source ← vec_get (build_columns_ t) c; AppendFromColumnStorage o source build_row) (current_output_build_ out);
  output_probe ← update_each (fun c o =>
    AppendFromChunkColumn o chunk c (current_probe_row_ cur)) (current_output_probe_ out);
  mret (mk_output output_build output_probe (S (emitted out))).

Definition next_match (cur : ProbeCursor) : ProbeCursor :=
  let index := S (current_match_index_ cur) in
  if (length (current_matches_ cur) <=? index)%nat then mk_cursor (S (current_probe_row_ cur)) [] 0
  else mk_cursor (current_probe_row_ cur) (current_matches_ cur) index.

(** The outer loop, with [room] = [kVectorSize - emitted] iterations left; the cursor is
    [None] when the probe chunk is exhausted and reset. *)
Fixpoint emit_rows (room : nat) (key_ordinals : list nat) (t : BuildTable) (chunk : DataChunk) (cur : ProbeCursor)
    (out : JoinOutput) : result (option ProbeCursor * JoinOutput) :=
  match room with
  | O => mret (Some cur, out)
  | S room' =>
      cur ← find_match (match_fuel chunk) key_ordinals t chunk cur;
      if (chunk_rows_ chunk <=? current_probe_row_ cur)%nat then mret (None, out)
      else
        out ← emit_row t chunk cur out;
        emit_rows room' key_ordinals t chunk (next_match cur) out
  end.

(** One output chunk from the current probe chunk. *)
Definition join_chunk (types : list TypeId) (key_ordinals : list nat) (t : BuildTable) (chunk : DataChunk)
    (cur : ProbeCursor) : result (option ProbeCursor * JoinOutput * DataChunk) :=
  '(cur', out) ← emit_rows (Z.to_nat kVectorSize) key_ordinals t chunk cur
    (mk_output (MakeEmptyColumns types) (MakeEmptyColumnsLike chunk) 0);
  output ← new_chunk (emitted out);
  output ← add_columns (current_output_build_ out) output;
  output ← add_columns (current_output_probe_ out) output;
  mret (cur', out, output).

(** ** The operator *)

Section HashJoin.
Context {W Sb Sp : Type} `{OpB : Operator W Sb} `{OpP : Operator W Sp}.

(** [built_] is [build_table_ <> None]; [current_probe_chunk_] carries its cursor. *)
Record HashJoinOperator : Type := mk_join {
  build_child_ : Sb;
  probe_child_ : Sp;
  build_key_ordinals_ : list nat;
  probe_key_ordinals_ : list nat;
  build_column_types_ : list TypeId;
  build_table_ : option BuildTable;
  current_probe_chunk_ : option (DataChunk * ProbeCursor);
}.

Definition new_join (build_child : Sb) (probe_child : Sp) (build_key_ordinals probe_key_ordinals : list nat)
    (build_column_types : list TypeId) : HashJoinOperator :=
  mk_join build_child probe_child build_key_ordinals probe_key_ordinals build_column_types None None.

Definition BuildPhase (fuel : nat) (op : HashJoinOperator) : io W HashJoinOperator :=
  '(child, t) ← drain_child fuel fuel (build_chunk (build_key_ordinals_ op)) (build_child_ op)
                  (empty_build (build_column_types_ op));
  mret (mk_join child (probe_child_ op) (build_key_ordinals_ op) (probe_key_ordinals_ op) (build_column_types_ op)
          (Some t) (current_probe_chunk_ op)).

Definition set_probe (child : Sp) (cursor : option (DataChunk * ProbeCursor)) (op : HashJoinOperator) : HashJoinOperator :=
  mk_join (build_child_ op) child (build_key_ordinals_ op) (probe_key_ordinals_ op) (build_column_types_ op)
    (build_table_ op) cursor.

Definition ProbeNext (fuel : nat) (t : BuildTable) (op : HashJoinOperator) : io W (option DataChunk * HashJoinOperator) :=
  '(current, child) ←
    match current_probe_chunk_ op with
    | Some current => mret (Some current, probe_child_ op)
    | None =>
        '(chunk, child) ← GetNext fuel (probe_child_ op);
        mret ((fun c => (c, mk_cursor 0 [] 0)) <$> chunk, child)
    end;
  match current with
  | None => mret (None, set_probe child None op)
  | Some (chunk, cur) =>
      '(cur', _, output) ← io_lift (join_chunk (build_column_types_ op) (probe_key_ordinals_ op) t chunk cur);
      mret (Some output, set_probe child ((fun c => (chunk, c)) <$> cur') op)
  end.

#[global] Instance HashJoinOperator_op : Operator W HashJoinOperator := fun fuel op =>
  op ← match build_table_ op with Some _ => mret op | None => BuildPhase fuel op end;
  match build_table_ op with
  | Some t => ProbeNext fuel t op
  | None => io_lift Undefined
  end.

End HashJoin.
Arguments HashJoinOperator Sb Sp : clear implicits.

(** ** The nested-loop join *)

(** The non-null values of the key columns of a row. *)
Definition key_values (ordinals : list nat) (row : list (option Value)) : option (list Value) :=
  mapM (fun o => cell_at row o) ordinals.

Definition keys_match (build_ordinals probe_ordinals : list nat) (b p : list (option Value)) : bool :=
  match key_values build_ordinals b, key_values probe_ordinals p with
  | Some kb, Some kp => bool_decide (kb = kp)
  | _, _ => false
  end.

(** For each probe row in order, the matching build rows in order: the build columns
    come first. *)
Definition nested_loop_join (build_ordinals probe_ordinals : list nat) (build probe : list (list (option Value)))
    : list (list (option Value)) :=
  concat (map (fun p => map (fun b => b ++ p)
    (filter (fun b => keys_match build_ordinals probe_ordinals b p = true) build)) probe).

(** ** Keys *)

(** Values as the C++ types have them, with strings far below the 2 GB that the offsets of
    an output column can address. *)
Definition value_ok (v : Value) : Prop :=
  match v with VInt z => is_i32 z | VFloat f => f32_ok f | VStr _ => str_len v < 2 ^ 21 end.
Definition row_ok (row : list (option Value)) : Prop := forall j v, row !! j = Some (Some v) -> value_ok v.

Definition key_bytes (vs : list Value) : KeyBytes := concat (map value_key_bytes vs).
Definition row_key (ordinals : list nat) (row : list (option Value)) : option KeyBytes :=
  key_bytes <$> key_values ordinals row.

Lemma le_bytes_inj n a b r r' :
  0 <= a < 2 ^ (8 * Z.of_nat n) -> 0 <= b < 2 ^ (8 * Z.of_nat n) ->
  le_bytes n a ++ r = le_bytes n b ++ r' -> a = b /\ r = r'.
Proof.
  intros Ha Hb H. apply app_inj_1 in H as [H ->]; [|by rewrite !length_le_bytes]. split; [|done].
  apply (f_equal le_value) in H. rewrite !le_value_bytes, !Z.mod_small in H by done. done.
Qed.

Lemma u32_inj_i32 a b : is_i32 a -> is_i32 b -> u32 a = u32 b -> a = b.
Proof. intros Ha Hb H. rewrite <- (i32_u32 a), <- (i32_u32 b), H; done. Qed.

Lemma bytes_of_string_inj s s' : bytes_of_string s = bytes_of_string s' -> s = s'.
Proof. intros H. by rewrite <- (string_of_bytes_of_string s), H, string_of_bytes_of_string. Qed.

(** Within a type, the bytes of a value tell where they end. *)
Lemma value_key_bytes_inj v v' r r' :
  type_of v = type_of v' -> value_ok v -> value_ok v' ->
  value_key_bytes v ++ r = value_key_bytes v' ++ r' -> v = v' /\ r = r'.
Proof.
  destruct v as [z|[f]|s], v' as [z'|[f']|s']; try done; simpl; intros _ Hv Hv' H.
  - apply le_bytes_inj in H as [H ->]; [|apply u32_range..]. split; [|done]. f_equal. by apply u32_inj_i32.
  - apply le_bytes_inj in H as [-> ->]; done.
  - rewrite <- !app_assoc in H. apply le_bytes_inj in H as [Hl H]; [|apply u32_range..].
    rewrite !u32_id in Hl by (unfold is_u32; lia).
    apply app_inj_1 in H as [Hs ->]; [|rewrite !length_bytes_of_string; lia].
    split; [|done]. f_equal. by apply bytes_of_string_inj.
Qed.

Lemma key_bytes_inj vs vs' :
  map type_of vs = map type_of vs' -> Forall value_ok vs -> Forall value_ok vs' ->
  key_bytes vs = key_bytes vs' -> vs = vs'.
Proof.
  revert vs'. induction vs as [|v vs IH]; intros [|v' vs'] Hty Hvs Hvs' H; try done.
  simpl in Hty. injection Hty as Hty Htys. inversion Hvs; subst. inversion Hvs'; subst.
  apply value_key_bytes_inj in H as [-> H]; [|done..]. f_equal. by apply IH.
Qed.

(** The types of the key columns. *)
Definition key_types (ordinals : list nat) (tys : list TypeId) : option (list TypeId) := mapM (fun o => tys !! o) ordinals.

Definition row_typed (tys : list TypeId) (row : list (option Value)) : Prop :=
  length row = length tys /\ forall j ty v, tys !! j = Some ty -> row !! j = Some (Some v) -> type_of v = ty.

Lemma key_values_typed ordinals tys row kts vs :
  row_typed tys row -> row_ok row -> key_types ordinals tys = Some kts -> key_values ordinals row = Some vs ->
  map type_of vs = kts /\ Forall value_ok vs.
Proof.
  intros [_ Hty] Hok. unfold key_types, key_values. revert kts vs.
  induction ordinals as [|o os IH]; intros kts vs Hk Hv; simpl in *; [injection Hk as <-; injection Hv as <-; done|].
  destruct (tys !! o) as [ty|] eqn:Eo; [|done]. simpl in Hk.
  destruct (mapM _ os) as [kts'|] eqn:Ek in Hk; [|done]. simpl in Hk. injection Hk as <-.
  destruct (cell_at row o) as [v|] eqn:Er; simpl in Hv; [|discriminate Hv]. apply cell_at_Some in Er.
  destruct (mapM _ os) as [vs'|] eqn:Ev in Hv; [|done]. simpl in Hv. injection Hv as <-.
  destruct (IH kts' vs' Ek Ev) as [<- Hvs]. simpl. split; [by rewrite (Hty o ty v)|].
  constructor; [by eapply Hok|done].
Qed.

(** Two rows whose key columns have the same types match exactly when their key bytes do. *)
Lemma keys_match_bytes bk pk btys ptys kts b p :
  row_typed btys b -> row_ok b -> key_types bk btys = Some kts ->
  row_typed ptys p -> row_ok p -> key_types pk ptys = Some kts ->
  keys_match bk pk b p = true <-> exists key, row_key bk b = Some key /\ row_key pk p = Some key.
Proof.
  intros Hb Hbo Hbk Hp Hpo Hpk. unfold keys_match, row_key.
  destruct (key_values bk b) as [kb|] eqn:Eb; [|split; [done|intros (key & [=] & _)]].
  destruct (key_values pk p) as [kp|] eqn:Ep; [|split; [done|intros (key & _ & [=])]].
  destruct (key_values_typed bk btys b kts kb Hb Hbo Hbk Eb) as [Htb Hob].
  destruct (key_values_typed pk ptys p kts kp Hp Hpo Hpk Ep) as [Htp Hop]. simpl.
  rewrite bool_decide_eq_true. split; [intros ->; eauto|].
  intros (key & [= <-] & [= H]). symmetry. apply key_bytes_inj; [congruence|done|done|done].
Qed.

(** ** Rows of a chunk *)

Lemma chunk_cell chunk cols sel i o p :
  chunk_repr chunk cols sel -> (i < length sel)%nat -> cols !! o = Some p ->
  exists col r, chunk_Column chunk o = Ok col /\ col_repr col p.1 p.2 /\ p.2 !! i = Some r /\
    cell_at (cell_row cols i) o = cell_of r.
Proof.
  intros [_ _ _ _ Hc] Hi Ho. destruct p as [ty rs].
  destruct (columns_repr_lookup_r _ _ _ _ _ _ Hc Ho) as (col & Hcol & Hcr & Hl).
  destruct (lookup_lt_is_Some_2 rs i) as [r Hr]; [lia|]. exists col, r. simpl.
  split_and!; [by apply vec_get_Ok|done|done|].
  unfold cell_at, cell_row. by rewrite list_lookup_fmap, (raw_row_lookup cols i o ty rs Ho), Hr.
Qed.

Lemma length_cell_row cols i : length (cell_row cols i) = length cols.
Proof. unfold cell_row, raw_row. by rewrite !length_map. Qed.

Lemma chunk_row_typed chunk cols sel i :
  chunk_repr chunk cols sel -> (i < length sel)%nat -> row_typed cols.*1 (cell_row cols i).
Proof.
  intros Hch Hi. split; [by rewrite length_cell_row, length_fmap|]. intros j ty v Hj Hv.
  rewrite list_lookup_fmap in Hj. destruct (cols !! j) as [p|] eqn:Ep; [|done]. simpl in Hj. injection Hj as <-.
  destruct (chunk_cell _ _ _ _ _ _ Hch Hi Ep) as (col & [x b] & _ & Hcr & Hr & Hcell).
  unfold cell_at in Hcell. rewrite Hv in Hcell. simpl in Hcell. destruct b; [|done]. injection Hcell as ->.
  by destruct (col_repr_lookup _ _ _ _ _ _ Hcr Hr).
Qed.

Lemma key_types_in_range ords tys kts : key_types ords tys = Some kts -> Forall (fun o => is_Some (tys !! o)) ords.
Proof.
  unfold key_types. revert kts. induction ords as [|o os IH]; intros kts H; simpl in H; [constructor|].
  destruct (tys !! o) eqn:E; [|done]. simpl in H. destruct (mapM _ os) eqn:Em; [|done].
  constructor; [eauto|by eapply IH].
Qed.

Lemma compute_key_spec chunk cols sel i ords kts key :
  chunk_repr chunk cols sel -> (i < length sel)%nat -> key_types ords cols.*1 = Some kts ->
  compute_key chunk ords i key = Ok (app key <$> row_key ords (cell_row cols i)).
Proof.
  intros Hch Hi Hk. apply key_types_in_range in Hk. unfold row_key, key_values. revert key.
  induction Hk as [|o os Ho _ IH]; intros key; simpl.
  - unfold key_bytes. simpl. by rewrite app_nil_r.
  - destruct Ho as [ty Ho]. rewrite list_lookup_fmap in Ho. destruct (cols !! o) as [p|] eqn:Ep; [|done].
    destruct (chunk_cell _ _ _ _ _ _ Hch Hi Ep) as (col & [x b] & -> & Hcr & Hr & ->).
    destruct (col_repr_lookup _ _ _ _ _ _ Hcr Hr) as (_ & Hg & Hn & _). rewrite bind_Ok, Hn. simpl.
    destruct b; simpl; [|done]. rewrite Hg, bind_Ok, IH. destruct (mapM _ os) as [vs|]; [|done]. simpl.
    unfold key_bytes. simpl. by rewrite app_assoc.
Qed.

(** ** What the build table holds *)

Definition has_key (ordinals : list nat) (row : list (option Value)) : Prop := is_Some (row_key ordinals row).
#[global] Instance has_key_dec ordinals row : Decision (has_key ordinals row).
Proof. unfold has_key. apply _. Defined.

(** The build rows with a key, in order. *)
Definition indices (ordinals : list nat) (key : KeyBytes) (rows : list (list (option Value))) : list nat :=
  filter (fun j => (rows !! j ≫= row_key ordinals) = Some key) (seq 0 (length rows)).

Record build_repr (ordinals : list nat) (tys : list TypeId) (t : BuildTable) (rows : list (list (option Value))) : Prop := {
  br_columns : rows_repr (build_columns_ t) tys rows;
  br_count : build_row_count_ t = length rows;
  br_table : forall key, default [] (hash_table_ t !! key) = indices ordinals key rows;
}.

Lemma indices_snoc ords key rows row :
  indices ords key (rows ++ [row]) =
  indices ords key rows ++ (if decide (row_key ords row = Some key) then [length rows] else []).
Proof.
  unfold indices. rewrite length_app, Nat.add_1_r, seq_S, filter_app. f_equal.
  - apply filter_ext_in. intros j Hj%elem_of_seq. by rewrite lookup_app_l by lia.
  - rewrite Nat.add_0_l, filter_cons. rewrite list_lookup_middle by done. simpl.
    destruct (decide (row_key ords row = Some key)); done.
Qed.

(** The rows of a key, read through its indices. *)
Lemma indices_rows ords key rows :
  map (fun j => default [] (rows !! j)) (indices ords key rows) = filter (fun b => row_key ords b = Some key) rows.
Proof.
  induction rows as [|row rows IH] using rev_ind; [done|].
  rewrite indices_snoc, map_app, filter_app, filter_cons. f_equal.
  - rewrite <- IH. apply map_ext_in. intros j Hj%list_elem_of_In.
    apply list_elem_of_filter in Hj as [_ Hj%elem_of_seq]. by rewrite lookup_app_l by lia.
  - destruct (decide (row_key ords row = Some key)); [|done]. simpl. by rewrite list_lookup_middle.
Qed.

Lemma indices_lt ords key rows j : j ∈ indices ords key rows -> (j < length rows)%nat.
Proof. intros [_ ?%elem_of_seq]%list_elem_of_filter. lia. Qed.

Lemma empty_build_repr ords tys : build_repr ords tys (empty_build tys) [].
Proof. split; [apply rows_repr_empty|done|]. intros key. simpl. by rewrite lookup_empty. Qed.

Lemma AppendBuildRow_spec cols tys rows chunk ccols sel i :
  rows_repr cols tys rows -> chunk_repr chunk ccols sel -> ccols.*1 = tys -> (i < length sel)%nat ->
  (forall j, col_bytes (rows ++ [cell_row ccols i]) j < 2 ^ 31) ->
  exists cols', AppendBuildRow cols chunk i = Ok cols' /\ rows_repr cols' tys (rows ++ [cell_row ccols i]).
Proof.
  intros Hr Hch Htys Hi Hfit. unfold AppendBuildRow. apply append_row_repr; [done|].
  intros j ty col Hty Hcr _. rewrite <- Htys, list_lookup_fmap in Hty.
  destruct (ccols !! j) as [p|] eqn:Ep; [|done]. simpl in Hty. injection Hty as <-.
  destruct (chunk_cell _ _ _ _ _ _ Hch Hi Ep) as (src & r & -> & Hsrc & Hri & ->). rewrite bind_Ok.
  rewrite (col_repr_type col _ _ Hcr), (col_repr_type src _ _ Hsrc), decide_True by done.
  eapply col_CopyRow_cell; [done|done|done|]. specialize (Hfit j).
  rewrite col_bytes_app in Hfit. simpl in Hfit.
  destruct (chunk_cell _ _ _ _ _ _ Hch Hi Ep) as (src' & r' & _ & _ & Hri' & Hcell). rewrite Hcell in Hfit.
  rewrite str_size_column. simplify_eq. lia.
Qed.

Lemma table_push_lookup key k index t :
  default [] (table_push key index t !! k) = default [] (t !! k) ++ (if decide (key = k) then [index] else []).
Proof.
  unfold table_push. destruct (decide (key = k)) as [->|Hne].
  - by rewrite lookup_insert_eq.
  - by rewrite lookup_insert_ne, app_nil_r.
Qed.

Lemma build_row_spec ords tys kts t rows chunk c i b :
  build_repr ords tys t rows -> chunk_repr chunk c.1 c.2 -> c.1.*1 = tys -> key_types ords tys = Some kts ->
  c.2 !! i = Some b -> is_u32 (Z.of_nat (length rows)) ->
  (b = true -> forall j, col_bytes (rows ++ [cell_row c.1 i]) j < 2 ^ 31) ->
  exists t', build_row ords chunk i t = Ok t' /\
    build_repr ords tys t' (rows ++ (if decide (b = true /\ has_key ords (cell_row c.1 i)) then [cell_row c.1 i] else [])).
Proof.
  intros [Hcols Hcnt Htab] Hch Htys Hk Hb Hu Hfit. pose proof (lookup_lt_Some _ _ _ Hb) as Hi.
  unfold build_row. rewrite (IsRowSelected_repr _ _ _ _ _ Hch Hb), bind_Ok.
  destruct b; cbn [negb]; [|eexists; split; [done|]; rewrite decide_False, app_nil_r by (intros [? _]; done); by split].
  unfold ComputeJoinKey. rewrite (compute_key_spec _ _ _ _ _ kts [] Hch Hi) by by rewrite Htys.
  rewrite bind_Ok. destruct (row_key ords (cell_row c.1 i)) as [key|] eqn:Ek; simpl.
  - rewrite decide_True by (unfold has_key; rewrite Ek; eauto).
    destruct (AppendBuildRow_spec _ _ _ _ _ _ _ Hcols Hch Htys Hi (Hfit eq_refl)) as (cols' & -> & Hcols'). rewrite bind_Ok.
    eexists. split; [done|]. split; simpl; [done|by rewrite Hcnt, length_app, Nat.add_1_r|].
    intros k. rewrite table_push_lookup, Htab, indices_snoc, Ek, Hcnt, u32_id, Nat2Z.id by done.
    f_equal. destruct (decide (key = k)) as [->|Hne]; [by rewrite decide_True|rewrite decide_False; congruence].
  - rewrite decide_False by (unfold has_key; rewrite Ek; intros [_ [? ?]]; done). rewrite app_nil_r. eexists. split; [done|by split].
Qed.

(** ** Draining the build child *)

Definition build_rows (ordinals : list nat) (rows : list (list (option Value))) : list (list (option Value)) :=
  filter (has_key ordinals) rows.

Lemma col_bytes_filter (P : list (option Value) -> Prop) `{!forall r, Decision (P r)} rows j :
  col_bytes (filter P rows) j <= col_bytes rows j.
Proof.
  induction rows as [|row rows IH]; [done|]. rewrite filter_cons. simpl.
  pose proof (cell_len_nonneg (cell_at row j)). destruct (decide (P row)); simpl; lia.
Qed.

Lemma build_chunk_spec ords tys kts t done_ chunk c rest total :
  build_repr ords tys t (build_rows ords done_) -> chunk_repr chunk c.1 c.2 -> c.1.*1 = tys ->
  key_types ords tys = Some kts -> done_ ++ live_rows c.1 c.2 ++ rest = total ->
  is_u32 (Z.of_nat (length total)) -> (forall j, col_bytes total j < 2 ^ 31) ->
  exists t', build_chunk ords chunk t = Ok t' /\ build_repr ords tys t' (build_rows ords (done_ ++ live_rows c.1 c.2)).
Proof.
  intros Ht Hch Htys Hk Htot Hu Hfit. unfold build_chunk.
  apply (for_live_rows (fun dn t => build_repr ords tys t (build_rows ords dn)) _ chunk c done_ rest total t Hch Ht Htot).
  intros i b dn ti post Hb Hti Hpost.
  assert (length (build_rows ords dn) <= length dn)%nat as Hle by apply length_filter.
  destruct (build_row_spec ords tys kts ti _ chunk c i b Hti Hch Htys Hk Hb) as (t' & HB & Ht').
  - rewrite <- Hpost, !length_app in Hu. unfold is_u32 in *. lia.
  - intros -> j. specialize (Hfit j). rewrite <- Hpost in Hfit. unfold build_rows.
    pose proof (col_bytes_filter (has_key ords) dn j). rewrite !col_bytes_app in *.
    pose proof (col_bytes_nonneg post j). lia.
  - exists t'. split; [done|]. unfold build_rows in *. rewrite filter_app. destruct b.
    + rewrite filter_cons. destruct (decide (has_key ords (cell_row c.1 i))) as [Hkey|Hno].
      * by rewrite decide_True in Ht' by done.
      * by rewrite decide_False in Ht' by (intros [_ ?]; done).
    + by rewrite decide_False in Ht' by (intros [? _]; done).
Qed.

(** ** Joined rows as pairs of a build and a probe row *)

Abbreviation jrow := (prod (list (option Value)) (list (option Value))) (only parsing).

Definition join_pair (p : jrow) : list (option Value) := p.1 ++ p.2.

Definition pair_wide (btys ptys : list TypeId) (p : jrow) : Prop :=
  length p.1 = length btys /\ length p.2 = length ptys.

(** The chunk that holds some pairs. *)
Definition out_spec (btys ptys : list TypeId) (pairs : list jrow) : chunkspec :=
  (specs_of btys pairs.*1 ++ specs_of ptys pairs.*2, replicate (length pairs) true).

Lemma live_rows_pairs btys ptys pairs :
  Forall (pair_wide btys ptys) pairs ->
  live_rows (out_spec btys ptys pairs).1 (out_spec btys ptys pairs).2 = map join_pair pairs.
Proof.
  intros Hl. unfold live_rows, out_spec. simpl. rewrite selected_all, <- (length_map join_pair pairs).
  symmetry. apply list_eq_seq.
  intros i r Hi. rewrite list_lookup_fmap in Hi. destruct (pairs !! i) as [p|] eqn:Ep; [|done]. injection Hi as <-.
  rewrite Forall_lookup in Hl. destruct (Hl _ _ Ep) as [Hl1 Hl2].
  unfold cell_row, raw_row. rewrite !map_app. unfold join_pair. f_equal.
  - apply (cell_row_specs btys pairs.*1 i p.1); [by rewrite list_lookup_fmap, Ep|done].
  - apply (cell_row_specs ptys pairs.*2 i p.2); [by rewrite list_lookup_fmap, Ep|done].
Qed.

(** The chunks that deliver a list of pairs: full ones, then one that is not full. *)
Fixpoint split_out (n : nat) (btys ptys : list TypeId) (pairs : list jrow) : list chunkspec :=
  out_spec btys ptys (take 1024 pairs) ::
  (if (length pairs <? 1024)%nat then []
   else match n with O => [] | S n' => split_out n' btys ptys (drop 1024 pairs) end).

Lemma rows_of_split_out n btys ptys pairs :
  (length pairs <= n)%nat -> Forall (pair_wide btys ptys) pairs ->
  rows_of (split_out n btys ptys pairs) = map join_pair pairs.
Proof.
  revert pairs. induction n as [|n IH]; intros pairs Hn Hw.
  - destruct pairs; [done|simpl in Hn; lia].
  - cbn [split_out]. rewrite rows_of_cons, live_rows_pairs by by apply Forall_take.
    destruct (Nat.ltb_spec (length pairs) 1024) as [Hlt|Hge].
    + rewrite take_ge by lia. apply app_nil_r.
    + rewrite IH; [by rewrite <- map_app, take_drop|rewrite length_drop; lia|by apply Forall_drop].
Qed.

(** ** One probe chunk *)

Section Probe.
Context (bk pk : list nat) (btys kts : list TypeId) (t : BuildTable) (B : list (list (option Value))).
Hypothesis Ht : build_repr bk btys t B.
Context (chunk : DataChunk) (c : chunkspec).
Hypothesis Hch : chunk_repr chunk c.1 c.2.
Hypothesis Hpk : key_types pk c.1.*1 = Some kts.

Local Abbreviation nrows := (length c.2) (only parsing).

Definition pair_with (i j : nat) : jrow := (default [] (B !! j), cell_row c.1 i).

(** The joined rows of probe row [i]. *)
Definition probe_pairs (i : nat) : list jrow :=
  if decide (c.2 !! i = Some true) then
    match row_key pk (cell_row c.1 i) with Some key => map (pair_with i) (indices bk key B) | None => [] end
  else [].

Definition pairs_from (i : nat) : list jrow := concat (map probe_pairs (seq i (nrows - i))).

(** What the cursor has still to emit. *)
Definition pending (cur : ProbeCursor) : list jrow :=
  if (length (current_matches_ cur) <=? current_match_index_ cur)%nat then pairs_from (current_probe_row_ cur)
  else map (pair_with (current_probe_row_ cur)) (drop (current_match_index_ cur) (current_matches_ cur)) ++
       pairs_from (S (current_probe_row_ cur)).

Definition has_match (cur : ProbeCursor) : Prop :=
  (current_match_index_ cur < length (current_matches_ cur))%nat /\ (current_probe_row_ cur < nrows)%nat /\
  Forall (fun j => j < length B)%nat (current_matches_ cur).

Definition cursor_ok (cur : ProbeCursor) : Prop :=
  has_match cur \/ (length (current_matches_ cur) <= current_match_index_ cur)%nat.

Lemma pairs_from_step i : (i < nrows)%nat -> pairs_from i = probe_pairs i ++ pairs_from (S i).
Proof.
  intros Hi. unfold pairs_from. replace (nrows - i)%nat with (S (nrows - S i)) by lia. done.
Qed.

Lemma pairs_from_end i : (nrows <= i)%nat -> pairs_from i = [].
Proof. intros Hi. unfold pairs_from. by replace (nrows - i)%nat with 0%nat by lia. Qed.

Lemma find_match_spec fuel cur :
  cursor_ok cur ->
  (nrows - current_probe_row_ cur + (if (length (current_matches_ cur) <=? current_match_index_ cur)%nat then 1 else 0)
     < fuel)%nat ->
  exists cur', find_match fuel pk t chunk cur = Ok cur' /\ pending cur' = pending cur /\
    ((nrows <= current_probe_row_ cur')%nat /\ pending cur' = [] \/ has_match cur').
Proof.
  revert cur. induction fuel as [|fuel IH]; intros [row ms ix] Hok Hfuel; [lia|]. simpl in *.
  rewrite (cr_rows _ _ _ Hch). destruct Hok as [Hm|Hex].
  { pose proof Hm as (Hix & Hrow & _). simpl in *. rewrite (proj2 (Nat.leb_gt _ _) Hix), andb_false_r. eauto 10. }
  simpl in Hex. rewrite (proj2 (Nat.leb_le _ _) Hex) in *. rewrite andb_true_r.
  assert (pending (mk_cursor row ms ix) = pairs_from row) as Hp
    by (unfold pending; simpl; by rewrite (proj2 (Nat.leb_le _ _) Hex)).
  destruct (Nat.ltb_spec row nrows) as [Hrow|Hrow].
  2: { eexists. split; [done|]. split; [done|]. left. simpl. split; [done|]. rewrite Hp. by apply pairs_from_end. }
  destruct (lookup_lt_is_Some_2 c.2 row Hrow) as [b Hb].
  assert (pairs_from row = pairs_from (S row) -> exists cur', find_match fuel pk t chunk (mk_cursor (S row) ms ix) = Ok cur' /\
    pending cur' = pairs_from row /\ ((nrows <= current_probe_row_ cur')%nat /\ pending cur' = [] \/ has_match cur')) as Hskip.
  { intros Heq. destruct (IH (mk_cursor (S row) ms ix)) as (cur' & HE & Hp' & Hd).
    - by right.
    - simpl. rewrite (proj2 (Nat.leb_le _ _) Hex). lia.
    - exists cur'. split; [done|]. split; [|done]. rewrite Hp'. unfold pending. simpl.
      by rewrite (proj2 (Nat.leb_le _ _) Hex), Heq. }
  rewrite (IsRowSelected_repr _ _ _ _ _ Hch Hb), bind_Ok, Hp. pose proof (pairs_from_step row Hrow) as Hstep.
  unfold probe_pairs in Hstep. rewrite Hb in Hstep.
  destruct b; cbn [negb]; [|apply Hskip; rewrite decide_False in Hstep by done; exact Hstep].
  rewrite decide_True in Hstep by done.
  unfold ComputeJoinKey. rewrite (compute_key_spec _ _ _ _ _ kts [] Hch Hrow Hpk), bind_Ok.
  destruct (row_key pk (cell_row c.1 row)) as [key|] eqn:Ek; simpl; [|by apply Hskip].
  rewrite (br_table _ _ _ _ Ht key). case_bool_decide as Hnil.
  - rewrite Hnil in *. destruct (IH (mk_cursor (S row) [] 0)) as (cur' & HE & Hp' & Hd); [by right|simpl; lia|].
    exists cur'. split; [done|]. split; [|done]. rewrite Hp', Hstep. done.
  - assert (0 < length (indices bk key B))%nat as Hpos by (destruct (indices bk key B); simpl; [done|lia]).
    destruct (IH (mk_cursor row (indices bk key B) 0)) as (cur' & HE & Hp' & Hd).
    + left. split_and!; [done|done|]. apply Forall_forall. intros j. apply indices_lt.
    + simpl. rewrite (proj2 (Nat.leb_gt _ _) Hpos). lia.
    + exists cur'. split; [done|]. split; [|done]. rewrite Hp', Hstep. unfold pending. simpl.
      by rewrite (proj2 (Nat.leb_gt _ _) Hpos).
Qed.

(** The rows emitted so far, as pairs of a build and a probe row. *)
Definition out_repr (out : JoinOutput) (pairs : list jrow) : Prop :=
  rows_repr (current_output_build_ out) btys pairs.*1 /\
  rows_repr (current_output_probe_ out) c.1.*1 pairs.*2 /\ emitted out = length pairs.

Definition pair_short (p : jrow) : Prop :=
  (forall j, cell_len (cell_at p.1 j) < 2 ^ 21) /\ (forall j, cell_len (cell_at p.2 j) < 2 ^ 21).

Lemma short_fits rows row j :
  (length rows < 1024)%nat -> Forall (fun r => forall j, cell_len (cell_at r j) < 2 ^ 21) rows ->
  (forall j, cell_len (cell_at row j) < 2 ^ 21) -> col_bytes rows j + cell_len (cell_at row j) < 2 ^ 31.
Proof.
  intros Hl Hrows Hrow. rewrite Forall_forall in Hrows. specialize (Hrow j).
  pose proof (col_bytes_bound rows j (2 ^ 21)) as Hb.
  assert (col_bytes rows j <= 2 ^ 21 * Z.of_nat (length rows)); [|lia].
  apply Hb. intros r Hr. specialize (Hrows r Hr j). lia.
Qed.

Lemma AppendFromColumnStorage_spec out src ty rs rs' i r :
  col_repr out ty rs -> col_repr src ty rs' -> rs' !! i = Some r -> str_size rs + cell_len (cell_of r) < 2 ^ 31 ->
  exists c', AppendFromColumnStorage out src i = Ok c' /\ col_repr c' ty (rs ++ [raw_of_cell ty (cell_of r)]).
Proof.
  intros Ho Hs Hi Hfit. unfold AppendFromColumnStorage.
  rewrite (col_repr_type out _ _ Ho), (col_repr_type src _ _ Hs), decide_True by done. by eapply col_CopyRow_cell.
Qed.

Lemma emit_row_spec cur :
  has_match cur ->
  exists p, pending cur = p :: pending (next_match cur) /\ cursor_ok (next_match cur) /\
    forall out pairs, out_repr out pairs -> (length pairs < 1024)%nat -> Forall pair_short (pairs ++ [p]) ->
      exists out', emit_row t chunk cur out = Ok out' /\ out_repr out' (pairs ++ [p]).
Proof.
  intros (Hix & Hrow & HB). destruct cur as [row ms ix]; simpl in *.
  destruct (lookup_lt_is_Some_2 ms ix Hix) as [m Hm]. exists (pair_with row m). split; [|split].
  - unfold pending, next_match. simpl. rewrite (proj2 (Nat.leb_gt _ _) Hix), (drop_S _ _ _ Hm).
    destruct (Nat.leb_spec (length ms) (S ix)) as [Hle|Hgt]; simpl.
    + by rewrite (drop_ge ms (S ix)).
    + by rewrite (proj2 (Nat.leb_gt _ _) Hgt).
  - unfold next_match. simpl. destruct (Nat.leb_spec (length ms) (S ix)); [by right|left; split_and!; done].
  - intros out pairs (Hob & Hop & Hem) Hroom Hshort. apply Forall_app in Hshort as [Hshort [[Hs1 Hs2] _]%Forall_cons].
    rewrite Forall_lookup in HB. destruct (lookup_lt_is_Some_2 B m (HB _ _ Hm)) as [b Hb].
    unfold emit_row, pair_with in *. simpl in *. rewrite Hb in *. simpl in *.
    rewrite (proj2 (vec_get_Ok _ _ _) Hm), bind_Ok.
    destruct (append_row_repr (fun c o => source ← vec_get (build_columns_ t) c; AppendFromColumnStorage o source m)
      (current_output_build_ out) btys pairs.*1 b Hob) as (cb & -> & Hcb).
    { intros j ty col Hty Hcr _. destruct (rows_repr_lookup _ _ _ j ty (br_columns _ _ _ _ Ht) Hty) as (src & Hsrc & Hsr).
      rewrite (proj2 (vec_get_Ok _ _ _) Hsrc), bind_Ok.
      pose proof (AppendFromColumnStorage_spec col src ty _ _ m (raw_of_cell ty (cell_at b j)) Hcr Hsr) as HA.
      rewrite cell_of_raw in HA. apply HA.
      - unfold column_of. by rewrite list_lookup_fmap, Hb.
      - rewrite str_size_column. apply short_fits; [by rewrite length_fmap| |done].
        apply Forall_fmap. eapply Forall_impl; [exact Hshort|]. by intros p [? _]. }
    rewrite bind_Ok.
    destruct (append_row_repr (fun c o => AppendFromChunkColumn o chunk c row)
      (current_output_probe_ out) c.1.*1 pairs.*2 (cell_row c.1 row) Hop) as (cp & -> & Hcp).
    { intros j ty col Hty Hcr _. rewrite list_lookup_fmap in Hty. destruct (c.1 !! j) as [q|] eqn:Eq; [|done].
      simpl in Hty. injection Hty as <-.
      destruct (chunk_cell _ _ _ _ _ _ Hch Hrow Eq) as (src & r & Hsrc & Hsr & Hr & Hcell).
      unfold AppendFromChunkColumn. rewrite Hsrc, bind_Ok, Hcell.
      eapply AppendFromColumnStorage_spec; [done|exact Hsr|done|].
      rewrite <- Hcell, str_size_column. apply short_fits; [by rewrite length_fmap| |done].
      apply Forall_fmap. eapply Forall_impl; [exact Hshort|]. by intros p [_ ?]. }
    rewrite bind_Ok. eexists. split; [done|]. split_and!; simpl; [by rewrite fmap_app|by rewrite fmap_app|].
    rewrite length_app, Hem. simpl. lia.
Qed.

Lemma emit_rows_spec room cur out pairs :
  cursor_ok cur -> out_repr out pairs -> (length pairs + room <= 1024)%nat ->
  Forall pair_short (pairs ++ pending cur) ->
  exists cur' out', emit_rows room pk t chunk cur out = Ok (cur', out') /\
    out_repr out' (pairs ++ take room (pending cur)) /\
    match cur' with
    | None => (length (pending cur) < room)%nat
    | Some cur' => cursor_ok cur' /\ pending cur' = drop room (pending cur) /\ (room <= length (pending cur))%nat
    end.
Proof.
  revert cur out pairs. induction room as [|room IH]; intros cur out pairs Hok Hout Hroom Hshort; cbn [emit_rows].
  { do 2 eexists. split; [done|]. rewrite take_0, app_nil_r, drop_0. split_and!; [apply Hout..|done|done|lia]. }
  destruct (find_match_spec (match_fuel chunk) cur Hok) as (cur1 & -> & Hp1 & Hd).
  { unfold match_fuel. rewrite (cr_rows _ _ _ Hch). destruct (_ <=? _)%nat; lia. }
  rewrite bind_Ok, <- Hp1, (cr_rows _ _ _ Hch). destruct Hd as [[Hend Hnil]|Hm].
  - rewrite (proj2 (Nat.leb_le _ _) Hend), Hnil. do 2 eexists. split; [done|]. simpl. rewrite app_nil_r. split; [done|lia].
  - pose proof Hm as (_ & Hrow & _). rewrite (proj2 (Nat.leb_gt _ _) Hrow).
    destruct (emit_row_spec cur1 Hm) as (p & Hp & Hok' & Hemit). rewrite <- Hp1, Hp in Hshort.
    destruct (Hemit out pairs Hout) as (out' & -> & Hout'); [lia| |].
    { rewrite cons_middle, app_assoc in Hshort. by apply Forall_app in Hshort as [? _]. }
    rewrite bind_Ok. destruct (IH (next_match cur1) out' (pairs ++ [p]) Hok' Hout') as (cur' & out'' & HE & Hout'' & Hd').
    { rewrite length_app. simpl. lia. }
    { by rewrite <- app_assoc. }
    exists cur', out''. split; [done|]. rewrite Hp. simpl. rewrite <- app_assoc in Hout''. split; [done|].
    destruct cur' as [cur'|]; [|lia]. destruct Hd' as (? & ? & ?). split_and!; [done..|lia].
Qed.

Lemma columns_like_repr : rows_repr (MakeEmptyColumnsLike chunk) c.1.*1 [].
Proof.
  assert (MakeEmptyColumnsLike chunk = map empty_column c.1.*1) as ->; [|apply rows_repr_empty].
  unfold MakeEmptyColumnsLike. pose proof (cr_cols _ _ _ Hch) as Hc. revert Hc.
  generalize (chunk_columns_ chunk), c.1. induction 1 as [|col p cols ps [Hcr _] _ IH]; [done|].
  simpl. by rewrite IH, (col_repr_type _ _ _ Hcr).
Qed.

Lemma join_chunk_spec cur :
  cursor_ok cur -> Forall pair_short (pending cur) ->
  exists cur' out output, join_chunk btys pk t chunk cur = Ok (cur', out, output) /\
    chunk_repr output (out_spec btys c.1.*1 (take 1024 (pending cur))).1 (out_spec btys c.1.*1 (take 1024 (pending cur))).2 /\
    match cur' with
    | None => (length (pending cur) < 1024)%nat
    | Some cur' => cursor_ok cur' /\ pending cur' = drop 1024 (pending cur) /\ (1024 <= length (pending cur))%nat
    end.
Proof.
  intros Hok Hshort. unfold join_chunk. change (Z.to_nat kVectorSize) with 1024%nat.
  destruct (emit_rows_spec 1024 cur (mk_output (MakeEmptyColumns btys) (MakeEmptyColumnsLike chunk) 0) [] Hok)
    as (cur' & out & -> & (Hob & Hop & Hem) & Hd); [|simpl; lia|done|].
  { split_and!; [apply rows_repr_empty|apply columns_like_repr|done]. }
  rewrite bind_Ok. rewrite app_nil_l in *. set (ps := take 1024 (pending cur)) in *.
  assert (length ps <= 1024)%nat as Hps by (unfold ps; rewrite length_take; lia).
  rewrite Hem. destruct (new_chunk_repr (length ps) Hps) as (o0 & -> & Ho0 & _). rewrite bind_Ok.
  unfold rows_repr in Hob, Hop. rewrite length_fmap in Hob, Hop.
  destruct (add_columns_spec o0 _ (current_output_build_ out) (specs_of btys ps.*1) [] Ho0) as (o1 & -> & Ho1);
    [by rewrite length_replicate|]. rewrite bind_Ok.
  destruct (add_columns_spec o1 _ (current_output_probe_ out) (specs_of c.1.*1 ps.*2) _ Ho1) as (o2 & -> & Ho2);
    [by rewrite length_replicate|]. rewrite bind_Ok.
  exists cur', out, o2. split_and!; [done|exact Ho2|exact Hd].
Qed.

End Probe.

(** ** The pairs of a probe chunk are those of the nested loop *)

Lemma in_pairs_from bk pk B c p :
  p ∈ pairs_from bk pk B c 0 -> p.1 ∈ B /\ p.2 ∈ live_rows c.1 c.2.
Proof.
  unfold pairs_from. intros (ps & (i & <- & Hi%in_seq)%in_map_iff & Hp)%list_elem_of_In%in_concat.
  apply list_elem_of_In in Hp. unfold probe_pairs in Hp. destruct (decide (c.2 !! i = Some true)) as [Hs|]; [|by apply not_elem_of_nil in Hp].
  destruct (row_key pk (cell_row c.1 i)) as [key|]; [|by apply not_elem_of_nil in Hp].
  apply list_elem_of_fmap in Hp as (j & -> & Hj). apply indices_lt in Hj.
  destruct (lookup_lt_is_Some_2 B j Hj) as [b Hb]. unfold pair_with. rewrite Hb. simpl. split.
  - by eapply list_elem_of_lookup_2.
  - unfold live_rows, selected. apply list_elem_of_fmap_2, list_elem_of_filter. split; [done|]. apply elem_of_seq. lia.
Qed.

Lemma concat_map_filter {A B} (P : A -> Prop) `{!forall x, Decision (P x)} (f : A -> list B) (l : list A) :
  concat (map (fun x => if decide (P x) then f x else []) l) = concat (map f (filter P l)).
Proof.
  induction l as [|x l IH]; [done|]. simpl. rewrite filter_cons, IH. by destruct (decide (P x)).
Qed.

Lemma join_pairs_nested bk pk btys kts c build :
  Forall (row_typed btys) build -> Forall row_ok build -> key_types bk btys = Some kts ->
  Forall (row_typed c.1.*1) (live_rows c.1 c.2) -> Forall row_ok (live_rows c.1 c.2) -> key_types pk c.1.*1 = Some kts ->
  map join_pair (pairs_from bk pk (build_rows bk build) c 0) = nested_loop_join bk pk build (live_rows c.1 c.2).
Proof.
  intros Hbt Hbo Hbk Hpt Hpo Hpk. unfold pairs_from, nested_loop_join. rewrite Nat.sub_0_r.
  unfold probe_pairs. rewrite (concat_map_filter (fun i => c.2 !! i = Some true)
    (fun i => match row_key pk (cell_row c.1 i) with
              | Some key => map (pair_with (build_rows bk build) c i) (indices bk key (build_rows bk build))
              | None => [] end)).
  change (filter (fun i => c.2 !! i = Some true) (seq 0 (length c.2))) with (selected c.2).
  unfold live_rows in *. rewrite concat_map, !map_map. f_equal. apply map_ext_in. intros i Hi%list_elem_of_In.
  rewrite Forall_forall in Hbt, Hbo, Hpt, Hpo.
  assert (cell_row c.1 i ∈ map (cell_row c.1) (selected c.2)) as Hp by by apply list_elem_of_fmap_2.
  specialize (Hpt _ Hp). specialize (Hpo _ Hp).
  assert (forall b, b ∈ build -> keys_match bk pk b (cell_row c.1 i) = true <->
    exists key, row_key bk b = Some key /\ row_key pk (cell_row c.1 i) = Some key) as Hmatch.
  { intros b Hb. by apply (keys_match_bytes bk pk btys c.1.*1 kts); auto. }
  destruct (row_key pk (cell_row c.1 i)) as [key|] eqn:Ek.
  - transitivity (map (fun b => b ++ cell_row c.1 i)
      (map (fun j => default [] (build_rows bk build !! j)) (indices bk key (build_rows bk build)))).
    { by rewrite !map_map. }
    rewrite indices_rows. unfold build_rows. rewrite list_filter_filter. f_equal. apply filter_ext_in. intros b Hb.
    rewrite (Hmatch b Hb). split.
    + intros [Hk _]. eauto.
    + intros (k & Hk & [= <-]). split; [done|]. unfold has_key. rewrite Hk. eauto.
  - rewrite filter_none; [done|]. intros b Hb Hm. apply (Hmatch b Hb) in Hm as (k & _ & ?). done.
Qed.

Lemma nested_loop_join_app bk pk build p1 p2 :
  nested_loop_join bk pk build (p1 ++ p2) = nested_loop_join bk pk build p1 ++ nested_loop_join bk pk build p2.
Proof. unfold nested_loop_join. by rewrite map_app, concat_app. Qed.

(** ** The operator's stream *)

Section JoinStream.
Context {W : Type} (inv : W -> Prop) {Sb Sp : Type} `{OpB : Operator W Sb} `{OpP : Operator W Sp} (fuel : nat).

(** The first call that returns can be looked through. *)
Lemma delivers_via {S S'} `{Operator W S} `{Operator W S'} (s : S) cs :
  (forall w, inv w -> exists s1 w1, inv w1 /\ GetNext fuel s w = GetNext fuel s1 w1 /\ delivers inv fuel s1 cs) ->
  delivers inv fuel s cs.
Proof.
  intros Hs. destruct cs as [|c cs]; intros w Hw; destruct (Hs w Hw) as (s1 & w1 & Hw1 & -> & Hd); exact (Hd w1 Hw1).
Qed.

Lemma delivers_chunks {S} `{Operator W S} (s : S) cs w :
  delivers inv fuel s cs -> inv w -> Forall (fun c => exists chunk, chunk_repr chunk c.1 c.2) cs.
Proof.
  revert s w. induction cs as [|c cs IH]; intros s w Hd Hw; [constructor|].
  destruct (Hd w Hw) as (chunk & s' & w' & _ & Hw' & Hch & Hd'). constructor; [eauto|by eapply IH].
Qed.

Lemma live_rows_typed c chunk : chunk_repr chunk c.1 c.2 -> Forall (row_typed c.1.*1) (live_rows c.1 c.2).
Proof.
  intros Hch. apply Forall_forall. intros r (i & -> & Hi)%list_elem_of_fmap.
  apply list_elem_of_filter in Hi as [_ Hi%elem_of_seq]. eapply chunk_row_typed; [exact Hch|lia].
Qed.

Lemma row_ok_short r j : row_ok r -> cell_len (cell_at r j) < 2 ^ 21.
Proof.
  intros Hr. destruct (cell_at r j) as [v|] eqn:E; [|done]. apply cell_at_Some in E. specialize (Hr _ _ E). by destruct v.
Qed.

Variable bk pk : list nat.
Variable btys kts : list TypeId.
Variable t : BuildTable.
Variable build : list (list (option Value)).
Hypothesis Ht : build_repr bk btys t (build_rows bk build).
Hypothesis Hbt : Forall (row_typed btys) build.
Hypothesis Hbo : Forall row_ok build.
Hypothesis Hbk : key_types bk btys = Some kts.

Definition built (child : Sb) (probe : Sp) (cur : option (DataChunk * ProbeCursor)) : HashJoinOperator Sb Sp :=
  mk_join child probe bk pk btys (Some t) cur.

Definition chunk_pairs (c : chunkspec) : list jrow := pairs_from bk pk (build_rows bk build) c 0.

Definition join_specs (pcs : list chunkspec) : list chunkspec :=
  concat (map (fun c => split_out (length (chunk_pairs c)) btys c.1.*1 (chunk_pairs c)) pcs).

Lemma chunk_pairs_ok c chunk :
  chunk_repr chunk c.1 c.2 -> Forall row_ok (live_rows c.1 c.2) ->
  Forall pair_short (chunk_pairs c) /\ Forall (pair_wide btys c.1.*1) (chunk_pairs c).
Proof.
  intros Hch Hok. pose proof (live_rows_typed c chunk Hch) as Hty.
  rewrite Forall_forall in Hok, Hty, Hbt, Hbo. split; apply Forall_forall; intros p Hp;
    destruct (in_pairs_from _ _ _ _ _ Hp) as [[_ H1]%list_elem_of_filter H2].
  - split; intros j; apply row_ok_short; auto.
  - split; [apply (Hbt _ H1)|apply (Hty _ H2)].
Qed.

Lemma current_delivers n child probe chunk c cur rest :
  chunk_repr chunk c.1 c.2 -> key_types pk c.1.*1 = Some kts ->
  cursor_ok (build_rows bk build) c cur -> (length (pending bk pk (build_rows bk build) c cur) <= n)%nat ->
  Forall pair_short (pending bk pk (build_rows bk build) c cur) ->
  delivers inv fuel (built child probe None) rest ->
  delivers inv fuel (built child probe (Some (chunk, cur)))
    (split_out n btys c.1.*1 (pending bk pk (build_rows bk build) c cur) ++ rest).
Proof.
  intros Hch Hpk. revert cur. induction n as [|n IH]; intros cur Hcur Hn Hshort Hrest w Hw;
    destruct (join_chunk_spec bk pk btys kts t (build_rows bk build) Ht chunk c Hch Hpk cur Hcur Hshort)
      as (cur' & out & output & HJ & Ho & Hd).
  - destruct (pending bk pk (build_rows bk build) c cur) eqn:E; [|simpl in Hn; lia].
    destruct cur' as [cur'|]; [simpl in Hd; lia|].
    exists output, (built child probe None), w. split_and!; [|done|exact Ho|exact Hrest].
    unfold GetNext, HashJoinOperator_op, ProbeNext, mbind, io_bind, io_lift. simpl. by rewrite HJ.
  - destruct cur' as [cur'|].
    + destruct Hd as (Hcur' & Hp' & Hge). cbn [split_out]. rewrite (proj2 (Nat.ltb_ge _ _) Hge).
      exists output, (built child probe (Some (chunk, cur'))), w. split_and!; [|done|exact Ho|].
      * unfold GetNext, HashJoinOperator_op, ProbeNext, mbind, io_bind, io_lift. simpl. by rewrite HJ.
      * rewrite <- Hp'. apply IH; [done| | |done]; rewrite Hp'; [rewrite length_drop; lia|by apply Forall_drop].
    + cbn [split_out]. rewrite (proj2 (Nat.ltb_lt _ _) Hd).
      exists output, (built child probe None), w. split_and!; [|done|exact Ho|exact Hrest].
      unfold GetNext, HashJoinOperator_op, ProbeNext, mbind, io_bind, io_lift. simpl. by rewrite HJ.
Qed.

Lemma probe_delivers child probe pcs :
  delivers inv fuel probe pcs -> Forall (fun c => key_types pk c.1.*1 = Some kts) pcs ->
  Forall row_ok (rows_of pcs) -> delivers inv fuel (built child probe None) (join_specs pcs).
Proof.
  revert probe. induction pcs as [|c pcs IH]; intros probe Hd Hk Hok.
  - intros w Hw. destruct (Hd w Hw) as (s' & w' & HG & Hw'). exists (built child s' None), w'. split; [|done].
    unfold GetNext, HashJoinOperator_op, ProbeNext, mbind, io_bind, io_lift. simpl. by rewrite HG.
  - apply Forall_cons in Hk as [Hk Hks]. rewrite rows_of_cons in Hok. apply Forall_app in Hok as [Hok Hoks].
    apply (delivers_via (S' := HashJoinOperator Sb Sp)). intros w Hw.
    destruct (Hd w Hw) as (chunk & s' & w' & HG & Hw' & Hch & Hd').
    exists (built child s' (Some (chunk, mk_cursor 0 [] 0))), w'. split_and!; [done| |].
    + unfold GetNext at 1 2, HashJoinOperator_op, ProbeNext, mbind, io_bind, io_lift. simpl. by rewrite HG.
    + unfold join_specs. simpl. destruct (chunk_pairs_ok c chunk Hch Hok) as [Hshort _].
      apply (current_delivers _ child s' chunk c (mk_cursor 0 [] 0)); [done|done|by right|done|done|].
      apply IH; done.
Qed.

Lemma rows_of_join_specs pcs :
  Forall (fun c => exists chunk, chunk_repr chunk c.1 c.2) pcs ->
  Forall (fun c => key_types pk c.1.*1 = Some kts) pcs -> Forall row_ok (rows_of pcs) ->
  rows_of (join_specs pcs) = nested_loop_join bk pk build (rows_of pcs).
Proof.
  intros Hch. induction Hch as [|c pcs [chunk Hc] _ IH]; intros Hk Hok; [done|].
  apply Forall_cons in Hk as [Hk Hks]. rewrite rows_of_cons in *. apply Forall_app in Hok as [Hok Hoks].
  unfold join_specs. simpl. unfold rows_of in *. rewrite map_app, concat_app.
  rewrite nested_loop_join_app, <- IH by done. f_equal.
  fold (rows_of (split_out (length (chunk_pairs c)) btys c.1.*1 (chunk_pairs c))).
  destruct (chunk_pairs_ok c chunk Hc Hok) as [_ Hw]. rewrite rows_of_split_out by done.
  apply (join_pairs_nested bk pk btys kts c build); try done. by eapply live_rows_typed.
Qed.

End JoinStream.

Section HashJoinCorrect.
Context {W : Type} (inv : W -> Prop) {Sb Sp : Type} `{OpB : Operator W Sb} `{OpP : Operator W Sp} (fuel : nat).

Lemma rows_of_typed cs tys :
  Forall (fun c => exists chunk, chunk_repr chunk c.1 c.2) cs -> Forall (fun c => c.1.*1 = tys) cs ->
  Forall (row_typed tys) (rows_of cs).
Proof.
  intros Hch Htys. unfold rows_of. apply Forall_concat, Forall_map. rewrite Forall_forall in *.
  intros c Hc. destruct (Hch c Hc) as [chunk Hr]. rewrite <- (Htys c Hc). by eapply live_rows_typed.
Qed.

Lemma join_delivers (w : W) (build : Sb) (probe : Sp) bcs pcs bk pk btys kts :
  inv w -> delivers inv fuel build bcs -> delivers inv fuel probe pcs -> (length bcs < fuel)%nat ->
  Forall (fun c => c.1.*1 = btys) bcs -> key_types bk btys = Some kts ->
  Forall (fun c => key_types pk c.1.*1 = Some kts) pcs ->
  Forall row_ok (rows_of bcs) -> Forall row_ok (rows_of pcs) ->
  is_u32 (Z.of_nat (length (rows_of bcs))) -> (forall j, col_bytes (rows_of bcs) j < 2 ^ 31) ->
  delivers inv fuel (new_join build probe bk pk btys) (join_specs bk pk btys (rows_of bcs) pcs) /\
  rows_of (join_specs bk pk btys (rows_of bcs) pcs) = nested_loop_join bk pk (rows_of bcs) (rows_of pcs).
Proof.
  intros Hw Hdb Hdp Hfuel Htys Hbk Hpk Hbo Hpo Hu Hfit.
  pose proof (rows_of_typed bcs btys (delivers_chunks inv fuel build bcs w Hdb Hw) Htys) as Hbt.
  split.
  - apply (delivers_via inv fuel (S' := HashJoinOperator Sb Sp)). intros w0 Hw0.
    destruct (drain_child_spec inv fuel (build_chunk bk) (fun dn t => build_repr bk btys t (build_rows bk dn))
      bcs fuel build (empty_build btys) [] (rows_of bcs) w0 Hdb Hfuel Hw0 (empty_build_repr bk btys) eq_refl)
      as (child' & t & w1 & HB & Hw1 & Ht).
    { intros chunk c dn t rest Hc Hch Htot Ht. rewrite Forall_forall in Htys.
      by eapply (build_chunk_spec bk btys kts t dn chunk c rest (rows_of bcs)); auto. }
    exists (built bk pk btys t child' probe None), w1. split_and!; [done| |].
    + unfold GetNext at 1 2, HashJoinOperator_op. simpl. unfold BuildPhase, mbind, io_bind. simpl. by rewrite HB.
    + by apply (probe_delivers inv fuel bk pk btys kts t (rows_of bcs)).
  - apply (rows_of_join_specs bk pk btys kts (rows_of bcs)); try done. by eapply delivers_chunks.
Qed.

(** C8. [HashJoinOperator] is a nested-loop equi-join: over a build child and a probe child
    whose key columns have the same types, it delivers, in chunks of at most
    [kVectorSize] rows, for every probe row in order the build rows with equal key
    values in order, build columns first; rows with a null key match nothing. The
    bounds: the build rows are counted in 32 bits, a VARCHAR build column fits its
    32-bit offsets, strings are under 2 MB, and the fuel exceeds the build chunks. *)
Theorem HashJoinOperator_correct (w : W) (build : Sb) (probe : Sp) bcs pcs bk pk btys kts :
  inv w -> delivers inv fuel build bcs -> delivers inv fuel probe pcs -> (length bcs < fuel)%nat ->
  Forall (fun c => c.1.*1 = btys) bcs -> key_types bk btys = Some kts ->
  Forall (fun c => key_types pk c.1.*1 = Some kts) pcs ->
  Forall row_ok (rows_of bcs) -> Forall row_ok (rows_of pcs) ->
  is_u32 (Z.of_nat (length (rows_of bcs))) -> (forall j, col_bytes (rows_of bcs) j < 2 ^ 31) ->
  exists cs, delivers inv fuel (new_join build probe bk pk btys) cs /\
    rows_of cs = nested_loop_join bk pk (rows_of bcs) (rows_of pcs).
Proof. intros. eexists. by apply (join_delivers w _ _ _ _ _ _ _ kts). Qed.

End HashJoinCorrect.

(** The join key does not carry the columns' types: rows whose key columns have
    different types can have equal key bytes, so an INTEGER 0 joins an empty VARCHAR,
    while the INTEGER 1 does not join the FLOAT 1.0, and [0.0] does not join [-0.0],
    which compares equal to it. *)
Theorem join_key_ignores_types :
  row_key [0%nat] [Some (VInt 0)] = row_key [0%nat] [Some (VStr "")] /\
  row_key [0%nat] [Some (VInt 1)] <> row_key [0%nat] [Some (VFloat (f32_of_int 1))] /\
  f32_eqb f32_zero (F32 (2 ^ 31)) = true /\
  row_key [0%nat] [Some (VFloat f32_zero)] <> row_key [0%nat] [Some (VFloat (F32 (2 ^ 31)))].
Proof. split_and!; try (vm_compute; congruence); vm_compute; discriminate. Qed.

Lemma HashJoinOperator_correct_witness :
  exists chunk cs, chunk_repr chunk two_rows [true; true] /\
    delivers (fun _ : unit => True) 2 (new_join [chunk] [chunk] [0%nat] [0%nat] [kInteger]) cs /\
    rows_of cs = [[Some (VInt 5); Some (VInt 5)]].
Proof.
  destruct (chunk_exists two_rows 2 ltac:(lia) two_rows_fragment) as [chunk Hch]. exists chunk.
  assert (delivers (fun _ : unit => True) 2 [chunk] [(two_rows, [true; true])]) as Hd
    by (apply replay_delivers; constructor; [exact Hch|constructor]).
  assert (Forall row_ok (rows_of [(two_rows, [true; true])])) as Hok.
  { vm_compute rows_of. constructor; [|constructor; [|constructor]]; intros [|[|j]] v Hv; inversion Hv; subst; split; done. }
  destruct (HashJoinOperator_correct (fun _ : unit => True) 2 tt [chunk] [chunk] [(two_rows, [true; true])]
    [(two_rows, [true; true])] [0%nat] [0%nat] [kInteger] [kInteger] I Hd Hd) as (cs & Hcs & Hrows).
  - simpl. lia.
  - constructor; [done|constructor].
  - done.
  - constructor; [done|constructor].
  - exact Hok.
  - exact Hok.
  - by vm_compute.
  - intros [|[|j]]; vm_compute; done.
  - exists cs. split_and!; [exact Hch|exact Hcs|]. rewrite Hrows. vm_compute. reflexivity.
Defined.
