(* ===== verification/Accumulator.v ===== *)
(** Model of [include/gistdb/execution/aggregate_accumulator.hpp] and
    [src/execution/aggregate_accumulator.cpp]: the nine accumulators an aggregate can be
    computed with, how a row is fed to one ([AccumulateRow] of
    [aggregation_operator.cpp]) and what value it yields, with the closed form of an
    accumulator that was fed a list of nullable values. *)

From S2P Require Import Prelude Scalar ByteIO Bitmap Columns ZoneMap Chunk Rows.
From Stdlib Require Import SpecFloat.

Inductive AggregateFunctionKind : Type := kCountStar | kCount | kSum | kAvg | kMin | kMax.
#[global] Instance AggregateFunctionKind_eq_dec : EqDecision AggregateFunctionKind.
Proof. solve_decision. Defined.

Record AggregateSpec : Type := mk_spec {
  function : AggregateFunctionKind;
  argument_column : option nat;
  argument_type : TypeId;
}.

(** [AccumulatorVariant]; counts and integer sums are [std::int64_t], float sums [double]. *)
Inductive Accumulator : Type :=
  | CountStarAccumulator (count : Z)
  | CountAccumulator (count : Z)
  | SumIntAccumulator (has_values : bool) (sum : Z)
  | SumFloatAccumulator (has_values : bool) (sum : f64)
  | AvgIntAccumulator (sum count : Z)
  | AvgFloatAccumulator (sum : f64) (count : Z)
  | MinMaxIntAccumulator (zone_map : ZoneMap Z)
  | MinMaxFloatAccumulator (zone_map : ZoneMap f32)
  | MinMaxVarcharAccumulator (has_values : bool) (min max : string).

Definition MakeAccumulator (spec : AggregateSpec) : Accumulator :=
  match function spec with
  | kCountStar => CountStarAccumulator 0
  | kCount => CountAccumulator 0
  | kSum => if decide (argument_type spec = kInteger) then SumIntAccumulator false 0 else SumFloatAccumulator false f64_zero
  | kAvg => if decide (argument_type spec = kInteger) then AvgIntAccumulator 0 0 else AvgFloatAccumulator f64_zero 0
  | kMin | kMax =>
      match argument_type spec with
      | kInteger => MinMaxIntAccumulator zone_empty
      | kFloat => MinMaxFloatAccumulator zone_empty
      | kVarchar => MinMaxVarcharAccumulator false "" ""
      end
  end.

Definition is_i64 (z : Z) : Prop := - 2 ^ 63 <= z < 2 ^ 63.
#[global] Instance is_i64_dec z : Decision (is_i64 z).
Proof. unfold is_i64. apply _. Defined.

(** Signed 64-bit overflow is undefined. *)
Definition checked_i64 (z : Z) : result Z := if decide (is_i64 z) then Ok z else Undefined.

(** Conversion of a [float] argument to a [std::int32_t] parameter: truncation, undefined when
    the result does not fit. *)
Definition int_of_f32 (f : f32) : result Z :=
  match f32_decode f with
  | S754_zero _ => Ok 0
  | S754_finite s m e =>
      let magnitude := Z.shiftl (Zpos m) e in
      let z := if s then - magnitude else magnitude in
      if decide (is_i32 z) then Ok z else Undefined
  | _ => Undefined
  end.

Definition to_int (v : Value) : result Z :=
  match v with VInt z => Ok z | VFloat f => int_of_f32 f | VStr _ => Undefined end.
Definition to_float (v : Value) : result f32 :=
  match v with VInt z => Ok (f32_of_int z) | VFloat f => Ok f | VStr _ => Undefined end.

Definition string_minmax (has_values : bool) (min max value : string) : Accumulator :=
  if has_values then MinMaxVarcharAccumulator true (str_min min value) (str_max max value)
  else MinMaxVarcharAccumulator true value value.

(** [accumulator.Add(column->GetValue(row), is_null)] on a numeric column. *)
Definition add_number (acc : Accumulator) (value : Value) (is_null : bool) : result Accumulator :=
  match acc with
  | SumIntAccumulator has sum =>
      z ← to_int value;
      if is_null then mret acc else sum ← checked_i64 (sum + z); mret (SumIntAccumulator true sum)
  | SumFloatAccumulator has sum =>
      f ← to_float value;
      mret (if is_null then acc else SumFloatAccumulator true (f64_add sum (f64_of_f32 f)))
  | AvgIntAccumulator sum count =>
      z ← to_int value;
      if is_null then mret acc
      else sum ← checked_i64 (sum + z); count ← checked_i64 (count + 1); mret (AvgIntAccumulator sum count)
  | AvgFloatAccumulator sum count =>
      f ← to_float value;
      if is_null then mret acc
      else count ← checked_i64 (count + 1); mret (AvgFloatAccumulator (f64_add sum (f64_of_f32 f)) count)
  | MinMaxIntAccumulator zone =>
      z ← to_int value; mret (if is_null then acc else MinMaxIntAccumulator (zone_Update zone z))
  | MinMaxFloatAccumulator zone =>
      f ← to_float value; mret (if is_null then acc else MinMaxFloatAccumulator (zone_Update zone f))
  | _ => mret acc
  end.

(** The argument column of a [CountStar] is not looked at; a column of a type the
    accumulator has no [Add] for is ignored. *)
Definition AccumulateRow (acc : Accumulator) (chunk : DataChunk) (row : nat) (spec : AggregateSpec) : result Accumulator :=
  match acc with
  | CountStarAccumulator count => CountStarAccumulator <$> checked_i64 (count + 1)
  | _ =>
      column ← match argument_column spec with Some c => chunk_Column chunk c | None => Undefined end;
      is_null ← col_IsNull column row;
      match acc with
      | CountAccumulator count =>
          if is_null : bool then mret acc else CountAccumulator <$> checked_i64 (count + 1)
      | MinMaxVarcharAccumulator has min max =>
          match column with
          | VarcharCol c =>
              value ← Varchar.GetValue c row;
              mret (if is_null : bool then acc else string_minmax has min max value)
          | _ => mret acc
          end
      | _ =>
          match column with
          | VarcharCol _ => mret acc
          | _ => value ← col_GetValue column row; add_number acc value is_null
          end
      end
  end.

(** What [EmitBatch] appends for an accumulator: the builder's type and the value. *)
Definition accumulator_output (fn : AggregateFunctionKind) (acc : Accumulator) : TypeId * option Value :=
  match acc with
  | CountStarAccumulator count | CountAccumulator count => (kInteger, Some (VInt (i32 count)))
  | SumIntAccumulator has sum => (kInteger, if has then Some (VInt (i32 sum)) else None)
  | SumFloatAccumulator has sum => (kFloat, if has then Some (VFloat (f32_of_f64 sum)) else None)
  | AvgIntAccumulator sum count =>
      (kFloat, if 0 <? count then Some (VFloat (f32_of_f64 (f64_div (f64_of_int sum) (f64_of_int count)))) else None)
  | AvgFloatAccumulator sum count =>
      (kFloat, if 0 <? count then Some (VFloat (f32_of_f64 (f64_div sum (f64_of_int count)))) else None)
  | MinMaxVarcharAccumulator has min max =>
      (kVarchar, if has then Some (VStr (if decide (fn = kMax) then max else min)) else None)
  | MinMaxIntAccumulator z =>
      (kInteger, if has_values_ z then Some (VInt (if decide (fn = kMax) then max_ z else min_ z)) else None)
  | MinMaxFloatAccumulator z =>
      (kFloat, if has_values_ z then Some (VFloat (if decide (fn = kMax) then max_ z else min_ z)) else None)
  end.

(** The type of the output column declared for an aggregate. *)
Definition output_type (spec : AggregateSpec) : TypeId :=
  match function spec with
  | kAvg => kFloat
  | kCountStar | kCount => kInteger
  | _ => argument_type spec
  end.

(** ** Aggregates of a list of nullable values *)

Definition int_values (cells : list (option Value)) : list Z :=
  omap (fun o => match o with Some (VInt z) => Some z | _ => None end) cells.
Definition float_values (cells : list (option Value)) : list f32 :=
  omap (fun o => match o with Some (VFloat f) => Some f | _ => None end) cells.
Definition string_values (cells : list (option Value)) : list string :=
  omap (fun o => match o with Some (VStr s) => Some s | _ => None end) cells.
Definition non_null (cells : list (option Value)) : list Value := omap id cells.

Definition sum_ints (zs : list Z) : Z := foldl Z.add 0 zs.
(** Accumulated in [double], in row order. *)
Definition sum_floats (fs : list f32) : f64 := foldl (fun s f => f64_add s (f64_of_f32 f)) f64_zero fs.

Definition unless_empty {A} (xs : list A) (v : Value) : option Value := match xs with [] => None | _ => Some v end.

Definition count_value (n : nat) : option Value := Some (VInt (i32 (Z.of_nat n))).

Definition least (s : list string) : string := match s with [] => "" | x :: s' => foldl str_min x s' end.
Definition greatest (s : list string) : string := match s with [] => "" | x :: s' => foldl str_max x s' end.

(** The value of an aggregate over the cells of its argument column, nulls skipped; COUNT-star
    counts the rows. A SUM or COUNT that exceeds 32 bits wraps around. *)
Definition aggregate (spec : AggregateSpec) (cells : list (option Value)) : option Value :=
  match function spec with
  | kCountStar => count_value (length cells)
  | kCount => count_value (length (non_null cells))
  | kSum =>
      if decide (argument_type spec = kInteger)
      then unless_empty (int_values cells) (VInt (i32 (sum_ints (int_values cells))))
      else unless_empty (float_values cells) (VFloat (f32_of_f64 (sum_floats (float_values cells))))
  | kAvg =>
      if decide (argument_type spec = kInteger)
      then unless_empty (int_values cells) (VFloat (f32_of_f64
             (f64_div (f64_of_int (sum_ints (int_values cells))) (f64_of_int (Z.of_nat (length (int_values cells)))))))
      else unless_empty (float_values cells) (VFloat (f32_of_f64
             (f64_div (sum_floats (float_values cells)) (f64_of_int (Z.of_nat (length (float_values cells)))))))
  | kMin | kMax =>
      let extreme {A} (fn : AggregateFunctionKind) (lo hi : A) := if decide (fn = kMax) then hi else lo in
      match argument_type spec with
      | kInteger => unless_empty (int_values cells)
          (VInt (extreme (function spec) (min_ (zone_of (int_values cells))) (max_ (zone_of (int_values cells)))))
      | kFloat => unless_empty (float_values cells)
          (VFloat (extreme (function spec) (min_ (zone_of (float_values cells))) (max_ (zone_of (float_values cells)))))
      | kVarchar => unless_empty (string_values cells)
          (VStr (extreme (function spec) (least (string_values cells)) (greatest (string_values cells))))
      end
  end.

(** ** The accumulator after some cells *)

Definition some_of {A} (xs : list A) : bool := match xs with [] => false | _ => true end.

Definition accumulated (spec : AggregateSpec) (cells : list (option Value)) : Accumulator :=
  match function spec with
  | kCountStar => CountStarAccumulator (Z.of_nat (length cells))
  | kCount => CountAccumulator (Z.of_nat (length (non_null cells)))
  | kSum =>
      if decide (argument_type spec = kInteger)
      then SumIntAccumulator (some_of (int_values cells)) (sum_ints (int_values cells))
      else SumFloatAccumulator (some_of (float_values cells)) (sum_floats (float_values cells))
  | kAvg =>
      if decide (argument_type spec = kInteger)
      then AvgIntAccumulator (sum_ints (int_values cells)) (Z.of_nat (length (int_values cells)))
      else AvgFloatAccumulator (sum_floats (float_values cells)) (Z.of_nat (length (float_values cells)))
  | kMin | kMax =>
      match argument_type spec with
      | kInteger => MinMaxIntAccumulator (zone_of (int_values cells))
      | kFloat => MinMaxFloatAccumulator (zone_of (float_values cells))
      | kVarchar => MinMaxVarcharAccumulator (some_of (string_values cells)) (least (string_values cells)) (greatest (string_values cells))
      end
  end.

(** An aggregate the engine computes: SUM and AVG of numbers, over an existing column of the
    declared type. *)
Definition spec_ok (tys : list TypeId) (spec : AggregateSpec) : Prop :=
  function spec = kCountStar \/
  exists c, argument_column spec = Some c /\ tys !! c = Some (argument_type spec) /\
    (function spec = kSum \/ function spec = kAvg -> argument_type spec <> kVarchar).

(** The argument's cell of a row. *)
Definition argument_cell (spec : AggregateSpec) (row : list (option Value)) : option Value :=
  match argument_column spec with Some c => cell_at row c | None => None end.

Lemma MakeAccumulator_accumulated spec : MakeAccumulator spec = accumulated spec [].
Proof.
  unfold MakeAccumulator, accumulated. destruct (function spec); try done;
    try (by destruct (decide (argument_type spec = kInteger))); by destruct (argument_type spec).
Qed.

Lemma zone_of_some {T} `{ScalarT : Scalar T} (xs : list T) : has_values_ (zone_of xs) = some_of xs.
Proof. rewrite zone_of_has_values. destruct xs; [done|]. by rewrite bool_decide_true. Qed.

Lemma positive_length {A} (xs : list A) : (0 <? Z.of_nat (length xs)) = some_of xs.
Proof. by destruct xs. Qed.

Lemma some_of_unless {A} (xs : list A) v : (if some_of xs then Some v else None) = unless_empty xs v.
Proof. by destruct xs. Qed.

(** What is emitted is the aggregate, in a builder of the declared type. *)
Lemma accumulator_output_aggregate tys spec cells :
  spec_ok tys spec ->
  accumulator_output (function spec) (accumulated spec cells) = (output_type spec, aggregate spec cells).
Proof.
  intros Hok. unfold accumulated, aggregate, output_type.
  destruct (function spec) eqn:Ef; simpl; try done.
  - destruct Hok as [?|(c & _ & _ & Hty)]; [congruence|]. specialize (Hty (or_introl Ef)).
    destruct (argument_type spec); try done; simpl; by rewrite some_of_unless.
  - destruct (decide (argument_type spec = kInteger)); simpl; by rewrite positive_length, some_of_unless.
  - destruct (argument_type spec); simpl; rewrite ?zone_of_some; by rewrite some_of_unless.
  - destruct (argument_type spec); simpl; rewrite ?zone_of_some; by rewrite some_of_unless.
Qed.

(** ** Feeding one more row *)

Lemma non_null_snoc cells o : non_null (cells ++ [o]) = non_null cells ++ match o with Some v => [v] | None => [] end.
Proof. unfold non_null. rewrite omap_app. by destruct o. Qed.
Lemma int_values_snoc cells o :
  int_values (cells ++ [o]) = int_values cells ++ match o with Some (VInt z) => [z] | _ => [] end.
Proof. unfold int_values. rewrite omap_app. by destruct o as [[]|]. Qed.
Lemma float_values_snoc cells o :
  float_values (cells ++ [o]) = float_values cells ++ match o with Some (VFloat f) => [f] | _ => [] end.
Proof. unfold float_values. rewrite omap_app. by destruct o as [[]|]. Qed.
Lemma string_values_snoc cells o :
  string_values (cells ++ [o]) = string_values cells ++ match o with Some (VStr s) => [s] | _ => [] end.
Proof. unfold string_values. rewrite omap_app. by destruct o as [[]|]. Qed.

Lemma sum_ints_snoc zs z : sum_ints (zs ++ [z]) = sum_ints zs + z.
Proof. unfold sum_ints. by rewrite foldl_app. Qed.
Lemma sum_floats_snoc fs f : sum_floats (fs ++ [f]) = f64_add (sum_floats fs) (f64_of_f32 f).
Proof. unfold sum_floats. by rewrite foldl_app. Qed.
Lemma some_of_snoc {A} (xs : list A) x : some_of (xs ++ [x]) = true.
Proof. by destruct xs. Qed.

Lemma least_snoc xs x : least (xs ++ [x]) = if some_of xs then str_min (least xs) x else x.
Proof. destruct xs; [done|]. simpl. by rewrite foldl_app. Qed.
Lemma greatest_snoc xs x : greatest (xs ++ [x]) = if some_of xs then str_max (greatest xs) x else x.
Proof. destruct xs; [done|]. simpl. by rewrite foldl_app. Qed.

Lemma sum_ints_bound zs : Forall is_i32 zs -> - (Z.of_nat (length zs) * 2 ^ 31) <= sum_ints zs <= Z.of_nat (length zs) * 2 ^ 31.
Proof.
  induction zs as [|z zs IH] using rev_ind; [done|].
  intros [Hzs [Hz _]%Forall_cons]%Forall_app. specialize (IH Hzs). rewrite sum_ints_snoc, length_app.
  unfold is_i32 in Hz. simpl. lia.
Qed.

Definition int_cell (o : option Value) : Prop := forall z, o = Some (VInt z) -> is_i32 z.

Lemma int_values_ok cells : Forall int_cell cells -> Forall is_i32 (int_values cells).
Proof.
  induction 1 as [|o cells Ho _ IH]; [constructor|]. destruct o as [[z| |]|]; simpl; try done.
  constructor; [by apply Ho|done].
Qed.

Lemma length_int_values cells : (length (int_values cells) <= length cells)%nat.
Proof. induction cells as [|[[]|] cells IH]; simpl; lia. Qed.
Lemma length_float_values cells : (length (float_values cells) <= length cells)%nat.
Proof. induction cells as [|[[]|] cells IH]; simpl; lia. Qed.
Lemma length_non_null cells : (length (non_null cells) <= length cells)%nat.
Proof. induction cells as [|[v|] cells IH]; simpl; lia. Qed.

Lemma checked_i64_ok z : is_i64 z -> checked_i64 z = Ok z.
Proof. intros. unfold checked_i64. by rewrite decide_True. Qed.

Lemma sum_step cells z :
  Forall int_cell (cells ++ [Some (VInt z)]) -> Z.of_nat (length cells) < 2 ^ 32 ->
  checked_i64 (sum_ints (int_values cells) + z) = Ok (sum_ints (int_values cells) + z).
Proof.
  intros [Hc [Hz _]%Forall_cons]%Forall_app Hn. apply checked_i64_ok.
  pose proof (sum_ints_bound _ (int_values_ok _ Hc)). pose proof (length_int_values cells).
  specialize (Hz z eq_refl). unfold is_i32, is_i64 in *. lia.
Qed.

(** The argument column of a row, by its cell. *)
Definition column_holds (col : ColumnStorage) (i : nat) (ty : TypeId) (o : option Value) : Prop :=
  col_type col = ty /\ col_IsNull col i = Ok (bool_decide (o = None)) /\
  exists v, col_GetValue col i = Ok v /\ type_of v = ty /\ (forall w, o = Some w -> v = w).

Lemma count_step n m : (n <= m)%nat -> Z.of_nat m < 2 ^ 32 -> checked_i64 (Z.of_nat n + 1) = Ok (Z.of_nat (n + 1)).
Proof. intros. rewrite checked_i64_ok by (unfold is_i64; lia). f_equal. lia. Qed.

Section AccumulateRow.
Context (spec : AggregateSpec) (cells : list (option Value)) (o : option Value).
Hypothesis Hint : Forall int_cell (cells ++ [o]).
Hypothesis Hlen : Z.of_nat (length cells) < 2 ^ 32.

Lemma add_number_spec v :
  argument_type spec <> kVarchar -> function spec <> kCountStar -> function spec <> kCount ->
  type_of v = argument_type spec -> (forall w, o = Some w -> v = w) ->
  add_number (accumulated spec cells) v (bool_decide (o = None)) = Ok (accumulated spec (cells ++ [o])).
Proof.
  intros Hnv Hf1 Hf2 Hty Ho. unfold accumulated.
  destruct o as [w|].
  - rewrite (Ho w eq_refl) in *. rewrite bool_decide_false by done.
    destruct (argument_type spec), w as [z|f|s]; try done;
      rewrite ?int_values_snoc, ?float_values_snoc, ?app_nil_r;
      destruct (function spec); try done; simpl;
      rewrite ?sum_step, ?bind_Ok, ?some_of_snoc, ?sum_ints_snoc, ?sum_floats_snoc, ?zone_of_snoc, ?length_app; simpl;
      rewrite ?(count_step _ (length cells)) by (done || apply length_int_values || apply length_float_values);
      try done.
  - rewrite bool_decide_true by done.
    rewrite int_values_snoc, float_values_snoc, string_values_snoc, !app_nil_r.
    destruct (argument_type spec), v as [z|f|s]; try done; by destruct (function spec).
Qed.

Lemma AccumulateRow_spec chunk i col tys :
  spec_ok tys spec ->
  (function spec <> kCountStar -> forall c, argument_column spec = Some c ->
     chunk_Column chunk c = Ok col /\ column_holds col i (argument_type spec) o) ->
  AccumulateRow (accumulated spec cells) chunk i spec = Ok (accumulated spec (cells ++ [o])).
Proof.
  intros Hok Hcol. destruct (decide (function spec = kCountStar)) as [Hf|Hf].
  { unfold accumulated. rewrite Hf. simpl. rewrite length_app, (count_step _ (length cells)) by done. done. }
  destruct Hok as [?|(c & Hc & _ & Hsum)]; [done|]. destruct (Hcol Hf c Hc) as (Hch & Hcty & Hn & v & Hv & Hvty & Ho).
  assert (AccumulateRow (accumulated spec cells) chunk i spec =
    (match accumulated spec cells with
     | CountAccumulator count => if bool_decide (o = None) then mret (accumulated spec cells) else CountAccumulator <$> checked_i64 (count + 1)
     | MinMaxVarcharAccumulator has min max =>
         match col with
         | VarcharCol c => value ← Varchar.GetValue c i;
             mret (if bool_decide (o = None) then accumulated spec cells else string_minmax has min max value)
         | _ => mret (accumulated spec cells)
         end
     | _ => match col with
            | VarcharCol _ => mret (accumulated spec cells)
            | _ => value ← col_GetValue col i; add_number (accumulated spec cells) value (bool_decide (o = None))
            end
     end)) as ->.
  { unfold AccumulateRow. rewrite Hc, Hch, bind_Ok, Hn, bind_Ok.
    destruct (accumulated spec cells) eqn:E; try done. exfalso. revert E. unfold accumulated.
    destruct (function spec); try done; try (by destruct (decide (argument_type spec = kInteger))); by destruct (argument_type spec). }
  destruct (decide (function spec = kCount)) as [Hf2|Hf2].
  { unfold accumulated. rewrite Hf2, non_null_snoc. destruct o as [w|]; simpl.
    - rewrite length_app, (count_step _ (length cells)) by (done || apply length_non_null). done.
    - by rewrite app_nil_r. }
  destruct (decide (argument_type spec = kVarchar)) as [Hvar|Hnv].
  - destruct col as [col|col|col]; simpl in Hcty; try congruence. simpl in Hv.
    destruct (Varchar.GetValue col i) as [s| | |] eqn:Es; try done. simpl in Hv. injection Hv as <-.
    assert (function spec = kMin \/ function spec = kMax) as Hmm.
    { destruct (function spec); try done; [exfalso; by apply Hsum; [left|]|exfalso; by apply Hsum; [right|]|by left|by right]. }
    assert (forall cs, accumulated spec cs =
      MinMaxVarcharAccumulator (some_of (string_values cs)) (least (string_values cs)) (greatest (string_values cs))) as Hacc
      by (intros cs; unfold accumulated; rewrite Hvar; by destruct Hmm as [-> | ->]).
    rewrite !Hacc, string_values_snoc, bind_Ok. destruct o as [w|]; [|by rewrite app_nil_r].
    specialize (Ho w eq_refl) as <-. simpl. rewrite least_snoc, greatest_snoc, some_of_snoc. unfold string_minmax.
    by destruct (some_of (string_values cells)).
  - assert (col_GetValue col i ≫= (fun value => add_number (accumulated spec cells) value (bool_decide (o = None))) =
      Ok (accumulated spec (cells ++ [o]))) as Hadd by (rewrite Hv, bind_Ok; by apply add_number_spec).
    rewrite <- Hcty in Hnv. unfold accumulated in *.
    destruct (function spec); try done; destruct col as [col|col|col]; try done;
      simpl in Hcty; destruct (argument_type spec); try done.
Qed.

End AccumulateRow.
