(* ===== verification/Aggregate.v ===== *)
(** Model of [src/execution/aggregation_operator.cpp]: the first [GetNext] drains the child
    into one list of accumulators per group, found through the serialized bytes of
    its key; then the groups are emitted in order of first appearance, [kVectorSize]
    at a time, through three vectors of typed column builders. Proved to deliver
    exactly the rows of GROUP BY over the child's rows. *)

From S2P Require Import Prelude Scalar ByteIO Bitmap Columns ZoneMap Chunk Rows Expr Eval Operators HashJoin Accumulator.

(** ** Draining *)

(** The bytes of a key column: a null flag, and for a value a type tag and the value. *)
Definition SerializeKeyBytes (column : ColumnStorage) (row : nat) (out : list byte) : result (list byte) :=
  is_null ← col_IsNull column row;
  let bytes := WriteU8 [] (if is_null : bool then 1 else 0) in
  if is_null : bool then mret (out ++ bytes)
  else
    value ← col_GetValue column row;
    mret (out ++ match value with
                 | VInt z => WriteU32 (bytes ++ [x00]) (u32 z)
                 | VFloat f => WriteFloat (bytes ++ [x01]) f
                 | VStr s => WriteString (bytes ++ [x02]) s
                 end).

(** [GroupKeyValue]: [std::monostate] is [None]. *)
Definition ExtractKeyValue (column : ColumnStorage) (row : nat) : result (option Value) :=
  is_null ← col_IsNull column row;
  if is_null : bool then mret None else Some <$> col_GetValue column row.

Record AggState : Type := mk_agg {
  group_order_ : list (list byte);
  display_values_ : gmap (list byte) (list (option Value));
  accumulators_ : gmap (list byte) (list Accumulator);
}.

Definition new_accumulators (aggregates : list AggregateSpec) : list Accumulator := map MakeAccumulator aggregates.

(** Without GROUP BY there is one group even if there are no rows. *)
Definition start_groups (group_by_columns : list nat) (aggregates : list AggregateSpec) : AggState :=
  match group_by_columns with
  | [] => mk_agg [[]] {[ [] := [] ]} {[ [] := new_accumulators aggregates ]}
  | _ => mk_agg [] ∅ ∅
  end.

Definition group_key (group_by_columns : list nat) (chunk : DataChunk) (row : nat)
    : result (list byte * list (option Value)) :=
  for_each group_by_columns (fun col '(key, values) =>
    column ← chunk_Column chunk col;
    key ← SerializeKeyBytes column row key;
    value ← ExtractKeyValue column row;
    mret (key, values ++ [value])) ([], []).

(** [accumulators_.try_emplace(key)], and what follows an insertion. *)
Definition find_group (aggregates : list AggregateSpec) (key : list byte) (values : list (option Value)) (st : AggState)
    : AggState :=
  match accumulators_ st !! key with
  | Some _ => st
  | None => mk_agg (group_order_ st ++ [key]) (<[key := values]> (display_values_ st))
              (<[key := new_accumulators aggregates]> (accumulators_ st))
  end.

Definition accumulate_group (aggregates : list AggregateSpec) (chunk : DataChunk) (row : nat) (accs : list Accumulator)
    : result (list Accumulator) :=
  update_each (fun i acc => spec ← vec_get aggregates i; AccumulateRow acc chunk row spec) accs.

Definition drain_row (group_by_columns : list nat) (aggregates : list AggregateSpec) (chunk : DataChunk) (row : nat)
    (st : AggState) : result AggState :=
  selected ← IsRowSelected chunk row;
  if negb selected then mret st
  else
    '(key, values) ← group_key group_by_columns chunk row;
    let st := find_group aggregates key values st in
    accs ← accumulate_group aggregates chunk row (default [] (accumulators_ st !! key));
    mret (mk_agg (group_order_ st) (display_values_ st) (<[key := accs]> (accumulators_ st))).

Definition drain_chunk (group_by_columns : list nat) (aggregates : list AggregateSpec) (chunk : DataChunk) (st : AggState)
    : result AggState :=
  for_range 0 (chunk_rows_ chunk) (drain_row group_by_columns aggregates chunk) st.

(** ** Emitting *)

Record OutputBuilders : Type := mk_builders {
  int_cols : list (FixedWidth.FixedWidthColumn Z);
  float_cols : list (FixedWidth.FixedWidthColumn f32);
  varchar_cols : list Varchar.VarcharColumn;
}.

Definition no_builders : OutputBuilders := mk_builders [] [] [].

(** A new builder of a type, and its place in [column_order]. *)
Definition add_builder (st : OutputBuilders * list (TypeId * nat)) (type : TypeId) : OutputBuilders * list (TypeId * nat) :=
  let '(b, order) := st in
  match type with
  | kInteger => (mk_builders (int_cols b ++ [FixedWidth.empty]) (float_cols b) (varchar_cols b),
                 order ++ [(kInteger, length (int_cols b))])
  | kFloat => (mk_builders (int_cols b) (float_cols b ++ [FixedWidth.empty]) (varchar_cols b),
               order ++ [(kFloat, length (float_cols b))])
  | kVarchar => (mk_builders (int_cols b) (float_cols b) (varchar_cols b ++ [Varchar.empty]),
                 order ++ [(kVarchar, length (varchar_cols b))])
  end.

(** [int_idx], [float_idx] and [varchar_idx]. *)
Record BuilderIndices : Type := mk_indices { int_idx : nat; float_idx : nat; varchar_idx : nat }.

(** Append a value, or a null, to the next builder of a type. *)
Definition put_cell (type : TypeId) (o : option Value) (st : OutputBuilders * BuilderIndices)
    : result (OutputBuilders * BuilderIndices) :=
  let '(b, ix) := st in
  match type with
  | kInteger =>
      col ← vec_get (int_cols b) (int_idx ix);
      col ← match o with
            | None => FixedWidth.AppendNull col
            | Some (VInt z) => FixedWidth.Append col z
            | Some _ => Throw BadVariantAccess
            end;
      cols ← vec_set (int_cols b) (int_idx ix) col;
      mret (mk_builders cols (float_cols b) (varchar_cols b), mk_indices (S (int_idx ix)) (float_idx ix) (varchar_idx ix))
  | kFloat =>
      col ← vec_get (float_cols b) (float_idx ix);
      col ← match o with
            | None => FixedWidth.AppendNull col
            | Some (VFloat f) => FixedWidth.Append col f
            | Some _ => Throw BadVariantAccess
            end;
      cols ← vec_set (float_cols b) (float_idx ix) col;
      mret (mk_builders (int_cols b) cols (varchar_cols b), mk_indices (int_idx ix) (S (float_idx ix)) (varchar_idx ix))
  | kVarchar =>
      col ← vec_get (varchar_cols b) (varchar_idx ix);
      col ← match o with
            | None => Varchar.AppendNull col
            | Some (VStr s) => Varchar.Append col s
            | Some _ => Throw BadVariantAccess
            end;
      cols ← vec_set (varchar_cols b) (varchar_idx ix) col;
      mret (mk_builders (int_cols b) (float_cols b) cols, mk_indices (int_idx ix) (float_idx ix) (S (varchar_idx ix)))
  end.

(** A null key value goes to the declared type's builder, a value to its own type's. *)
Definition key_cell_type (declared : TypeId) (o : option Value) : TypeId :=
  match o with None => declared | Some v => type_of v end.

Definition emit_group (group_by_types : list TypeId) (aggregates : list AggregateSpec) (st : AggState) (key : list byte)
    (b : OutputBuilders) : result OutputBuilders :=
  let values := default [] (display_values_ st !! key) in
  let accs := default [] (accumulators_ st !! key) in
  st ← for_range 0 (length group_by_types) (fun g st =>
         value ← vec_get values g;
         type ← vec_get group_by_types g;
         put_cell (key_cell_type type value) value st) (b, mk_indices 0 0 0);
  st ← for_range 0 (length aggregates) (fun a st =>
         spec ← vec_get aggregates a;
         acc ← vec_get accs a;
         let '(type, value) := accumulator_output (function spec) acc in
         put_cell type value st) st;
  mret st.1.

Definition builder_column (b : OutputBuilders) (entry : TypeId * nat) : result ColumnStorage :=
  match entry.1 with
  | kInteger => IntCol <$> vec_get (int_cols b) entry.2
  | kFloat => FloatCol <$> vec_get (float_cols b) entry.2
  | kVarchar => VarcharCol <$> vec_get (varchar_cols b) entry.2
  end.

Definition EmitBatch (group_by_types : list TypeId) (aggregates : list AggregateSpec) (st : AggState) (emit_cursor : nat)
    : result (DataChunk * nat) :=
  let batch_size := Nat.min (Z.to_nat kVectorSize) (length (group_order_ st) - emit_cursor) in
  output ← new_chunk batch_size;
  let '(b, column_order) :=
    foldl add_builder (foldl add_builder (no_builders, []) group_by_types) (map output_type aggregates) in
  b ← for_range 0 batch_size (fun i b =>
        key ← vec_get (group_order_ st) (emit_cursor + i)%nat;
        emit_group group_by_types aggregates st key b) b;
  output ← for_each column_order (fun entry output => column ← builder_column b entry; AddColumn output column) output;
  mret (output, (emit_cursor + batch_size)%nat).

(** ** The operator *)

Section Aggregation.
Context {W S : Type} `{Operator W S}.

(** [drained_] is [state_ <> None]. *)
Record AggregationOperator : Type := mk_aggregation {
  agg_child_ : S;
  group_by_columns_ : list nat;
  group_by_types_ : list TypeId;
  aggregates_ : list AggregateSpec;
  state_ : option AggState;
  emit_cursor_ : nat;
}.

Definition new_aggregation (child : S) (group_by_columns : list nat) (group_by_types : list TypeId)
    (aggregates : list AggregateSpec) : AggregationOperator :=
  mk_aggregation child group_by_columns group_by_types aggregates None 0.

Definition Drain (fuel : nat) (op : AggregationOperator) : io W AggregationOperator :=
  '(child, st) ← drain_child fuel fuel (drain_chunk (group_by_columns_ op) (aggregates_ op)) (agg_child_ op)
                   (start_groups (group_by_columns_ op) (aggregates_ op));
  mret (mk_aggregation child (group_by_columns_ op) (group_by_types_ op) (aggregates_ op) (Some st) (emit_cursor_ op)).

#[global] Instance AggregationOperator_op : Operator W AggregationOperator := fun fuel op =>
  op ← match state_ op with Some _ => mret op | None => Drain fuel op end;
  match state_ op with
  | None => io_lift Undefined
  | Some st =>
      if (length (group_order_ st) <=? emit_cursor_ op)%nat then mret (None, op)
      else
        '(output, cursor) ← io_lift (EmitBatch (group_by_types_ op) (aggregates_ op) st (emit_cursor_ op));
        mret (Some output, mk_aggregation (agg_child_ op) (group_by_columns_ op) (group_by_types_ op) (aggregates_ op)
                             (Some st) cursor)
  end.

End Aggregation.
Arguments AggregationOperator S : clear implicits.

(** ** GROUP BY *)

Definition group_of (group_by_columns : list nat) (row : list (option Value)) : list (option Value) :=
  map (cell_at row) group_by_columns.

Definition add_group (keys : list (list (option Value))) (k : list (option Value)) : list (list (option Value)) :=
  if decide (k ∈ keys) then keys else keys ++ [k].

(** The distinct keys in order of first appearance; the single empty key when there is
    no GROUP BY. *)
Definition groups (group_by_columns : list nat) (rows : list (list (option Value))) : list (list (option Value)) :=
  foldl add_group (if decide (group_by_columns = []) then [[]] else []) (map (group_of group_by_columns) rows).

Definition group_rows (group_by_columns : list nat) (k : list (option Value)) (rows : list (list (option Value)))
    : list (list (option Value)) :=
  filter (fun row => group_of group_by_columns row = k) rows.

Definition group_by (group_by_columns : list nat) (aggregates : list AggregateSpec) (rows : list (list (option Value)))
    : list (list (option Value)) :=
  map (fun k => k ++ map (fun spec => aggregate spec (map (argument_cell spec) (group_rows group_by_columns k rows))) aggregates)
    (groups group_by_columns rows).

(** ** Keys *)

Definition enc_cell (o : option Value) : list byte :=
  match o with
  | None => le_bytes 1 1
  | Some (VInt z) => le_bytes 1 0 ++ [x00] ++ le_bytes 4 (u32 z)
  | Some (VFloat f) => le_bytes 1 0 ++ [x01] ++ le_bytes 4 (f32_bits f)
  | Some (VStr s) => le_bytes 1 0 ++ [x02] ++ le_bytes 4 (u32 (Z.of_nat (String.length s))) ++ bytes_of_string s
  end.

Definition enc (k : list (option Value)) : list byte := concat (map enc_cell k).

Definition cell_ok (o : option Value) : Prop := forall v, o = Some v -> value_ok v.

Lemma row_ok_cell row j : row_ok row -> cell_ok (cell_at row j).
Proof. intros Hr v Hv%cell_at_Some. by eapply Hr. Qed.

Lemma flag_inj a b r r' : (a < 2)%Z -> (b < 2)%Z -> 0 <= a -> 0 <= b -> le_bytes 1 a ++ r = le_bytes 1 b ++ r' -> a = b /\ r = r'.
Proof. intros. apply (le_bytes_inj 1); [simpl; lia..|done]. Qed.

Lemma enc_cell_inj o o' r r' :
  cell_ok o -> cell_ok o' -> enc_cell o ++ r = enc_cell o' ++ r' -> o = o' /\ r = r'.
Proof.
  intros Ho Ho' H. destruct o as [v|], o' as [v'|].
  - specialize (Ho v eq_refl). specialize (Ho' v' eq_refl).
    destruct v as [z|[f]|s], v' as [z'|[f']|s']; cbn [enc_cell] in H; rewrite <- !app_assoc in H;
      apply flag_inj in H as [_ H]; try done.
    + apply app_inv_head in H. apply le_bytes_inj in H as [H ->]; [|apply u32_range..].
      apply u32_inj_i32 in H; [by subst|done..].
    + apply app_inv_head in H. apply le_bytes_inj in H as [H ->]; [|done..]. simpl in H. by subst.
    + apply app_inv_head in H. unfold value_ok, str_len in *. apply le_bytes_inj in H as [Hl H]; [|apply u32_range..].
      rewrite !u32_id in Hl by (unfold is_u32; lia).
      apply app_inj_1 in H as [Hs ->]; [|rewrite !length_bytes_of_string; lia].
      apply bytes_of_string_inj in Hs. by subst.
  - exfalso. destruct v; cbn [enc_cell] in H; rewrite <- !app_assoc in H; by apply flag_inj in H as [? _].
  - exfalso. destruct v'; cbn [enc_cell] in H; rewrite <- !app_assoc in H; by apply flag_inj in H as [? _].
  - by apply flag_inj in H as [_ H].
Qed.

Lemma enc_inj k k' :
  length k = length k' -> Forall cell_ok k -> Forall cell_ok k' -> enc k = enc k' -> k = k'.
Proof.
  revert k'. induction k as [|o k IH]; intros [|o' k'] Hl Hk Hk' H; try done.
  inversion Hk; subst. inversion Hk'; subst. unfold enc in H. cbn [map concat] in H.
  apply enc_cell_inj in H as [-> H]; [|done..]. f_equal. apply IH; [simpl in Hl; lia|done..].
Qed.

Lemma SerializeKeyBytes_spec col ty rs i r out :
  col_repr col ty rs -> rs !! i = Some r -> SerializeKeyBytes col i out = Ok (out ++ enc_cell (cell_of r)).
Proof.
  intros Hcr Hi. destruct r as [v b]. destruct (col_repr_lookup col ty rs i v b Hcr Hi) as (_ & Hg & Hn & _).
  unfold SerializeKeyBytes. rewrite Hn, bind_Ok. destruct b; simpl; [|by rewrite WriteU8_app].
  rewrite Hg, bind_Ok. f_equal. f_equal.
  destruct v; unfold WriteFloat; rewrite ?WriteString_app, ?WriteU32_app, WriteU8_app; by rewrite <- !app_assoc.
Qed.

Lemma ExtractKeyValue_spec col ty rs i r :
  col_repr col ty rs -> rs !! i = Some r -> ExtractKeyValue col i = Ok (cell_of r).
Proof.
  intros Hcr Hi. destruct r as [v b]. destruct (col_repr_lookup col ty rs i v b Hcr Hi) as (_ & Hg & Hn & _).
  unfold ExtractKeyValue. rewrite Hn, bind_Ok. destruct b; simpl; [by rewrite Hg|done].
Qed.

Lemma group_key_spec chunk cols sel i ords :
  chunk_repr chunk cols sel -> (i < length sel)%nat -> Forall (fun o => o < length cols)%nat ords ->
  group_key ords chunk i = Ok (enc (group_of ords (cell_row cols i)), group_of ords (cell_row cols i)).
Proof.
  intros Hch Hi Hords. unfold group_key.
  destruct (for_each_inv (fun dn (s : list byte * list (option Value)) =>
      s = (enc (group_of dn (cell_row cols i)), group_of dn (cell_row cols i)))
    (fun col '(key, values) => column ← chunk_Column chunk col; key ← SerializeKeyBytes column i key;
       value ← ExtractKeyValue column i; mret (key, values ++ [value])) ords ([], [])) as (s & -> & ->); [|done|done].
  intros dn o todo s -> ->. apply Forall_app in Hords as [_ [Ho _]%Forall_cons].
  destruct (lookup_lt_is_Some_2 cols o Ho) as [p Hp].
  destruct (chunk_cell _ _ _ _ _ _ Hch Hi Hp) as (col & r & -> & Hcr & Hr & Hcell). rewrite bind_Ok.
  rewrite (SerializeKeyBytes_spec _ _ _ _ _ _ Hcr Hr), bind_Ok, (ExtractKeyValue_spec _ _ _ _ _ Hcr Hr), bind_Ok.
  eexists. split; [done|]. unfold group_of, enc. rewrite !map_app, concat_app. simpl. by rewrite Hcell, app_nil_r.
Qed.

(** ** What the state holds after some rows *)

Definition group_accs (ords : list nat) (specs : list AggregateSpec) (rows : list (list (option Value)))
    (k : list (option Value)) : list Accumulator :=
  map (fun spec => accumulated spec (map (argument_cell spec) (group_rows ords k rows))) specs.

Record agg_repr (ords : list nat) (specs : list AggregateSpec) (rows : list (list (option Value))) (st : AggState) : Prop := {
  ar_order : group_order_ st = map enc (groups ords rows);
  ar_group : forall k, k ∈ groups ords rows ->
    display_values_ st !! enc k = Some k /\ accumulators_ st !! enc k = Some (group_accs ords specs rows k);
  ar_dom : forall b, is_Some (accumulators_ st !! b) -> exists k, k ∈ groups ords rows /\ b = enc k;
}.

Lemma groups_snoc ords rows row : groups ords (rows ++ [row]) = add_group (groups ords rows) (group_of ords row).
Proof. unfold groups. by rewrite map_app, foldl_app. Qed.

Lemma in_groups ords rows k :
  k ∈ groups ords rows -> k = [] /\ ords = [] \/ exists row, row ∈ rows /\ k = group_of ords row.
Proof.
  induction rows as [|row rows IH] using rev_ind.
  - unfold groups. simpl. destruct (decide (ords = [])); [|by intros ?%not_elem_of_nil].
    intros ->%list_elem_of_singleton. by left.
  - rewrite groups_snoc. unfold add_group. destruct (decide _).
    + intros [?|(r & Hr & ->)]%IH; [by left|]. right. exists r. split; [|done]. apply elem_of_app. by left.
    + intros [[?|(r & Hr & ->)]%IH|Hk]%elem_of_app; [by left| |].
      * right. exists r. split; [|done]. apply elem_of_app. by left.
      * right. exists row. split; [apply elem_of_app; right; by constructor|].
        by apply list_elem_of_singleton in Hk.
Qed.

Lemma row_group ords rows row : row ∈ rows -> group_of ords row ∈ groups ords rows.
Proof.
  induction rows as [|r rows IH] using rev_ind; [by intros ?%not_elem_of_nil|]. rewrite groups_snoc. unfold add_group.
  intros [Hr| ->%list_elem_of_singleton]%elem_of_app.
  - specialize (IH Hr). destruct (decide _); [done|]. apply elem_of_app. by left.
  - destruct (decide _); [done|]. apply elem_of_app. right. by constructor.
Qed.

Lemma length_group ords rows k : k ∈ groups ords rows -> length k = length ords.
Proof. intros [[-> ->]|(row & _ & ->)]%in_groups; [done|]. apply length_map. Qed.

Lemma group_cells_ok ords rows k : Forall row_ok rows -> k ∈ groups ords rows -> Forall cell_ok k.
Proof.
  intros Hok [[-> ->]|(row & Hrow & ->)]%in_groups; [constructor|]. rewrite Forall_forall in Hok.
  apply Forall_map, Forall_forall. intros o _. apply row_ok_cell. auto.
Qed.

Lemma enc_groups_inj ords rows k k' :
  Forall row_ok rows -> k ∈ groups ords rows -> k' ∈ groups ords rows -> enc k = enc k' -> k = k'.
Proof.
  intros Hok Hk Hk'. apply enc_inj; [|by eapply group_cells_ok..].
  rewrite (length_group _ _ _ Hk), (length_group _ _ _ Hk'). done.
Qed.

Lemma group_rows_snoc ords k rows row :
  group_rows ords k (rows ++ [row]) = group_rows ords k rows ++ (if decide (group_of ords row = k) then [row] else []).
Proof. unfold group_rows. rewrite filter_app, filter_cons. by destruct (decide _). Qed.

Lemma group_accs_same ords specs rows row k :
  group_of ords row <> k -> group_accs ords specs (rows ++ [row]) k = group_accs ords specs rows k.
Proof. intros Hne. unfold group_accs. rewrite group_rows_snoc, decide_False, app_nil_r; done. Qed.

Lemma group_rows_new ords rows k : ~ k ∈ groups ords rows -> group_rows ords k rows = [].
Proof. intros Hk. apply filter_none. intros row Hrow <-. by apply Hk, row_group. Qed.

Lemma start_groups_repr ords specs : agg_repr ords specs [] (start_groups ords specs).
Proof.
  assert (group_accs ords specs [] [] = new_accumulators specs) as Hnew.
  { unfold group_accs, new_accumulators. apply map_ext. intros spec. by rewrite MakeAccumulator_accumulated. }
  destruct ords as [|o ords]; unfold start_groups.
  - split; [done| |].
    + intros k ->%list_elem_of_singleton. simpl. rewrite !lookup_singleton_eq. by rewrite Hnew.
    + intros b. simpl. intros [? [<- _]%lookup_singleton_Some]. exists []. split; [by constructor|done].
  - split; [done|by intros k ?%not_elem_of_nil|]. intros b. simpl. rewrite lookup_empty. by intros [].
Qed.

(** Feeding a row to every accumulator of its group. *)
Lemma accumulate_group_spec tys specs chunk c i rows k ords :
  chunk_repr chunk c.1 c.2 -> (i < length c.2)%nat -> c.1.*1 = tys -> Forall (spec_ok tys) specs ->
  Forall row_ok (rows ++ [cell_row c.1 i]) -> Z.of_nat (length rows) < 2 ^ 32 -> group_of ords (cell_row c.1 i) = k ->
  accumulate_group specs chunk i (group_accs ords specs rows k) = Ok (group_accs ords specs (rows ++ [cell_row c.1 i]) k).
Proof.
  intros Hch Hi Htys Hspecs Hok Hn Hk. unfold accumulate_group.
  assert (forall spec, Forall int_cell (map (argument_cell spec) (group_rows ords k rows) ++ [argument_cell spec (cell_row c.1 i)])) as Hint.
  { intros spec. rewrite <- (map_app (argument_cell spec) _ [cell_row c.1 i]). apply Forall_map.
    rewrite Forall_forall in Hok. apply Forall_forall. intros row Hrow z Hz. unfold argument_cell in Hz.
    destruct (argument_column spec) as [j|]; [|done].
    apply (row_ok_cell row j) in Hz; [done|]. apply Hok.
    apply elem_of_app in Hrow as [[_ ?]%list_elem_of_filter|?]; apply elem_of_app; auto. }
  apply update_each_spec; [unfold group_accs; by rewrite !length_map|]. intros j acc Hj.
  unfold group_accs in *. rewrite list_lookup_fmap in *. destruct (specs !! j) as [spec|] eqn:Es; [|done].
  injection Hj as <-. eexists. split; [|done]. rewrite (proj2 (vec_get_Ok _ _ _) Es), bind_Ok.
  rewrite group_rows_snoc, decide_True, map_app by done.
  rewrite Forall_lookup in Hspecs. pose proof (Hspecs _ _ Es) as Hs.
  assert (Z.of_nat (length (map (argument_cell spec) (group_rows ords k rows))) < 2 ^ 32) as Hlen.
  { rewrite length_map. unfold group_rows. pose proof (length_filter (fun row => group_of ords row = k) rows). lia. }
  destruct (decide (function spec = kCountStar)) as [Hf|Hf].
  { by apply (AccumulateRow_spec spec _ _ (Hint spec) Hlen chunk i (empty_column kInteger) tys Hs). }
  destruct Hs as [?|(cc & Hcc & Hty & Hsum)]; [done|]. rewrite <- Htys, list_lookup_fmap in Hty.
  destruct (c.1 !! cc) as [p|] eqn:Ep; [|done]. injection Hty as Hpty.
  destruct (chunk_cell _ _ _ _ _ _ Hch Hi Ep) as (col & [v b] & Hcol & Hcr & Hr & Hcell).
  apply (AccumulateRow_spec spec _ _ (Hint spec) Hlen chunk i col tys); [right; exists cc; split_and!; try done|].
  { by rewrite <- Htys, list_lookup_fmap, Ep, <- Hpty. }
  intros _ c' Hc'. rewrite Hcc in Hc'. injection Hc' as <-. split; [done|].
  destruct (col_repr_lookup _ _ _ _ _ _ Hcr Hr) as (Hvt & Hg & Hnull & _). unfold argument_cell. rewrite Hcc, Hcell.
  split_and!; [rewrite <- Hpty; by eapply col_repr_type|rewrite Hnull; by destruct b|].
  exists v. split_and!; [done|by rewrite Hvt|]. intros w. destruct b; simpl; intros [= ->]; done.
Qed.

Lemma find_group_spec ords specs rows st row :
  agg_repr ords specs rows st -> Forall row_ok (rows ++ [row]) ->
  let k := group_of ords row in
  let st' := find_group specs (enc k) k st in
  group_order_ st' = map enc (groups ords (rows ++ [row])) /\
  accumulators_ st' !! enc k = Some (group_accs ords specs rows k) /\
  (forall k', k' ∈ groups ords (rows ++ [row]) -> display_values_ st' !! enc k' = Some k' /\
     (k' <> k -> accumulators_ st' !! enc k' = Some (group_accs ords specs rows k'))) /\
  (forall b, is_Some (accumulators_ st' !! b) -> exists k', k' ∈ groups ords (rows ++ [row]) /\ b = enc k').
Proof.
  intros [Hord Hgrp Hdom] Hok k. unfold find_group. rewrite groups_snoc. fold k. unfold add_group.
  assert (k ∈ groups ords (rows ++ [row])) as Hk.
  { apply row_group. apply elem_of_app. right. by constructor. }
  pose proof Hok as [Hok1 _]%Forall_app.
  destruct (accumulators_ st !! enc k) as [accs|] eqn:Ea; simpl.
  - destruct (Hdom (enc k)) as (k0 & Hk0 & Hek); [eauto|].
    assert (k0 ∈ groups ords (rows ++ [row])) as Hk0'.
    { rewrite groups_snoc. unfold add_group. destruct (decide _); [done|]. apply elem_of_app. by left. }
    assert (k = k0) as <- by by apply (enc_groups_inj ords (rows ++ [row])).
    rewrite decide_True by done. destruct (Hgrp k Hk0) as [_ Ha]. rewrite Ea in Ha. split_and!; [done|congruence| |done].
    intros k' Hk'. destruct (Hgrp k' Hk'). done.
  - assert (~ k ∈ groups ords rows) as Hnew by (intros Hin; destruct (Hgrp k Hin); congruence).
    rewrite decide_False by done. rewrite !lookup_insert_eq. split_and!.
    + by rewrite Hord, map_app.
    + f_equal. unfold group_accs, new_accumulators. rewrite (group_rows_new _ _ _ Hnew).
      apply map_ext. intros spec. apply MakeAccumulator_accumulated.
    + intros k' Hk'. destruct (decide (k' = k)) as [->|Hne]; [by rewrite lookup_insert_eq|].
      apply elem_of_app in Hk' as [Hk'| ->%list_elem_of_singleton]; [|done].
      assert (enc k <> enc k') as Henc.
      { intros He. apply Hne. symmetry. apply (enc_groups_inj ords (rows ++ [row])); [done|done| |done].
        rewrite groups_snoc. unfold add_group. rewrite decide_False by done. apply elem_of_app. by left. }
      rewrite !lookup_insert_ne by done. by destruct (Hgrp k' Hk').
    + intros b [x [[<- _]|[_ Hb]]%lookup_insert_Some].
      * exists k. split; [|done]. apply elem_of_app. right. by constructor.
      * destruct (Hdom b) as (k' & ? & ?); [eauto|]. exists k'. split; [|done]. apply elem_of_app. by left.
Qed.

Lemma drain_row_spec tys ords specs rows st chunk (c : chunkspec) i (b : bool) post total :
  agg_repr ords specs rows st -> chunk_repr chunk c.1 c.2 -> c.2 !! i = Some b -> c.1.*1 = tys ->
  Forall (fun o => o < length tys)%nat ords -> Forall (spec_ok tys) specs ->
  rows ++ (if b then [cell_row c.1 i] else []) ++ post = total -> Forall row_ok total -> Z.of_nat (length total) < 2 ^ 32 ->
  exists st', drain_row ords specs chunk i st = Ok st' /\
    agg_repr ords specs (rows ++ (if b then [cell_row c.1 i] else [])) st'.
Proof.
  intros Hst Hch Hb Htys Hords Hspecs Htot Hok Hn. pose proof (lookup_lt_Some _ _ _ Hb) as Hi.
  unfold drain_row. rewrite (IsRowSelected_repr _ _ _ _ _ Hch Hb), bind_Ok. destruct b; simpl.
  2: { exists st. split; [done|]. by rewrite app_nil_r. }
  rewrite (group_key_spec chunk c.1 c.2 i ords Hch Hi), bind_Ok by by rewrite <- (length_fmap fst c.1), Htys.
  set (row := cell_row c.1 i) in *. set (k := group_of ords row) in *.
  rewrite app_assoc in Htot. subst total. apply Forall_app in Hok as [Hok _]. rewrite !length_app in Hn.
  destruct (find_group_spec ords specs rows st row Hst Hok) as (Hord & Hacc & Hgrp & Hdom). fold k in Hord, Hacc, Hgrp, Hdom.
  rewrite Hacc. simpl.
  rewrite (accumulate_group_spec tys specs chunk c i rows k ords Hch Hi Htys Hspecs Hok); [|lia|done].
  rewrite bind_Ok. eexists. split; [done|]. split; simpl; [done| |].
  - intros k' Hk'. destruct (Hgrp k' Hk') as [Hd Ha]. split; [done|].
    destruct (decide (k' = k)) as [->|Hne]; [by rewrite lookup_insert_eq|].
    rewrite lookup_insert_ne, group_accs_same; [by apply Ha|by intros Hkk; apply Hne|].
    intros He. apply Hne. symmetry. apply (enc_groups_inj ords (rows ++ [row])); [done| |done|done].
    apply row_group, elem_of_app. right. by constructor.
  - intros b [x [[<- _]|[_ Hx]]%lookup_insert_Some]; [|apply Hdom; eauto].
    exists k. split; [|done]. apply row_group, elem_of_app. right. by constructor.
Qed.

(** ** Builders *)

Definition as_int (c : ColumnStorage) := match c with IntCol c => Some c | _ => None end.
Definition as_float (c : ColumnStorage) := match c with FloatCol c => Some c | _ => None end.
Definition as_varchar (c : ColumnStorage) := match c with VarcharCol c => Some c | _ => None end.

(** The three vectors that hold columns listed in output order. *)
Definition split_cols (cols : list ColumnStorage) : OutputBuilders :=
  mk_builders (omap as_int cols) (omap as_float cols) (omap as_varchar cols).

(** The indices after some columns. *)
Definition split_idx (cols : list ColumnStorage) : BuilderIndices :=
  mk_indices (length (omap as_int cols)) (length (omap as_float cols)) (length (omap as_varchar cols)).

Lemma middle_vec {A} (l1 l2 : list A) x y :
  vec_get (l1 ++ x :: l2) (length l1) = Ok x /\ vec_set (l1 ++ x :: l2) (length l1) y = Ok (l1 ++ y :: l2).
Proof.
  split; [by apply vec_get_Ok, list_lookup_middle|].
  rewrite vec_set_lt by (rewrite length_app; simpl; lia). f_equal. by rewrite insert_app_r_alt, Nat.sub_diag by lia.
Qed.

Lemma omap_middle {A B} (f : A -> option B) l1 x l2 :
  omap f (l1 ++ x :: l2) = omap f l1 ++ match f x with Some y => y :: omap f l2 | None => omap f l2 end.
Proof. rewrite omap_app. done. Qed.

(** Appending to the next builder of a column's type appends to the column. *)
Lemma put_cell_spec l1 l2 col col' ty o :
  col_type col = ty -> col_AppendCell col o = Ok col' ->
  put_cell ty o (split_cols (l1 ++ col :: l2), split_idx l1) =
  Ok (split_cols (l1 ++ col' :: l2), split_idx (l1 ++ [col'])).
Proof.
  intros Hty Happ. unfold put_cell, split_cols, split_idx. rewrite !omap_middle.
  destruct col as [col|col|col]; simpl in Hty; subst ty; destruct o as [[z|f|s]|]; simpl in Happ; try done.
  all: match type of Happ with ?f <$> ?m = _ =>
    destruct m as [cc| | |] eqn:Ec; try done; simpl in Happ; injection Happ as <- end.
  all: cbn [as_int as_float as_varchar int_cols float_cols varchar_cols int_idx float_idx varchar_idx].
  all: match goal with Ec : _ = Ok ?d |- context [vec_get (?a ++ ?x :: ?b) _] =>
    destruct (middle_vec a b x d) as [HG HS] end.
  all: rewrite HG, bind_Ok, Ec, bind_Ok, HS, bind_Ok; cbn [as_int as_float as_varchar omap list_omap];
    rewrite ?app_nil_r, ?length_app; simpl; rewrite ?Nat.add_1_r; done.
Qed.

(** The builders and indices after [j] cells of a row, between the columns before and after. *)
Definition put_state (cols cols' : list ColumnStorage) (j : nat) : OutputBuilders * BuilderIndices :=
  (split_cols (take j cols' ++ drop j cols), split_idx (take j cols')).

(** Appending a row, cell after cell. *)
Lemma put_row_spec tys rows row cols :
  rows_repr cols tys rows ->
  (forall j ty, tys !! j = Some ty -> cell_typed ty (cell_at row j) /\ col_bytes rows j + cell_len (cell_at row j) < 2 ^ 31) ->
  exists cols', rows_repr cols' tys (rows ++ [row]) /\
    forall j ty, tys !! j = Some ty ->
      put_cell ty (cell_at row j) (put_state cols cols' j) = Ok (put_state cols cols' (S j)).
Proof.
  intros Hr Hcells. pose proof (rows_repr_length _ _ _ Hr) as Hlen.
  destruct (append_row_each (fun j col => col_AppendCell col (cell_at row j)) cols tys rows row Hr) as (cols' & _ & Hr' & Heach).
  { intros j ty col Hty Hcr _. destruct (Hcells j ty Hty) as [? ?]. apply col_AppendCell_repr; [done|done|].
    by rewrite str_size_column. }
  exists cols'. split; [done|]. pose proof (rows_repr_length _ _ _ Hr') as Hlen'. intros j ty Hty.
  destruct (rows_repr_lookup _ _ _ j ty Hr Hty) as (col & Hcol & Hcr).
  destruct (lookup_lt_is_Some_2 cols' j) as [col' Hcol']; [apply lookup_lt_Some in Hty; lia|].
  unfold put_state. rewrite (drop_S _ _ _ Hcol), (take_S_r _ _ _ Hcol').
  rewrite (put_cell_spec _ _ col col' ty); [|by eapply col_repr_type|by apply (Heach j)].
  by rewrite <- app_assoc.
Qed.

(** ** The order of the output columns *)

Definition count_type (ty : TypeId) (tys : list TypeId) : nat := length (filter (fun t => t = ty) tys).

Definition order_of (tys : list TypeId) : list (TypeId * nat) := imap (fun j ty => (ty, count_type ty (take j tys))) tys.

Lemma count_type_snoc ty t tys : count_type ty (tys ++ [t]) = (count_type ty tys + (if decide (t = ty) then 1 else 0))%nat.
Proof. unfold count_type. rewrite filter_app, length_app, filter_cons. by destruct (decide (t = ty)). Qed.

Lemma split_counts cols :
  length (omap as_int cols) = count_type kInteger (map col_type cols) /\
  length (omap as_float cols) = count_type kFloat (map col_type cols) /\
  length (omap as_varchar cols) = count_type kVarchar (map col_type cols).
Proof.
  induction cols as [|c cols (IH1 & IH2 & IH3)] using rev_ind; [done|].
  rewrite !omap_app, map_app. cbn [map]. rewrite !count_type_snoc, !length_app, IH1, IH2, IH3. by destruct c.
Qed.

Lemma order_of_snoc tys ty : order_of (tys ++ [ty]) = order_of tys ++ [(ty, count_type ty tys)].
Proof.
  unfold order_of. rewrite imap_app. simpl. rewrite Nat.add_0_r, take_app_length. f_equal.
  apply imap_ext. intros j t Hj. rewrite take_app_le; [done|]. apply lookup_lt_Some in Hj. lia.
Qed.

Lemma map_col_type_empty tys : map col_type (map empty_column tys) = tys.
Proof. rewrite map_map. rewrite <- (map_id tys) at 2. apply map_ext. by intros []. Qed.

Lemma make_builders tys :
  foldl add_builder (no_builders, []) tys = (split_cols (map empty_column tys), order_of tys).
Proof.
  induction tys as [|ty tys IH] using rev_ind; [done|].
  rewrite foldl_app, IH, order_of_snoc, map_app. simpl. destruct (split_counts (map empty_column tys)) as (H1 & H2 & H3).
  rewrite map_col_type_empty in *. unfold split_cols. rewrite !omap_app.
  destruct ty; simpl; rewrite ?H1, ?H2, ?H3, ?app_nil_r; done.
Qed.

Lemma builder_column_spec cols j col :
  cols !! j = Some col ->
  builder_column (split_cols cols) (col_type col, count_type (col_type col) (take j (map col_type cols))) = Ok col.
Proof.
  intros Hj. destruct (split_counts (take j cols)) as (H1 & H2 & H3).
  assert (map col_type (take j cols) = take j (map col_type cols)) as Ht by (symmetry; apply take_map || apply firstn_map).
  rewrite Ht in *. rewrite <- (take_drop_middle _ _ _ Hj) at 1. unfold builder_column, split_cols. rewrite !omap_middle.
  destruct col as [c|c|c]; simpl; rewrite <- ?H1, <- ?H2, <- ?H3; by rewrite (proj1 (middle_vec _ _ c c)).
Qed.

Lemma add_in_order cols output :
  for_each (order_of (map col_type cols)) (fun entry output => column ← builder_column (split_cols cols) entry; AddColumn output column) output =
  add_columns cols output.
Proof.
  assert (Forall2 (fun e c => builder_column (split_cols cols) e = Ok c) (order_of (map col_type cols)) cols) as HF.
  { apply Forall2_same_length_lookup_2; [unfold order_of; by rewrite length_imap, length_map|].
    intros j e c He Hc. unfold order_of in He. rewrite list_lookup_imap, list_lookup_fmap, Hc in He. simpl in He.
    injection He as <-. by apply builder_column_spec. }
  unfold add_columns. revert output HF. generalize (order_of (map col_type cols)), (split_cols cols).
  intros order b output HF. revert output. induction HF as [|e c order cs He _ IH]; intros output; [done|]. simpl.
  rewrite He, bind_Ok. destruct (AddColumn output c); try done. by rewrite !bind_Ok, IH.
Qed.

(** ** Aggregates are well typed and short *)

Lemma unless_empty_Some {A} (xs : list A) v w : unless_empty xs v = Some w -> v = w /\ xs <> [].
Proof. destruct xs; [done|]. intros [= ->]. done. Qed.

Lemma aggregate_typed tys spec cells : spec_ok tys spec -> cell_typed (output_type spec) (aggregate spec cells).
Proof.
  intros Hok v. unfold aggregate, output_type, count_value. destruct (function spec) eqn:Ef; try (by intros [= <-]).
  - destruct Hok as [?|(c & _ & _ & Hty)]; [congruence|]. specialize (Hty (or_introl Ef)).
    destruct (argument_type spec); try done; simpl; by intros [<- _]%unless_empty_Some.
  - destruct (decide _); by intros [<- _]%unless_empty_Some.
  - destruct (argument_type spec); by intros [<- _]%unless_empty_Some.
  - destruct (argument_type spec); by intros [<- _]%unless_empty_Some.
Qed.

Lemma least_in x s : least (x :: s) ∈ x :: s.
Proof.
  simpl. induction s as [|y s IH] using rev_ind; [by constructor|]. rewrite foldl_app. simpl.
  unfold str_min. destruct (str_ltb _ _).
  - rewrite app_comm_cons. apply elem_of_app. right. by constructor.
  - rewrite app_comm_cons. apply elem_of_app. by left.
Qed.

Lemma greatest_in x s : greatest (x :: s) ∈ x :: s.
Proof.
  simpl. induction s as [|y s IH] using rev_ind; [by constructor|]. rewrite foldl_app. simpl.
  unfold str_max. destruct (str_ltb _ _).
  - rewrite app_comm_cons. apply elem_of_app. right. by constructor.
  - rewrite app_comm_cons. apply elem_of_app. by left.
Qed.

Lemma string_values_in cells s : s ∈ string_values cells -> Some (VStr s) ∈ cells.
Proof. unfold string_values. intros ([[z|f|s']|] & Ho & [= ->])%list_elem_of_omap. done. Qed.

Lemma aggregate_short spec cells :
  (forall o, o ∈ cells -> cell_len o < 2 ^ 21) -> cell_len (aggregate spec cells) < 2 ^ 21.
Proof.
  intros Hs. unfold aggregate, count_value.
  assert (forall A (xs : list A) z, cell_len (unless_empty xs (VInt z)) < 2 ^ 21) as HI by (by intros ? [] ?).
  assert (forall A (xs : list A) z, cell_len (unless_empty xs (VFloat z)) < 2 ^ 21) as HF by (by intros ? [] ?).
  destruct (function spec); try done; try (destruct (decide _); done || apply HI || apply HF);
    destruct (argument_type spec); try apply HI; try apply HF;
    destruct (string_values cells) as [|x s] eqn:E; try done;
    (apply (Hs (Some (VStr _))), string_values_in; rewrite E; destruct (decide _); apply least_in || apply greatest_in).
Qed.

(** ** Emitting groups *)

Definition out_row (ords : list nat) (specs : list AggregateSpec) (rows : list (list (option Value))) (k : list (option Value))
    : list (option Value) :=
  k ++ map (fun spec => aggregate spec (map (argument_cell spec) (group_rows ords k rows))) specs.

Section Emit.
Context (tys : list TypeId) (ords : list nat) (gts : list TypeId) (specs : list AggregateSpec).
Context (rows : list (list (option Value))) (st : AggState).
Hypothesis Hst : agg_repr ords specs rows st.
Hypothesis Hgts : key_types ords tys = Some gts.
Hypothesis Hspecs : Forall (spec_ok tys) specs.
Hypothesis Htyped : Forall (row_typed tys) rows.
Hypothesis Hok : Forall row_ok rows.

Definition out_types : list TypeId := gts ++ map output_type specs.

Lemma key_types_lookup os kts g : key_types os tys = Some kts -> (os !! g ≫= fun o => tys !! o) = kts !! g.
Proof.
  unfold key_types. revert kts g. induction os as [|o os IH]; intros kts g Hk; simpl in Hk.
  - injection Hk as <-. done.
  - destruct (tys !! o) as [ty|] eqn:E; [|done]. simpl in Hk. destruct (mapM _ os) as [kts'|] eqn:Em; [|done].
    injection Hk as <-. destruct g as [|g]; [by simpl|]. simpl. by apply IH.
Qed.

Lemma length_gts : length gts = length ords.
Proof.
  clear -Hgts. unfold key_types in Hgts. revert gts Hgts. induction ords as [|o os IH]; intros kts Hk; simpl in Hk.
  - injection Hk as <-. done.
  - destruct (tys !! o); [|done]. simpl in Hk. destruct (mapM _ os) as [kts'|]; [|done]. injection Hk as <-.
    simpl. f_equal. by apply IH.
Qed.

Lemma group_cell_typed k g gty : k ∈ groups ords rows -> gts !! g = Some gty ->
  cell_typed gty (cell_at k g) /\ cell_len (cell_at k g) < 2 ^ 21.
Proof.
  intros Hk Hg. assert (g < length gts)%nat as Hlt by by eapply lookup_lt_Some. rewrite length_gts in Hlt.
  destruct (in_groups _ _ _ Hk) as [[-> Hnil]|(row & Hrow & ->)]; [rewrite Hnil in Hlt; simpl in Hlt; lia|].
  rewrite Forall_forall in Htyped, Hok. destruct (lookup_lt_is_Some_2 ords g Hlt) as [o Ho].
  assert (cell_at (group_of ords row) g = cell_at row o) as ->
    by (unfold group_of, cell_at at 1; by rewrite list_lookup_fmap, Ho).
  split; [|by apply row_ok_short, Hok]. intros v Hv%cell_at_Some.
  pose proof (key_types_lookup ords gts g Hgts) as Hkt. rewrite Ho, Hg in Hkt. simpl in Hkt.
  destruct (Htyped row Hrow) as [_ Hr]. by eapply Hr.
Qed.

Lemma out_row_cells k : k ∈ groups ords rows -> forall j ty, out_types !! j = Some ty ->
  cell_typed ty (cell_at (out_row ords specs rows k) j) /\ cell_len (cell_at (out_row ords specs rows k) j) < 2 ^ 21.
Proof.
  intros Hk j ty Hj. unfold out_types in Hj. pose proof (length_group _ _ _ Hk) as Hl. pose proof length_gts as Hlg.
  unfold out_row. apply lookup_app_Some in Hj as [Hj|[Hge Hj]].
  - assert (cell_at (k ++ map (fun spec => aggregate spec (map (argument_cell spec) (group_rows ords k rows))) specs) j =
      cell_at k j) as ->; [|by apply group_cell_typed].
    unfold cell_at. rewrite lookup_app_l; [done|]. apply lookup_lt_Some in Hj. lia.
  - rewrite list_lookup_fmap in Hj. destruct (specs !! (j - length gts)%nat) as [spec|] eqn:Es; [|done].
    simpl in Hj. injection Hj as <-.
    assert (cell_at (k ++ map (fun spec => aggregate spec (map (argument_cell spec) (group_rows ords k rows))) specs) j =
      aggregate spec (map (argument_cell spec) (group_rows ords k rows))) as ->.
    { unfold cell_at. rewrite lookup_app_r by lia. by rewrite list_lookup_fmap, Hl, <- Hlg, Es. }
    rewrite Forall_lookup in Hspecs. split; [eapply aggregate_typed, Hspecs; exact Es|].
    apply aggregate_short. intros o (row & -> & [_ Hrow]%list_elem_of_filter)%list_elem_of_fmap.
    unfold argument_cell. destruct (argument_column spec); [|done].
    rewrite Forall_forall in Hok. by apply row_ok_short, Hok.
Qed.

Lemma length_out_row k : k ∈ groups ords rows -> length (out_row ords specs rows k) = length out_types.
Proof.
  intros Hk. unfold out_row, out_types. by rewrite !length_app, !length_map, (length_group _ _ _ Hk), length_gts.
Qed.

(** The two loops of [emit_group], given that the cells of the row can be put one by one. *)
Section EmitRow.
Context (k : list (option Value)) (Hk : k ∈ groups ords rows) (cols cols' : list ColumnStorage).
Context (Hput : forall j ty, out_types !! j = Some ty ->
  put_cell ty (cell_at (out_row ords specs rows k) j) (put_state cols cols' j) = Ok (put_state cols cols' (S j))).

Lemma put_keys : exists s1,
  for_range 0 (length gts) (fun g st => value ← vec_get k g; type ← vec_get gts g; put_cell (key_cell_type type value) value st)
    (put_state cols cols' 0) = Ok s1 /\ s1 = put_state cols cols' (length gts).
Proof.
  pose proof (length_group _ _ _ Hk) as Hlk. pose proof length_gts as Hlg.
  apply (for_range_inv (fun g s => s = put_state cols cols' g)); [|done].
  intros g s Hg ->. destruct (lookup_lt_is_Some_2 k g) as [o Ho]; [lia|].
  destruct (lookup_lt_is_Some_2 gts g) as [gty Hgty]; [lia|].
  rewrite (proj2 (vec_get_Ok _ _ _) Ho), bind_Ok, (proj2 (vec_get_Ok _ _ _) Hgty), bind_Ok.
  assert (cell_at (out_row ords specs rows k) g = o) as Hco.
  { unfold out_row, cell_at. rewrite lookup_app_l by lia. by rewrite Ho. }
  assert (out_types !! g = Some gty) as Hot by (unfold out_types; rewrite lookup_app_l by lia; done).
  assert (key_cell_type gty o = gty) as ->.
  { destruct o as [v|]; [|done]. simpl. destruct (out_row_cells k Hk g gty Hot) as [Hct _]. rewrite Hco in Hct. by apply Hct. }
  rewrite <- Hco, (Hput g gty Hot). eauto.
Qed.

Lemma put_aggregates : exists s2,
  for_range 0 (length specs) (fun a st => spec ← vec_get specs a; acc ← vec_get (group_accs ords specs rows k) a;
      let '(type, value) := accumulator_output (function spec) acc in put_cell type value st)
    (put_state cols cols' (length gts)) = Ok s2 /\ s2 = put_state cols cols' (length gts + length specs).
Proof.
  pose proof (length_group _ _ _ Hk) as Hlk. pose proof length_gts as Hlg.
  apply (for_range_inv (fun a s => s = put_state cols cols' (length gts + a))); [|by rewrite Nat.add_0_r].
  intros a s Hsa ->. destruct (lookup_lt_is_Some_2 specs a) as [spec Hs]; [lia|].
  rewrite (proj2 (vec_get_Ok _ _ _) Hs), bind_Ok.
  rewrite (proj2 (vec_get_Ok (group_accs ords specs rows k) a _)) by (unfold group_accs; by rewrite list_lookup_fmap, Hs).
  rewrite bind_Ok. rewrite Forall_lookup in Hspecs.
  rewrite (accumulator_output_aggregate tys) by by eapply Hspecs.
  assert (out_types !! (length gts + a)%nat = Some (output_type spec)) as Hot.
  { unfold out_types. rewrite lookup_app_r by lia. rewrite list_lookup_fmap.
    replace (length gts + a - length gts)%nat with a by lia. by rewrite Hs. }
  assert (cell_at (out_row ords specs rows k) (length gts + a) =
    aggregate spec (map (argument_cell spec) (group_rows ords k rows))) as <-.
  { unfold out_row, cell_at. rewrite lookup_app_r by lia. rewrite list_lookup_fmap.
    replace (length gts + a - length k)%nat with a by lia. by rewrite Hs. }
  rewrite (Hput _ _ Hot). eexists. split; [done|]. f_equal. lia.
Qed.
End EmitRow.

Lemma emit_group_spec k done_ cols :
  k ∈ groups ords rows -> rows_repr cols out_types done_ -> (length done_ < 1024)%nat ->
  Forall (fun r => forall j, cell_len (cell_at r j) < 2 ^ 21) done_ ->
  exists cols', emit_group gts specs st (enc k) (split_cols cols) = Ok (split_cols cols') /\
    rows_repr cols' out_types (done_ ++ [out_row ords specs rows k]).
Proof.
  intros Hk Hr Hroom Hshort. pose proof (out_row_cells k Hk) as Hcells.
  destruct (put_row_spec out_types done_ (out_row ords specs rows k) cols Hr) as (cols' & Hr' & Hput).
  { intros j ty Hj. destruct (Hcells j ty Hj) as [Hct Hlen]. split; [exact Hct|].
    pose proof (col_bytes_bound done_ j (2 ^ 21)) as Hb. rewrite Forall_forall in Hshort.
    assert (col_bytes done_ j <= 2 ^ 21 * Z.of_nat (length done_)); [|lia].
    apply Hb. intros r Hin. specialize (Hshort r Hin j). lia. }
  exists cols'. split; [|done]. destruct (ar_group _ _ _ _ Hst k Hk) as [Hd Ha].
  pose proof (rows_repr_length _ _ _ Hr) as Hlc. pose proof (rows_repr_length _ _ _ Hr') as Hlc'.
  unfold emit_group. rewrite Hd, Ha. simpl default.
  destruct (put_keys k Hk cols cols' Hput) as (s1 & Hs1 & ->). destruct (put_aggregates k Hk cols cols' Hput) as (s2 & Hs2 & ->).
  change (split_cols cols, mk_indices 0 0 0) with (put_state cols cols' 0). rewrite Hs1, bind_Ok, Hs2, bind_Ok.
  unfold put_state, mret, result_ret. simpl. do 2 f_equal.
  unfold out_types in *. rewrite length_app, length_map in *. by rewrite take_ge, drop_ge, app_nil_r by lia.
Qed.

Lemma EmitBatch_spec cursor :
  let outs := map (out_row ords specs rows) (groups ords rows) in
  let batch := take 1024 (drop cursor outs) in
  exists output, EmitBatch gts specs st cursor = Ok (output, (cursor + length batch)%nat) /\
    chunk_repr output (specs_of out_types batch) (replicate (length batch) true).
Proof.
  intros outs batch. unfold EmitBatch. change (Z.to_nat kVectorSize) with 1024%nat.
  assert (length (group_order_ st) = length outs) as Hlo by (rewrite (ar_order _ _ _ _ Hst); unfold outs; by rewrite !length_map).
  assert (Nat.min 1024 (length (group_order_ st) - cursor) = length batch) as ->
    by (unfold batch; rewrite length_take, length_drop; lia).
  assert (length batch <= 1024)%nat as Hb by (unfold batch; rewrite length_take; lia).
  destruct (new_chunk_repr (length batch) Hb) as (o0 & -> & Ho0 & _). rewrite bind_Ok.
  rewrite <- foldl_app. fold out_types. rewrite make_builders.
  destruct (for_range_inv (fun i b => exists cols, b = split_cols cols /\ rows_repr cols out_types (take i batch))
    (fun i b => key ← vec_get (group_order_ st) (cursor + i)%nat; emit_group gts specs st key b)
    0 (length batch) (split_cols (map empty_column out_types))) as (b & -> & cols & -> & Hr).
  - intros i b Hi (cols & -> & Hr). destruct (lookup_lt_is_Some_2 batch i) as [row Hrow]; [lia|].
    assert (outs !! (cursor + i)%nat = Some row) as Hout.
    { unfold batch in Hrow. rewrite lookup_take_Some, lookup_drop in Hrow. by destruct Hrow. }
    unfold outs in Hout. rewrite list_lookup_fmap in Hout. destruct (groups ords rows !! (cursor + i)%nat) as [k|] eqn:Ek; [|done].
    simpl in Hout. injection Hout as <-.
    rewrite (proj2 (vec_get_Ok (group_order_ st) _ (enc k))), bind_Ok
      by (rewrite (ar_order _ _ _ _ Hst), list_lookup_fmap; by rewrite Ek).
    destruct (emit_group_spec k (take i batch) cols) as (cols' & -> & Hr').
    + by eapply list_elem_of_lookup_2.
    + done.
    + rewrite length_take. lia.
    + apply Forall_take. unfold batch. apply Forall_take, Forall_drop. unfold outs. apply Forall_map, Forall_forall.
      intros k' Hk' j. destruct (decide (j < length out_types)%nat) as [Hj|Hj].
      * destruct (lookup_lt_is_Some_2 out_types j Hj) as [ty Hty]. by apply (out_row_cells k' Hk' j ty).
      * unfold cell_at. rewrite lookup_ge_None_2; [done|]. rewrite length_out_row by done. lia.
    + eexists. split; [done|]. exists cols'. split; [done|]. by rewrite (take_S_r _ _ _ Hrow).
  - exists (map empty_column out_types). split; [done|]. apply rows_repr_empty.
  - rewrite bind_Ok. rewrite Nat.add_0_l, take_ge in Hr by lia.
    assert (map col_type cols = out_types) as Hct.
    { apply list_eq. intros j. rewrite list_lookup_fmap. destruct (cols !! j) as [col|] eqn:Ec; simpl.
      - destruct (lookup_lt_is_Some_2 out_types j) as [ty Hty];
          [apply lookup_lt_Some in Ec; by rewrite (rows_repr_length _ _ _ Hr) in Ec|].
        destruct (rows_repr_lookup _ _ _ j ty Hr Hty) as (col' & Hcol' & Hcr). rewrite Hty.
        rewrite Ec in Hcol'. injection Hcol' as <-. f_equal. by eapply col_repr_type.
      - symmetry. apply lookup_ge_None. rewrite <- (rows_repr_length _ _ _ Hr). by apply lookup_ge_None. }
    rewrite <- Hct in *. rewrite add_in_order.
    destruct (add_columns_spec o0 _ cols (specs_of (map col_type cols) batch) [] Ho0) as (o1 & -> & Ho1);
      [rewrite length_replicate; exact Hr|]. rewrite bind_Ok. eexists. split; [done|]. exact Ho1.
Qed.

End Emit.

(** ** Without GROUP BY: one group of all rows *)

Lemma group_rows_all rows : group_rows [] [] rows = rows.
Proof. unfold group_rows. induction rows as [|row rows IH]; [done|]. rewrite filter_cons_True by done. by rewrite IH. Qed.

Lemma groups_no_keys rows : groups [] rows = [[]].
Proof.
  unfold groups. rewrite decide_True by done. induction rows as [|row rows IH]; [done|]. cbn [map foldl].
  unfold add_group at 2. by rewrite decide_True by (by apply list_elem_of_singleton).
Qed.

Lemma no_key_group rows : [] ∈ groups [] rows.
Proof. rewrite groups_no_keys. by apply list_elem_of_singleton. Qed.

Lemma group_by_all specs rows :
  group_by [] specs rows = [map (fun spec => aggregate spec (map (argument_cell spec) rows)) specs].
Proof. unfold group_by. rewrite groups_no_keys. cbn [map app]. by rewrite group_rows_all. Qed.

(** ** The operator's stream *)

(** The chunks that deliver a list of rows, [kVectorSize] at a time. *)
Fixpoint batches (n : nat) (tys : list TypeId) (rows : list (list (option Value))) : list chunkspec :=
  match n, rows with
  | Datatypes.S n', _ :: _ =>
      (specs_of tys (take 1024 rows), replicate (length (take 1024 rows)) true) :: batches n' tys (drop 1024 rows)
  | _, _ => []
  end.

Lemma rows_of_batches n tys rows :
  (length rows <= n)%nat -> Forall (fun row => length row = length tys) rows -> rows_of (batches n tys rows) = rows.
Proof.
  revert rows. induction n as [|n IH]; intros [|row rows] Hn Hl; try done; [simpl in Hn; lia|].
  cbn [batches]. rewrite rows_of_cons. cbn [fst snd]. rewrite live_rows_specs by by apply Forall_take.
  rewrite IH; [apply take_drop|rewrite length_drop; simpl in *; lia|by apply Forall_drop].
Qed.

Section AggregationCorrect.
Context {W : Type} (inv : W -> Prop) {S : Type} `{Operator W S} (fuel : nat).

Lemma emit_delivers tys ords gts specs rows st child cursor n :
  agg_repr ords specs rows st -> key_types ords tys = Some gts -> Forall (spec_ok tys) specs ->
  Forall (row_typed tys) rows -> Forall row_ok rows ->
  (length (drop cursor (map (out_row ords specs rows) (groups ords rows))) <= n)%nat ->
  delivers inv fuel (mk_aggregation child ords gts specs (Some st) cursor)
    (batches n (out_types gts specs) (drop cursor (map (out_row ords specs rows) (groups ords rows)))).
Proof.
  intros Hst Hgts Hspecs Htyped Hok. set (outs := map (out_row ords specs rows) (groups ords rows)).
  assert (length (group_order_ st) = length outs) as Hlo by (rewrite (ar_order _ _ _ _ Hst); unfold outs; by rewrite !length_map).
  revert cursor. induction n as [|n IH]; intros cursor Hn.
  - assert (drop cursor outs = []) as -> by (destruct (drop cursor outs); [done|simpl in Hn; lia]).
    intros w Hw. assert (length outs <= cursor)%nat by (rewrite length_drop in Hn; lia).
    eexists _, w. split; [|exact Hw]. unfold GetNext, AggregationOperator_op. simpl. unfold mbind, io_bind, mret, io_ret. simpl.
    rewrite (proj2 (Nat.leb_le _ _)) by lia. done.
  - destruct (drop cursor outs) as [|row rest] eqn:E; intros w Hw.
    + assert (length outs <= cursor)%nat by (apply (f_equal length) in E; rewrite length_drop in E; simpl in E; lia).
      eexists _, w. split; [|exact Hw]. unfold GetNext, AggregationOperator_op. simpl. unfold mbind, io_bind, mret, io_ret. simpl.
      rewrite (proj2 (Nat.leb_le _ _)) by lia. done.
    + assert (cursor < length outs)%nat as Hlt by (apply (f_equal length) in E; rewrite length_drop in E; simpl in E; lia).
      cbn [batches]. rewrite <- E.
      destruct (EmitBatch_spec tys ords gts specs rows st Hst Hgts Hspecs Htyped Hok cursor) as (output & HE & Ho).
      fold outs in HE, Ho. set (batch := take 1024 (drop cursor outs)) in *.
      exists output, (mk_aggregation child ords gts specs (Some st) (cursor + length batch)), w. split_and!; [|done|exact Ho|].
      * unfold GetNext, AggregationOperator_op. simpl. unfold mbind, io_bind, mret, io_ret, io_lift. simpl.
        rewrite (proj2 (Nat.leb_gt _ _)) by lia. by rewrite HE.
      * assert (drop 1024 (drop cursor outs) = drop (cursor + length batch) outs) as ->.
        { unfold batch. rewrite drop_drop, length_take, length_drop.
          destruct (decide (1024 <= length outs - cursor)%nat); [f_equal; lia|]. rewrite !drop_ge by lia. done. }
        apply IH. unfold batch. rewrite !length_drop, length_take, length_drop.
        apply (f_equal length) in E. rewrite length_drop in E. cbn [length] in *. lia.
Qed.

(** The chunks of the groups. *)
Definition group_batches (ords : list nat) (gts : list TypeId) (specs : list AggregateSpec) (rows : list (list (option Value)))
    : list chunkspec := batches (length (group_by ords specs rows)) (out_types gts specs) (group_by ords specs rows).

Lemma Drain_spec (w : W) child cs tys ords gts specs :
  inv w -> delivers inv fuel child cs -> (length cs < fuel)%nat ->
  Forall (fun c => c.1.*1 = tys) cs -> key_types ords tys = Some gts -> Forall (spec_ok tys) specs ->
  Forall row_ok (rows_of cs) -> Z.of_nat (length (rows_of cs)) < 2 ^ 32 ->
  exists child' st w', Drain fuel (new_aggregation child ords gts specs) w = (Ok (mk_aggregation child' ords gts specs (Some st) 0), w') /\
    inv w' /\ agg_repr ords specs (rows_of cs) st.
Proof.
  intros Hw Hd Hfuel Htys Hgts Hspecs Hok Hn.
  assert (Forall (fun o => o < length tys)%nat ords) as Hords.
  { eapply Forall_impl; [by eapply key_types_in_range|]. intros o [? ?]. by eapply lookup_lt_Some. }
  destruct (drain_child_spec inv fuel (drain_chunk ords specs) (agg_repr ords specs) cs fuel child (start_groups ords specs)
    [] (rows_of cs) w Hd Hfuel Hw (start_groups_repr ords specs) eq_refl) as (child' & st & w1 & HD & Hw1 & Hst).
  { intros chunk c dn st rest Hc Hch Htot Hst. unfold drain_chunk.
    apply (for_live_rows (agg_repr ords specs) _ chunk c dn rest (rows_of cs) st Hch Hst Htot).
    intros i b dn' sti post Hb Hsti Hpost. rewrite Forall_forall in Htys.
    by eapply (drain_row_spec tys ords specs dn' sti chunk c i b post (rows_of cs)); auto. }
  exists child', st, w1. split_and!; [|done..]. unfold Drain, mbind, io_bind. simpl. by rewrite HD.
Qed.

Lemma aggregation_delivers (w : W) child cs tys ords gts specs :
  inv w -> delivers inv fuel child cs -> (length cs < fuel)%nat ->
  Forall (fun c => c.1.*1 = tys) cs -> key_types ords tys = Some gts -> Forall (spec_ok tys) specs ->
  Forall row_ok (rows_of cs) -> Z.of_nat (length (rows_of cs)) < 2 ^ 32 ->
  delivers inv fuel (new_aggregation child ords gts specs) (group_batches ords gts specs (rows_of cs)) /\
  rows_of (group_batches ords gts specs (rows_of cs)) = group_by ords specs (rows_of cs).
Proof.
  intros Hw Hd Hfuel Htys Hgts Hspecs Hok Hn.
  pose proof (rows_of_typed cs tys (delivers_chunks inv fuel child cs w Hd Hw) Htys) as Htyped.
  unfold group_batches.
  change (group_by ords specs (rows_of cs)) with (drop 0 (map (out_row ords specs (rows_of cs)) (groups ords (rows_of cs)))).
  split; [|apply rows_of_batches; [reflexivity|]].
  - apply (delivers_via inv fuel (S' := AggregationOperator S)). intros w0 Hw0.
    destruct (Drain_spec w0 child cs tys ords gts specs Hw0 Hd Hfuel Htys Hgts Hspecs Hok Hn) as (child' & st & w1 & HD & Hw1 & Hst).
    exists (mk_aggregation child' ords gts specs (Some st) 0), w1. split_and!; [done| |].
    + unfold GetNext at 1 2, AggregationOperator_op. simpl. unfold mbind, io_bind. by rewrite HD.
    + by apply (emit_delivers tys).
  - apply Forall_drop, Forall_map, Forall_forall. intros k Hk. by apply (length_out_row tys).
Qed.

(** C9. [AggregationOperator] is GROUP BY: over a child that delivers rows of known column types,
    it delivers one row per distinct key (nulls are equal to each other and floats are
    compared by their bits), in order of first appearance, made of the key and the
    aggregates of the rows with that key; without GROUP BY columns it delivers exactly
    one row, also for no input. SUM and AVG are over numbers. *)
Theorem AggregationOperator_correct (w : W) child cs tys ords gts specs :
  inv w -> delivers inv fuel child cs -> (length cs < fuel)%nat ->
  Forall (fun c => c.1.*1 = tys) cs -> key_types ords tys = Some gts -> Forall (spec_ok tys) specs ->
  Forall row_ok (rows_of cs) -> Z.of_nat (length (rows_of cs)) < 2 ^ 32 ->
  exists out, delivers inv fuel (new_aggregation child ords gts specs) out /\
    rows_of out = group_by ords specs (rows_of cs).
Proof. intros. eexists. by apply (aggregation_delivers w _ _ tys). Qed.

(** C35. [SELECT SUM(c)] over an INTEGER column, run by the operator over a child that delivers
    any such rows: [Drain] accumulates the exact sum of the non-null values (in 64 bits, which
    fewer than 2^32 rows cannot overflow), and the one row that is then delivered has this
    sum reduced modulo 2^32 to an [int32], without an error; it is the sum exactly when the
    sum is an [int32]. *)
Theorem integer_sum_wraps (w : W) child cs tys c :
  inv w -> delivers inv fuel child cs -> (length cs < fuel)%nat ->
  Forall (fun c => c.1.*1 = tys) cs -> tys !! c = Some kInteger ->
  Forall row_ok (rows_of cs) -> Z.of_nat (length (rows_of cs)) < 2 ^ 32 ->
  let zs := int_values (map (fun row => cell_at row c) (rows_of cs)) in
  let op := new_aggregation child [] [] [mk_spec kSum (Some c) kInteger] in
  zs <> [] ->
  (exists op' st w', Drain fuel op w = (Ok op', w') /\ state_ op' = Some st /\
     accumulators_ st !! [] = Some [SumIntAccumulator true (sum_ints zs)]) /\
  (exists out, delivers inv fuel op out /\ rows_of out = [[Some (VInt (i32 (sum_ints zs)))]]) /\
  (i32 (sum_ints zs) = sum_ints zs <-> is_i32 (sum_ints zs)).
Proof.
  intros Hw Hd Hfuel Htys Hc Hok Hn zs op Hzs. set (spec := mk_spec kSum (Some c) kInteger).
  assert (Forall (spec_ok tys) [spec]) as Hspecs.
  { constructor; [|constructor]. right. exists c. by split_and!. }
  assert (map (argument_cell spec) (group_rows [] [] (rows_of cs)) = map (fun row => cell_at row c) (rows_of cs)) as Hcells
    by (by rewrite group_rows_all).
  split_and!.
  - destruct (Drain_spec w child cs tys [] [] [spec] Hw Hd Hfuel Htys eq_refl Hspecs Hok Hn) as (child' & st & w' & HD & _ & Hst).
    eexists _, st, w'. split_and!; [exact HD|done|]. destruct (ar_group _ _ _ _ Hst []) as [_ Ha]; [by apply no_key_group|].
    change (enc []) with (@nil byte) in Ha. rewrite Ha. unfold group_accs. cbn [map]. rewrite Hcells.
    unfold accumulated. simpl. fold zs. by destruct zs.
  - destruct (aggregation_delivers w child cs tys [] [] [spec] Hw Hd Hfuel Htys eq_refl Hspecs Hok Hn) as [Ho Hr].
    eexists. split; [exact Ho|]. rewrite Hr, group_by_all. cbn [map]. do 2 f_equal.
    change (aggregate spec (map (argument_cell spec) (rows_of cs))) with (unless_empty zs (VInt (i32 (sum_ints zs)))).
    by destruct zs.
  - split; [intros <-; apply i32_range|apply i32_id].
Qed.

End AggregationCorrect.

Definition sum_column : list (TypeId * list (Value * bool)) := [(kInteger, [(VInt (2 ^ 31 - 1), true); (VInt 1, true)])].

Lemma integer_sum_wraps_witness :
  exists chunk out, chunk_repr chunk sum_column [true; true] /\
    delivers (fun _ : unit => True) 2 (new_aggregation [chunk] [] [] [mk_spec kSum (Some 0%nat) kInteger]) out /\
    rows_of out = [[Some (VInt (- 2 ^ 31))]].
Proof.
  assert (Forall (fragment_ok 2) sum_column) as Hfr by (constructor; [split_and!; [done|by repeat constructor|done]|constructor]).
  destruct (chunk_exists sum_column 2 ltac:(lia) Hfr) as [chunk Hch]. exists chunk.
  assert (delivers (fun _ : unit => True) 2 [chunk] [(sum_column, [true; true])]) as Hd
    by (apply replay_delivers; constructor; [exact Hch|constructor]).
  assert (Forall row_ok (rows_of [(sum_column, [true; true])])) as Hok.
  { vm_compute rows_of. constructor; [|constructor; [|constructor]]; intros [|j] v Hv; inversion Hv; subst; split; done. }
  destruct (integer_sum_wraps (fun _ : unit => True) 2 tt [chunk] [(sum_column, [true; true])] [kInteger] 0 I Hd
    ltac:(simpl; lia) ltac:(constructor; [done|constructor]) eq_refl Hok ltac:(by vm_compute) ltac:(discriminate))
    as (_ & (out & Hout & Hrows) & _).
  exists out. split_and!; [exact Hch|exact Hout|]. rewrite Hrows. vm_compute. reflexivity.
Defined.

Lemma AggregationOperator_correct_witness :
  exists chunk out, chunk_repr chunk two_rows [true; true] /\
    delivers (fun _ : unit => True) 2
      (new_aggregation [chunk] [] [] [mk_spec kCountStar None kInteger; mk_spec kCount (Some 0%nat) kInteger; mk_spec kSum (Some 0%nat) kInteger]) out /\
    rows_of out = [[Some (VInt 2); Some (VInt 1); Some (VInt 5)]].
Proof.
  destruct (chunk_exists two_rows 2 ltac:(lia) two_rows_fragment) as [chunk Hch]. exists chunk.
  assert (delivers (fun _ : unit => True) 2 [chunk] [(two_rows, [true; true])]) as Hd
    by (apply replay_delivers; constructor; [exact Hch|constructor]).
  assert (Forall row_ok (rows_of [(two_rows, [true; true])])) as Hok.
  { vm_compute rows_of. constructor; [|constructor; [|constructor]]; intros [|[|j]] v Hv; inversion Hv; subst; split; done. }
  destruct (AggregationOperator_correct (fun _ : unit => True) 2 tt [chunk] [(two_rows, [true; true])] [kInteger] [] []
    [mk_spec kCountStar None kInteger; mk_spec kCount (Some 0%nat) kInteger; mk_spec kSum (Some 0%nat) kInteger] I Hd)
    as (out & Hout & Hrows).
  - simpl. lia.
  - constructor; [done|constructor].
  - done.
  - constructor; [by left|constructor; [|constructor; [|constructor]]]; right; exists 0%nat; split_and!; try done;
      intros _; discriminate.
  - exact Hok.
  - by vm_compute.
  - exists out. split_and!; [exact Hch|exact Hout|]. rewrite Hrows. vm_compute. reflexivity.
Defined.
