(* ===== verification/Layout.v ===== *)
(** The bytes of a row group: the serializers of [src/execution/insert_executor.cpp] and the
    readers of [src/execution/seq_scan_operator.cpp] that take the same bytes apart
    (values, offsets, validity bits), with the lemmas that each reader inverts its
    serializer. A pointer is an offset into a memory, because the scan reads both
    scratch vectors and frames of the buffer pool. *)

From S2P Require Import Prelude Scalar ByteIO Bitmap Columns Chunk Rows Disk.

(** ** Serializers *)

Section SerializeFixed.
Context {T : Type} `{ScalarT : Scalar T}.

Definition SerializeFixedWidth (column : FixedWidth.FixedWidthColumn T) (row_count : nat) : result (list byte) :=
  for_range 0 row_count (fun i bytes =>
    value ← FixedWidth.GetValue column i;
    mret (splice bytes (i * 4) (le_bytes 4 (sc_bits value)))) (replicate (row_count * 4) x00).

End SerializeFixed.

(** [offsets_bytes] and [data_bytes]. *)
Definition SerializeVarchar (column : Varchar.VarcharColumn) (row_count : nat) : result (list byte * list byte) :=
  '(offsets_bytes, data_bytes, _) ← for_range 0 row_count (fun i '(offsets_bytes, data_bytes, running_offset) =>
    value ← Varchar.GetValue column i;
    let data_bytes := data_bytes ++ bytes_of_string value in
    let running_offset := u32 (running_offset + u32 (Z.of_nat (String.length value))) in
    mret (WriteU32 offsets_bytes running_offset, data_bytes, running_offset)) (WriteU32 [] 0, [], 0);
  mret (offsets_bytes, data_bytes).

(** [(row_count + 7) / 8] in 32 bits. *)
Definition bytes_per_column (row_count : nat) : nat := Z.to_nat (u32 (Z.of_nat row_count + 7) / 8).

(** [bytes[k] |= static_cast<std::uint8_t>(1U << (row % 8))]. *)
Definition set_row_bit (bytes : list byte) (k row : nat) : result (list byte) :=
  old ← vec_get bytes k;
  vec_set bytes k (byte_of_Z (Z.lor (Z_of_byte old) (bit_mask row))).

Definition BuildValidityBitmapBytes (columns : list ColumnStorage) (row_count : nat) : result (list byte) :=
  for_range 0 (length columns) (fun col bytes =>
    column ← vec_get columns col;
    for_range 0 row_count (fun row bytes =>
      is_null ← col_IsNull column row;
      if is_null : bool then mret bytes
      else set_row_bit bytes (col * bytes_per_column row_count + row / 8) row) bytes)
    (replicate (bytes_per_column row_count * length columns) x00).

(** ** Readers *)

(** A 32-bit load at a pointer into a memory. *)
Definition load_u32 (mem : list byte) (ptr : nat) : result Z :=
  if decide (ptr + 4 <= length mem)%nat then Ok (le_value (region mem ptr 4)) else Undefined.

(** [values[i]] of a [const T*]. *)
Definition load_value {T} `{Scalar T} (mem : list byte) (values i : nat) : result T :=
  sc_of_bits <$> load_u32 mem (values + i * 4).

Definition load_bytes (mem : list byte) (ptr n : nat) : result (list byte) :=
  if decide (ptr + n <= length mem)%nat then Ok (region mem ptr n) else Undefined.

Definition IsColumnValidAtRow (mem : list byte) (bitmap_region row_group_row_count column_ordinal row_in_group : nat)
    : result bool :=
  let column_bytes := (bitmap_region + column_ordinal * bytes_per_column row_group_row_count)%nat in
  byte ← vec_get mem (column_bytes + row_in_group / 8);
  mret (negb (Z.land (Z.shiftr (Z_of_byte byte) (Z.of_nat (row_in_group mod 8))) 1 =? 0)).

(** ** What the serializers write *)

Definition fixed_bytes {T} `{Scalar T} (xs : list T) : list byte := concat (map (fun x => le_bytes 4 (sc_bits x)) xs).
Definition offset_bytes (offs : list Z) : list byte := concat (map (le_bytes 4) offs).

Lemma splice_app (a b d : list byte) :
  d <> [] -> (length d <= length b)%nat -> splice (a ++ b) (length a) d = a ++ d ++ drop (length d) b.
Proof.
  intros Hd Hl. unfold splice. rewrite decide_False, take_app_length by done.
  replace (length a - length (a ++ b))%nat with 0%nat by (rewrite length_app; lia). simpl.
  do 2 f_equal. rewrite drop_app_ge by lia. f_equal. lia.
Qed.

Lemma region_region c a n b m : (b + m <= n)%nat -> region (region c a n) b m = region c (a + b) m.
Proof.
  intros. unfold region. rewrite <- drop_drop. rewrite skipn_firstn_comm, take_take. f_equal. lia.
Qed.

Lemma region_lookup c off n k : (k < n)%nat -> region c off n !! k = c !! (off + k)%nat.
Proof. intros. unfold region. by rewrite lookup_take_lt, lookup_drop. Qed.

Lemma length_blocks {A} (f : A -> list byte) k xs :
  (forall x, length (f x) = k) -> length (concat (map f xs)) = (length xs * k)%nat.
Proof. intros Hf. induction xs as [|x xs IH]; [done|]. simpl. rewrite length_app, IH, Hf. lia. Qed.

Lemma region_block {A} (f : A -> list byte) k xs i x post :
  (forall x, length (f x) = k) -> xs !! i = Some x -> region (concat (map f xs) ++ post) (i * k) k = f x.
Proof.
  intros Hf Hi. pose proof (take_drop_middle xs i x Hi) as Heq. rewrite <- Heq, map_app, concat_app. simpl.
  rewrite <- !app_assoc. unfold region.
  rewrite drop_app_length'.
  - by rewrite <- (Hf x), take_app_length.
  - rewrite (length_blocks f k) by done. rewrite length_take_le; [lia|]. apply lookup_lt_Some in Hi. lia.
Qed.

Lemma length_fixed_bytes {T} `{Scalar T} (xs : list T) : length (fixed_bytes xs) = (length xs * 4)%nat.
Proof. apply length_blocks. intros x. apply length_le_bytes. Qed.

Lemma length_offset_bytes offs : length (offset_bytes offs) = (length offs * 4)%nat.
Proof. apply length_blocks. intros x. apply length_le_bytes. Qed.

Lemma SerializeFixedWidth_spec {T} `{Scalar T} (column : FixedWidth.FixedWidthColumn T) :
  SerializeFixedWidth column (FixedWidth.Size column) = Ok (fixed_bytes (FixedWidth.values_ column)).
Proof.
  unfold SerializeFixedWidth, FixedWidth.Size. set (xs := FixedWidth.values_ column). set (n := length xs).
  edestruct (for_range_inv (fun i bytes => bytes = fixed_bytes (take i xs) ++ replicate ((n - i) * 4) x00))
    as (b & -> & ->); [| |].
  - intros i b Hi ->. destruct (lookup_lt_is_Some_2 xs i) as [x Hx]; [lia|].
    rewrite (FixedWidth.GetValue_spec column i x) by done. cbn [mbind result_bind mret result_ret].
    eexists. split; [done|].
    assert (length (fixed_bytes (take i xs)) = i * 4)%nat as Hl
      by (rewrite length_fixed_bytes, length_take; lia).
    rewrite <- Hl, splice_app; [|done|rewrite length_le_bytes, length_replicate; lia].
    rewrite (take_S_r _ _ _ Hx). unfold fixed_bytes. rewrite map_app, concat_app, <- app_assoc. f_equal.
    cbn [map concat]. rewrite app_nil_r. f_equal. rewrite length_le_bytes, drop_replicate. f_equal. lia.
  - cbn [fixed_bytes take]. by rewrite Nat.sub_0_r.
  - rewrite Nat.add_0_l, Nat.sub_diag, app_nil_r, take_ge by lia. done.
Qed.

Lemma SerializeVarchar_spec column l :
  Varchar.repr column l ->
  SerializeVarchar column (length l) = Ok (offset_bytes (Varchar.rows_offsets l), Varchar.rows_data l).
Proof.
  intros Hr. pose proof Hr as (_ & _ & _ & _ & Hs). unfold SerializeVarchar.
  edestruct (for_range_inv (fun i st => st = (offset_bytes (Varchar.rows_offsets (take i l)),
    Varchar.rows_data (take i l), Varchar.rows_size (take i l)))) as (st & -> & ->); [| |].
  - intros i st Hi ->. destruct (lookup_lt_is_Some_2 l i) as [o Ho]; [lia|].
    rewrite (Varchar.GetValue_repr column l i o) by done. cbn [mbind result_bind mret result_ret].
    eexists. split; [done|].
    pose proof (Varchar.rows_size_take (S i) l) as Hle. rewrite (take_S_r _ _ _ Ho) in *.
    rewrite Varchar.rows_offsets_snoc, Varchar.rows_data_app, Varchar.rows_data_one.
    rewrite Varchar.rows_size_app in *.
    assert (Varchar.rows_size [o] = Z.of_nat (String.length (Varchar.row_string o))) as Ho1.
    { unfold Varchar.rows_size. rewrite Varchar.rows_data_one. unfold Varchar.row_bytes.
      by rewrite length_bytes_of_string. }
    pose proof (Varchar.rows_size_nonneg (take i l)). rewrite Ho1 in *.
    rewrite (u32_id (Z.of_nat _)), u32_id by (unfold is_u32; lia). rewrite WriteU32_app.
    do 2 f_equal. unfold offset_bytes. rewrite map_app, concat_app. cbn [map concat]. by rewrite app_nil_r.
  - done.
  - cbn [mbind result_bind]. by rewrite Nat.add_0_l, take_ge by lia.
Qed.

(** ** Reading them back *)

Lemma load_u32_region mem ptr n (content : list byte) off :
  region mem ptr n = content -> length content = n -> (off + 4 <= n)%nat ->
  load_u32 mem (ptr + off) = Ok (le_value (region content off 4)).
Proof.
  intros Hc Hl Hoff. unfold load_u32. rewrite <- Hc, region_region by lia.
  rewrite decide_True; [done|].
  assert (length (region mem ptr n) = n) as Hn by by rewrite Hc.
  unfold region in Hn. rewrite length_take, length_drop in Hn. lia.
Qed.

Lemma le_value_u32 z : is_u32 z -> le_value (le_bytes 4 z) = z.
Proof. intros Hz. rewrite le_value_bytes. apply Z.mod_small. exact Hz. Qed.

Lemma load_value_block {T} `{ScalarLaws T} mem ptr (xs : list T) post n v i x :
  region mem ptr n = region (fixed_bytes xs ++ post) (v * 4) n -> length (region mem ptr n) = n ->
  (i * 4 + 4 <= n)%nat -> xs !! (v + i)%nat = Some x -> sc_ok x ->
  load_value mem ptr i = Ok x.
Proof.
  intros Hmem Hn Hi Hx Hok. unfold load_value. rewrite (load_u32_region mem ptr n _ (i * 4) eq_refl) by done.
  rewrite Hmem, region_region by lia. replace (v * 4 + i * 4)%nat with ((v + i) * 4)%nat by lia.
  unfold fixed_bytes. rewrite (region_block _ 4 xs (v + i) x); [|intros; apply length_le_bytes|done].
  cbn [fmap result_fmap]. rewrite le_value_u32 by by apply sc_bits_u32. by rewrite sc_of_bits_bits.
Qed.

Lemma load_offset offs post i z :
  offs !! i = Some z -> is_u32 z -> load_u32 (offset_bytes offs ++ post) (i * 4) = Ok z.
Proof.
  intros Hi Hz. unfold load_u32. pose proof (lookup_lt_Some _ _ _ Hi).
  rewrite decide_True by (rewrite length_app, length_offset_bytes; lia).
  unfold offset_bytes. rewrite (region_block (le_bytes 4) 4 offs i z); [|intros; apply length_le_bytes|done].
  by rewrite le_value_u32.
Qed.

(** ** Validity bits *)

Definition disk_bit (bytes : list byte) (k b : nat) : bool :=
  match bytes !! k with Some x => Z.testbit (Z_of_byte x) (Z.of_nat b) | None => false end.

(** The validity of row [r] of column [j]. *)
Definition valid_at (cols : list colspec) (j r : nat) : bool :=
  match cols !! j with Some p => match p.2 !! r with Some v => v.2 | None => false end | None => false end.

Lemma land_shiftr_testbit z n : 0 <= n -> negb (Z.land (Z.shiftr z n) 1 =? 0) = Z.testbit z n.
Proof.
  intros Hn. change 1 with (Z.ones 1) at 1. rewrite Z.land_ones by lia.
  rewrite Z.testbit_odd, Zmod_odd. by destruct (Z.odd _).
Qed.

Lemma IsColumnValidAtRow_bit mem base rows j r n content :
  region mem base n = content -> length content = n -> (j * bytes_per_column rows + r / 8 < n)%nat ->
  IsColumnValidAtRow mem base rows j r = Ok (disk_bit content (j * bytes_per_column rows + r / 8) (r mod 8)).
Proof.
  intros Hc Hl Hk. unfold IsColumnValidAtRow, disk_bit.
  set (k := (j * bytes_per_column rows + r / 8)%nat) in *.
  destruct (lookup_lt_is_Some_2 content k) as [x Hx]; [lia|]. rewrite Hx.
  rewrite <- Hc, region_lookup in Hx by done.
  assert (vec_get mem (base + j * bytes_per_column rows + r / 8) = Ok x) as ->.
  { apply vec_get_Ok. rewrite <- Hx. f_equal. unfold k. lia. }
  cbn [mbind result_bind]. by rewrite land_shiftr_testbit by lia.
Qed.

Lemma bytes_per_column_lt rows r : Z.of_nat rows + 7 < 2 ^ 32 -> (r < rows)%nat -> (r / 8 < bytes_per_column rows)%nat.
Proof.
  intros Hs Hr. unfold bytes_per_column. rewrite u32_id by (unfold is_u32; lia).
  apply Nat2Z.inj_lt. rewrite Z2Nat.id by (apply Z.div_pos; lia). rewrite Nat2Z.inj_div.
  change (Z.of_nat 8) with 8. apply Z.div_lt_upper_bound; [lia|].
  pose proof (Z.div_mod (Z.of_nat rows + 7) 8 ltac:(lia)). pose proof (Z.mod_pos_bound (Z.of_nat rows + 7) 8 ltac:(lia)). lia.
Qed.

Lemma set_row_bit_spec bytes k row :
  (k < length bytes)%nat -> exists bytes', set_row_bit bytes k row = Ok bytes' /\ length bytes' = length bytes /\
    forall k' b, (b < 8)%nat ->
      disk_bit bytes' k' b = if decide (k' = k /\ b = row mod 8)%nat then true else disk_bit bytes k' b.
Proof.
  intros Hk. destruct (lookup_lt_is_Some_2 bytes k Hk) as [old Ho]. unfold set_row_bit.
  rewrite (proj2 (vec_get_Ok _ _ _) Ho). cbn [mbind result_bind]. rewrite vec_set_lt by done.
  eexists. split; [done|]. split; [apply length_insert|]. intros k' b Hb. unfold disk_bit.
  destruct (decide (k' = k)) as [->|Hne].
  - rewrite list_lookup_insert_eq, Ho by done. rewrite Z_of_byte_of_Z, testbit_u8 by lia.
    rewrite Z.lor_spec, testbit_bit_mask by lia.
    replace (Z.of_nat b <? 8) with true by (symmetry; apply Z.ltb_lt; lia). rewrite andb_true_r.
    destruct (Z.eqb_spec (Z.of_nat b) (Z.of_nat (row mod 8))).
    + rewrite decide_True by (split; [done|lia]). apply orb_true_r.
    + rewrite decide_False by (intros [_ ?]; lia). apply orb_false_r.
  - rewrite list_lookup_insert_ne by done. by rewrite decide_False by tauto.
Qed.

(** The rows before row [i] of column [j], in the order in which the bits are set. *)
Definition before (j i j' r : nat) : bool := bool_decide (j' < j \/ j' = j /\ r < i)%nat.

Definition bits_before (cols : list colspec) (rows j i : nat) (bytes : list byte) : Prop :=
  length bytes = (bytes_per_column rows * length cols)%nat /\
  forall j' r, (j' < length cols)%nat -> (r < rows)%nat ->
    disk_bit bytes (j' * bytes_per_column rows + r / 8) (r mod 8) = before j i j' r && valid_at cols j' r.

Lemma bit_position bpc j r j' r' :
  (r / 8 < bpc)%nat -> (r' / 8 < bpc)%nat ->
  (j' * bpc + r' / 8 = j * bpc + r / 8 /\ r' mod 8 = r mod 8)%nat <-> j' = j /\ r' = r.
Proof.
  intros H1 H2. split; [|by intros [-> ->]]. intros [Ha Hb].
  assert (j' = j) as -> by nia. split; [done|].
  rewrite (Nat.div_mod_eq r 8), (Nat.div_mod_eq r' 8). lia.
Qed.

Lemma bits_before_step cols rows j i ty rs v b column bytes :
  Z.of_nat rows + 7 < 2 ^ 32 -> (i < rows)%nat -> col_repr column ty rs -> cols !! j = Some (ty, rs) ->
  rs !! i = Some (v, b) -> bits_before cols rows j i bytes ->
  exists bytes', (is_null ← col_IsNull column i;
    if is_null : bool then mret bytes else set_row_bit bytes (j * bytes_per_column rows + i / 8) i) = Ok bytes' /\
    bits_before cols rows j (S i) bytes'.
Proof.
  intros Hs Hi Hc Hj Hv [Hl Hb]. destruct (col_repr_lookup column ty rs i v b Hc Hv) as (_ & _ & -> & _).
  cbn [mbind result_bind].
  assert (forall j' r, (j' < length cols)%nat -> (r < rows)%nat ->
    before j (S i) j' r && valid_at cols j' r =
    if decide (j' = j /\ r = i) then b else before j i j' r && valid_at cols j' r) as Hstep.
  { intros j' r _ _. unfold before. destruct (decide (j' = j /\ r = i)) as [[-> ->]|Hne].
    - rewrite bool_decide_true by lia. unfold valid_at. by rewrite Hj; simpl; rewrite Hv.
    - f_equal. apply bool_decide_ext. lia. }
  pose proof (bytes_per_column_lt rows i Hs Hi) as Hk. apply lookup_lt_Some in Hj as Hjl.
  destruct b; cbn [negb].
  - destruct (set_row_bit_spec bytes (j * bytes_per_column rows + i / 8) i) as (bytes' & -> & Hl' & Hb'); [nia|].
    exists bytes'. split; [done|]. split; [by rewrite Hl'|]. intros j' r Hj' Hr.
    pose proof (bytes_per_column_lt rows r Hs Hr) as Hk'.
    rewrite Hb', Hstep, Hb by (done || (apply Nat.mod_upper_bound; lia)).
    by rewrite (decide_ext _ _ _ _ (bit_position _ j i j' r Hk Hk')).
  - exists bytes. split; [done|]. split; [done|]. intros j' r Hj' Hr. rewrite Hstep, Hb by done.
    case_decide as Heq; [|done]. destruct Heq as [-> ->]. unfold before. rewrite bool_decide_false; [done|lia].
Qed.

Lemma BuildValidityBitmapBytes_spec columns cols rows :
  Z.of_nat rows + 7 < 2 ^ 32 -> columns_repr columns rows cols ->
  exists bytes, BuildValidityBitmapBytes columns rows = Ok bytes /\ bits_before cols rows (length cols) 0 bytes.
Proof.
  intros Hs Hc. pose proof (Forall2_length _ _ _ Hc) as Hlen. unfold BuildValidityBitmapBytes.
  rewrite Hlen. apply (for_range_inv (fun j bytes => bits_before cols rows j 0 bytes) _ 0 (length cols)).
  - intros j bytes Hj Hb. destruct (lookup_lt_is_Some_2 columns j) as [column Hcol]; [lia|].
    destruct (columns_repr_lookup _ _ _ _ _ Hc Hcol) as (ty & rs & Hp & Hcr & Hrs).
    rewrite (proj2 (vec_get_Ok _ _ _) Hcol). cbn [mbind result_bind].
    destruct (for_range_inv (fun i bytes => bits_before cols rows j i bytes) (fun row bytes =>
      is_null ← col_IsNull column row;
      if is_null : bool then mret bytes else set_row_bit bytes (j * bytes_per_column rows + row / 8) row) 0 rows bytes)
      as (bytes' & HR & Hb').
    + intros i bs Hi Hbs. destruct (lookup_lt_is_Some_2 rs i) as [[v b] Hv]; [lia|].
      eapply (bits_before_step cols rows j i ty rs v b); [done|lia|done..].
    + done.
    + exists bytes'. split; [exact HR|]. destruct Hb' as [Hl' Hb']. split; [done|].
      intros j' r Hj' Hr. rewrite Hb' by lia. unfold before. f_equal. apply bool_decide_ext. lia.
  - split; [rewrite length_replicate; lia|]. intros j' r Hj' Hr. unfold before.
    rewrite bool_decide_false by lia. unfold disk_bit.
    rewrite lookup_replicate_2; [change (Z_of_byte x00) with 0; by rewrite Z.bits_0|]. pose proof (bytes_per_column_lt rows r Hs Hr). nia.
Qed.

(** The bit the scan tests is the validity the insert stored. *)
Lemma validity_roundtrip cols rows bytes mem base n pad j r :
  Z.of_nat rows + 7 < 2 ^ 32 -> bits_before cols rows (length cols) 0 bytes ->
  region mem base n = region (bytes ++ pad) 0 n -> length (region mem base n) = n ->
  (j < length cols)%nat -> (r < rows)%nat -> (j * bytes_per_column rows + r / 8 < n)%nat ->
  IsColumnValidAtRow mem base rows j r = Ok (valid_at cols j r).
Proof.
  intros Hs [Hl Hb] Hmem Hn Hj Hr Hk. rewrite (IsColumnValidAtRow_bit mem base rows j r n _ eq_refl Hn Hk).
  f_equal. rewrite Hmem. unfold disk_bit. rewrite region_lookup by done. rewrite Nat.add_0_l.
  pose proof (bytes_per_column_lt rows r Hs Hr). rewrite lookup_app_l by nia.
  specialize (Hb j r Hj Hr). unfold disk_bit in Hb. rewrite Hb. unfold before. by rewrite bool_decide_true by lia.
Qed.
