(* ===== verification/Pages.v ===== *)
(** Reading pages through the buffer pool: a client fetches a page, uses the pointer and
    unpins the page ([with_page]); [FetchWholeRegion] of
    [src/execution/seq_scan_operator.cpp] copies a page range that way. Such reads are
    [quiet]: they keep the pool's invariant, every page's contents, every pin count
    and the number of usable frames. *)

From S2P Require Import Prelude ByteIO Footer Disk Replacer BufferPool Layout.

Section Pages.
Context {F : Type} `{PosixFile F}.

Definition with_page {A} (page : Z) (body : nat -> io (Store F) A) : io (Store F) A :=
  ptr ← FetchPage page;
  a ← body ptr;
  _ ← on_pool (UnpinPage page false);
  mret a.

(** [memcpy(..., page, kPageSizeBytes)]. *)
Definition copy_page (page : Z) : io (Store F) (list byte) :=
  with_page page (fun ptr => on_pool (pool_read ptr kPage)).

Definition FetchWholeRegion (range : PageRange) : io (Store F) (list byte) :=
  for_range 0 (Z.to_nat (page_count range)) (fun i scratch =>
    page ← copy_page (u32 (start_page_id range + Z.of_nat i));
    mret (splice scratch (i * kPage) page)) (replicate (Z.to_nat (page_count range) * kPage) x00).

End Pages.

(** ** Page ranges *)

(** The pages of a range hold [content], as the engine sees them. *)
Record stored_as (view : Z -> option (list byte)) (range : PageRange) (content : list byte) : Prop := {
  st_start : 0 < start_page_id range;
  st_count : 0 <= page_count range;
  st_end : start_page_id range + page_count range < 2 ^ 32;
  st_length : length content = (Z.to_nat (page_count range) * kPage)%nat;
  st_page : forall i, (i < Z.to_nat (page_count range))%nat ->
    view (start_page_id range + Z.of_nat i) = Some (region content (i * kPage) kPage);
}.

(** The same up to padding at the end. *)
Definition stored (view : Z -> option (list byte)) (range : PageRange) (data : list byte) : Prop :=
  exists pad, stored_as view range (data ++ pad).

Lemma stored_as_mono (view view' : Z -> option (list byte)) range content :
  (forall p bs, is_u32 p -> view p = Some bs -> view' p = Some bs) ->
  stored_as view range content -> stored_as view' range content.
Proof.
  intros Hv [H1 H2 H3 H4 H5]. split; [done..|]. intros i Hi. apply Hv; [|by apply H5].
  unfold is_u32. lia.
Qed.

Lemma stored_mono (view view' : Z -> option (list byte)) range data :
  (forall p bs, is_u32 p -> view p = Some bs -> view' p = Some bs) ->
  stored view range data -> stored view' range data.
Proof. intros Hv [pad Hs]. exists pad. by eapply stored_as_mono. Qed.

Lemma kPage_pos : (0 < kPage)%nat.
Proof. unfold kPage, kPageSizeBytes. lia. Qed.

Lemma region_prefix_step content n k :
  region content 0 (n * k) ++ region content (n * k) k = region content 0 (S n * k).
Proof. replace (S n * k)%nat with (n * k + k)%nat by lia. by rewrite region_plus. Qed.

(** ** Quiet operations *)

Section PagesFacts.
Context {F : Type} `{PosixFileLaws F}.
(** The pages a client reads. *)
Context (view : Z -> option (list byte)).

Implicit Types s : Store F.

(** A page that a client's reads have brought into the pool, or that was there. *)
Definition cached_in s s' : Prop :=
  forall p f, page_table_ (pool_ s') !! p = Some f -> is_Some (page_table_ (pool_ s) !! p) \/ is_Some (view p).

Record quiet s s' : Prop := {
  q_wf : store_wf s';
  q_pages : forall p bs, is_u32 p -> logical_page s p = Some bs -> logical_page s' p = Some bs;
  q_pins : forall p, pins s' p = pins s p;
  q_budget : (budget s <= budget s')%nat;
  q_pinned : forall p f, page_table_ (pool_ s) !! p = Some f -> (0 < pins s p)%nat ->
    page_table_ (pool_ s') !! p = Some f;
  q_cached : cached_in s s';
}.

Lemma cached_in_trans s1 s2 s3 : cached_in s1 s2 -> cached_in s2 s3 -> cached_in s1 s3.
Proof. intros C1 C2 p f Hp. destruct (C2 p f Hp) as [[g Hg]|]; [by eapply C1|by right]. Qed.

Lemma quiet_refl s : store_wf s -> quiet s s.
Proof. intros Hwf. split; try done. intros p f Hp. left. by eexists. Qed.

Lemma quiet_trans s1 s2 s3 : quiet s1 s2 -> quiet s2 s3 -> quiet s1 s3.
Proof.
  intros [W1 L1 P1 B1 T1 C1] [W2 L2 P2 B2 T2 C2]. split; [done|auto| |lia| |by eapply cached_in_trans].
  - intros p. by rewrite P2.
  - intros p f Hp Hn. apply T2; [by apply T1|by rewrite P1].
Qed.

Lemma logical_exists s p bs : store_wf s -> logical_page s p = Some bs -> page_exists (disk_ s) p.
Proof.
  intros Hwf. unfold logical_page. destruct (page_table_ (pool_ s) !! p) as [f|] eqn:Hp.
  - by destruct (sw_mapped s Hwf p f Hp) as (m & _ & _ & _ & _ & _ & _ & _ & ? & _).
  - by case_decide.
Qed.

(** The page a client holds: its frame, its contents, and what the fetch did to the rest. *)
Record holding s (p : Z) (bs : list byte) (f : nat) s1 : Prop := {
  h_wf : store_wf s1;
  h_table : page_table_ (pool_ s1) !! p = Some f;
  h_bytes : frame_bytes (pool_ s1) f = bs;
  h_pages : forall q bs, is_u32 q -> logical_page s q = Some bs -> logical_page s1 q = Some bs;
  h_pin : pins s1 p = S (pins s p);
  h_others : forall q, q <> p -> pins s1 q = pins s q;
  h_pinned : forall q g, page_table_ (pool_ s) !! q = Some g -> (0 < pins s q)%nat ->
    page_table_ (pool_ s1) !! q = Some g;
  h_budget : (budget s <= budget s1 + (if decide (pins s p = 0) then 1 else 0))%nat;
  h_cached : cached_in s s1;
}.

(** The frame still holds the page after quiet operations. *)
Lemma holding_quiet s p bs f s1 s2 :
  is_u32 p -> holding s p bs f s1 -> quiet s1 s2 ->
  region (pages_ (pool_ s2)) (frame_ptr f) kPage = bs /\ length bs = kPage.
Proof.
  intros Hp Hh Hq. assert (page_table_ (pool_ s2) !! p = Some f) as Ht.
  { apply (q_pinned _ _ Hq); [apply Hh|]. rewrite (h_pin _ _ _ _ _ Hh). lia. }
  assert (logical_page s1 p = Some bs) as Hl.
  { unfold logical_page. by rewrite (h_table _ _ _ _ _ Hh), (h_bytes _ _ _ _ _ Hh). }
  apply (q_pages _ _ Hq) in Hl; [|done]. unfold logical_page in Hl. rewrite Ht in Hl. simplify_eq.
  split; [done|]. apply pool_read_frame; [apply (q_wf _ _ Hq)|]. eapply mapped_lt; [apply (q_wf _ _ Hq)|done].
Qed.

Context `{!ReliableFile F}.

Lemma FetchPage_returns s p bs :
  store_wf s -> is_u32 p -> 0 < p -> is_Some (view p) -> logical_page s p = Some bs -> (0 < budget s)%nat ->
  returns (FetchPage p) s (fun ptr s1 => exists f, ptr = frame_ptr f /\ holding s p bs f s1).
Proof.
  intros Hwf Hp Hp0 Hv Hl Hb.
  destruct (FetchPage_total s p Hwf Hp Hp0 (logical_exists s p bs Hwf Hl) (or_introl Hb)) as (ptr & s1 & HF).
  destruct (FetchPage_spec s p Hwf Hp) as (r & s1' & HF' & Hwf1 & [Hk Hpin] & Hr).
  rewrite HF in HF'. injection HF' as <- <-. destruct Hr as (f & -> & Ht & Hlog & Hpins & Hbud).
  exists (frame_ptr f), s1. split; [done|]. exists f. split; [done|]. split; try done.
  - congruence.
  - intros q Hq. pose proof (FetchPage_others s p _ s1 q Hwf Hp HF Hq) as Hle.
    destruct (decide (pins s q = 0)%nat) as [Hz|Hz]; [lia|].
    destruct (page_table_ (pool_ s) !! q) as [g|] eqn:Hg; [|by unfold pins in Hz; rewrite Hg in Hz].
    destruct (Hpin q g Hg) as [_ ?]; lia.
  - intros q g Hq Hpos. by destruct (Hpin q g Hq Hpos).
  - intros q g Hq. destruct (decide (q = p)) as [->|Hne]; [by right|]. left. exists g.
    by apply (FetchPage_caches s p _ s1 q g HF).
Qed.

Lemma UnpinPage_returns s p bs f s1 s2 :
  holding s p bs f s1 -> quiet s1 s2 ->
  returns (on_pool (UnpinPage p false)) s2 (fun _ s3 => quiet s s3).
Proof.
  intros Hh Hq. destruct (UnpinPage_spec s2 p false (q_wf _ _ Hq)) as (s3 & HU & Hwf & Hd & Ht & Hb & Hpins & Hbud).
  exists tt, s3. split; [done|]. split; [done| | | | |].
  - intros q b Hq32 Hl. rewrite (logical_page_same s2 s3) by done.
    apply (q_pages _ _ Hq); [done|]. by apply (h_pages _ _ _ _ _ Hh).
  - intros q. rewrite Hpins, !(q_pins _ _ Hq). destruct (decide (q = p)) as [->|Hne].
    + rewrite (h_pin _ _ _ _ _ Hh). lia.
    + by apply (h_others _ _ _ _ _ Hh).
  - rewrite Hbud, (q_pins _ _ Hq), (h_pin _ _ _ _ _ Hh).
    pose proof (h_budget _ _ _ _ _ Hh). pose proof (q_budget _ _ Hq). repeat case_decide; lia.
  - intros q g Hq1 Hpos. rewrite Ht. apply (q_pinned _ _ Hq).
    + by apply (h_pinned _ _ _ _ _ Hh).
    + destruct (decide (q = p)) as [->|Hne]; [rewrite (h_pin _ _ _ _ _ Hh); lia|].
      by rewrite (h_others _ _ _ _ _ Hh).
  - apply (cached_in_trans s s1); [apply Hh|]. intros q g. rewrite Ht. apply (q_cached _ _ Hq).
Qed.

(** The rule for a page that is held while the body runs. *)
Lemma with_page_returns {A} p bs (body : nat -> io (Store F) A) s (post : A -> Prop) :
  store_wf s -> is_u32 p -> 0 < p -> is_Some (view p) -> logical_page s p = Some bs -> (0 < budget s)%nat ->
  (forall f s1, holding s p bs f s1 -> returns (body (frame_ptr f)) s1 (fun a s2 => quiet s1 s2 /\ post a)) ->
  returns (with_page p body) s (fun a s' => quiet s s' /\ post a).
Proof.
  intros Hwf Hp Hp0 Hv Hl Hb Hbody. unfold with_page.
  eapply returns_bind; [by apply (FetchPage_returns s p bs)|]. intros ptr s1 (f & -> & Hh).
  eapply returns_bind; [by apply Hbody|]. intros a s2 [Hq Ha].
  eapply returns_bind; [by apply (UnpinPage_returns s p bs f s1 s2)|]. intros [] s3 Hq3.
  by apply returns_ret.
Qed.

Lemma copy_page_returns p bs s :
  store_wf s -> is_u32 p -> 0 < p -> is_Some (view p) -> logical_page s p = Some bs -> (0 < budget s)%nat ->
  returns (copy_page p) s (fun a s' => quiet s s' /\ a = bs /\ length bs = kPage).
Proof.
  intros Hwf Hp Hp0 Hv Hl Hb. apply (with_page_returns p bs _ s (fun a => a = bs /\ length bs = kPage)); [done..|].
  intros f s1 Hh. assert (quiet s1 s1) as Hq by (apply quiet_refl, Hh).
  destruct (holding_quiet s p bs f s1 s1 Hp Hh Hq) as [Hbs Hlen].
  exists bs, s1. split; [|done]. unfold on_pool, io_zoom.
  destruct (pool_read_frame (pool_ s1) f) as [-> _].
  - apply (sw_pages _ (h_wf _ _ _ _ _ Hh)).
  - eapply mapped_lt; [apply Hh|]. apply (h_table _ _ _ _ _ Hh).
  - unfold frame_bytes. rewrite Hbs. by destruct s1.
Qed.

Lemma FetchWholeRegion_returns range content s :
  store_wf s -> (0 < budget s)%nat -> (forall p bs, is_u32 p -> view p = Some bs -> logical_page s p = Some bs) ->
  stored_as view range content ->
  returns (FetchWholeRegion range) s (fun scratch s' => quiet s s' /\ scratch = content).
Proof.
  intros Hwf Hb Hview [H1 H2 H3 H4 H5]. unfold FetchWholeRegion. set (n := Z.to_nat (page_count range)) in *.
  eapply returns_mono.
  { apply (returns_for_range (fun i scratch s' => quiet s s' /\
    scratch = region content 0 (i * kPage) ++ replicate ((n - i) * kPage) x00)).
  - intros i scratch s1 Hi [Hq ->]. assert (is_u32 (start_page_id range + Z.of_nat i)) as Hu by (unfold is_u32; lia).
    rewrite (u32_id _ Hu). eapply returns_bind.
    { apply (copy_page_returns _ (region content (i * kPage) kPage)); [apply Hq|done|lia|rewrite H5 by lia; by eexists| |pose proof (q_budget _ _ Hq); lia].
      apply (q_pages _ _ Hq); [done|]. apply Hview; [done|]. apply H5. lia. }
    intros page s2 (Hq2 & -> & Hl). apply returns_ret. split; [by eapply quiet_trans|].
    assert (length (region content 0 (i * kPage)) = i * kPage)%nat as Hpre.
    { apply length_region. pose proof kPage_pos. nia. }
    rewrite <- Hpre at 2. pose proof kPage_pos. rewrite splice_app; [|by intros E; rewrite E in Hl; simpl in Hl; lia
      |rewrite Hl, length_replicate; nia].
    rewrite app_assoc, region_prefix_step. f_equal. rewrite Hl, drop_replicate. f_equal. nia.
  - split; [by apply quiet_refl|]. by rewrite Nat.sub_0_r. }
  intros scratch s' [Hq ->]. split; [done|]. rewrite Nat.add_0_l, Nat.sub_diag, app_nil_r. unfold region.
  by rewrite drop_0, take_ge by lia.
Qed.

End PagesFacts.
