(* ===== verification/Scan.v ===== *)
(** Model of [src/execution/seq_scan_operator.cpp]: the sequential scan reads the pages of the
    required columns of one vector of a row group through the buffer pool, rebuilds the
    columns from the stored bytes, and skips the row groups whose zone map excludes
    the scan's condition. Proved to deliver exactly the stored rows, and to skip only row
    groups in which no row satisfies the condition. The column vectors the operator
    keeps ([int_storage_] and its siblings) only hold the columns of the last chunk, which
    the model's chunk carries itself. *)

From S2P Require Import Prelude Scalar ByteIO Bitmap Columns ZoneMap Footer Disk Replacer BufferPool Schema Chunk Rows Expr Operators Layout Pages.

(** ** The template parameter [T] of the fixed-width code *)

Class FixedType (T : Type) `{Scalar T} : Type := {
  ft_type : TypeId;
  ft_column : FixedWidth.FixedWidthColumn T -> ColumnStorage;
  ft_value : T -> Value;
  ft_entry : FixedWidthColumnFooterEntry T -> ColumnFooterEntry;
  (** [std::get<FixedWidthColumnFooterEntry<T>>]. *)
  ft_get : ColumnFooterEntry -> result (FixedWidthColumnFooterEntry T);
}.

#[global] Instance int_type : FixedType Z := {|
  ft_type := kInteger; ft_column := IntCol; ft_value := VInt; ft_entry := IntEntry;
  ft_get := fun e => match e with IntEntry e => Ok e | _ => Throw BadVariantAccess end |}.
#[global] Instance float_type : FixedType f32 := {|
  ft_type := kFloat; ft_column := FloatCol; ft_value := VFloat; ft_entry := FloatEntry;
  ft_get := fun e => match e with FloatEntry e => Ok e | _ => Throw BadVariantAccess end |}.

Definition get_varchar_entry (e : ColumnFooterEntry) : result VarcharColumnFooterEntry :=
  match e with VarcharEntry e => Ok e | _ => Throw BadVariantAccess end.

(** ** Zone maps *)

(** [std::variant<std::int32_t, float>]. *)
Inductive SkipConstant : Type := SkipInt (z : Z) | SkipFloat (f : f32).

Record ZoneMapSkipCondition : Type := mk_skip {
  skip_ordinal : nat;
  skip_op : BinaryOperator;
  skip_constant : SkipConstant;
}.

Definition zone_rules_out {T} `{Scalar T} (zone : ZoneMap T) (op : BinaryOperator) (constant : T) : bool :=
  if negb (has_values_ zone) then false
  else
    match op with
    | kGreaterThan => negb (sc_ltb constant (max_ zone))
    | kGreaterThanOrEqual => negb (sc_leb constant (max_ zone))
    | kLessThan => negb (sc_ltb (min_ zone) constant)
    | kLessThanOrEqual => negb (sc_leb (min_ zone) constant)
    | kEqual => sc_ltb constant (min_ zone) || sc_ltb (max_ zone) constant
    | _ => false
    end.

Definition rules_out_with {T} `{FixedType T} (row_group : RowGroupFooterEntry) (condition : ZoneMapSkipCondition)
    (constant : T) : result bool :=
  column ← rg_Column row_group (skip_ordinal condition);
  entry ← ft_get column;
  mret (zone_rules_out (zone_map_ entry) (skip_op condition) constant).

Definition ZoneMapRulesOutRowGroup (row_group : RowGroupFooterEntry) (condition : ZoneMapSkipCondition) : result bool :=
  match skip_constant condition with
  | SkipInt z => rules_out_with row_group condition z
  | SkipFloat f => rules_out_with row_group condition f
  end.

(** ** The operator *)

Section Scan.
Context {F : Type} `{PosixFile F}.

(** [if (is_null) column.AppendNull(); else column.Append(values[i])] over the rows of the
    vector; [memory] is the pool's memory and [values] a pointer into it. *)
Definition read_fixed_column {T} `{Scalar T} (memory : list byte) (values : nat) (bitmap_scratch : list byte)
    (row_group_row_count ordinal start_row row_count : nat) : result (FixedWidth.FixedWidthColumn T) :=
  for_range 0 row_count (fun i column =>
    is_valid ← IsColumnValidAtRow bitmap_scratch 0 row_group_row_count ordinal (start_row + i);
    if is_valid : bool then (value ← load_value memory values i; FixedWidth.Append column value)
    else FixedWidth.AppendNull column) FixedWidth.empty.

Definition AppendFixedWidth T `{FixedType T} (vector_index : nat) (chunk : DataChunk) (row_group : RowGroupFooterEntry)
    (ordinal start_row row_count : nat) : io (Store F) DataChunk :=
  column_entry ← io_lift (rg_Column row_group ordinal);
  entry ← io_lift (ft_get column_entry);
  let page_id := u32 (start_page_id (Footer.pages_ entry) + Z.of_nat vector_index) in
  column ← with_page page_id (fun values =>
    bitmap_scratch ← FetchWholeRegion (validity_bitmap_region_ row_group);
    store ← io_get;
    io_lift (read_fixed_column (T := T) (BufferPool.pages_ (pool_ store)) values bitmap_scratch
               (Z.to_nat (row_count_ row_group)) ordinal start_row row_count));
  io_lift (AddColumn chunk (ft_column column)).

(** [for (p = first_data_page; p <= last_data_page; ++p)], with a 32-bit [p]. *)
Fixpoint fetch_data_pages (fuel : nat) (first last p : Z) (scratch : list byte) : io (Store F) (list byte) :=
  match fuel with
  | O => io_lift OutOfFuel
  | S fuel' =>
      if p <=? last then
        page ← copy_page p;
        fetch_data_pages fuel' first last (u32 (p + 1)) (splice scratch (Z.to_nat (p - first) * kPage) page)
      else mret scratch
  end.

(** The rows of a VARCHAR column; [bitmap_page] points into the pool's memory. *)
Definition read_varchar_column (memory : list byte) (bitmap_page : nat) (offsets_scratch scratch : list byte)
    (scratch_base : Z) (row_group_row_count ordinal start_row row_count : nat) : result Varchar.VarcharColumn :=
  for_range 0 row_count (fun i column =>
    is_valid ← IsColumnValidAtRow memory bitmap_page row_group_row_count ordinal (start_row + i);
    offset ← load_u32 offsets_scratch ((start_row + i) * 4);
    next ← load_u32 offsets_scratch ((start_row + i + 1) * 4);
    let s := u32 (offset - scratch_base) in
    let e := u32 (next - scratch_base) in
    if is_valid : bool then
      bytes ← load_bytes scratch (Z.to_nat s) (Z.to_nat (u32 (e - s)));
      Varchar.Append column (string_of_bytes bytes)
    else Varchar.AppendNull column) Varchar.empty.

Definition AppendVarchar (chunk : DataChunk) (row_group : RowGroupFooterEntry) (ordinal start_row row_count : nat)
    : io (Store F) DataChunk :=
  column_entry ← io_lift (rg_Column row_group ordinal);
  entry ← io_lift (get_varchar_entry column_entry);
  let data_start := start_page_id (data_pages_ entry) in
  offsets_scratch ← FetchWholeRegion (offsets_pages_ entry);
  byte_start ← io_lift (load_u32 offsets_scratch (start_row * 4));
  byte_end ← io_lift (load_u32 offsets_scratch ((start_row + row_count) * 4));
  let first_data_page := u32 (data_start + byte_start / kPageSizeBytes) in
  let last_data_page := u32 (data_start + byte_end / kPageSizeBytes) in
  let pages := Z.to_nat (u32 (last_data_page - first_data_page + 1)) in
  scratch ← fetch_data_pages (S pages) first_data_page last_data_page first_data_page (replicate (pages * kPage) x00);
  let scratch_base := u32 (u32 (first_data_page - data_start) * kPageSizeBytes) in
  column ← with_page (start_page_id (validity_bitmap_region_ row_group)) (fun bitmap_page =>
    store ← io_get;
    io_lift (read_varchar_column (BufferPool.pages_ (pool_ store)) bitmap_page offsets_scratch scratch scratch_base
               (Z.to_nat (row_count_ row_group)) ordinal start_row row_count));
  io_lift (AddColumn chunk (VarcharCol column)).

Definition AppendColumn (table : TableObject) (vector_index : nat) (chunk : DataChunk) (row_group : RowGroupFooterEntry)
    (ordinal start_row row_count : nat) : io (Store F) DataChunk :=
  column ← io_lift (Column table ordinal);
  match type column with
  | kInteger => AppendFixedWidth Z vector_index chunk row_group ordinal start_row row_count
  | kFloat => AppendFixedWidth f32 vector_index chunk row_group ordinal start_row row_count
  | kVarchar => AppendVarchar chunk row_group ordinal start_row row_count
  end.

Record SeqScanOperator : Type := mk_scan {
  table_ : TableObject;
  required_ordinals_ : list nat;
  zone_map_skip_ : option ZoneMapSkipCondition;
  row_group_index_ : nat;
  vector_index_ : nat;
}.

Definition new_scan (table : TableObject) (required_ordinals : list nat) (zone_map_skip : option ZoneMapSkipCondition)
    : SeqScanOperator := mk_scan table required_ordinals zone_map_skip 0 0.

Definition set_position (row_group vector : nat) (op : SeqScanOperator) : SeqScanOperator :=
  mk_scan (table_ op) (required_ordinals_ op) (zone_map_skip_ op) row_group vector.

Definition skips (op : SeqScanOperator) (row_group : RowGroupFooterEntry) : result bool :=
  match zone_map_skip_ op with None => mret false | Some c => ZoneMapRulesOutRowGroup row_group c end.

Fixpoint AdvanceToUsableRowGroup (fuel : nat) (op : SeqScanOperator) : result (bool * SeqScanOperator) :=
  match fuel with
  | O => OutOfFuel
  | S fuel' =>
      match row_groups_ (table_ op) !! row_group_index_ op with
      | None => mret (false, op)
      | Some row_group =>
          skip ← skips op row_group;
          if skip : bool then AdvanceToUsableRowGroup fuel' (set_position (S (row_group_index_ op)) 0 op)
          else mret (true, op)
      end
  end.

(** The columns of one vector of a row group. *)
Definition scan_vector (op : SeqScanOperator) (row_group : RowGroupFooterEntry) : io (Store F) DataChunk :=
  let row_count := row_count_ row_group in
  let start_row := u32 (Z.of_nat (vector_index_ op) * kVectorSize) in
  let this_vector_rows := Z.to_nat (Z.min kVectorSize (u32 (row_count - start_row))) in
  chunk ← io_lift (new_chunk this_vector_rows);
  chunk ← io_lift (for_range 0 this_vector_rows (fun i chunk => SetRowSelected chunk i true) chunk);
  for_each (required_ordinals_ op) (fun ordinal chunk =>
    AppendColumn (table_ op) (vector_index_ op) chunk row_group ordinal (Z.to_nat start_row) this_vector_rows) chunk.

Definition next_vector (op : SeqScanOperator) (row_group : RowGroupFooterEntry) : SeqScanOperator :=
  let vector := S (vector_index_ op) in
  if row_count_ row_group <=? Z.of_nat vector * kVectorSize then set_position (S (row_group_index_ op)) 0 op
  else set_position (row_group_index_ op) vector op.

#[global] Instance SeqScanOperator_op : Operator (Store F) SeqScanOperator := fun _ op =>
  '(usable, op) ← io_lift (AdvanceToUsableRowGroup (S (length (row_groups_ (table_ op)))) op);
  if negb usable then mret (None, op)
  else
    row_group ← io_lift (vec_get (row_groups_ (table_ op)) (row_group_index_ op));
    chunk ← scan_vector op row_group;
    mret (Some chunk, next_vector op row_group).

End Scan.

(** ** A row group on its pages *)

Section Stored.
Context (view : Z -> option (list byte)).

Definition fixed_stored {T} `{FixedType T} (column : FixedWidth.FixedWidthColumn T)
    (entry : FixedWidthColumnFooterEntry T) : Prop :=
  fixed_Build column (Footer.pages_ entry) = Ok entry /\
  Forall sc_ok (FixedWidth.values_ column) /\
  exists bytes, SerializeFixedWidth column (FixedWidth.Size column) = Ok bytes /\ stored view (Footer.pages_ entry) bytes.

(** The scan fetches one page past the data when the bytes of the last row end on a page
    boundary, so that page must exist too. *)
Definition varchar_stored (column : Varchar.VarcharColumn) (entry : VarcharColumnFooterEntry) : Prop :=
  varchar_Build column (offsets_pages_ entry) (data_pages_ entry) = Ok entry /\
  exists offsets data, SerializeVarchar column (Varchar.Size column) = Ok (offsets, data) /\
    stored view (offsets_pages_ entry) offsets /\
    0 <= page_count (data_pages_ entry) /\
    (length data <= Z.to_nat (page_count (data_pages_ entry)) * kPage)%nat /\
    stored view (mk_range (start_page_id (data_pages_ entry)) (page_count (data_pages_ entry) + 1)) data.

Definition entry_stored (column : ColumnStorage) (entry : ColumnFooterEntry) : Prop :=
  match column, entry with
  | IntCol c, IntEntry e => fixed_stored c e
  | FloatCol c, FloatEntry e => fixed_stored c e
  | VarcharCol c, VarcharEntry e => varchar_stored c e
  | _, _ => False
  end.

(** The pages of [row_group] hold [rows], as the insert executor writes them. *)
Definition row_group_stored (tys : list TypeId) (row_group : RowGroupFooterEntry) (rows : list (list (option Value)))
    : Prop :=
  row_count_ row_group = Z.of_nat (length rows) /\
  0 < row_count_ row_group <= kRowGroupSize /\
  exists columns, rows_repr columns tys rows /\
    Forall2 entry_stored columns (columns_ row_group) /\
    exists bits, BuildValidityBitmapBytes columns (length rows) = Ok bits /\
      stored view (validity_bitmap_region_ row_group) bits.

End Stored.

(** ** The fixed-width types *)

Class FixedTypeLaws (T : Type) `{FixedType T} : Prop := {
  ft_append c x : ft_column <$> FixedWidth.Append c x = col_Append (ft_column c) (ft_value x);
  ft_append_null c : ft_column <$> FixedWidth.AppendNull c = col_AppendNull (ft_column c);
  ft_repr c rs : col_repr (ft_column c) ft_type rs <-> FixedWidth.wf c /\
    rs = zip_with (fun x b => (ft_value x, b)) (FixedWidth.values_ c) (FixedWidth.bits c);
  ft_of_repr col rs : col_repr col ft_type rs -> exists c, col = ft_column c;
  ft_value_type x : type_of (ft_value x) = ft_type;
  ft_value_inj x y : ft_value x = ft_value y -> x = y;
  ft_stored view c e : entry_stored view (ft_column c) e -> exists e', e = ft_entry e' /\ fixed_stored view c e';
  ft_get_entry e : ft_get (ft_entry e) = Ok e;
  ft_get_inv en e : ft_get en = Ok e -> en = ft_entry e;
  ft_stored_entry view col e : entry_stored view col (ft_entry e) -> exists c, col = ft_column c /\ fixed_stored view c e;
  ft_not_varchar : ft_type <> kVarchar;
}.

#[global] Instance int_type_laws : FixedTypeLaws Z.
Proof.
  split; simpl; try done.
  - intros c rs. naive_solver.
  - intros [c|c|c] rs; simpl; naive_solver.
  - by intros x y [= ->].
  - intros view c [e|e|e]; naive_solver.
  - intros [e|e|e]; naive_solver.
  - intros view [c|c|c] e; naive_solver.
Qed.

#[global] Instance float_type_laws : FixedTypeLaws f32.
Proof.
  split; simpl; try done.
  - intros c rs. naive_solver.
  - intros [c|c|c] rs; simpl; naive_solver.
  - by intros x y [= ->].
  - intros view c [e|e|e]; naive_solver.
  - intros [e|e|e]; naive_solver.
  - intros view [c|c|c] e; naive_solver.
Qed.

(** ** Slices of a column *)

(** The rows of vector [v]. *)
Definition vector_rows {A} (v : nat) (rows : list A) : list A := take 1024 (drop (v * 1024) rows).

Lemma vector_rows_lookup {A} v (rows : list A) i :
  (i < length (vector_rows v rows))%nat -> vector_rows v rows !! i = rows !! (v * 1024 + i)%nat.
Proof.
  unfold vector_rows. rewrite length_take, length_drop. intros. by rewrite lookup_take_lt, lookup_drop by lia.
Qed.

Lemma length_vector_rows {A} v (rows : list A) :
  length (vector_rows v rows) = Nat.min 1024 (length rows - v * 1024).
Proof. unfold vector_rows. rewrite length_take, length_drop. lia. Qed.

Lemma column_of_lookup ty j rows i row :
  rows !! i = Some row -> column_of ty j rows !! i = Some (raw_of_cell ty (cell_at row j)).
Proof. intros Hi. unfold column_of. by rewrite list_lookup_fmap, Hi. Qed.

Lemma valid_at_specs tys rows j r ty row :
  tys !! j = Some ty -> rows !! r = Some row ->
  valid_at (specs_of tys rows) j r = bool_decide (is_Some (cell_at row j)).
Proof.
  intros Hj Hr. unfold valid_at. rewrite specs_of_lookup, Hj. simpl. rewrite (column_of_lookup ty j rows r row Hr).
  by destruct (cell_at row j).
Qed.

Lemma column_of_take_S ty j rows i row :
  rows !! i = Some row ->
  column_of ty j (take (S i) rows) = column_of ty j (take i rows) ++ [raw_of_cell ty (cell_at row j)].
Proof. intros Hi. rewrite (take_S_r _ _ _ Hi). apply column_of_snoc. Qed.

(** ** Reading a fixed-width column *)

Section ReadFixed.
Context {T : Type} `{FixedTypeLaws T} `{!ScalarLaws T}.

Lemma ft_append_repr c rs x :
  col_repr (ft_column c) ft_type rs ->
  exists c', FixedWidth.Append c x = Ok c' /\ col_repr (ft_column c') ft_type (rs ++ [(ft_value x, true)]).
Proof.
  intros Hc. destruct (col_Append_repr (ft_column c) ft_type rs (ft_value x) Hc (ft_value_type x)) as (c1 & HA & Hr).
  { pose proof (col_repr_fits_any _ _ _ Hc) as Hf. unfold fits in *. rewrite str_size_app. simpl.
    assert (str_len (ft_value x) = 0) as ->; [|lia].
    pose proof (ft_value_type x). pose proof ft_not_varchar. by destruct (ft_value x). }
  rewrite <- ft_append in HA. destruct (FixedWidth.Append c x) as [c'|e| |]; try discriminate HA.
  exists c'. split; [done|]. by injection HA as <-.
Qed.

Lemma ft_append_null_repr c rs :
  col_repr (ft_column c) ft_type rs ->
  exists c', FixedWidth.AppendNull c = Ok c' /\ col_repr (ft_column c') ft_type (rs ++ [(zero_of ft_type, false)]).
Proof.
  intros Hc. destruct (col_AppendNull_repr (ft_column c) ft_type rs Hc) as (c1 & HA & Hr).
  rewrite <- ft_append_null in HA. destruct (FixedWidth.AppendNull c) as [c'|e| |]; try discriminate HA.
  exists c'. split; [done|]. by injection HA as <-.
Qed.

(** The values a stored column holds. *)
Lemma ft_stored_value c rs i v :
  col_repr (ft_column c) ft_type rs -> rs !! i = Some (v, true) ->
  exists x, FixedWidth.values_ c !! i = Some x /\ v = ft_value x.
Proof.
  intros [_ ->]%ft_repr (x & b & Heq & Hx & _)%lookup_zip_with_Some. simplify_eq. eauto.
Qed.

Lemma read_fixed_column_spec (tys : list TypeId) rows j v c content pad memory ptr bitmap :
  tys !! j = Some ft_type ->
  col_repr (ft_column c) ft_type (column_of ft_type j rows) -> Forall sc_ok (FixedWidth.values_ c) ->
  content = fixed_bytes (FixedWidth.values_ c) ++ pad ->
  region memory ptr kPage = region content (v * kPage) kPage -> length (region memory ptr kPage) = kPage ->
  (forall r, (r < length rows)%nat ->
     IsColumnValidAtRow bitmap 0 (length rows) j r = Ok (valid_at (specs_of tys rows) j r)) ->
  exists c', read_fixed_column memory ptr bitmap (length rows) j (v * 1024) (length (vector_rows v rows)) = Ok c' /\
    col_repr (ft_column c') ft_type (column_of ft_type j (vector_rows v rows)).
Proof.
  intros Hj Hc Hok -> Hmem Hlen Hbits. unfold read_fixed_column. set (vrows := vector_rows v rows).
  destruct (for_range_inv (fun i c' => col_repr (ft_column c') ft_type (column_of ft_type j (take i vrows)))
    (fun i column =>
      is_valid ← IsColumnValidAtRow bitmap 0 (length rows) j (v * 1024 + i);
      if is_valid : bool then (value ← load_value memory ptr i; FixedWidth.Append column value)
      else FixedWidth.AppendNull column) 0 (length vrows) FixedWidth.empty) as (c' & HR & Hc').
  - intros i c' Hi Hc'. assert (i < length vrows)%nat as Hlt by lia.
    destruct (lookup_lt_is_Some_2 vrows i Hlt) as [row Hrow].
    pose proof Hrow as Hrow'. unfold vrows in Hrow'. rewrite vector_rows_lookup in Hrow' by exact Hlt.
    rewrite Hbits by (by eapply lookup_lt_Some). rewrite (valid_at_specs tys rows j _ _ row Hj Hrow').
    rewrite (column_of_take_S _ _ _ _ row Hrow). cbn [mbind result_bind].
    pose proof (column_of_lookup ft_type j rows _ row Hrow') as Hraw.
    destruct (cell_at row j) as [val|]; cbn [raw_of_cell] in *.
    + rewrite bool_decide_true by eauto.
      destruct (ft_stored_value c _ _ val Hc Hraw) as (x & Hx & ->).
      rewrite (load_value_block memory ptr (FixedWidth.values_ c) pad kPage (v * 1024) i x); [by apply ft_append_repr| |done| |done|].
      * rewrite Hmem. f_equal. unfold kPage, kPageSizeBytes. lia.
      * unfold kPage, kPageSizeBytes. unfold vrows in Hlt. rewrite length_vector_rows in Hlt. lia.
      * rewrite Forall_lookup in Hok. by eapply Hok.
    + rewrite bool_decide_false by (by intros []). by apply ft_append_null_repr.
  - apply ft_repr. split; [apply FixedWidth.empty_wf|done].
  - exists c'. split; [exact HR|]. by rewrite Nat.add_0_l, take_ge in Hc' by lia.
Qed.

End ReadFixed.

(** ** Reading the columns of a stored row group *)

Section ReadGroup.
Context {F : Type} `{PosixFileLaws F} `{!ReliableFile F}.
Context (view : Z -> option (list byte)).

Implicit Types s : Store F.
#[local] Abbreviation quiet := (Pages.quiet view).

(** What the scan needs of the pool: the pages of [view], and two usable frames; and what it
    keeps: only pages of [view] are in the pool. *)
Definition scan_inv s : Prop :=
  store_wf s /\ (2 <= budget s)%nat /\ (forall p bs, is_u32 p -> view p = Some bs -> logical_page s p = Some bs) /\
  forall p f, page_table_ (pool_ s) !! p = Some f -> is_Some (view p).

Lemma scan_inv_quiet s s' : scan_inv s -> quiet s s' -> scan_inv s'.
Proof.
  intros (Hwf & Hb & Hv & Hc) Hq. pose proof (q_budget _ _ _ Hq). split_and!; [apply Hq|lia| |].
  - intros p bs Hp Hpv. apply (q_pages _ _ _ Hq); auto.
  - intros p f Hp. destruct (q_cached _ _ _ Hq p f Hp) as [[g Hg]|]; [by eapply Hc|done].
Qed.

Lemma returns_quiet {A} (m : io (Store F) A) s (post : A -> Prop) :
  scan_inv s -> returns m s (fun a s' => quiet s s' /\ post a) -> returns m s (fun a s' => scan_inv s' /\ post a).
Proof. intros Hi Hm. eapply returns_mono; [exact Hm|]. intros a s' [Hq Ha]. split; [by eapply scan_inv_quiet|done]. Qed.

Context (tys : list TypeId) (rg : RowGroupFooterEntry) (rows : list (list (option Value))).
Hypothesis Hrg : row_group_stored view tys rg rows.

Lemma rg_rows : Z.to_nat (row_count_ rg) = length rows /\ 0 < Z.of_nat (length rows) <= kRowGroupSize.
Proof. destruct Hrg as (Hn & Hb & _). rewrite Hn in *. by rewrite Nat2Z.id. Qed.

(** The validity region, as one byte string. *)
Lemma rg_bits : exists bits pad,
  bits_before (specs_of tys rows) (length rows) (length tys) 0 bits /\
  stored_as view (validity_bitmap_region_ rg) (bits ++ pad).
Proof.
  pose proof rg_rows as [_ Hn]. unfold kRowGroupSize in Hn. destruct Hrg as (_ & _ & columns & Hrep & _ & bits & HB & pad & Hst).
  exists bits, pad. split; [|done].
  destruct (BuildValidityBitmapBytes_spec columns (specs_of tys rows) (length rows)) as (bits' & HB' & Hbits); [lia|done|].
  rewrite length_specs_of in Hbits. congruence.
Qed.

Lemma rg_column j ty :
  tys !! j = Some ty -> exists column entry, rg_Column rg j = Ok entry /\
    col_repr column ty (column_of ty j rows) /\ entry_stored view column entry.
Proof.
  intros Hj. destruct Hrg as (_ & _ & columns & Hrep & Hent & _).
  destruct (rows_repr_lookup columns tys rows j ty Hrep Hj) as (col & Hcol & Hcr).
  destruct (Forall2_lookup_l _ _ _ _ _ Hent Hcol) as (entry & He & Hst).
  exists col, entry. split; [|done]. by apply vec_get_Ok.
Qed.

Lemma FetchWholeRegion_view range content s :
  scan_inv s -> stored_as view range content ->
  returns (FetchWholeRegion range) s (fun scratch s' => quiet s s' /\ scratch = content).
Proof.
  intros (Hwf & Hb & Hv & _) Hst. apply (FetchWholeRegion_returns view); [done|lia|done|done].
Qed.

(** A bit of the fetched region. *)
Lemma scratch_validity bits pad j r ty :
  bits_before (specs_of tys rows) (length rows) (length tys) 0 bits ->
  tys !! j = Some ty -> (r < length rows)%nat ->
  IsColumnValidAtRow (bits ++ pad) 0 (length rows) j r = Ok (valid_at (specs_of tys rows) j r).
Proof.
  intros Hbits Hj Hr. pose proof rg_rows as [_ Hn]. unfold kRowGroupSize in Hn. apply lookup_lt_Some in Hj.
  pose proof (bytes_per_column_lt (length rows) r ltac:(lia) Hr).
  assert (j * bytes_per_column (length rows) + r / 8 < length bits)%nat.
  { destruct Hbits as [-> _]. rewrite length_specs_of. nia. }
  apply (validity_roundtrip _ _ bits _ 0 (length (bits ++ pad)) pad).
  - lia.
  - by rewrite length_specs_of.
  - done.
  - apply length_region. lia.
  - by rewrite length_specs_of.
  - done.
  - rewrite length_app. lia.
Qed.

Lemma AppendFixedWidth_returns T `{FixedTypeLaws T} `{!ScalarLaws T} v j chunk cols sel s :
  scan_inv s -> tys !! j = Some ft_type -> (v * 1024 < length rows)%nat ->
  chunk_repr chunk cols sel -> length sel = length (vector_rows v rows) ->
  returns (AppendFixedWidth T v chunk rg j (v * 1024) (length sel)) s (fun chunk' s' =>
    scan_inv s' /\ chunk_repr chunk' (cols ++ [(ft_type, column_of ft_type j (vector_rows v rows))]) sel).
Proof.
  intros Hinv Hj Hv Hch Hsel. destruct rg_rows as [Hn Hn0].
  destruct (rg_column j ft_type Hj) as (column & entry & Hentry & Hcr & Hst).
  destruct (ft_of_repr column _ Hcr) as [c ->].
  destruct (ft_stored view c entry Hst) as (e & -> & _ & Hok & bytes & HS & pad & Hpages).
  rewrite SerializeFixedWidth_spec in HS. injection HS as <-.
  destruct rg_bits as (bits & bpad & Hbits & Hregion).
  assert (v < Z.to_nat (page_count (Footer.pages_ e)))%nat as Hvp.
  { pose proof (st_length _ _ _ Hpages) as Hl. rewrite length_app, length_fixed_bytes in Hl.
    assert (length (FixedWidth.values_ c) = length rows) as Hvl.
    { pose proof (col_repr_length _ _ _ Hcr) as Hs. unfold column_of in Hs. rewrite length_map in Hs.
      apply ft_repr in Hcr as [Hwf Heq]. apply (f_equal length) in Heq. unfold column_of in Heq.
      rewrite length_map, length_zip_with, FixedWidth.length_bits in Heq by done. lia. }
    unfold kPage, kPageSizeBytes in Hl. lia. }
  pose proof (st_page _ _ _ Hpages v Hvp) as Hpage. pose proof (st_start _ _ _ Hpages). pose proof (st_end _ _ _ Hpages).
  assert (is_u32 (start_page_id (Footer.pages_ e) + Z.of_nat v)) as Hu by (unfold is_u32; lia).
  unfold AppendFixedWidth. eapply returns_lift_bind; [exact Hentry|]. eapply returns_lift_bind; [apply ft_get_entry|].
  rewrite (u32_id _ Hu). eapply returns_bind.
  { apply (returns_quiet _ s (fun column => col_repr (ft_column column) ft_type (column_of ft_type j (vector_rows v rows))) Hinv).
    destruct Hinv as (Hwf & Hb & Hview & _).
    eapply (with_page_returns view _ _ _ _ _ Hwf Hu); [lia|by eexists|by apply Hview|lia|].
    intros f s1 Hh.
    eapply returns_bind.
    { apply (FetchWholeRegion_returns view _ (bits ++ bpad)); [apply Hh| | |exact Hregion].
      - pose proof (h_budget _ _ _ _ _ _ Hh). case_decide; lia.
      - intros p bs Hp Hpv. apply (h_pages _ _ _ _ _ _ Hh); auto. }
    intros scratch s2 [Hq ->]. apply returns_get_bind.
    destruct (holding_quiet _ _ _ _ _ _ _ Hu Hh Hq) as [Hmem Hlen].
    destruct (read_fixed_column_spec tys rows j v c _ pad (BufferPool.pages_ (pool_ s2)) (frame_ptr f) (bits ++ bpad)
      Hj Hcr Hok eq_refl) as (c' & HR & Hc').
    { exact Hmem. } { by rewrite Hmem. }
    { intros r Hr. by eapply scratch_validity. }
    rewrite Hn, Hsel. eapply returns_lift; [exact HR|done]. }
  intros c' s' [Hinv' Hc']. destruct (AddColumn_repr chunk cols sel _ _ _ Hch Hc') as (chunk' & HA & Hch').
  { by rewrite Hsel; unfold column_of; rewrite length_map. }
  by eapply returns_lift.
Qed.

(** ** Reading a VARCHAR column *)

Lemma fetch_data_pages_returns range content a n s :
  scan_inv s -> stored_as view range content -> (a + n <= Z.to_nat (page_count range))%nat -> (0 < n)%nat ->
  let first := start_page_id range + Z.of_nat a in
  returns (fetch_data_pages (S n) first (first + Z.of_nat n - 1) first (replicate (n * kPage) x00)) s
    (fun scratch s' => quiet s s' /\ scratch = region content (a * kPage) (n * kPage)).
Proof.
  intros Hinv Hst Ha Hn first. pose proof (st_start _ _ _ Hst). pose proof (st_end _ _ _ Hst). pose proof kPage_pos as Hk.
  enough (G : forall m k s1, (k + m = n)%nat -> quiet s s1 ->
    returns (fetch_data_pages (S m) first (first + Z.of_nat n - 1) (first + Z.of_nat k)
      (region content (a * kPage) (k * kPage) ++ replicate (m * kPage) x00)) s1
      (fun scratch s' => quiet s s' /\ scratch = region content (a * kPage) (n * kPage))).
  { specialize (G n 0%nat s eq_refl (quiet_refl view s (proj1 Hinv))). by rewrite Z.add_0_r in G. }
  intros m. induction m as [|m IH]; intros k s1 Hkm Hq.
  - cbn [fetch_data_pages]. rewrite (proj2 (Z.leb_gt _ _)) by lia. apply returns_ret. split; [done|].
    simpl. rewrite app_nil_r. by replace k with n by lia.
  - cbn [fetch_data_pages]. rewrite (proj2 (Z.leb_le _ _)) by lia.
    destruct (scan_inv_quiet s s1 Hinv Hq) as (Hwf1 & Hb1 & Hv1 & _).
    assert (is_u32 (first + Z.of_nat k)) as Hu by (unfold is_u32, first; lia).
    eapply returns_bind.
    { assert (view (first + Z.of_nat k) = Some (region content ((a + k) * kPage) kPage)) as Hpv.
      { unfold first. rewrite <- Z.add_assoc, <- Nat2Z.inj_add. apply (st_page _ _ _ Hst). lia. }
      apply (copy_page_returns view _ (region content ((a + k) * kPage) kPage)); [done|done|unfold first; lia|by eexists|by apply Hv1|lia]. }
    intros page s2 (Hq2 & -> & Hlen).
    assert (length (region content (a * kPage) (k * kPage)) = k * kPage)%nat as Hpre.
    { apply length_region. rewrite (st_length _ _ _ Hst). nia. }
    replace (Z.to_nat (first + Z.of_nat k - first) * kPage)%nat with (length (region content (a * kPage) (k * kPage)))
      by (rewrite Hpre; f_equal; lia).
    rewrite splice_app; [|by intros E; rewrite E in Hlen; simpl in Hlen; lia|rewrite Hlen, length_replicate; nia].
    rewrite Hlen, drop_replicate, app_assoc.
    replace (region content (a * kPage) (k * kPage) ++ region content ((a + k) * kPage) kPage)
      with (region content (a * kPage) (S k * kPage)).
    2: { rewrite Nat.mul_add_distr_r, <- region_plus. f_equal. lia. }
    replace (S m * kPage - kPage)%nat with (m * kPage)%nat by lia.
    rewrite u32_id by (unfold is_u32, first in *; lia).
    replace (first + Z.of_nat k + 1) with (first + Z.of_nat (S k)) by lia.
    apply IH; [lia|]. by eapply quiet_trans.
Qed.

Lemma rows_size_mono (l : list (option string)) i i' :
  (i <= i')%nat -> Varchar.rows_size (take i l) <= Varchar.rows_size (take i' l).
Proof. intros Hi. replace (take i l) with (take i (take i' l)) by (rewrite take_take; f_equal; lia). apply Varchar.rows_size_take. Qed.

(** The bytes of row [r] of a stored column. *)
Lemma row_bytes_region (l : list (option string)) r o pad :
  l !! r = Some o ->
  region (Varchar.rows_data l ++ pad) (Z.to_nat (Varchar.rows_size (take r l))) (length (Varchar.row_bytes o)) = Varchar.row_bytes o.
Proof.
  intros Hr. rewrite (Varchar.rows_data_split l r o Hr), <- !app_assoc. unfold region, Varchar.rows_size.
  rewrite Nat2Z.id, drop_app_length. apply take_app_length.
Qed.

Lemma rows_size_S (l : list (option string)) r o :
  l !! r = Some o ->
  Varchar.rows_size (take (S r) l) = Varchar.rows_size (take r l) + Z.of_nat (length (Varchar.row_bytes o)).
Proof. intros Hr. rewrite (take_S_r _ _ _ Hr), Varchar.rows_size_app. f_equal. unfold Varchar.rows_size. by rewrite Varchar.rows_data_one. Qed.

Lemma vector_fits j v i :
  fits (column_of kVarchar j rows) -> fits (column_of kVarchar j (take i (vector_rows v rows))).
Proof.
  unfold fits. rewrite !str_size_column. unfold vector_rows. rewrite take_take. intros Hf.
  pose proof (col_bytes_nonneg (take (v * 1024) rows) j).
  pose proof (col_bytes_nonneg (drop (Nat.min i 1024) (drop (v * 1024) rows)) j).
  rewrite <- (take_drop (v * 1024) rows), col_bytes_app in Hf.
  rewrite <- (take_drop (Nat.min i 1024) (drop (v * 1024) rows)), col_bytes_app in Hf. lia.
Qed.

Definition string_raws (l : list (option string)) : list (Value * bool) :=
  map (fun o => (VStr (Varchar.row_string o), bool_decide (is_Some o))) l.

(** What is delivered for a cell when its validity bit reads [valid]: a null is stored without
    bytes, so that a null taken for valid is the empty string. *)
Definition read_as (valid : bool) (o : option Value) : option Value :=
  if valid then Some (default (VStr ""%string) o) else None.
Definition column_read (valid : nat -> bool) (j : nat) (vrows : list (list (option Value))) : list (Value * bool) :=
  imap (fun i row => raw_of_cell kVarchar (read_as (valid i) (cell_at row j))) vrows.

Lemma column_read_take_S valid j vrows i row :
  vrows !! i = Some row ->
  column_read valid j (take (S i) vrows) =
    column_read valid j (take i vrows) ++ [raw_of_cell kVarchar (read_as (valid i) (cell_at row j))].
Proof.
  intros Hi. unfold column_read. rewrite (take_S_r _ _ _ Hi), imap_app. simpl.
  by rewrite length_take_le, Nat.add_0_r by (apply lookup_lt_Some in Hi; lia).
Qed.

Lemma column_read_size valid j vrows : str_size (column_read valid j vrows) <= str_size (column_of kVarchar j vrows).
Proof.
  unfold column_read. revert valid. induction vrows as [|row vrows IH]; intros valid; [done|].
  rewrite imap_cons. specialize (IH (valid ∘ S)).
  change (column_of kVarchar j (row :: vrows)) with ([raw_of_cell kVarchar (cell_at row j)] ++ column_of kVarchar j vrows).
  rewrite (str_size_app [_]). change (str_size (?r :: ?rs)) with (str_len r.1 + str_size rs). apply Z.add_le_mono; [|exact IH].
  unfold str_size. simpl. rewrite !str_len_raw. unfold read_as. destruct (valid 0%nat); destruct (cell_at row j) as [[]|]; simpl; lia.
Qed.

Lemma column_read_stored valid j vrows :
  (forall i row, vrows !! i = Some row -> valid i = bool_decide (is_Some (cell_at row j))) ->
  column_read valid j vrows = column_of kVarchar j vrows.
Proof.
  intros Hv. apply list_eq. intros i. unfold column_read, column_of. rewrite list_lookup_imap, list_lookup_fmap.
  destruct (vrows !! i) as [row|] eqn:Hi; [|done]. simpl. rewrite (Hv i row Hi).
  destruct (cell_at row j); [by rewrite bool_decide_true by eauto|by rewrite bool_decide_false by (by intros [])].
Qed.

(** The bytes of a vector's strings: [l] are the column's strings, and the [m] pages from page
    [a] of their bytes cover the vector. *)
Record vector_loaded (j v : nat) (l : list (option string)) (dpad : list byte) (a m : nat) : Prop := {
  vl_raws : column_of kVarchar j rows = string_raws l;
  vl_size : Varchar.rows_size l < 2 ^ 31;
  vl_fits : fits (column_of kVarchar j rows);
  vl_low : Z.of_nat (a * kPage) <= Varchar.rows_size (take (v * 1024) l);
  vl_high : Varchar.rows_size (take (v * 1024 + length (vector_rows v rows)) l) <= Z.of_nat ((a + m) * kPage);
  vl_length : ((a + m) * kPage <= length (Varchar.rows_data l ++ dpad))%nat;
}.

(** One row of the loop. *)
Lemma read_varchar_cell j l opad dpad (a m r : nat) row col rs (valid : bool) :
  column_of kVarchar j rows = string_raws l -> Varchar.rows_size l < 2 ^ 31 ->
  rows !! r = Some row ->
  Z.of_nat (a * kPage) <= Varchar.rows_size (take r l) ->
  Varchar.rows_size (take (S r) l) <= Z.of_nat ((a + m) * kPage) ->
  ((a + m) * kPage <= length (Varchar.rows_data l ++ dpad))%nat ->
  col_repr (VarcharCol col) kVarchar rs -> fits (rs ++ [raw_of_cell kVarchar (read_as valid (cell_at row j))]) ->
  exists col', (offset ← load_u32 (offset_bytes (Varchar.rows_offsets l) ++ opad) (r * 4);
    next ← load_u32 (offset_bytes (Varchar.rows_offsets l) ++ opad) ((r + 1) * 4);
    let s := u32 (offset - Z.of_nat (a * kPage)) in
    let e := u32 (next - Z.of_nat (a * kPage)) in
    if valid then
      bytes ← load_bytes (region (Varchar.rows_data l ++ dpad) (a * kPage) (m * kPage)) (Z.to_nat s) (Z.to_nat (u32 (e - s)));
      Varchar.Append col (string_of_bytes bytes)
    else Varchar.AppendNull col) = Ok col' /\
    col_repr (VarcharCol col') kVarchar (rs ++ [raw_of_cell kVarchar (read_as valid (cell_at row j))]).
Proof.
  intros Hraws Hsize Hrow Hlo Hhi Hlen Hcol Hfits.
  pose proof (column_of_lookup kVarchar j rows r row Hrow) as Hraw. rewrite Hraws in Hraw.
  unfold string_raws in Hraw. rewrite list_lookup_fmap in Hraw.
  destruct (l !! r) as [o|] eqn:Ho; [|done]. cbn [fmap option_fmap option_map] in Hraw. injection Hraw as Hraw.
  pose proof (lookup_lt_Some _ _ _ Ho) as Hr. pose proof (rows_size_S l r o Ho) as HS.
  pose proof (Varchar.rows_size_take r l). pose proof (Varchar.rows_size_take (S r) l).
  pose proof (Varchar.rows_size_nonneg (take r l)).
  rewrite (load_offset _ _ r (Varchar.rows_size (take r l))) by
    first [apply Varchar.rows_offsets_lookup; lia|unfold is_u32; lia].
  rewrite Nat.add_1_r, (load_offset _ _ (S r) (Varchar.rows_size (take (S r) l))) by
    first [apply Varchar.rows_offsets_lookup; lia|unfold is_u32; lia].
  cbn [mbind result_bind]. rewrite !(u32_id (_ - Z.of_nat _)) by (unfold is_u32; lia).
  replace (Varchar.rows_size (take (S r) l) - Z.of_nat (a * kPage) - (Varchar.rows_size (take r l) - Z.of_nat (a * kPage)))
    with (Z.of_nat (length (Varchar.row_bytes o))) by lia.
  rewrite u32_id by (unfold is_u32; lia). rewrite Nat2Z.id.
  assert (raw_of_cell kVarchar (read_as valid (cell_at row j)) = if valid then (VStr (Varchar.row_string o), true) else (VStr "", false)) as Hread.
  { destruct valid; [|done]. unfold read_as. by destruct o as [str|]; destruct (cell_at row j) as [val|]; simpl in *; simplify_eq. }
  rewrite Hread in *. destruct valid.
  - assert (length (region (Varchar.rows_data l ++ dpad) (a * kPage) (m * kPage)) = m * kPage)%nat as Hreg
      by (apply length_region; lia).
    unfold load_bytes. rewrite decide_True by (rewrite Hreg; lia). cbn [mbind result_bind].
    rewrite region_region by lia.
    replace (a * kPage + Z.to_nat (Varchar.rows_size (take r l) - Z.of_nat (a * kPage)))%nat
      with (Z.to_nat (Varchar.rows_size (take r l))) by lia.
    rewrite (row_bytes_region l r o) by done. unfold Varchar.row_bytes. rewrite string_of_bytes_of_string.
    destruct (col_Append_repr (VarcharCol col) kVarchar rs (VStr (Varchar.row_string o)) Hcol eq_refl Hfits) as (c1 & HA & Hr1).
    simpl in HA. destruct (Varchar.Append col _) as [col'|e| |]; try discriminate HA.
    exists col'. split; [done|]. by injection HA as <-.
  - destruct (col_AppendNull_repr (VarcharCol col) kVarchar rs Hcol) as (c1 & HA & Hr1).
    simpl in HA. destruct (Varchar.AppendNull col) as [col'|e| |]; try discriminate HA.
    exists col'. split; [done|]. by injection HA as <-.
Qed.

(** The loop delivers the strings as the validity bits it reads say. *)
Lemma read_varchar_column_spec j v l opad dpad memory bp (a m : nat) (valid : nat -> bool) :
  vector_loaded j v l dpad a m ->
  let n := length (vector_rows v rows) in
  (forall i, (i < n)%nat -> IsColumnValidAtRow memory bp (length rows) j (v * 1024 + i) = Ok (valid i)) ->
  exists c', read_varchar_column memory bp (offset_bytes (Varchar.rows_offsets l) ++ opad)
      (region (Varchar.rows_data l ++ dpad) (a * kPage) (m * kPage)) (Z.of_nat (a * kPage)) (length rows) j (v * 1024) n
    = Ok c' /\ col_repr (VarcharCol c') kVarchar (column_read valid j (vector_rows v rows)).
Proof.
  intros [Hraws Hsize Hfits Hlo Hhi Hlen] n Hbits. fold n in Hhi. unfold read_varchar_column.
  edestruct (for_range_inv (fun i c' => col_repr (VarcharCol c') kVarchar (column_read valid j (take i (vector_rows v rows)))))
    as (c' & HR & Hc'); [| |exists c'; split; [exact HR|]].
  - intros i c' Hi Hc'. assert (i < n)%nat as Hlt by lia.
    destruct (lookup_lt_is_Some_2 (vector_rows v rows) i Hlt) as [row Hrow].
    pose proof Hrow as Hrow'. rewrite vector_rows_lookup in Hrow' by exact Hlt.
    rewrite Hbits by exact Hlt. rewrite (column_read_take_S _ _ _ _ row Hrow). cbn [mbind result_bind].
    apply (read_varchar_cell j l opad dpad a m); try done.
    + pose proof (rows_size_mono l (v * 1024) (v * 1024 + i) ltac:(lia)). lia.
    + pose proof (rows_size_mono l (S (v * 1024 + i)) (v * 1024 + n) ltac:(lia)). lia.
    + rewrite <- (column_read_take_S _ _ _ _ row Hrow). pose proof (vector_fits j v (S i) Hfits) as Hf.
      pose proof (column_read_size valid j (take (S i) (vector_rows v rows))). unfold fits in *. lia.
  - simpl. split; [done|]. exists []. split; [apply Varchar.empty_repr|done].
  - rewrite Nat.add_0_l in Hc'. fold n in Hc'. rewrite take_ge in Hc' by (unfold n; lia). exact Hc'.
Qed.

(** The bits of a column are in the first page of the validity region, which is the only
    one [AppendVarchar] fetches. *)
Definition validity_on_first_page (j : nat) : Prop := (S j * bytes_per_column (length rows) <= kPage)%nat.

Lemma page_validity bits pad j r memory ptr :
  bits_before (specs_of tys rows) (length rows) (length tys) 0 bits ->
  (j < length tys)%nat -> (r < length rows)%nat -> validity_on_first_page j ->
  region memory ptr kPage = region (bits ++ pad) 0 kPage -> length (region memory ptr kPage) = kPage ->
  IsColumnValidAtRow memory ptr (length rows) j r = Ok (valid_at (specs_of tys rows) j r).
Proof.
  intros Hbits Hj Hr Hfirst Hmem Hlen. pose proof rg_rows as [_ Hn]. unfold kRowGroupSize in Hn.
  pose proof (bytes_per_column_lt (length rows) r ltac:(lia) Hr). unfold validity_on_first_page in Hfirst.
  apply (validity_roundtrip _ _ bits _ ptr kPage pad); [lia|by rewrite length_specs_of|done|done|by rewrite length_specs_of|done|lia].
Qed.

(** The page range of the bytes of a vector. *)
Lemma data_page_range start byte_start byte_end count :
  0 < start -> start + Z.of_nat count + 1 < 2 ^ 32 -> 0 <= byte_start <= byte_end ->
  byte_end <= Z.of_nat (count * kPage) ->
  exists a m, (0 < m)%nat /\ (a + m <= count + 1)%nat /\
    u32 (start + byte_start / kPageSizeBytes) = start + Z.of_nat a /\
    u32 (start + byte_end / kPageSizeBytes) = start + Z.of_nat a + Z.of_nat m - 1 /\
    Z.to_nat (u32 (start + Z.of_nat a + Z.of_nat m - 1 - (start + Z.of_nat a) + 1)) = m /\
    u32 (u32 (start + Z.of_nat a - start) * kPageSizeBytes) = Z.of_nat (a * kPage) mod 2 ^ 32 /\
    Z.of_nat (a * kPage) <= byte_start /\ byte_end <= Z.of_nat ((a + m) * kPage).
Proof.
  intros H1 H2 H3 H4. assert (Z.of_nat kPage = 4096) as HkZ by done. unfold kPageSizeBytes in *.
  pose proof (Z.div_mod byte_start 4096 ltac:(lia)). pose proof (Z.mod_pos_bound byte_start 4096 ltac:(lia)).
  pose proof (Z.div_mod byte_end 4096 ltac:(lia)). pose proof (Z.mod_pos_bound byte_end 4096 ltac:(lia)).
  pose proof (Z.div_le_mono byte_start byte_end 4096 ltac:(lia) ltac:(lia)).
  assert (0 <= byte_start / 4096) by (apply Z.div_pos; lia).
  set (a := byte_start / 4096) in *. set (b := byte_end / 4096) in *.
  assert (b <= Z.of_nat count) by nia.
  exists (Z.to_nat a), (Z.to_nat (b - a + 1)). rewrite !u32_id by (unfold is_u32; lia).
  rewrite !Nat2Z.inj_mul, HkZ. split_and!; try lia.
  rewrite (u32_id (start + Z.of_nat (Z.to_nat a) - start)) by (unfold is_u32; lia). unfold u32. f_equal. lia.
Qed.

(** The first page of the validity region. *)
Lemma validity_page j ty :
  tys !! j = Some ty -> exists bits pad,
    bits_before (specs_of tys rows) (length rows) (length tys) 0 bits /\
    is_u32 (start_page_id (validity_bitmap_region_ rg)) /\ 0 < start_page_id (validity_bitmap_region_ rg) /\
    view (start_page_id (validity_bitmap_region_ rg)) = Some (region (bits ++ pad) 0 kPage).
Proof.
  intros Hj. destruct rg_rows as [_ Hn0]. destruct rg_bits as (bits & bpad & Hbits & Hregion).
  assert (0 < Z.to_nat (page_count (validity_bitmap_region_ rg)))%nat as Hrp.
  { pose proof (st_length _ _ _ Hregion) as Hrl. rewrite length_app in Hrl. destruct Hbits as [Hbl _].
    rewrite length_specs_of in Hbl. apply lookup_lt_Some in Hj. unfold kRowGroupSize in Hn0.
    pose proof (bytes_per_column_lt (length rows) 0 ltac:(lia) ltac:(lia)). nia. }
  pose proof (st_page _ _ _ Hregion 0%nat Hrp) as Hpage. rewrite Z.add_0_r, Nat.mul_0_l in Hpage.
  pose proof (st_start _ _ _ Hregion). pose proof (st_end _ _ _ Hregion).
  exists bits, bpad. split_and!; [done|unfold is_u32; lia|done|done].
Qed.

(** The last part of [AppendVarchar]: the loop, with the first page of the validity region
    held in a frame. *)
Definition read_validity (v j : nat) (l : list (option string)) (opad dpad : list byte) (a m : nat)
    : io (Store F) Varchar.VarcharColumn :=
  with_page (start_page_id (validity_bitmap_region_ rg)) (fun bitmap_page =>
    store ← io_get;
    io_lift (read_varchar_column (BufferPool.pages_ (pool_ store)) bitmap_page (offset_bytes (Varchar.rows_offsets l) ++ opad)
      (region (Varchar.rows_data l ++ dpad) (a * kPage) (m * kPage)) (Z.of_nat (a * kPage)) (length rows) j (v * 1024)
      (length (vector_rows v rows)))).

Lemma read_validity_returns v j l opad dpad (a m : nat) s :
  scan_inv s -> tys !! j = Some kVarchar -> validity_on_first_page j -> vector_loaded j v l dpad a m ->
  returns (read_validity v j l opad dpad a m) s
    (fun column s' => scan_inv s' /\ col_repr (VarcharCol column) kVarchar (column_of kVarchar j (vector_rows v rows))).
Proof.
  intros Hinv Hj Hfirst Hload. destruct (validity_page j _ Hj) as (bits & bpad & Hbits & Hu & Hu0 & Hpage).
  apply (returns_quiet _ s (fun column => col_repr (VarcharCol column) kVarchar (column_of kVarchar j (vector_rows v rows))) Hinv).
  destruct Hinv as (Hwf & Hb & Hview & _).
  eapply (with_page_returns view _ _ _ _ _ Hwf Hu); [lia|by eexists|by apply Hview|lia|].
  intros f s3 Hh. apply returns_get_bind. assert (quiet s3 s3) as Hq by (apply quiet_refl, Hh).
  destruct (holding_quiet _ _ _ _ _ _ _ Hu Hh Hq) as [Hmem Hlen].
  destruct (read_varchar_column_spec j v l opad dpad (BufferPool.pages_ (pool_ s3)) (frame_ptr f) a m
    (fun i => valid_at (specs_of tys rows) j (v * 1024 + i)) Hload) as (c' & HR & Hc').
  { intros i Hi. rewrite length_vector_rows in Hi. apply lookup_lt_Some in Hj.
    eapply page_validity; [exact Hbits|done|lia|done|exact Hmem|by rewrite Hmem]. }
  eapply returns_lift; [exact HR|]. split; [done|].
  rewrite (column_read_stored (fun i => valid_at (specs_of tys rows) j (v * 1024 + i))) in Hc'; [done|].
  intros i row Hi. apply (valid_at_specs tys rows j _ _ row Hj). rewrite <- vector_rows_lookup; [done|by eapply lookup_lt_Some].
Qed.

(** What [AppendVarchar] does before: it copies the offsets and the vector's bytes. *)
Lemma AppendVarchar_prefix v j chunk s :
  scan_inv s -> tys !! j = Some kVarchar -> (v * 1024 < length rows)%nat ->
  exists l opad dpad a m s2, vector_loaded j v l dpad a m /\ scan_inv s2 /\
    AppendVarchar chunk rg j (v * 1024) (length (vector_rows v rows)) s =
      (column ← read_validity v j l opad dpad a m; io_lift (AddColumn chunk (VarcharCol column))) s2.
Proof.
  intros Hinv Hj Hv. destruct rg_rows as [Hn Hn0].
  destruct (rg_column j kVarchar Hj) as (column & entry & Hentry & Hcr & Hst).
  destruct column as [c|c|c]; try (by destruct Hcr as [? _]). destruct entry as [e|e|e]; try done.
  pose proof (col_repr_fits _ _ Hcr) as Hfits. destruct Hcr as (_ & l & Hl & Hraws).
  destruct Hst as (_ & ob & db & HS & [opad Hoffs] & Hs0 & Hcount & [dpad Hdata]).
  rewrite (Varchar.Size_repr c l Hl), (SerializeVarchar_spec c l Hl) in HS. injection HS as <- <-.
  assert (length l = length rows) as Hll by (apply (f_equal length) in Hraws; unfold column_of in Hraws; by rewrite !length_map in Hraws).
  pose proof Hl as (_ & _ & _ & _ & Hsize). pose proof (length_vector_rows v rows) as Hvn. unfold read_validity.
  remember (length (vector_rows v rows)) as n eqn:En.
  pose proof (Varchar.rows_size_take (v * 1024) l). pose proof (Varchar.rows_size_take (v * 1024 + n) l).
  pose proof (Varchar.rows_size_nonneg (take (v * 1024) l)). pose proof (rows_size_mono l (v * 1024) (v * 1024 + n) ltac:(lia)).
  pose proof (st_start _ _ _ Hdata) as Hs1. pose proof (st_end _ _ _ Hdata) as Hs2. pose proof (st_count _ _ _ Hdata) as Hs3.
  pose proof (st_length _ _ _ Hdata) as Hs4. cbn [start_page_id page_count] in Hs1, Hs2, Hs3, Hs4.
  assert (length (Varchar.rows_data l) = Z.to_nat (Varchar.rows_size l)) as Hdl by (unfold Varchar.rows_size; by rewrite Nat2Z.id).
  destruct (data_page_range (start_page_id (data_pages_ e)) (Varchar.rows_size (take (v * 1024) l))
    (Varchar.rows_size (take (v * 1024 + n) l)) (Z.to_nat (page_count (data_pages_ e))))
    as (a & m & Hm & Ham & Hfirst_page & Hlast_page & Hpages & Hbase & Hlo & Hhi); [lia..|].
  destruct (returns_quiet _ s _ Hinv (FetchWholeRegion_view _ _ s Hinv Hoffs)) as (? & s1 & HF & Hinv1 & ->).
  destruct (returns_quiet _ s1 _ Hinv1 (fetch_data_pages_returns _ _ a m s1 Hinv1 Hdata ltac:(cbn [page_count]; lia) Hm))
    as (? & s2 & HD & Hinv2 & ->).
  exists l, opad, dpad, a, m, s2. split; [|split; [exact Hinv2|]].
  { split; [done|lia|done|done|by rewrite <- En|]. rewrite Hs4. apply Nat.mul_le_mono_r. lia. }
  unfold AppendVarchar. rewrite Hentry, io_lift_bind. change (get_varchar_entry (VarcharEntry e)) with (Ok e). rewrite io_lift_bind. cbn zeta.
  rewrite (io_bind_Ok _ _ _ _ _ HF).
  rewrite (load_offset _ _ _ _ (Varchar.rows_offsets_lookup l (v * 1024) ltac:(lia)) ltac:(unfold is_u32; lia)), io_lift_bind.
  rewrite (load_offset _ _ _ _ (Varchar.rows_offsets_lookup l (v * 1024 + n) ltac:(lia)) ltac:(unfold is_u32; lia)).
  rewrite io_lift_bind, Hfirst_page, Hlast_page, Hpages, Hbase, Z.mod_small by lia.
  cbn [start_page_id] in HD. by rewrite (io_bind_Ok _ _ _ _ _ HD), Hn.
Qed.

Lemma AppendVarchar_returns v j chunk cols sel s :
  scan_inv s -> tys !! j = Some kVarchar -> (v * 1024 < length rows)%nat -> validity_on_first_page j ->
  chunk_repr chunk cols sel -> length sel = length (vector_rows v rows) ->
  returns (AppendVarchar chunk rg j (v * 1024) (length sel)) s (fun chunk' s' =>
    scan_inv s' /\ chunk_repr chunk' (cols ++ [(kVarchar, column_of kVarchar j (vector_rows v rows))]) sel).
Proof.
  intros Hinv Hj Hv Hfirst Hch Hsel.
  destruct (AppendVarchar_prefix v j chunk s Hinv Hj Hv) as (l & opad & dpad & a & m & s2 & Hload & Hinv2 & HA).
  unfold returns. rewrite Hsel, HA. change (returns (column ← read_validity v j l opad dpad a m; io_lift (AddColumn chunk (VarcharCol column))) s2
    (fun chunk' s' => scan_inv s' /\ chunk_repr chunk' (cols ++ [(kVarchar, column_of kVarchar j (vector_rows v rows))]) sel)).
  eapply returns_bind; [by apply read_validity_returns|]. intros c' s' [Hinv' Hc'].
  destruct (AddColumn_repr chunk cols sel _ _ _ Hch Hc') as (chunk' & HC & Hch').
  { by rewrite Hsel; unfold column_of; rewrite length_map. }
  by eapply returns_lift.
Qed.

Context (table : TableObject).
Hypothesis Htys : tys = map type (tbl_columns_ table).

Definition type_at (j : nat) : TypeId := default kInteger (tys !! j).

(** The columns of a chunk. *)
Definition scan_columns (required : list nat) (vrows : list (list (option Value))) : list colspec :=
  map (fun j => (type_at j, column_of (type_at j) j vrows)) required.

Lemma scan_columns_app r1 r2 vrows : scan_columns (r1 ++ r2) vrows = scan_columns r1 vrows ++ scan_columns r2 vrows.
Proof. apply map_app. Qed.

Definition readable (j : nat) : Prop :=
  (j < length tys)%nat /\ (tys !! j = Some kVarchar -> validity_on_first_page j).

Lemma AppendColumn_returns v j chunk cols sel s :
  scan_inv s -> readable j -> (v * 1024 < length rows)%nat ->
  chunk_repr chunk cols sel -> length sel = length (vector_rows v rows) ->
  returns (AppendColumn table v chunk rg j (v * 1024) (length sel)) s (fun chunk' s' =>
    scan_inv s' /\ chunk_repr chunk' (cols ++ scan_columns [j] (vector_rows v rows)) sel).
Proof.
  intros Hinv [Hj Hfirst] Hv Hch Hsel. destruct (lookup_lt_is_Some_2 tys j Hj) as [ty Hty].
  pose proof Hty as Hcol. rewrite Htys, list_lookup_fmap in Hcol.
  destruct (tbl_columns_ table !! j) as [column|] eqn:Hc; [|done]. injection Hcol as Hcol.
  unfold AppendColumn. eapply returns_lift_bind; [unfold Column; by apply vec_get_Ok|]. rewrite Hcol.
  assert (type_at j = ty) as Hat by (unfold type_at; by rewrite Hty). simpl. rewrite Hat.
  destruct ty.
  - exact (AppendFixedWidth_returns Z v j chunk cols sel s Hinv Hty Hv Hch Hsel).
  - exact (AppendFixedWidth_returns f32 v j chunk cols sel s Hinv Hty Hv Hch Hsel).
  - apply AppendVarchar_returns; auto.
Qed.

Lemma select_all_repr chunk cols sel :
  chunk_repr chunk cols sel -> sel = replicate (length sel) true ->
  exists chunk', for_range 0 (length sel) (fun i chunk => SetRowSelected chunk i true) chunk = Ok chunk' /\
    chunk_repr chunk' cols sel.
Proof.
  intros Hch Hsel.
  destruct (for_range_inv (fun _ c => chunk_repr c cols sel) (fun i chunk => SetRowSelected chunk i true) 0 (length sel) chunk)
    as (chunk' & HR & Hc); [|done|by exists chunk'].
  intros i c Hi Hc. destruct (SetRowSelected_repr c cols sel i true Hc) as (c' & HS & Hc' & _); [lia|].
  exists c'. split; [done|]. rewrite list_insert_id in Hc'; [done|]. rewrite Hsel. apply lookup_replicate_2. lia.
Qed.

Lemma scan_vector_returns op s :
  scan_inv s -> table_ op = table -> Forall readable (required_ordinals_ op) ->
  (vector_index_ op * 1024 < length rows)%nat ->
  let vrows := vector_rows (vector_index_ op) rows in
  returns (scan_vector op rg) s (fun chunk s' =>
    scan_inv s' /\ chunk_repr chunk (scan_columns (required_ordinals_ op) vrows) (replicate (length vrows) true)).
Proof.
  intros Hinv Htab Hreq Hv vrows. set (v := vector_index_ op) in *. pose proof rg_rows as [_ Hn]. unfold kRowGroupSize in Hn.
  pose proof (length_vector_rows v rows) as Hvl. fold vrows in Hvl.
  assert (Z.to_nat (u32 (Z.of_nat v * kVectorSize)) = (v * 1024)%nat) as Hstart.
  { unfold kVectorSize. rewrite u32_id by (unfold is_u32; lia). lia. }
  assert (Z.to_nat (Z.min kVectorSize (u32 (row_count_ rg - u32 (Z.of_nat v * kVectorSize)))) = length vrows) as Hlen.
  { rewrite Hvl. destruct rg_rows as [Hc _]. destruct Hrg as (Hc' & _). rewrite Hc'. unfold kVectorSize.
    rewrite (u32_id (Z.of_nat v * 1024)), u32_id by (unfold is_u32; lia). lia. }
  unfold scan_vector. fold v. cbn zeta. rewrite Hstart, Hlen, Htab.
  destruct (new_chunk_repr (length vrows)) as (c0 & Hc0 & Hr0 & _); [lia|].
  eapply returns_lift_bind; [exact Hc0|].
  destruct (select_all_repr c0 _ _ Hr0) as (c1 & Hc1 & Hr1); [by rewrite length_replicate|].
  rewrite length_replicate in Hc1. eapply returns_lift_bind; [exact Hc1|].
  eapply (returns_for_each (fun dn chunk s => scan_inv s /\
    chunk_repr chunk (scan_columns dn vrows) (replicate (length vrows) true))); [|done].
  intros dn j todo chunk s1 Heq [Hi1 Hch]. rewrite (scan_columns_app dn [j]).
  pose proof (AppendColumn_returns v j chunk (scan_columns dn vrows) (replicate (length vrows) true) s1 Hi1) as Hstep. rewrite length_replicate in Hstep.
  eapply Hstep; try done. rewrite Heq in Hreq. apply Forall_app in Hreq as [_ Hreq].
  by apply Forall_cons in Hreq as [? _].
Qed.

End ReadGroup.

(** ** The stream of chunks *)

(** The cells of the required columns. *)
Definition pick (required : list nat) (row : list (option Value)) : list (option Value) := map (cell_at row) required.

Lemma live_rows_scan tys required vrows :
  live_rows (scan_columns tys required vrows) (replicate (length vrows) true) = map (pick required) vrows.
Proof.
  unfold live_rows. rewrite selected_all. symmetry.
  rewrite (list_eq_seq (cell_row (scan_columns tys required vrows)) (map (pick required) vrows)).
  { by rewrite length_map. }
  intros i x. rewrite list_lookup_fmap. destruct (vrows !! i) as [row|] eqn:Hi; [|done]. intros [= <-].
  unfold cell_row, raw_row, scan_columns, pick. rewrite !map_map. apply map_ext. intros j. simpl.
  rewrite (column_of_lookup _ j vrows i row Hi). simpl. apply cell_of_raw.
Qed.

Definition vectors (n : nat) : nat := (n + 1023) / 1024.

Lemma concat_vectors {A} n (rows : list A) :
  (length rows <= n * 1024)%nat -> concat (map (fun v => vector_rows v rows) (seq 0 n)) = rows.
Proof.
  revert rows. induction n as [|n IH]; intros rows Hl; [by destruct rows; simpl in *; [|lia]|].
  cbn [seq map concat]. rewrite <- seq_shift, map_map.
  rewrite (map_ext _ (fun v => vector_rows v (drop 1024 rows))).
  - rewrite IH by (rewrite length_drop; lia). unfold vector_rows. simpl. rewrite drop_0. apply take_drop.
  - intros v. unfold vector_rows. by rewrite drop_drop.
Qed.

Lemma vectors_bounds n : (n <= vectors n * 1024)%nat /\ forall v, (v < vectors n <-> v * 1024 < n)%nat.
Proof.
  unfold vectors. pose proof (Nat.div_mod_eq (n + 1023) 1024). pose proof (Nat.mod_upper_bound (n + 1023) 1024 ltac:(lia)).
  split; [lia|]. intros v. split; [nia|]. intros Hv. apply Nat.div_le_lower_bound; lia.
Qed.

Section Stream.
Context {F : Type} `{PosixFileLaws F} `{!ReliableFile F}.
Context (view : Z -> option (list byte)) (table : TableObject) (required : list nat) (skip : option ZoneMapSkipCondition).

Let tys := map type (tbl_columns_ table).

Definition scan_at (idx vec : nat) : SeqScanOperator := mk_scan table required skip idx vec.

(** Whether the zone map of a row group excludes it. *)
Definition skipped (rg : RowGroupFooterEntry) : bool :=
  match skips (new_scan table required skip) rg with Ok b => b | _ => false end.

Definition group_chunks (rows : list (list (option Value))) : list chunkspec :=
  map (fun v => (scan_columns tys required (vector_rows v rows), replicate (length (vector_rows v rows)) true))
    (seq 0 (vectors (length rows))).

(** What is left from vector [vec] of the first of [gs]. *)
Fixpoint chunks_from (gs : list (RowGroupFooterEntry * list (list (option Value)))) (vec : nat) : list chunkspec :=
  match gs with
  | [] => []
  | (rg, rows) :: gs' => if skipped rg then chunks_from gs' 0 else drop vec (group_chunks rows) ++ chunks_from gs' 0
  end.

(** The rows of the scan. *)
Definition scan_rows (gs : list (RowGroupFooterEntry * list (list (option Value)))) : list (list (option Value)) :=
  concat (map (fun g => if skipped g.1 then [] else map (pick required) g.2) gs).

Lemma rows_of_app cs1 cs2 : rows_of (cs1 ++ cs2) = rows_of cs1 ++ rows_of cs2.
Proof. unfold rows_of. by rewrite map_app, concat_app. Qed.

Lemma rows_of_group rows : rows_of (group_chunks rows) = map (pick required) rows.
Proof.
  unfold rows_of, group_chunks. rewrite map_map. cbn [fst snd].
  erewrite map_ext by (intros v; apply live_rows_scan).
  rewrite <- (map_map (fun v => vector_rows v rows) (map (pick required))), <- concat_map.
  by rewrite concat_vectors by apply vectors_bounds.
Qed.

Lemma rows_of_scan gs : rows_of (chunks_from gs 0) = scan_rows gs.
Proof.
  induction gs as [|[rg rows] gs IH]; [done|]. unfold scan_rows in *. simpl. destruct (skipped rg); [done|].
  by rewrite drop_0, rows_of_app, IH, rows_of_group.
Qed.

Context (gs : list (RowGroupFooterEntry * list (list (option Value)))).
Hypothesis Hgs : gs.*1 = row_groups_ table.
Hypothesis Hstored : Forall (fun g => row_group_stored view tys g.1 g.2) gs.
Hypothesis Hreadable : Forall (fun g => Forall (readable tys g.2) required) gs.
Hypothesis Hskips : Forall (fun g => is_ok (skips (new_scan table required skip) g.1)) gs.

Lemma AdvanceToUsableRowGroup_spec fuel idx vec :
  (length (drop idx gs) < fuel)%nat ->
  exists b idx' vec', AdvanceToUsableRowGroup fuel (scan_at idx vec) = Ok (b, scan_at idx' vec') /\
    chunks_from (drop idx gs) vec = chunks_from (drop idx' gs) vec' /\
    (idx' = idx /\ vec' = vec \/ vec' = 0%nat) /\
    if b then exists g, gs !! idx' = Some g /\ skipped g.1 = false else gs !! idx' = None.
Proof.
  revert idx vec. induction fuel as [|fuel IH]; intros idx vec Hf; [lia|]. simpl. rewrite <- Hgs, list_lookup_fmap.
  destruct (gs !! idx) as [g|] eqn:Hg; simpl.
  - assert (exists b, skips (new_scan table required skip) g.1 = Ok b) as [b Hb]
      by (rewrite Forall_lookup in Hskips; by apply (Hskips idx)).
    change (skips (scan_at idx vec) g.1) with (skips (new_scan table required skip) g.1). rewrite Hb.
    cbn [mbind result_bind]. assert (skipped g.1 = b) as Hsk by (unfold skipped; by rewrite Hb).
    rewrite (drop_S gs g idx Hg) in *. destruct b.
    + destruct (IH (S idx) 0%nat) as (b & idx' & vec' & HA & Hc & Hpos & Hres); [simpl in Hf; lia|].
      exists b, idx', vec'. split_and!; [exact HA| | |done].
      * destruct g as [rg rows]. simpl in *. by rewrite Hsk.
      * right. by destruct Hpos as [[_ ?]|?].
    + exists true, idx, vec. split_and!; [done|by rewrite (drop_S gs g idx Hg)|by left|]. exists g. done.
  - exists false, idx, vec. split_and!; [done..|by left|done].
Qed.

Definition position_ok (idx vec : nat) : Prop := forall g, gs !! idx = Some g -> (vec * 1024 < length g.2)%nat.

Lemma position_ok_0 idx : position_ok idx 0.
Proof.
  intros g Hg. rewrite Forall_lookup in Hstored. destruct (rg_rows view tys g.1 g.2 (Hstored idx g Hg)) as [_ ?]. lia.
Qed.

Lemma GetNext_scan fuel idx vec w :
  position_ok idx vec -> scan_inv view w ->
  match chunks_from (drop idx gs) vec with
  | [] => exists op' w', GetNext fuel (scan_at idx vec) w = (Ok (None, op'), w') /\ scan_inv view w'
  | c :: cs' => exists chunk idx' vec' w',
      GetNext fuel (scan_at idx vec) w = (Ok (Some chunk, scan_at idx' vec'), w') /\ scan_inv view w' /\
      chunk_repr chunk c.1 c.2 /\ position_ok idx' vec' /\ chunks_from (drop idx' gs) vec' = cs'
  end.
Proof.
  intros Hpos Hinv. destruct (AdvanceToUsableRowGroup_spec (S (length (row_groups_ table))) idx vec)
    as (b & idx1 & vec1 & HA & Hc & Hp & Hres).
  { rewrite <- Hgs, length_fmap, length_drop. lia. }
  assert (position_ok idx1 vec1) as Hpos1 by (destruct Hp as [[-> ->]| ->]; [done|apply position_ok_0]).
  unfold GetNext, SeqScanOperator_op. cbn [table_ scan_at]. unfold mbind at 1, io_bind at 1, io_lift at 1. rewrite HA.
  destruct b; cbn [negb].
  2: { rewrite Hc. apply lookup_ge_None in Hres. rewrite drop_ge by done. simpl. by exists (scan_at idx1 vec1), w. }
  destruct Hres as (g & Hg & Hsk). specialize (Hpos1 g Hg). rewrite Hc, (drop_S gs g idx1 Hg).
  assert (row_group_stored view tys g.1 g.2) as Hst by (rewrite Forall_lookup in Hstored; by apply (Hstored idx1)).
  assert (Forall (readable tys g.2) required) as Hread by (rewrite Forall_lookup in Hreadable; by apply (Hreadable idx1)).
  destruct g as [rg rows]. cbn [chunks_from fst snd] in *. rewrite Hsk.
  destruct (vectors_bounds (length rows)) as [_ Hvec]. pose proof (proj2 (Hvec vec1) Hpos1) as Hlt.
  rewrite (drop_S (group_chunks rows) (scan_columns tys required (vector_rows vec1 rows),
    replicate (length (vector_rows vec1 rows)) true) vec1).
  2: { unfold group_chunks. by rewrite map_seq_lookup. }
  cbn [app]. destruct (scan_vector_returns view tys rg rows Hst table eq_refl (scan_at idx1 vec1) w Hinv eq_refl Hread Hpos1)
    as (chunk & w' & HS & Hinv' & Hch).
  unfold mbind, io_bind, io_lift. cbn [table_ row_group_index_ scan_at].
  rewrite (proj2 (vec_get_Ok (row_groups_ table) idx1 rg)) by (by rewrite <- Hgs, list_lookup_fmap, Hg).
  cbn [negb]. cbv beta. rewrite HS. destruct (rg_rows view tys rg rows Hst) as [_ Hn]. destruct Hst as (Hcount & _).
  unfold mret, io_ret, next_vector. cbn [table_ row_group_index_ vector_index_ scan_at]. rewrite Hcount.
  change kVectorSize with 1024. destruct (Z.leb_spec (Z.of_nat (length rows)) (Z.of_nat (S vec1) * 1024)) as [Hle|Hgt].
  - exists chunk, (S idx1), 0%nat, w'. split_and!; [done|done|done|apply position_ok_0|].
    rewrite (drop_ge (group_chunks rows)); [done|]. unfold group_chunks. rewrite length_map, length_seq.
    destruct (Nat.lt_ge_cases (S vec1) (vectors (length rows))) as [Hc'|]; [|done]. apply Hvec in Hc'. lia.
  - exists chunk, idx1, (S vec1), w'. split_and!; [done|done|done| |].
    + intros g' Hg'. rewrite Hg in Hg'. injection Hg' as <-. simpl. lia.
    + rewrite (drop_S gs (rg, rows) idx1 Hg). cbn [chunks_from]. by rewrite Hsk.
Qed.

Lemma scan_delivers fuel idx vec :
  position_ok idx vec -> delivers (scan_inv view) fuel (scan_at idx vec) (chunks_from (drop idx gs) vec).
Proof.
  remember (chunks_from (drop idx gs) vec) as cs eqn:Hcs. revert idx vec Hcs.
  induction cs as [|c cs IH]; intros idx vec Hcs Hpos; simpl; intros w Hinv;
    pose proof (GetNext_scan fuel idx vec w Hpos Hinv) as HG; rewrite <- Hcs in HG; [done|].
  destruct HG as (chunk & idx' & vec' & w' & HG & Hinv' & Hch & Hpos' & Hrest).
  exists chunk, (scan_at idx' vec'), w'. split_and!; [done..|]. by apply IH.
Qed.

End Stream.

(** C12. A sequential scan over pages that hold the row groups of a table delivers exactly the
    cells of the required columns of every row of every row group its zone-map
    condition does not exclude, in storage order: every [GetNext] returns, and the pool
    keeps its invariant, those pages and two usable frames, which is all the scan needs.
    The bits of a required VARCHAR column must lie in the first page of the validity
    region. *)
Theorem SeqScan_correct {F} `{PosixFileLaws F} `{!ReliableFile F} (view : Z -> option (list byte)) table required skip gs fuel :
  let tys := map type (tbl_columns_ table) in
  gs.*1 = row_groups_ table ->
  Forall (fun g => row_group_stored view tys g.1 g.2) gs ->
  Forall (fun g => Forall (readable tys g.2) required) gs ->
  Forall (fun g => is_ok (skips (new_scan table required skip) g.1)) gs ->
  exists cs, delivers (W := Store F) (scan_inv view) fuel (new_scan table required skip) cs /\
    rows_of cs = scan_rows table required skip gs.
Proof.
  intros tys Hgs Hst Hread Hskip. exists (chunks_from table required skip gs 0). split; [|apply rows_of_scan].
  apply (scan_delivers view table required skip gs Hgs Hst Hread Hskip fuel 0 0).
  by apply (position_ok_0 view table gs Hst).
Qed.

(** ** What the zone map excludes *)

(** Whether a row satisfies the condition the optimizer derived the skip from. *)
Definition satisfies (c : ZoneMapSkipCondition) (row : list (option Value)) : bool :=
  match cell_at row (skip_ordinal c), skip_constant c with
  | Some (VInt x), SkipInt z => compare_int (skip_op c) x z
  | Some (VFloat x), SkipFloat f => compare_float (skip_op c) x f
  | _, _ => false
  end.

Lemma zone_rules_out_sound {T} `{ScalarLaws T} (xs : list T) op constant x :
  x ∈ xs -> (forall y, y ∈ xs -> sc_ordered y) -> zone_rules_out (zone_of xs) op constant = true ->
  ApplyComparison sc_eqb sc_ltb sc_leb op x constant = false.
Proof.
  intros Hx Hord Hout. assert (xs <> []) as Hne by (intros ->; by apply not_elem_of_nil in Hx).
  destruct (zone_of_bounds xs) as (Hmin & Hmax & Hb); [|done|].
  { intros y Hy. apply Hord. destruct xs as [|z xs]; [done|]. injection Hy as ->. constructor. }
  specialize (Hb x Hx (Hord x Hx)). specialize (Hord x Hx). unfold zone_rules_out in Hout.
  destruct (negb (has_values_ (zone_of xs))); [done|]. destruct (sc_ordered constant) eqn:Hc.
  - assert (sc_ordered constant : Prop) as Hc' by by rewrite Hc.
    destruct op; simpl; try done; rewrite ?sc_ltb_key, ?sc_leb_key, ?sc_eqb_key in * by done; lia.
  - assert (sc_ordered x && sc_ordered constant = false) as Hu by (rewrite Hc; apply andb_false_r).
    assert (sc_ordered constant && sc_ordered x = false) as Hu' by by rewrite Hc.
    destruct op; simpl; try done; rewrite ?sc_unordered_ltb, ?sc_unordered_leb, ?sc_unordered_eqb by done; try done.
Qed.

(** The non-null values of a stored column are the cells of the rows. *)
Lemma stored_column_cells {T} `{FixedTypeLaws T} cc rows j y :
  FixedWidth.wf cc ->
  column_of ft_type j rows = zip_with (fun x b => (ft_value x, b)) (FixedWidth.values_ cc) (FixedWidth.bits cc) ->
  y ∈ somes (FixedWidth.view cc) <-> exists row, row ∈ rows /\ cell_at row j = Some (ft_value y).
Proof.
  intros Hwf Hraws. unfold somes. rewrite list_elem_of_omap. split.
  - intros (o & [i Hi]%list_elem_of_lookup & Ho). unfold id in Ho. subst o.
    unfold FixedWidth.view in Hi. apply lookup_zip_with_Some in Hi as (b & z & Heq & Hb & Hz).
    destruct b; [|done]. injection Heq as ->.
    assert (column_of ft_type j rows !! i = Some (ft_value z, true)) as Hr
      by (rewrite Hraws; apply lookup_zip_with_Some; eauto).
    unfold column_of in Hr. rewrite list_lookup_fmap in Hr. destruct (rows !! i) as [row'|] eqn:Hi; [|done].
    exists row'. split; [by eapply list_elem_of_lookup_2|]. injection Hr as Hr. apply (f_equal cell_of) in Hr.
    by rewrite cell_of_raw in Hr.
  - intros (row' & [i Hi]%list_elem_of_lookup & Hcell). exists (Some y). split; [|done].
    pose proof (column_of_lookup ft_type j rows i row' Hi) as Hr. rewrite Hcell, Hraws in Hr.
    apply lookup_zip_with_Some in Hr as (z & b & Heq & Hz & Hb). simpl in Heq. injection Heq as Heq <-.
    apply ft_value_inj in Heq as ->. eapply list_elem_of_lookup_2. unfold FixedWidth.view.
    apply lookup_zip_with_Some. exists true, z. eauto.
Qed.

Lemma rules_out_with_sound {T} `{FixedTypeLaws T} `{!ScalarLaws T} view tys rg rows c (constant : T) row x :
  row_group_stored view tys rg rows ->
  (forall row y, row ∈ rows -> cell_at row (skip_ordinal c) = Some (ft_value y) -> sc_ordered y) ->
  rules_out_with rg c constant = Ok true ->
  row ∈ rows -> cell_at row (skip_ordinal c) = Some (ft_value x) ->
  ApplyComparison sc_eqb sc_ltb sc_leb (skip_op c) x constant = false.
Proof.
  intros Hst Hord Hout Hrow Hx. destruct (rg_rows view tys rg rows Hst) as [_ Hn]. unfold kRowGroupSize in Hn.
  unfold rules_out_with in Hout. apply bind_Ok_inv in Hout as (en & Hen & Hout).
  apply bind_Ok_inv in Hout as (e & He & Hout). apply ft_get_inv in He as ->. injection Hout as Hout.
  destruct Hst as (_ & _ & columns & Hrep & Hent & _). unfold rg_Column in Hen. rewrite vec_get_Ok in Hen.
  destruct (Forall2_lookup_r _ _ _ _ _ Hent Hen) as (col & Hcol & Hst).
  apply ft_stored_entry in Hst as (cc & -> & Hbuild & _).
  destruct (columns_repr_lookup _ _ _ _ _ Hrep Hcol) as (ty & rs & Hspec & Hcr & Hlen).
  rewrite specs_of_lookup in Hspec. destruct (tys !! skip_ordinal c) as [ty'|] eqn:Hty; [|done].
  injection Hspec as <- <-.
  assert (ty' = ft_type) as ->.
  { apply list_elem_of_lookup in Hrow as [i Hi]. pose proof (column_of_lookup ty' (skip_ordinal c) rows i row Hi) as Hr.
    rewrite Hx in Hr. apply list_elem_of_lookup_2 in Hr. apply (col_repr_typed _ _ _ _ Hcr) in Hr. simpl in Hr.
    by rewrite <- Hr, ft_value_type. }
  apply ft_repr in Hcr as [Hwf Hraws].
  assert (FixedWidth.Size cc = length rows) as Hsz.
  { apply (f_equal length) in Hraws. unfold column_of in Hraws.
    rewrite length_map, length_zip_with, FixedWidth.length_bits in Hraws by done. unfold FixedWidth.Size. lia. }
  rewrite fixed_Build_spec in Hbuild by (done || lia). injection Hbuild as Hbuild. rewrite <- Hbuild in Hout. simpl in Hout.
  eapply zone_rules_out_sound; [apply (stored_column_cells cc rows (skip_ordinal c)); eauto| |exact Hout].
  intros y (row' & Hin & Hcell)%(stored_column_cells cc rows (skip_ordinal c)); [|done..]. by eapply Hord.
Qed.

Lemma excluded_sound view tys rg rows c row :
  row_group_stored view tys rg rows ->
  (forall row f, row ∈ rows -> cell_at row (skip_ordinal c) = Some (VFloat f) -> f32_is_nan f = false) ->
  ZoneMapRulesOutRowGroup rg c = Ok true -> row ∈ rows -> satisfies c row = false.
Proof.
  intros Hst Hnan Hout Hrow. unfold satisfies, ZoneMapRulesOutRowGroup in *.
  destruct (cell_at row (skip_ordinal c)) as [[x|x|x]|] eqn:Hx; destruct (skip_constant c) as [k|k]; try done.
  - change (ApplyComparison (T := Z) sc_eqb sc_ltb sc_leb (skip_op c) x k = false).
    by apply (rules_out_with_sound view tys rg rows c k row x).
  - change (ApplyComparison (T := f32) sc_eqb sc_ltb sc_leb (skip_op c) x k = false).
    apply (rules_out_with_sound view tys rg rows c k row x); try done.
    intros row' y Hin Hy. simpl. rewrite (Hnan row' y Hin Hy). done.
Qed.

(** The footer entry of a column has the column's type. *)
Definition entry_type (entry : ColumnFooterEntry) : TypeId :=
  match entry with IntEntry _ => kInteger | FloatEntry _ => kFloat | VarcharEntry _ => kVarchar end.
Definition constant_type (constant : SkipConstant) : TypeId :=
  match constant with SkipInt _ => kInteger | SkipFloat _ => kFloat end.

Lemma stored_entry_type view tys rg rows j ty :
  row_group_stored view tys rg rows -> tys !! j = Some ty -> exists entry, rg_Column rg j = Ok entry /\ entry_type entry = ty.
Proof.
  intros (_ & _ & columns & Hrep & Hent & _) Hty.
  destruct (columns_repr_lookup_r columns (length rows) (specs_of tys rows) j ty (column_of ty j rows) Hrep) as (col & Hcol & Hcr & _).
  { by rewrite specs_of_lookup, Hty. }
  destruct (Forall2_lookup_l _ _ _ _ _ Hent Hcol) as (entry & Hen & Hst). exists entry. split; [by apply vec_get_Ok|].
  by destruct col, entry; try done; destruct Hcr as [-> _].
Qed.

(** The zone map can only be compared with a constant of the column's type. *)
Lemma zone_map_test view tys rg rows c ty :
  row_group_stored view tys rg rows -> tys !! skip_ordinal c = Some ty ->
  if decide (ty = constant_type (skip_constant c)) then is_ok (ZoneMapRulesOutRowGroup rg c)
  else ZoneMapRulesOutRowGroup rg c = Throw BadVariantAccess.
Proof.
  intros Hst Hty. destruct (stored_entry_type _ _ _ _ _ _ Hst Hty) as (entry & Hen & <-).
  unfold ZoneMapRulesOutRowGroup, rules_out_with. rewrite Hen.
  destruct (skip_constant c), entry; simpl; try done; by eexists.
Qed.

(** C13. The zone map only excludes row groups in which no row satisfies the condition: nulls
    and NaN constants included, as long as the column itself stores no NaN. *)
Theorem zone_map_skip_sound view tys rg rows c row :
  row_group_stored view tys rg rows ->
  (forall row f, row ∈ rows -> cell_at row (skip_ordinal c) = Some (VFloat f) -> f32_is_nan f = false) ->
  ZoneMapRulesOutRowGroup rg c = Ok true -> row ∈ rows -> satisfies c row = false.
Proof. apply excluded_sound. Qed.

(** ** The theorems at a concrete table *)

Definition demo_column : FixedWidth.FixedWidthColumn Z := FixedWidth.mk_fixed [5; 0] (mk_bitmap 2 [1]).
Definition padded (bytes : list byte) : list byte := bytes ++ replicate (kPage - length bytes) x00.
Definition demo_file : mem_file := replicate kPage x00 ++ padded (fixed_bytes [5; 0]) ++ padded [x01].
Definition demo_store : Store mem_file := mk_store (mk_disk demo_file (header_ blank_disk)) (new_pool 2).
Definition demo_entry : FixedWidthColumnFooterEntry Z := mk_fixed_entry (mk_range 1 1) 1 (mk_zone true 5 5).
Definition demo_group : RowGroupFooterEntry := mk_row_group 0 2 (mk_range 2 1) [IntEntry demo_entry].
Definition demo_table : TableObject :=
  mk_table 0 "t" [mk_column "a" kInteger 0] ∅ [demo_group] 2.
Definition demo_rows : list (list (option Value)) := [[Some (VInt 5)]; [None]].

Lemma demo_view_stored_as range content pages :
  0 < start_page_id range -> 0 <= page_count range -> start_page_id range + page_count range < 2 ^ 32 ->
  pages = Z.to_nat (page_count range) -> length content = (pages * kPage)%nat ->
  (forall i, (i < pages)%nat ->
     logical_page demo_store (start_page_id range + Z.of_nat i) = Some (region content (i * kPage) kPage)) ->
  stored_as (logical_page demo_store) range content.
Proof. intros H1 H2 H3 -> H4 H5. by split. Qed.

Lemma demo_stored : row_group_stored (logical_page demo_store) [kInteger] demo_group demo_rows.
Proof.
  split; [done|]. split; [done|]. exists [IntCol demo_column]. split_and!.
  - constructor; [|constructor]. split; [|done]. simpl. split_and!; [done| |done]. split; [|done].
    split; [done|]. by repeat constructor.
  - constructor; [|constructor]. simpl. split_and!; [done| |].
    + by repeat constructor.
    + eexists. split; [vm_compute; reflexivity|]. exists (replicate (kPage - 8) x00).
      apply (demo_view_stored_as _ _ 1); [done..|]. intros [|i] Hi; [vm_compute; reflexivity|lia].
  - exists [x01]. split; [vm_compute; reflexivity|]. exists (replicate (kPage - 1) x00).
    apply (demo_view_stored_as _ _ 1); [done..|]. intros [|i] Hi; [vm_compute; reflexivity|lia].
Qed.

Lemma SeqScan_correct_witness :
  exists cs, delivers (W := Store mem_file) (scan_inv (logical_page demo_store)) 1 (new_scan demo_table [0%nat] None) cs /\
    rows_of cs = demo_rows /\ scan_inv (logical_page demo_store) demo_store.
Proof.
  assert (Forall (fun g => row_group_stored (logical_page demo_store) [kInteger] g.1 g.2) [(demo_group, demo_rows)])
    as Hst by (constructor; [exact demo_stored|constructor]).
  assert (Forall (fun g => Forall (readable [kInteger] g.2) [0%nat]) [(demo_group, demo_rows)]) as Hread.
  { constructor; [|constructor]. constructor; [|constructor]. split; [apply Nat.lt_0_1|discriminate]. }
  assert (Forall (fun g => is_ok (skips (new_scan demo_table [0%nat] None) g.1)) [(demo_group, demo_rows)]) as Hskip.
  { constructor; [exists false; reflexivity|constructor]. }
  destruct (SeqScan_correct (F := mem_file) (logical_page demo_store) demo_table [0%nat] None
    [(demo_group, demo_rows)] 1 eq_refl Hst Hread Hskip) as (cs & Hd & Hr).
  exists cs. split; [exact Hd|]. split; [rewrite Hr; reflexivity|].
  split; [apply new_pool_wf|]. split; [unfold budget; simpl; lia|]. split; [intros p bs _ Hl; exact Hl|discriminate].
Defined.

Lemma zone_map_skip_sound_witness :
  let c := mk_skip 0 kGreaterThan (SkipInt 7) in
  ZoneMapRulesOutRowGroup demo_group c = Ok true /\ satisfies c [Some (VInt 5)] = false.
Proof.
  intros c. assert (ZoneMapRulesOutRowGroup demo_group c = Ok true) as Hout by reflexivity.
  split; [exact Hout|]. apply (zone_map_skip_sound _ _ _ _ c [Some (VInt 5)] demo_stored); [|exact Hout|constructor].
  intros row f Hrow Hcell. unfold demo_rows in Hrow.
  apply elem_of_cons in Hrow as [->|Hrow]; [discriminate|]. apply list_elem_of_singleton in Hrow as ->. discriminate.
Defined.
