(* ===== verification/Insert.v ===== *)
(** Model of [src/execution/insert_executor.cpp] and of the loop of [RunInsert] in
    [src/cli/driver.cpp]: rows of literals are staged in columns; a full row group, and
    what is left at the end, is serialized, written to freshly allocated pages and
    registered in the catalog. The executor holds references to the catalog, to its
    disk manager and to the table object; the model's state has the catalog itself and
    the fields of the table the executor uses, which never change after its creation. *)

From S2P Require Import Prelude Scalar ByteIO Bitmap Columns ZoneMap Footer Disk Replacer BufferPool Schema Catalog Chunk Rows Expr Operators Layout Pages Scan.

(** ** Staging *)

Record Staging : Type := mk_staging { stage_columns_ : list ColumnStorage; stage_row_count_ : nat }.

Definition new_staging (table : TableObject) : Staging :=
  mk_staging (map (fun column => empty_column (type column)) (tbl_columns_ table)) 0.

(** The inner [std::visit]: no conversion between types. *)
Definition append_literal (column : ColumnStorage) (value : Value) : result ColumnStorage :=
  if bool_decide (col_type column = type_of value) then col_Append column value
  else Throw (RuntimeError "InsertExecutor: bound value type doesn't match target column type").

Section Insert.
Context {F : Type} `{PosixFile F} `{MapOrder}.

Record InsertExecutor : Type := mk_insert {
  catalog_ : Catalog F;
  ins_table_ : TableObject;
  staging_ : Staging;
}.

(** [*catalog.GetTableById(table_id)]. *)
Definition new_executor (catalog : Catalog F) (table_id : Z) : result InsertExecutor :=
  match GetTableById catalog table_id with
  | Some table => Ok (mk_insert catalog table (new_staging table))
  | None => Undefined
  end.

Definition on_catalog {A} (m : io (Catalog F) A) : io InsertExecutor A :=
  io_zoom catalog_ (fun c ex => mk_insert c (ins_table_ ex) (staging_ ex)) m.
Definition set_staging (st : Staging) : io InsertExecutor unit := fun ex =>
  (Ok tt, mk_insert (catalog_ ex) (ins_table_ ex) st).

(** One literal of a row; [None] is a null [unique_ptr]. *)
Definition append_cell (row : list (option BoundExpression)) (i : nat) : io InsertExecutor unit :=
  expression ← io_lift (vec_get row i);
  match expression with
  | None => io_lift Undefined
  | Some (ConstNode value) =>
      ex ← io_get;
      let st := staging_ ex in
      column ← io_lift (vec_get (stage_columns_ st) i);
      column ← io_lift (append_literal column value);
      set_staging (mk_staging (<[i := column]> (stage_columns_ st)) (stage_row_count_ st))
  | Some _ => io_throw (RuntimeError "InsertExecutor: INSERT values must be bound literal constants")
  end.

Definition AppendRow (row : list (option BoundExpression)) : io InsertExecutor unit :=
  _ ← for_range 0 (length row) (fun i _ => append_cell row i) tt;
  ex ← io_get;
  set_staging (mk_staging (stage_columns_ (staging_ ex)) (S (stage_row_count_ (staging_ ex)))).

(** ** Flushing *)

Definition pad_and_write (bytes : list byte) : io InsertExecutor PageRange :=
  let page_count := u32 ((Z.of_nat (length bytes) + kPageSizeBytes - 1) / kPageSizeBytes) in
  let bytes := vec_resize (Z.to_nat (page_count * kPageSizeBytes)) x00 bytes in
  start_page ← on_catalog (on_disk_manager (AllocatePages page_count));
  _ ← on_catalog (on_disk_manager (WritePages start_page bytes));
  mret (mk_range start_page page_count).

Definition write_fixed {T} `{FixedType T} (column : FixedWidth.FixedWidthColumn T) (row_count : nat)
    : io InsertExecutor ColumnFooterEntry :=
  bytes ← io_lift (SerializeFixedWidth column row_count);
  range ← pad_and_write bytes;
  entry ← io_lift (fixed_Build column range);
  mret (ft_entry entry).

Definition write_varchar (column : Varchar.VarcharColumn) (row_count : nat) : io InsertExecutor ColumnFooterEntry :=
  '(offsets_bytes, data_bytes) ← io_lift (SerializeVarchar column row_count);
  offsets_range ← pad_and_write offsets_bytes;
  data_range ← pad_and_write data_bytes;
  entry ← io_lift (varchar_Build column offsets_range data_range);
  mret (VarcharEntry entry).

Definition write_column (column : ColumnStorage) (row_count : nat) : io InsertExecutor ColumnFooterEntry :=
  match column with
  | IntCol c => write_fixed c row_count
  | FloatCol c => write_fixed c row_count
  | VarcharCol c => write_varchar c row_count
  end.

Definition FlushRowGroup : io InsertExecutor unit :=
  ex ← io_get;
  let row_count := stage_row_count_ (staging_ ex) in
  if (row_count =? 0)%nat then mret tt
  else
    let columns := stage_columns_ (staging_ ex) in
    column_entries ← for_each columns (fun col entries =>
      entry ← write_column col row_count; mret (entries ++ [entry])) [];
    bits ← io_lift (BuildValidityBitmapBytes columns row_count);
    bitmap_range ← pad_and_write bits;
    _ ← on_catalog (AddRowGroup (table_name_ (ins_table_ ex))
          (mk_row_group (tbl_id_ (ins_table_ ex)) (Z.of_nat row_count) bitmap_range column_entries));
    set_staging (new_staging (ins_table_ ex)).

Definition InsertRow (row : list (option BoundExpression)) : io InsertExecutor unit :=
  _ ← AppendRow row;
  ex ← io_get;
  if kRowGroupSize <=? Z.of_nat (stage_row_count_ (staging_ ex)) then FlushRowGroup else mret tt.

Definition Finish : io InsertExecutor unit := FlushRowGroup.

(** [RunInsert]: the catalog afterwards, whatever the outcome. *)
Definition RunInsert (table_id : Z) (rows : list (list (option BoundExpression))) : io (Catalog F) unit := fun catalog =>
  match new_executor catalog table_id with
  | Ok ex =>
      let '(r, ex') := (_ ← for_each rows (fun row _ => InsertRow row) tt; Finish) ex in
      (r, catalog_ ex')
  | _ => (Undefined, catalog)
  end.

End Insert.
Arguments InsertExecutor F : clear implicits.

(** ** Growing the file *)

Section Grow.
Context {F : Type} `{PosixFileLaws F}.

Implicit Types d : DiskManager F.

Definition next_page d : Z := next_free_page_id_ (header_ d).

(** The allocated pages. *)
Definition alloc_view d (p : Z) : option (list byte) :=
  if decide ((0 < p < next_page d) /\ page_exists d p) then Some (disk_page d p) else None.

(** What allocating and writing pages does: the allocated pages keep their contents, and the
    newly allocated ones exist. *)
Record grows d d' : Prop := {
  gr_wf : disk_wf d';
  gr_next : next_page d <= next_page d';
  gr_pages : forall p bs, alloc_view d p = Some bs -> alloc_view d' p = Some bs;
  gr_new : forall p, next_page d <= p < next_page d' -> is_Some (alloc_view d' p);
}.

Lemma grows_refl d : disk_wf d -> grows d d.
Proof. split; [done|lia|done|intros; lia]. Qed.

Lemma grows_trans d1 d2 d3 : grows d1 d2 -> grows d2 d3 -> grows d1 d3.
Proof.
  intros [W1 N1 P1 E1] [W2 N2 P2 E2]. split; [done|lia|auto|].
  intros p Hp. destruct (decide (next_page d2 <= p)); [apply E2; lia|].
  destruct (E1 p) as [bs Hbs]; [lia|]. exists bs. by apply P2.
Qed.

(** [AllocatePages] and [WritePages] of whole pages. *)
Lemma write_pages_grows d d1 d2 count data u :
  disk_wf d -> 0 < count -> next_page d + count < 2 ^ 32 -> length data = (Z.to_nat count * kPage)%nat ->
  AllocatePages count d = (Ok (next_page d), d1) -> WritePages (next_page d) data d1 = (Ok u, d2) ->
  grows d d2 /\ next_page d2 = next_page d + count /\
  stored_as (alloc_view d2) (mk_range (next_page d) count) data.
Proof.
  intros Hwf Hc Hov Hl HA HW. pose proof Hwf as (_ & Hn & _). fold (next_page d) in Hn.
  destruct (AllocatePages_Ok d count _ d1 Hwf HA) as (_ & _ & Hwf1 & Hh1 & Hb1); [exact Hov|lia|].
  apply WritePages_Ok in HW as (_ & Hne & _ & Hh2 & Hb2); [|unfold is_u32; lia].
  assert (next_page d2 = next_page d + count) as Hnext by (unfold next_page at 1; by rewrite Hh2, Hh1).
  set (off := Z.to_nat (next_page d * 4096)) in *.
  assert (kPage <= off)%nat as Hoff by (unfold off, kPage, kPageSizeBytes; lia).
  assert (off + length data <= length (disk_bytes d2))%nat as Hlen by (rewrite Hb2, length_splice by done; lia).
  assert (length (disk_bytes d) <= length (disk_bytes d2))%nat as Hge.
  { rewrite Hb2. etransitivity; [|apply length_splice_ge]. rewrite Hb1. apply length_splice_ge. }
  assert (forall i, (i < Z.to_nat count)%nat ->
    page_start (next_page d + Z.of_nat i) = (off + i * kPage)%nat /\ (off + i * kPage + kPage <= off + length data)%nat) as Hpos.
  { intros i Hi. unfold page_start, off. change kPageSizeBytes with 4096. rewrite Hl. unfold kPage, kPageSizeBytes. split; nia. }
  split_and!; [|done|].
  - split; [| |intros p bs|intros p Hp].
    + destruct Hwf1 as (Hh & Hn1 & Hr). unfold disk_wf. rewrite Hh2. split_and!; [done|done|].
      rewrite <- Hr, Hb2. assert (kSerializedSize <= kPage)%nat as Hks by (unfold kSerializedSize, kPage, kPageSizeBytes; lia).
      apply region_splice_before; [lia|]. rewrite Hb1, length_splice by (intros E; apply (f_equal length) in E; rewrite length_header_Serialize in E; done).
      rewrite length_header_Serialize. lia.
    + lia.
    + unfold alloc_view. case_decide as Hv; [|done]. destruct Hv as [Hp Hex]. intros [= <-].
      assert (page_start p + kPage <= off)%nat as Hlt by (unfold page_start, off, kPage, kPageSizeBytes; lia).
      rewrite decide_True by (unfold page_exists in *; rewrite Hnext; lia). f_equal. unfold disk_page. rewrite Hb2.
      unfold page_exists in Hex.
      rewrite region_splice_before; [|lia|rewrite Hb1; pose proof (length_splice_ge (disk_bytes d) 0 (header_Serialize (header_ d1))); lia].
      rewrite Hb1. apply PersistHeader_frame; [apply page_start_header; lia|done].
    + rewrite Hnext in Hp.
      destruct (Hpos (Z.to_nat (p - next_page d))) as [Hs Hle]; [lia|].
      rewrite Z2Nat.id, Zplus_minus in Hs by lia. unfold alloc_view.
      rewrite decide_True by (split; [lia|unfold page_exists; rewrite Hs; lia]). eauto.
  - split; cbn [start_page_id page_count]; [lia|lia|lia|done|]. intros i Hi. destruct (Hpos i Hi) as [Hs Hle].
    unfold alloc_view. rewrite decide_True by (split; [lia|unfold page_exists; rewrite Hs; lia]). f_equal. unfold disk_page. rewrite Hs.
    assert (region (disk_bytes d2) off (length data) = data) as Hd by (rewrite Hb2; apply region_splice_same).
    rewrite <- (region_region (disk_bytes d2) off (length data)) by lia. by rewrite Hd.
Qed.

Context `{!ReliableFile F}.

Lemma AllocatePages_total d count : 0 < count -> exists d', AllocatePages count d = (Ok (next_page d), d').
Proof.
  intros Hc. unfold AllocatePages. rewrite (proj2 (Z.eqb_neq _ _)) by lia.
  unfold mbind, io_bind, PersistHeader. edestruct write_all_total as [f' ->]; [done|]. eauto.
Qed.

Lemma WritePages_total_n d p data n :
  is_u32 p -> 0 < p -> (0 < n)%nat -> length data = (n * kPage)%nat -> exists d', WritePages p data d = (Ok tt, d').
Proof.
  intros Hp Hp0 Hn Hl. unfold WritePages, kHeaderPageId.
  rewrite (proj2 (Z.eqb_neq p 0)) by lia. rewrite bool_decide_false.
  2: { intros ->. simpl in Hl. pose proof kPage_pos. nia. }
  assert (Z.of_nat (length data) mod kPageSizeBytes = 0) as ->.
  { rewrite Hl, Nat2Z.inj_mul. change (Z.of_nat kPage) with kPageSizeBytes. apply Z.mod_mul. done. }
  simpl. edestruct write_all_total as [f' ->]; [|eauto]. rewrite page_offset_eq by done. lia.
Qed.

End Grow.

(** ** Writing the columns of a row group *)

Section Write.
Context {F : Type} `{PosixFileLaws F} `{!ReliableFile F} `{MapOrderLaws}.

Implicit Types ex : InsertExecutor F.

Definition ex_disk ex : DiskManager F := disk_manager_ (catalog_ ex).
Definition with_disk (d : DiskManager F) ex : InsertExecutor F :=
  mk_insert (mk_catalog d (schema_section_ (catalog_ ex)) (tables_by_name_ (catalog_ ex))) (ins_table_ ex) (staging_ ex).

Definition pages_of (bytes : list byte) : Z := (Z.of_nat (length bytes) + kPageSizeBytes - 1) / kPageSizeBytes.

Lemma pages_of_bounds bytes :
  Z.of_nat (length bytes) <= pages_of bytes * 4096 /\ pages_of bytes * 4096 < Z.of_nat (length bytes) + 4096.
Proof.
  unfold pages_of, kPageSizeBytes. pose proof (Z.div_mod (Z.of_nat (length bytes) + 4096 - 1) 4096 ltac:(lia)).
  pose proof (Z.mod_pos_bound (Z.of_nat (length bytes) + 4096 - 1) 4096 ltac:(lia)). lia.
Qed.

Lemma on_disk_manager_run {A} (m : io (DiskManager F) A) ex r d' :
  m (ex_disk ex) = (r, d') -> on_catalog (on_disk_manager m) ex = (r, with_disk d' ex).
Proof. unfold on_catalog, on_disk_manager, io_zoom, ex_disk. by intros ->. Qed.

(** What a step of the executor that only writes pages leaves. *)
Definition wrote ex (used : Z) ex' : Prop :=
  exists d', ex' = with_disk d' ex /\ grows (ex_disk ex) d' /\ next_page d' = next_page (ex_disk ex) + used.

Lemma wrote_refl ex : disk_wf (ex_disk ex) -> wrote ex 0 ex.
Proof. intros Hwf. exists (ex_disk ex). split_and!; [by destruct ex as [[] ? ?]|by apply grows_refl|lia]. Qed.

Lemma wrote_trans ex1 u1 ex2 u2 ex3 : wrote ex1 u1 ex2 -> wrote ex2 u2 ex3 -> wrote ex1 (u1 + u2) ex3.
Proof.
  intros (d1 & -> & G1 & N1) (d2 & -> & G2 & N2). exists d2. split_and!; [done|by eapply grows_trans|].
  unfold ex_disk in *. simpl in *. lia.
Qed.

Lemma pad_and_write_returns ex bytes :
  disk_wf (ex_disk ex) -> bytes <> [] -> next_page (ex_disk ex) + pages_of bytes < 2 ^ 32 ->
  returns (pad_and_write bytes) ex (fun range ex' =>
    wrote ex (pages_of bytes) ex' /\ range = mk_range (next_page (ex_disk ex)) (pages_of bytes) /\ 0 < pages_of bytes /\
    stored (alloc_view (ex_disk ex')) range bytes).
Proof.
  intros Hwf Hne Hov. pose proof Hwf as (_ & Hn & _). fold (next_page (ex_disk ex)) in Hn.
  pose proof (pages_of_bounds bytes) as [Hlo Hhi]. assert (0 < Z.of_nat (length bytes)) by (destruct bytes; [done|simpl; lia]).
  set (n := Z.to_nat (pages_of bytes)).
  assert (vec_resize (n * kPage) x00 bytes = bytes ++ replicate (n * kPage - length bytes) x00) as Hpad.
  { apply vec_resize_ge. unfold n, kPage, kPageSizeBytes. lia. }
  assert (length (bytes ++ replicate (n * kPage - length bytes) x00) = n * kPage)%nat as Hlen
    by (rewrite <- Hpad; apply length_vec_resize).
  unfold pad_and_write. cbn zeta. fold (pages_of bytes). rewrite (u32_id (pages_of bytes)) by (unfold is_u32; lia).
  replace (Z.to_nat (pages_of bytes * kPageSizeBytes)) with (n * kPage)%nat by (unfold n, kPage, kPageSizeBytes; lia).
  rewrite Hpad. destruct (AllocatePages_total (ex_disk ex) (pages_of bytes)) as [d1 HA]; [lia|].
  destruct (WritePages_total_n d1 (next_page (ex_disk ex)) (bytes ++ replicate (n * kPage - length bytes) x00) n) as [d2 HW];
    [unfold is_u32; lia|lia|unfold n; lia|done|].
  destruct (write_pages_grows _ d1 d2 (pages_of bytes) _ tt Hwf ltac:(lia) Hov Hlen HA HW) as (Hg & Hnext & Hst).
  exists (mk_range (next_page (ex_disk ex)) (pages_of bytes)), (with_disk d2 ex). split.
  - unfold mbind, io_bind. rewrite (on_disk_manager_run _ _ _ _ HA).
    rewrite (on_disk_manager_run _ (with_disk d1 ex) _ d2 HW). done.
  - split_and!; [by exists d2|done|lia|]. by eexists.
Qed.

Definition fixed_written {T} `{FixedType T} d (c : FixedWidth.FixedWidthColumn T) (e : FixedWidthColumnFooterEntry T) : Prop :=
  fixed_stored (alloc_view (F := F) d) c e.

(** As [varchar_stored], but the page after the data may not have been written yet. *)
Definition varchar_written (d : DiskManager F) (c : Varchar.VarcharColumn) (e : VarcharColumnFooterEntry) : Prop :=
  varchar_Build c (offsets_pages_ e) (data_pages_ e) = Ok e /\
  exists offsets data, SerializeVarchar c (Varchar.Size c) = Ok (offsets, data) /\
    stored (alloc_view d) (offsets_pages_ e) offsets /\ stored (alloc_view d) (data_pages_ e) data /\
    let after := start_page_id (data_pages_ e) + page_count (data_pages_ e) in
    after = next_page d \/ is_Some (alloc_view d after).

Definition entry_written (d : DiskManager F) (column : ColumnStorage) (entry : ColumnFooterEntry) : Prop :=
  match column, entry with
  | IntCol c, IntEntry e => fixed_written d c e
  | FloatCol c, FloatEntry e => fixed_written d c e
  | VarcharCol c, VarcharEntry e => varchar_written d c e
  | _, _ => False
  end.

Lemma stored_grows d d' range data : grows d d' -> stored (alloc_view (F := F) d) range data -> stored (alloc_view d') range data.
Proof. intros Hg. apply stored_mono. intros p bs _. apply (gr_pages _ _ Hg). Qed.

Lemma fixed_stored_mono {T} `{FixedType T} (view view' : Z -> option (list byte)) (c : FixedWidth.FixedWidthColumn T) e :
  (forall p bs, is_u32 p -> view p = Some bs -> view' p = Some bs) -> fixed_stored view c e -> fixed_stored view' c e.
Proof. intros Hv (Hok & Hb & bytes & Hs & Hst). split_and!; [done..|]. exists bytes. split; [done|]. by eapply stored_mono. Qed.

Lemma entry_written_grows d d' column entry : grows d d' -> entry_written d column entry -> entry_written d' column entry.
Proof.
  intros Hg. destruct column as [c|c|c], entry as [e|e|e]; simpl; try done.
  - apply fixed_stored_mono. intros p bs _. apply (gr_pages _ _ Hg).
  - apply fixed_stored_mono. intros p bs _. apply (gr_pages _ _ Hg).
  - intros (HB & ob & db & HS & Ho & Hd & Hnext). split; [done|]. exists ob, db.
    split_and!; [done|by eapply stored_grows..|]. cbn zeta in *. pose proof (gr_next _ _ Hg).
    destruct Hnext as [Heq|[bs Hbs]].
    + destruct (decide (next_page d' = next_page d)) as [->|Hne]; [by left|right].
      apply (gr_new _ _ Hg). lia.
    + right. exists bs. by apply (gr_pages _ _ Hg).
Qed.

(** Once a page follows the data, the column is stored as the scan reads it. *)
Lemma entry_written_stored d d' column entry :
  entry_written d column entry -> grows d d' -> next_page d < next_page d' -> next_page d' < 2 ^ 32 ->
  entry_stored (alloc_view d') column entry.
Proof.
  intros Hw Hg Hlt Hn. pose proof (entry_written_grows _ _ _ _ Hg Hw) as Hw'.
  destruct column as [c|c|c], entry as [e|e|e]; simpl in *; try done.
  destruct Hw as (_ & _ & _ & _ & _ & _ & Hnext). cbn zeta in Hnext.
  destruct Hw' as (HB & ob & db & HS & Ho & [pad Hd] & _). split; [done|].
  assert (is_Some (alloc_view d' (start_page_id (data_pages_ e) + page_count (data_pages_ e)))) as [pg Hpg].
  { destruct Hnext as [->|[bs Hbs]]; [apply (gr_new _ _ Hg); lia|]. exists bs. by apply (gr_pages _ _ Hg). }
  pose proof (st_start _ _ _ Hd). pose proof (st_count _ _ _ Hd). pose proof (st_length _ _ _ Hd) as Hl.
  assert (length pg = kPage) as Hpl.
  { unfold alloc_view in Hpg. case_decide as Hv; [|done]. injection Hpg as <-. apply length_region. apply Hv. }
  exists ob, db. split_and!; [done|done|done|rewrite length_app in Hl; lia|].
  exists (pad ++ pg). rewrite app_assoc. split; cbn [start_page_id page_count]; [done|lia| |rewrite length_app, Hl, Hpl; lia|].
  - unfold alloc_view in Hpg. case_decide as Hv; [|done]. lia.
  - intros i Hi. destruct (decide (i < Z.to_nat (page_count (data_pages_ e)))%nat) as [Hi'|Hge].
    + rewrite (st_page _ _ _ Hd i Hi'). f_equal. symmetry. apply region_app_l. rewrite Hl. nia.
    + assert (i = Z.to_nat (page_count (data_pages_ e))) as -> by lia. rewrite Z2Nat.id by lia. rewrite Hpg. f_equal.
      unfold region. rewrite <- Hl, drop_app_length, <- Hpl. by rewrite take_ge.
Qed.

(** ** The columns of a row group *)

(** More than the pages of one column of a row group: its offsets, data and validity bits. *)
Definition column_pages (rs : list (Value * bool)) : Z := 16 + str_size rs / 4096.

Lemma column_pages_le rs : 16 <= column_pages rs.
Proof. unfold column_pages. pose proof (str_size_nonneg rs). pose proof (Z.div_pos (str_size rs) 4096). lia. Qed.

Lemma pages_of_le bytes k : 0 <= k -> Z.of_nat (length bytes) <= k * 4096 -> pages_of bytes <= k.
Proof. intros Hk Hl. pose proof (pages_of_bounds bytes). lia. Qed.

Lemma write_fixed_returns {T} `{FixedTypeLaws T} ex (c : FixedWidth.FixedWidthColumn T) rs n :
  disk_wf (ex_disk ex) -> col_repr (ft_column c) ft_type rs -> length rs = n -> (0 < n)%nat ->
  Z.of_nat n <= kRowGroupSize -> Forall sc_ok (FixedWidth.values_ c) ->
  next_page (ex_disk ex) + 16 < 2 ^ 32 ->
  returns (write_fixed c n) ex (fun entry ex' => exists used, 0 <= used < 16 /\ wrote ex used ex' /\
    exists e, entry = ft_entry e /\ fixed_written (ex_disk ex') c e).
Proof.
  intros Hwf Hr Hn Hpos Hmax Hok Hov. apply ft_repr in Hr as [Hc Hrs].
  assert (FixedWidth.Size c = n) as Hsz.
  { subst rs n. rewrite length_zip_with, FixedWidth.length_bits by done. unfold FixedWidth.Size. lia. }
  unfold write_fixed, kRowGroupSize in *. rewrite <- Hsz.
  eapply returns_lift_bind; [apply SerializeFixedWidth_spec|].
  assert (length (fixed_bytes (FixedWidth.values_ c)) = n * 4)%nat as Hl by (rewrite length_fixed_bytes, <- Hsz; done).
  pose proof (pages_of_le (fixed_bytes (FixedWidth.values_ c)) 10 ltac:(lia) ltac:(rewrite Hl; lia)) as Hp.
  eapply returns_bind.
  { apply pad_and_write_returns; [done| |lia].
    intros E. rewrite E in Hl. simpl in Hl. lia. }
  intros range ex' (Hw & -> & Hp0 & Hst). cbn beta.
  eapply returns_lift_bind; [apply fixed_Build_spec; [done|unfold FixedWidth.Size in *; lia]|].
  apply returns_ret. exists (pages_of (fixed_bytes (FixedWidth.values_ c))).
  split_and!; [lia|lia|done|]. eexists. split; [done|]. split_and!; [|done|].
  - cbn [Footer.pages_]. apply fixed_Build_spec; [done|unfold FixedWidth.Size in *; lia].
  - eexists. split; [apply SerializeFixedWidth_spec|exact Hst].
Qed.

Lemma write_varchar_returns ex (c : Varchar.VarcharColumn) l n :
  disk_wf (ex_disk ex) -> Varchar.repr c l -> length l = n -> Z.of_nat n <= kRowGroupSize ->
  0 < Varchar.rows_size l -> next_page (ex_disk ex) + 16 + Varchar.rows_size l / 4096 < 2 ^ 32 ->
  returns (write_varchar c n) ex (fun entry ex' => exists used, 0 <= used < 16 + Varchar.rows_size l / 4096 /\ wrote ex used ex' /\
    exists e, entry = VarcharEntry e /\ varchar_written (ex_disk ex') c e).
Proof.
  intros Hwf Hr Hn Hmax Hdata Hov. pose proof Hr as (_ & _ & _ & _ & Hs). unfold kRowGroupSize in *.
  pose proof (Z.div_mod (Varchar.rows_size l) 4096 ltac:(lia)). pose proof (Z.mod_pos_bound (Varchar.rows_size l) 4096 ltac:(lia)).
  pose proof (SerializeVarchar_spec c l Hr) as HS. rewrite Hn in HS.
  set (ob := offset_bytes (Varchar.rows_offsets l)) in *. set (db := Varchar.rows_data l) in *.
  assert (length ob = (n + 1) * 4)%nat as Hol by (unfold ob; rewrite length_offset_bytes, Varchar.length_rows_offsets; lia).
  assert (Varchar.rows_size l = Z.of_nat (length db)) as Hdl by done.
  pose proof (pages_of_le ob 11 ltac:(lia) ltac:(lia)). pose proof (pages_of_le db (Varchar.rows_size l / 4096 + 1) ltac:(lia) ltac:(lia)).
  unfold write_varchar. eapply returns_lift_bind; [exact HS|]. cbn beta iota.
  eapply returns_bind.
  { apply pad_and_write_returns; [done| |lia]. intros E. rewrite E in Hol. simpl in Hol. lia. }
  intros orange ex1 ((d1 & -> & G1 & N1) & _ & Hp1 & Hst1). cbn beta.
  eapply returns_bind.
  { apply pad_and_write_returns; [apply G1| |change (ex_disk (with_disk d1 ex)) with d1; lia].
    intros E. rewrite E in Hdl. simpl in Hdl. lia. }
  intros drange ex2 ((d2 & -> & G2 & N2) & -> & Hp2 & Hst2). cbn beta.
  change (ex_disk (with_disk d2 _)) with d2 in *. change (ex_disk (with_disk d1 ex)) with d1 in *.
  pose proof (varchar_Build_spec c l orange (mk_range (next_page d1) (pages_of db)) Hr ltac:(lia)) as HB.
  eapply returns_lift_bind; [exact HB|]. apply returns_ret. exists (pages_of ob + pages_of db). split_and!; [lia|lia| |].
  - exists d2. split_and!; [done|by eapply grows_trans|lia].
  - eexists. split; [done|]. split; [exact HB|]. exists ob, db. split_and!.
    + by rewrite (Varchar.Size_repr c l Hr), Hn.
    + by eapply stored_grows.
    + exact Hst2.
    + left. cbn [data_pages_ start_page_id page_count]. change (ex_disk (with_disk d2 (with_disk d1 ex))) with d2. lia.
Qed.

(** Literals are in the range of their type. *)
Definition literal_ok (v : Value) : Prop :=
  match v with VInt z => sc_ok z | VFloat f => sc_ok f | VStr _ => True end.

Lemma values_sc_ok {T} `{Scalar T} (inj : T -> Value) (xs : list T) (bs : list bool) :
  (forall x, literal_ok (inj x) -> sc_ok x) -> length bs = length xs ->
  Forall (fun r => literal_ok r.1) (zip_with (fun x b => (inj x, b)) xs bs) -> Forall sc_ok xs.
Proof.
  intros Hi Hl Hf. apply Forall_lookup. intros i x Hx.
  destruct (lookup_lt_is_Some_2 bs i) as [b Hb]; [apply lookup_lt_Some in Hx; lia|].
  rewrite Forall_lookup in Hf. apply Hi. apply (Hf i (inj x, b)). by rewrite lookup_zip_with, Hx, Hb.
Qed.

Lemma write_column_returns ex column ty rs n :
  disk_wf (ex_disk ex) -> col_repr column ty rs -> length rs = n -> (0 < n)%nat -> Z.of_nat n <= kRowGroupSize ->
  Forall (fun r => literal_ok r.1) rs -> (ty = kVarchar -> 0 < str_size rs) ->
  next_page (ex_disk ex) + column_pages rs < 2 ^ 32 ->
  returns (write_column column n) ex (fun entry ex' => exists used, 0 <= used < column_pages rs /\ wrote ex used ex' /\
    entry_written (ex_disk ex') column entry).
Proof.
  intros Hwf Hr Hn Hpos Hmax Hok Hdata Hov. pose proof (column_pages_le rs). destruct column as [c|c|c]; pose proof Hr as (-> & Hc).
  - destruct Hc as [Hc ->]. eapply returns_mono.
    + eapply (write_fixed_returns (T := Z)); [done|exact Hr|done..| |lia].
      eapply (values_sc_ok VInt); [done| |exact Hok]. by rewrite FixedWidth.length_bits.
    + intros entry ex' (used & Hu & Hw & e & -> & He). exists used. split_and!; [lia|lia|done|exact He].
  - destruct Hc as [Hc ->]. eapply returns_mono.
    + eapply (write_fixed_returns (T := f32)); [done|exact Hr|done..| |lia].
      eapply (values_sc_ok VFloat); [done| |exact Hok]. by rewrite FixedWidth.length_bits.
    + intros entry ex' (used & Hu & Hw & e & -> & He). exists used. split_and!; [lia|lia|done|exact He].
  - destruct Hc as (l & Hl & ->). rewrite length_map in Hn. eapply returns_mono.
    + apply (write_varchar_returns ex c l n); [done..| |]; rewrite rows_size_str_size; [by apply Hdata|unfold column_pages in *; lia].
    + intros entry ex' (used & Hu & Hw & e & -> & He). exists used. rewrite rows_size_str_size in Hu.
      split_and!; [lia|unfold column_pages; lia|done|exact He].
Qed.

Definition specs_pages (specs : list colspec) : Z := foldr (fun p n => column_pages p.2 + n) 0 specs.

Lemma specs_pages_app s1 s2 : specs_pages (s1 ++ s2) = specs_pages s1 + specs_pages s2.
Proof. unfold specs_pages. induction s1 as [|p s1 IH]; simpl; [done|]. rewrite IH. lia. Qed.

Lemma specs_pages_length specs : Z.of_nat (length specs) * 16 <= specs_pages specs.
Proof.
  induction specs as [|p specs IH]; [done|]. pose proof (column_pages_le p.2).
  change (specs_pages (p :: specs)) with (column_pages p.2 + specs_pages specs). simpl length. lia.
Qed.

(** A column the executor can write: its literals are in range and, for VARCHAR, it has data. *)
Definition writable (p : colspec) : Prop :=
  Forall (fun r => literal_ok r.1) p.2 /\ (p.1 = kVarchar -> 0 < str_size p.2).

Lemma write_columns_returns ex columns specs n :
  disk_wf (ex_disk ex) -> columns_repr columns n specs -> (0 < n)%nat -> Z.of_nat n <= kRowGroupSize ->
  Forall writable specs -> next_page (ex_disk ex) + specs_pages specs < 2 ^ 32 ->
  returns (for_each columns (fun col entries => entry ← write_column col n; mret (entries ++ [entry])) []) ex
    (fun entries ex' => exists used, 0 <= used /\ used + Z.of_nat (length columns) <= specs_pages specs /\
       wrote ex used ex' /\ Forall2 (entry_written (ex_disk ex')) columns entries).
Proof.
  intros Hwf Hc Hpos Hmax Hok Hov. pose proof (Forall2_length _ _ _ Hc) as Hlen. eapply returns_mono.
  - apply (returns_for_each (fun done entries ex' => exists used, 0 <= used /\
      used + Z.of_nat (length done) <= specs_pages (take (length done) specs) /\
      wrote ex used ex' /\ Forall2 (entry_written (ex_disk ex')) done entries)).
    + intros dn col todo entries ex1 Hxs (used & Hu0 & Hu & Hw & He).
      assert (columns !! length dn = Some col) as Hcol by (rewrite Hxs; by apply list_lookup_middle).
      destruct (columns_repr_lookup _ _ _ _ _ Hc Hcol) as (ty & rs & Hp & Hcr & Hrs).
      pose proof (Forall_lookup_1 _ _ _ _ Hok Hp) as [Hl Hd]. simpl in Hl, Hd.
      rewrite <- (take_drop_middle specs _ _ Hp), specs_pages_app in Hov.
      change (specs_pages ((ty, rs) :: ?r)) with (column_pages rs + specs_pages r) in Hov.
      pose proof (specs_pages_length (drop (S (length dn)) specs)). pose proof Hw as (d1 & -> & G1 & N1).
      eapply returns_bind.
      { apply (write_column_returns (with_disk d1 ex) col ty rs n); try done; [apply G1|].
        change (ex_disk (with_disk d1 ex)) with d1. lia. }
      intros entry ex2 (used2 & Hu2 & Hw2 & Hent). cbn beta. apply returns_ret.
      exists (used + used2). rewrite length_app. simpl length. rewrite Nat.add_1_r, (take_S_r _ _ _ Hp), specs_pages_app.
      change (specs_pages [(ty, rs)]) with (column_pages rs + 0). split_and!; [lia|lia|by eapply wrote_trans|].
      destruct Hw2 as (d2 & -> & G2 & _). apply Forall2_app; [|by repeat constructor].
      eapply Forall2_impl; [exact He|]. intros c0 e0. by apply entry_written_grows.
    + exists 0. split_and!; [done|done|by apply wrote_refl|constructor].
  - intros entries ex' (used & Hu0 & Hu & Hw & He). rewrite Hlen, firstn_all in Hu. exists used. rewrite Hlen. done.
Qed.

(** ** Flushing a row group *)

Definition table_types (t : TableObject) : list TypeId := map type (tbl_columns_ t).

(** The staging area holds [rows]. *)
Definition staged ex (rows : list (list (option Value))) : Prop :=
  rows_repr (stage_columns_ (staging_ ex)) (table_types (ins_table_ ex)) rows /\
  stage_row_count_ (staging_ ex) = length rows.

(** The catalog has the executor's table. *)
Definition has_table ex (t : TableObject) : Prop :=
  tables_by_name_ (catalog_ ex) !! table_name_ (ins_table_ ex) = Some t /\ tbl_id_ t = tbl_id_ (ins_table_ ex).

(** The executor after a row group was registered as the last of its table [t]. *)
Definition registered_group ex (d' : DiskManager F) (t t' : TableObject) : InsertExecutor F :=
  mk_insert (mk_catalog d' (schema_section_ (catalog_ ex))
    (<[table_name_ (ins_table_ ex) := t']> (tables_by_name_ (catalog_ ex)))) (ins_table_ ex) (new_staging (ins_table_ ex)).

Lemma bits_pages columns specs rows bits :
  (0 < rows)%nat -> Z.of_nat rows <= kRowGroupSize -> specs <> [] -> bits_before specs rows (length specs) 0 bits ->
  BuildValidityBitmapBytes columns rows = Ok bits -> bits <> [] /\ pages_of bits <= Z.of_nat (length specs).
Proof.
  unfold kRowGroupSize. intros Hr Hmax Hne [Hl _] _. assert (bytes_per_column rows <= 1280)%nat as Hb.
  { unfold bytes_per_column. rewrite u32_id by (unfold is_u32; lia).
    pose proof (Z.div_mod (Z.of_nat rows + 7) 8 ltac:(lia)). pose proof (Z.mod_pos_bound (Z.of_nat rows + 7) 8 ltac:(lia)). lia. }
  pose proof (bytes_per_column_lt rows 0 ltac:(lia) Hr). assert (0 < length specs)%nat by (destruct specs; [done|simpl; lia]).
  split; [intros ->; simpl in Hl; nia|]. apply pages_of_le; [lia|]. rewrite Hl. nia.
Qed.

Lemma FlushRowGroup_returns ex rows t :
  disk_wf (ex_disk ex) -> staged ex rows -> rows <> [] -> Z.of_nat (length rows) <= kRowGroupSize ->
  table_types (ins_table_ ex) <> [] -> Forall writable (specs_of (table_types (ins_table_ ex)) rows) -> has_table ex t ->
  next_page (ex_disk ex) + specs_pages (specs_of (table_types (ins_table_ ex)) rows) < 2 ^ 32 ->
  returns FlushRowGroup ex (fun _ ex' => exists d' rg t',
    ex' = registered_group ex d' t t' /\ grows (ex_disk ex) d' /\
    next_page d' <= next_page (ex_disk ex) + specs_pages (specs_of (table_types (ins_table_ ex)) rows) /\
    table_AddRowGroup t rg = Ok t' /\ row_group_stored (alloc_view d') (table_types (ins_table_ ex)) rg rows).
Proof.
  intros Hwf [Hrep Hcount] Hne Hmax Htys Hok [Htab Hid] Hov. set (tys := table_types (ins_table_ ex)) in *.
  pose proof (specs_pages_length (specs_of tys rows)) as Hsl. rewrite length_specs_of in Hsl.
  assert (0 < length rows)%nat as Hpos by (destruct rows; [done|simpl; lia]).
  pose proof (rows_repr_length _ _ _ Hrep) as Hcl.
  destruct (BuildValidityBitmapBytes_spec (stage_columns_ (staging_ ex)) (specs_of tys rows) (length rows) ltac:(unfold kRowGroupSize in *; lia) Hrep) as (bits & HB & Hbb).
  destruct (bits_pages (stage_columns_ (staging_ ex)) (specs_of tys rows) (length rows) bits Hpos Hmax ltac:(intros E; apply (f_equal length) in E; rewrite length_specs_of in E; by destruct tys) Hbb HB)
    as [Hbne Hbp]. rewrite length_specs_of in Hbp.
  unfold FlushRowGroup. apply returns_get_bind. cbn zeta. rewrite Hcount.
  rewrite (proj2 (Nat.eqb_neq _ 0)) by lia. eapply returns_bind; [by apply (write_columns_returns ex _ (specs_of tys rows))|].
  intros entries ex1 (used & Hu0 & Hu & (d1 & -> & G1 & N1) & He). cbn beta. rewrite Hcl in Hu.
  eapply returns_lift_bind; [exact HB|]. eapply returns_bind.
  { apply pad_and_write_returns; [apply G1|done|]. change (ex_disk (with_disk d1 ex)) with d1. lia. }
  intros range ex2 ((d2 & -> & G2 & N2) & _ & Hp & Hst). cbn beta.
  change (ex_disk (with_disk d1 ex)) with d1 in *. change (ex_disk (with_disk d2 (with_disk d1 ex))) with d2 in *.
  set (rg := mk_row_group (tbl_id_ (ins_table_ ex)) (Z.of_nat (length rows)) range entries).
  assert (exists t', table_AddRowGroup t rg = Ok t') as [t' Ht'].
  { unfold table_AddRowGroup. simpl. rewrite Hid, Z.eqb_refl. simpl. eauto. }
  exists tt, (registered_group ex d2 t t'). split.
  - assert (AddRowGroup (table_name_ (ins_table_ ex)) rg (catalog_ (with_disk d2 (with_disk d1 ex))) =
      (Ok tt, catalog_ (registered_group ex d2 t t'))) as HA.
    { unfold AddRowGroup, mbind, io_bind, io_get, io_lift. cbn [with_disk catalog_ tables_by_name_]. rewrite Htab.
      unfold io_lift. by rewrite Ht'. }
    unfold mbind, io_bind, on_catalog, io_zoom, set_staging. by rewrite HA.
  - exists d2, rg, t'. split_and!; [done|by eapply grows_trans|lia|done|].
    split; [done|]. split; [simpl; unfold kRowGroupSize in *; lia|].
    exists (stage_columns_ (staging_ ex)). split_and!; [done| |by exists bits].
    eapply Forall2_impl; [exact He|]. intros c e Hw. eapply entry_written_stored; [exact Hw|done|lia|lia].
Qed.

(** ** Staging rows *)

Definition literal_row (vs : list Value) : list (option BoundExpression) := map (fun v => Some (ConstNode v)) vs.
Definition with_staging (st : Staging) ex : InsertExecutor F := mk_insert (catalog_ ex) (ins_table_ ex) st.

Lemma append_cell_run ex vs i v column column' :
  vs !! i = Some v -> stage_columns_ (staging_ ex) !! i = Some column -> append_literal column v = Ok column' ->
  append_cell (literal_row vs) i ex =
    (Ok tt, with_staging (mk_staging (<[i := column']> (stage_columns_ (staging_ ex))) (stage_row_count_ (staging_ ex))) ex).
Proof.
  intros Hv Hc Ha. unfold append_cell.
  rewrite (proj2 (vec_get_Ok (literal_row vs) i (Some (ConstNode v)))) by (unfold literal_row; by rewrite list_lookup_fmap, Hv).
  unfold mbind, io_bind, io_lift, io_get. by rewrite (proj2 (vec_get_Ok _ _ _) Hc), Ha.
Qed.

Lemma AppendRow_returns ex rows vs :
  staged ex rows -> map type_of vs = table_types (ins_table_ ex) ->
  (forall j, col_bytes (rows ++ [map Some vs]) j < 2 ^ 31) ->
  returns (AppendRow (literal_row vs)) ex (fun _ ex' => exists st, ex' = with_staging st ex /\ staged ex' (rows ++ [map Some vs])).
Proof.
  intros [Hrep Hcount] Htys Hfit. set (tys := table_types (ins_table_ ex)) in *.
  set (cols := stage_columns_ (staging_ ex)) in *. pose proof (rows_repr_length _ _ _ Hrep) as Hlen.
  assert (length vs = length tys) as Hvs by (by rewrite <- Htys, length_map).
  destruct (append_row_each (fun j col => v ← vec_get vs j; append_literal col v) cols tys rows (map Some vs) Hrep)
    as (cols' & Hupd & Hrep' & Heach).
  { intros j ty col Hty Hcr Hcol. destruct (lookup_lt_is_Some_2 vs j) as [v Hv]; [apply lookup_lt_Some in Hty; lia|].
    assert (type_of v = ty) as Hvt.
    { assert (map type_of vs !! j = Some ty) as Hm by by rewrite Htys. rewrite list_lookup_fmap, Hv in Hm. by injection Hm. }
    assert (cell_at (map Some vs) j = Some v) as Hcell by (apply cell_at_Some; by rewrite list_lookup_fmap, Hv).
    rewrite (proj2 (vec_get_Ok _ _ _) Hv), bind_Ok, Hcell. unfold append_literal.
    rewrite bool_decide_true by (by rewrite (col_repr_type _ _ _ Hcr)).
    apply (col_Append_repr col ty); [done|done|]. unfold fits. specialize (Hfit j). rewrite col_bytes_app in Hfit.
    unfold col_bytes at 2 in Hfit. simpl in Hfit. rewrite Hcell in Hfit. rewrite str_size_app, str_size_column. simpl in *. lia. }
  pose proof (rows_repr_length _ _ _ Hrep') as Hlen'.
  unfold AppendRow. eapply returns_bind.
  - apply (returns_for_range (fun i _ ex' =>
      ex' = with_staging (mk_staging (take i cols' ++ drop i cols) (stage_row_count_ (staging_ ex))) ex)).
    + intros i [] ex' Hi ->. unfold literal_row in Hi. rewrite length_map in Hi.
      destruct (lookup_lt_is_Some_2 vs i) as [v Hv]; [lia|]. destruct (lookup_lt_is_Some_2 cols i) as [c Hc]; [lia|].
      destruct (lookup_lt_is_Some_2 cols' i) as [c' Hc']; [lia|].
      pose proof (Heach i c c' Hc Hc') as Ha. rewrite (proj2 (vec_get_Ok _ _ _) Hv), bind_Ok in Ha.
      assert (length (take i cols') = i) as Hti by (rewrite length_take; lia).
      eexists tt, _. split.
      * eapply append_cell_run; [exact Hv| |exact Ha]. cbn [with_staging staging_ stage_columns_].
        rewrite (drop_S _ _ _ Hc). by apply list_lookup_middle.
      * cbn [with_staging staging_ stage_columns_ stage_row_count_]. unfold with_staging. do 2 f_equal.
        rewrite (drop_S _ _ _ Hc), insert_app_r_alt, Hti, Nat.sub_diag by lia. simpl.
        by rewrite (take_S_r _ _ _ Hc'), <- app_assoc.
    + unfold with_staging. simpl. destruct ex as [? ? []]. reflexivity.
  - intros [] ex' ->. cbn beta. apply returns_get_bind. unfold literal_row. rewrite length_map.
    eexists tt, _. split; [reflexivity|]. eexists. split; [reflexivity|]. unfold staged.
    cbn [with_staging staging_ ins_table_ stage_columns_ stage_row_count_]. rewrite Nat.add_0_l, Hvs, <- Hlen.
    rewrite drop_all, app_nil_r, firstn_all2 by lia. split; [done|]. rewrite length_app, Hcount. simpl. lia.
Qed.

End Write.

(** ** The row groups a sequence of rows is split into *)

Definition group : Type := list (list Value).

(** The groups flushed so far, and the rows still staged. *)
Definition add_row (st : list group * group) (vs : list Value) : list group * group :=
  let staged := st.2 ++ [vs] in
  if kRowGroupSize <=? Z.of_nat (length staged) then (st.1 ++ [staged], []) else (st.1, staged).

Definition close_group (st : list group * group) : list group :=
  match st.2 with [] => st.1 | _ => st.1 ++ [st.2] end.

Definition row_groups (rows : list (list Value)) : list group := close_group (foldl add_row ([], []) rows).

(** The rows of a group as rows of a table. *)
Definition cells (g : group) : list (list (option Value)) := map (map Some) g.

(** What the executor needs of a row group of a table with columns [tys]: literals of the
    columns' types in range, fewer than 2^31 bytes per column, and bytes in every VARCHAR
    column. *)
Record group_ok (tys : list TypeId) (g : group) : Prop := {
  go_types : Forall (fun vs => map type_of vs = tys /\ Forall literal_ok vs) g;
  go_bytes : forall j, col_bytes (cells g) j < 2 ^ 31;
  go_data : forall j, tys !! j = Some kVarchar -> 0 < col_bytes (cells g) j;
}.

Definition group_pages (tys : list TypeId) (g : group) : Z := specs_pages (specs_of tys (cells g)).
Definition groups_pages (tys : list TypeId) (gs : list group) : Z := foldr (fun g n => group_pages tys g + n) 0 gs.

Lemma groups_pages_app tys g1 g2 : groups_pages tys (g1 ++ g2) = groups_pages tys g1 + groups_pages tys g2.
Proof. unfold groups_pages. induction g1 as [|g g1 IH]; simpl; [done|]. rewrite IH. lia. Qed.

Lemma groups_pages_nonneg tys gs : 0 <= groups_pages tys gs.
Proof.
  induction gs as [|g gs IH]; [done|]. pose proof (specs_pages_length (specs_of tys (cells g))).
  change (groups_pages tys (g :: gs)) with (group_pages tys g + groups_pages tys gs). unfold group_pages. lia.
Qed.

(** The rows added later only extend the groups. *)
Lemma close_group_extends rows st :
  exists more, close_group (foldl add_row st rows) = st.1 ++ more /\ (st.2 <> [] -> exists rest more', more = (st.2 ++ rest) :: more').
Proof.
  revert st. induction rows as [|vs rows IH]; intros [gs s].
  - simpl. unfold close_group. simpl. destruct s as [|r s].
    + exists []. by rewrite app_nil_r.
    + exists [r :: s]. split; [done|]. intros _. exists [], []. by rewrite app_nil_r.
  - simpl. destruct (IH (add_row (gs, s) vs)) as (more & -> & Hm). unfold add_row in *. simpl in *. case_match; simpl in *.
    + exists ((s ++ [vs]) :: more). rewrite <- app_assoc. split; [done|]. intros _. by exists [vs], more.
    + exists more. split; [done|]. intros _. destruct Hm as (rest & more' & ->); [by destruct s|].
      exists (vs :: rest), more'. by rewrite <- app_assoc.
Qed.

Lemma add_row_inv rows :
  let st := foldl add_row ([], []) rows in
  concat st.1 ++ st.2 = rows /\ Z.of_nat (length st.2) < kRowGroupSize /\
  Forall (fun g => 0 < Z.of_nat (length g) <= kRowGroupSize) st.1.
Proof.
  induction rows as [|vs rows IH] using rev_ind; [unfold kRowGroupSize; by split_and!|].
  cbv zeta in *. rewrite foldl_snoc. destruct (foldl add_row ([], []) rows) as [gs s]. simpl in IH.
  destruct IH as (Hc & Hs & Hg). unfold add_row. simpl.
  assert (length (s ++ [vs]) = S (length s)) as Hl by (rewrite length_app; simpl; lia).
  destruct (Z.leb_spec kRowGroupSize (Z.of_nat (length (s ++ [vs])))); simpl; split_and!.
  - rewrite concat_app, <- Hc. simpl. by rewrite !app_nil_r, app_assoc.
  - unfold kRowGroupSize. lia.
  - apply Forall_app. split; [done|]. constructor; [lia|constructor].
  - by rewrite app_assoc, Hc.
  - lia.
  - done.
Qed.

(** The groups are the rows in order, none empty or larger than a row group. *)
Lemma row_groups_spec rows :
  concat (row_groups rows) = rows /\ Forall (fun g => 0 < Z.of_nat (length g) <= kRowGroupSize) (row_groups rows).
Proof.
  pose proof (add_row_inv rows) as (Hc & Hs & Hg). unfold row_groups, close_group.
  destruct (foldl add_row ([], []) rows) as [gs [|r s]]; simpl in *.
  - by rewrite app_nil_r in Hc.
  - split; [by rewrite concat_app; simpl; rewrite app_nil_r|]. apply Forall_app. split; [done|]. constructor; [simpl; lia|constructor].
Qed.

Lemma cells_app g1 g2 : cells (g1 ++ g2) = cells g1 ++ cells g2.
Proof. apply map_app. Qed.

Lemma length_cells g : length (cells g) = length g.
Proof. apply length_map. Qed.

Lemma group_ok_prefix tys (g rest : group) j :
  group_ok tys (g ++ rest) -> Forall (fun vs => map type_of vs = tys /\ Forall literal_ok vs) g /\ col_bytes (cells g) j < 2 ^ 31.
Proof.
  intros [Ht Hb _]. split; [by apply Forall_app in Ht as [? _]|]. specialize (Hb j).
  rewrite cells_app, col_bytes_app in Hb. pose proof (col_bytes_nonneg (cells rest) j). lia.
Qed.

Lemma group_writable tys g : group_ok tys g -> Forall writable (specs_of tys (cells g)).
Proof.
  intros [Ht Hb Hd]. apply Forall_lookup. intros j [ty rs] Hj. rewrite specs_of_lookup in Hj.
  destruct (tys !! j) as [ty'|] eqn:Hty; [|done]. simpl in Hj. injection Hj as <- <-. split; simpl.
  - unfold column_of, cells. rewrite Forall_map, Forall_map. eapply Forall_impl; [exact Ht|].
    intros vs [_ Hok]. unfold cell_at. rewrite list_lookup_fmap. destruct (vs !! j) as [v|] eqn:Hv; simpl.
    + by apply (Forall_lookup_1 _ _ _ _ Hok Hv).
    + destruct ty'; [exact (@sc_zero_ok Z int_scalar int_scalar_laws)|exact (@sc_zero_ok f32 f32_scalar _)|done].
  - intros ->. rewrite str_size_column. by apply Hd.
Qed.

(** ** The insert as a whole *)

(** The table with more row groups. *)
Definition add_groups (t : TableObject) (rgs : list RowGroupFooterEntry) : TableObject :=
  mk_table (tbl_id_ t) (table_name_ t) (tbl_columns_ t) (column_ordinal_map_ t) (Schema.row_groups_ t ++ rgs)
    (foldl (fun n rg => u64 (n + row_count_ rg)) (total_row_count_ t) rgs).

Lemma add_groups_snoc t rgs rg t' :
  table_AddRowGroup (add_groups t rgs) rg = Ok t' -> t' = add_groups t (rgs ++ [rg]).
Proof.
  unfold table_AddRowGroup, add_groups. simpl. case_match; [done|]. intros [= <-].
  by rewrite foldl_app, app_assoc.
Qed.

Section Run.
Context {F : Type} `{PosixFileLaws F} `{!ReliableFile F} `{MapOrderLaws}.

(** [c'] is [c] with new row groups of table [t] that hold the groups of literals [gs]. *)
Definition inserted (c : Catalog F) (t : TableObject) (gs : list group) (c' : Catalog F) : Prop :=
  exists rgs, schema_section_ c' = schema_section_ c /\
    tables_by_name_ c' = <[table_name_ t := add_groups t rgs]> (tables_by_name_ c) /\
    grows (disk_manager_ c) (disk_manager_ c') /\
    next_page (disk_manager_ c') <= next_page (disk_manager_ c) + groups_pages (table_types t) gs /\
    Forall2 (row_group_stored (alloc_view (disk_manager_ c')) (table_types t)) rgs (map cells gs) /\
    Forall (fun rg => table_id_ rg = tbl_id_ t) rgs.

Lemma row_group_stored_grows (d d' : DiskManager F) tys rg rows :
  grows d d' -> row_group_stored (alloc_view d) tys rg rows -> row_group_stored (alloc_view d') tys rg rows.
Proof.
  intros Hg (Hc & Hb & cols & Hr & He & bits & HB & Hs). split; [done|]. split; [done|]. exists cols. split; [done|].
  split; [|exists bits; split; [done|by eapply stored_grows]]. eapply Forall2_impl; [exact He|].
  assert (forall p bs, is_u32 p -> alloc_view d p = Some bs -> alloc_view d' p = Some bs) as Hv
    by (intros p bs _; apply (gr_pages _ _ Hg)).
  intros [x|x|x] [e|e|e]; simpl; try done; try by apply fixed_stored_mono.
  intros (HV & ob & db & HS & Ho & Hp & Hl & Hd). split; [done|]. exists ob, db.
  split_and!; [done|by eapply stored_grows|done|done|by eapply stored_grows].
Qed.

Lemma inserted_nil (c : Catalog F) t :
  disk_wf (disk_manager_ c) -> tables_by_name_ c !! table_name_ t = Some t -> inserted c t [] c.
Proof.
  intros Hwf Ht. exists []. split_and!; [done| |by apply grows_refl|simpl; lia|constructor|constructor].
  assert (add_groups t [] = t) as ->; [|by rewrite insert_id]. unfold add_groups. simpl. rewrite app_nil_r. by destruct t.
Qed.

(** Flushing one more group. *)
Lemma FlushRowGroup_inserted (c : Catalog F) t gs (ex : InsertExecutor F) g :
  inserted c t gs (catalog_ ex) -> ins_table_ ex = t -> staged ex (cells g) -> g <> [] ->
  Z.of_nat (length g) <= kRowGroupSize -> table_types t <> [] -> group_ok (table_types t) g ->
  next_page (disk_manager_ c) + groups_pages (table_types t) (gs ++ [g]) < 2 ^ 32 ->
  returns FlushRowGroup ex (fun _ ex' => inserted c t (gs ++ [g]) (catalog_ ex') /\ ins_table_ ex' = t /\
    staging_ ex' = new_staging t).
Proof.
  intros (rgs & Hsch & Htab & Hg & Hn & Hst & Hids) Ht Hstaged Hne Hmax Htys Hok Hov.
  rewrite groups_pages_app in *. change (groups_pages ?tys [g]) with (group_pages tys g + 0) in *. unfold group_pages in *.
  eapply returns_mono.
  - apply (FlushRowGroup_returns ex (cells g) (add_groups t rgs)); rewrite ?Ht, ?length_cells; try done.
    + apply Hg.
    + by destruct g.
    + by apply group_writable.
    + split; rewrite Ht; [|done]. rewrite Htab. apply lookup_insert_eq.
    + unfold ex_disk. lia.
  - intros _ ex' (d' & rg & t' & -> & Hg' & Hn' & Hadd & Hrg).
    assert (table_id_ rg = tbl_id_ t) as Hid by (unfold table_AddRowGroup in Hadd; simpl in Hadd; by destruct (Z.eqb_spec (table_id_ rg) (tbl_id_ t))).
    apply add_groups_snoc in Hadd as ->. rewrite Ht in *.
    split_and!; [|done|by unfold registered_group; simpl; rewrite Ht]. exists (rgs ++ [rg]). unfold registered_group, ex_disk in *. simpl.
    rewrite Ht, Htab, insert_insert_eq. split_and!; [done|done|by eapply grows_trans|rewrite groups_pages_app; simpl; unfold group_pages; lia| |by apply Forall_app_2; [|constructor]].
    rewrite map_app. apply Forall2_app; [|constructor; [exact Hrg|constructor]]. eapply Forall2_impl; [exact Hst|].
    intros. by eapply row_group_stored_grows.
Qed.

(** The rows staged when [r] arrives are the beginning of one of the groups; when they fill
    a row group, they are the next group. *)
Lemma staged_prefix p r rest :
  let st := foldl add_row ([], []) p in
  exists tail more, row_groups (p ++ r :: rest) = st.1 ++ ((st.2 ++ [r]) ++ tail) :: more /\
    (kRowGroupSize <= Z.of_nat (length (st.2 ++ [r])) -> tail = []).
Proof.
  cbv zeta. unfold row_groups. rewrite foldl_app. simpl. set (st := foldl add_row ([], []) p).
  destruct (close_group_extends rest (add_row st r)) as (more & -> & Hm). unfold add_row in *.
  destruct (Z.leb_spec kRowGroupSize (Z.of_nat (length (st.2 ++ [r])))); simpl in *.
  - exists [], more. by rewrite app_nil_r, <- app_assoc.
  - destruct Hm as (tail & more' & ->); [by destruct st.2|]. exists tail, more'. split; [done|lia].
Qed.

Context (c : Catalog F) (t : TableObject) (rows : list (list Value)).
Hypothesis Htys : table_types t <> [].
Hypothesis Hok : Forall (group_ok (table_types t)) (row_groups rows).
Hypothesis Hpages : next_page (disk_manager_ c) + groups_pages (table_types t) (row_groups rows) < 2 ^ 32.

(** The executor after some rows. *)
Definition executing (st : list group * group) (ex : InsertExecutor F) : Prop :=
  inserted c t st.1 (catalog_ ex) /\ ins_table_ ex = t /\ staged ex (cells st.2).

Lemma new_staging_staged (cat : Catalog F) : staged (mk_insert cat t (new_staging t)) [].
Proof. split; [|done]. unfold new_staging. simpl. unfold table_types. rewrite <- (map_map type empty_column). apply rows_repr_empty. Qed.

Lemma InsertRow_executing p r rest ex :
  rows = p ++ r :: rest -> executing (foldl add_row ([], []) p) ex ->
  returns (InsertRow (literal_row r)) ex (fun _ ex' => executing (foldl add_row ([], []) (p ++ [r])) ex').
Proof.
  intros Hrows (Hins & Ht & Hst). rewrite foldl_snoc.
  destruct (staged_prefix p r rest) as (tail & more & Hgs & Hfull). rewrite <- Hrows in Hgs.
  pose proof (add_row_inv p) as (_ & Hlt & _). set (st := foldl add_row ([], []) p) in *.
  pose proof Hok as Hok'. rewrite Hgs in Hok'. apply Forall_app in Hok' as [_ Hok'].
  apply Forall_cons in Hok' as [Hgo _]. destruct (group_ok_prefix _ _ _ 0 Hgo) as [Hty _].
  apply Forall_app in Hty as [_ Hty]. apply Forall_cons in Hty as [[Hty _] _].
  unfold InsertRow. eapply returns_bind.
  { apply (AppendRow_returns ex (cells st.2) r); [done|by rewrite Ht|]. intros j.
    destruct (group_ok_prefix _ _ _ j Hgo) as [_ Hb]. by rewrite cells_app in Hb. }
  intros _ ex1 (stage & -> & Hst1). cbn beta. apply returns_get_bind.
  change (cells st.2 ++ [map Some r]) with (cells st.2 ++ cells [r]) in Hst1. rewrite <- cells_app in Hst1.
  rewrite (proj2 Hst1), length_cells. unfold add_row.
  destruct (Z.leb_spec kRowGroupSize (Z.of_nat (length (st.2 ++ [r])))) as [Hge|Hlt'].
  2: { apply returns_ret. split_and!; [exact Hins|exact Ht|exact Hst1]. }
  rewrite (Hfull Hge), app_nil_r in Hgs, Hgo. eapply returns_mono.
  - apply (FlushRowGroup_inserted c t st.1 (with_staging stage ex) (st.2 ++ [r])); [exact Hins|exact Ht|exact Hst1|by destruct st.2| |exact Htys|exact Hgo|].
    + rewrite length_app in *. simpl in *. lia.
    + rewrite Hgs in Hpages. change (?a :: more) with ([a] ++ more) in Hpages. rewrite app_assoc, groups_pages_app in Hpages.
      pose proof (groups_pages_nonneg (table_types t) more). eapply Z.le_lt_trans; [|exact Hpages].
      apply Z.add_le_mono_l. rewrite <- (Z.add_0_r (groups_pages _ (st.1 ++ [st.2 ++ [r]]))) at 1. by apply Z.add_le_mono_l.
  - intros _ ex' (Hins' & Ht' & Hnew). split_and!; [exact Hins'|exact Ht'|]. simpl.
    pose proof (new_staging_staged (catalog_ ex')) as Hs. unfold staged in *. simpl in Hs. by rewrite Hnew, Ht'.
Qed.

Lemma Finish_executing ex :
  executing (foldl add_row ([], []) rows) ex ->
  returns Finish ex (fun _ ex' => inserted c t (row_groups rows) (catalog_ ex')).
Proof.
  intros (Hins & Ht & Hst). pose proof (add_row_inv rows) as (_ & Hlt & _). unfold Finish.
  pose proof Hok as Hok'. pose proof Hpages as Hpages'. unfold row_groups, close_group in *.
  destruct (foldl add_row ([], []) rows) as [gs [|r s]]; simpl in *.
  - unfold FlushRowGroup. apply returns_get_bind. rewrite (proj2 Hst). simpl. by apply returns_ret.
  - apply Forall_app in Hok' as [_ Hgo]. apply Forall_cons in Hgo as [Hgo _].
    eapply returns_mono; [by apply (FlushRowGroup_inserted c t gs ex (r :: s)); [..|simpl; lia| | |]|].
    by intros _ ex' (? & _).
Qed.

Lemma RunInsert_inserted :
  catalog_meta_wf c -> disk_wf (disk_manager_ c) -> tables_by_name_ c !! table_name_ t = Some t ->
  exists c', RunInsert (tbl_id_ t) (map literal_row rows) c = (Ok tt, c') /\ inserted c t (row_groups rows) c'.
Proof.
  intros Hmeta Hwf Ht. unfold RunInsert, new_executor. rewrite (GetTableById_Some c _ t _ Hmeta Ht eq_refl).
  assert (returns (_ ← for_each (map literal_row rows) (fun row _ => InsertRow row) tt; Finish) (mk_insert c t (new_staging t))
    (fun _ ex' => inserted c t (row_groups rows) (catalog_ ex'))) as (u & ex' & HR & Hins).
  2: { rewrite HR. destruct u. by exists (catalog_ ex'). }
  eapply returns_bind.
  - apply (returns_for_each (fun dn _ ex => executing (foldl add_row ([], []) (take (length dn) rows)) ex)).
    + intros dn x todo [] ex Hsplit Hex.
      assert (map literal_row rows !! length dn = Some x) as Hx by (rewrite Hsplit; by apply list_lookup_middle).
      rewrite list_lookup_fmap in Hx. destruct (rows !! length dn) as [r|] eqn:Hr; [|done]. injection Hx as <-.
      rewrite length_app, Nat.add_1_r, (take_S_r _ _ _ Hr).
      apply (InsertRow_executing _ r (drop (S (length dn)) rows)); [|done]. symmetry. by apply take_drop_middle.
    + split_and!; [by apply inserted_nil|done|apply new_staging_staged].
  - intros [] ex Hex. rewrite length_map, firstn_all in Hex. by apply Finish_executing.
Qed.

End Run.

(** C18. An INSERT of rows of literals returns: the table has new row groups, appended to its
    row groups, whose pages hold exactly the inserted rows, in order and split into
    groups of at most kRowGroupSize; the schema, the other tables and every page
    allocated before are unchanged. (Hypotheses: each group's literals have the columns'
    types, each VARCHAR column of a group has some bytes and fewer than 2^31, and there
    are page ids left.) *)
Theorem RunInsert_correct {F} `{PosixFileLaws F} `{!ReliableFile F} `{MapOrderLaws} (c : Catalog F) t (rows : list (list Value)) :
  catalog_meta_wf c -> disk_wf (disk_manager_ c) -> tables_by_name_ c !! table_name_ t = Some t ->
  table_types t <> [] -> Forall (group_ok (table_types t)) (row_groups rows) ->
  next_page (disk_manager_ c) + groups_pages (table_types t) (row_groups rows) < 2 ^ 32 ->
  exists c' rgs, RunInsert (tbl_id_ t) (map literal_row rows) c = (Ok tt, c') /\
    tables_by_name_ c' = <[table_name_ t := add_groups t rgs]> (tables_by_name_ c) /\
    Forall2 (row_group_stored (alloc_view (disk_manager_ c')) (table_types t)) rgs (map cells (row_groups rows)) /\
    concat (row_groups rows) = rows /\ Forall (fun g => 0 < Z.of_nat (length g) <= kRowGroupSize) (row_groups rows) /\
    schema_section_ c' = schema_section_ c /\
    forall p bs, alloc_view (disk_manager_ c) p = Some bs -> alloc_view (disk_manager_ c') p = Some bs.
Proof.
  intros Hmeta Hwf Ht Htys Hok Hpages.
  destruct (RunInsert_inserted c t rows Htys Hok Hpages Hmeta Hwf Ht) as (c' & HR & rgs & Hs & Htab & Hg & _ & Hst & _).
  destruct (row_groups_spec rows) as [Hc Hl]. exists c', rgs. split_and!; [done..|apply Hg].
Qed.

(** ** Scanning what was inserted *)

(** The first three columns' validity bits are always in the first page of the region. *)
Definition scannable (tys : list TypeId) (j : nat) : Prop := (j < length tys)%nat /\ (tys !! j = Some kVarchar -> (j < 3)%nat).

Lemma scannable_readable view tys rg rows j :
  row_group_stored view tys rg rows -> scannable tys j -> readable tys rows j.
Proof.
  intros Hst [Hj Hv]. destruct (rg_rows view tys rg rows Hst) as [_ Hn]. split; [done|]. intros Hty. specialize (Hv Hty).
  unfold validity_on_first_page, bytes_per_column, kRowGroupSize, kPage, kPageSizeBytes in *. rewrite u32_id by (unfold is_u32; lia).
  pose proof (Z.div_mod (Z.of_nat (length rows) + 7) 8 ltac:(lia)).
  pose proof (Z.mod_pos_bound (Z.of_nat (length rows) + 7) 8 ltac:(lia)). nia.
Qed.

Lemma scan_rows_all table required gs :
  scan_rows table required None gs = map (pick required) (concat gs.*2).
Proof. unfold scan_rows. induction gs as [|g gs IH]; [done|]. simpl. rewrite map_app. f_equal. exact IH. Qed.

Lemma fresh_scan_inv {F} `{PosixFileLaws F} (d : DiskManager F) frames :
  (2 <= frames)%nat -> scan_inv (alloc_view d) (mk_store d (new_pool frames)).
Proof.
  intros Hf. split_and!; [apply new_pool_wf|unfold budget; simpl; rewrite length_seq; lia| |done].
  intros p bs _ Hp. unfold alloc_view in Hp. case_decide as Hv; [|done]. by rewrite new_pool_logical by apply Hv.
Qed.

(** C10. After an INSERT, a scan of the table through a buffer pool of at least two frames
    delivers the rows the table had before, followed by the inserted rows, in order. *)
Theorem insert_then_scan {F} `{PosixFileLaws F} `{!ReliableFile F} `{MapOrderLaws} (c : Catalog F) t (rows : list (list Value))
    (old : list (RowGroupFooterEntry * list (list (option Value)))) required frames :
  catalog_meta_wf c -> disk_wf (disk_manager_ c) -> tables_by_name_ c !! table_name_ t = Some t ->
  table_types t <> [] -> Forall (group_ok (table_types t)) (row_groups rows) ->
  next_page (disk_manager_ c) + groups_pages (table_types t) (row_groups rows) < 2 ^ 32 ->
  old.*1 = Schema.row_groups_ t -> Forall (fun g => row_group_stored (alloc_view (disk_manager_ c)) (table_types t) g.1 g.2) old ->
  Forall (scannable (table_types t)) required -> (2 <= frames)%nat ->
  exists c' t', RunInsert (tbl_id_ t) (map literal_row rows) c = (Ok tt, c') /\ GetTable c' (table_name_ t) = Some t' /\
    scan_inv (alloc_view (disk_manager_ c')) (mk_store (disk_manager_ c') (new_pool frames)) /\
    forall fuel, exists cs, delivers (scan_inv (alloc_view (disk_manager_ c'))) fuel (new_scan t' required None) cs /\
      rows_of cs = map (pick required) (concat old.*2 ++ cells rows).
Proof.
  intros Hmeta Hwf Ht Htys Hok Hpages Hold Hsto Hreq Hframes.
  destruct (RunInsert_inserted c t rows Htys Hok Hpages Hmeta Hwf Ht) as (c' & HR & rgs & _ & Htab & Hg & _ & Hst & _).
  exists c', (add_groups t rgs). split_and!; [done|unfold GetTable; rewrite Htab; apply lookup_insert_eq| |].
  - by apply fresh_scan_inv.
  - intros fuel. set (gs := old ++ zip rgs (map cells (row_groups rows))).
    pose proof (Forall2_length _ _ _ Hst) as Hlen.
    assert (gs.*1 = Schema.row_groups_ (add_groups t rgs)) as Hgs
      by (unfold gs; simpl; rewrite fmap_app, Hold, fst_zip by lia; done).
    assert (Forall (fun g => row_group_stored (alloc_view (disk_manager_ c')) (table_types t) g.1 g.2) gs) as Hall.
    { apply Forall_app. split.
      - eapply Forall_impl; [exact Hsto|]. intros g. by apply row_group_stored_grows.
      - apply Forall_lookup. intros i [rg g] Hi. apply lookup_zip_with_Some in Hi as (? & ? & [= -> ->] & Hrg & Hrw).
        eapply Forall2_lookup_lr; [exact Hst|exact Hrg|exact Hrw]. }
    assert (Forall (fun g => Forall (readable (table_types t) g.2) required) gs) as Hread.
    { eapply Forall_impl; [exact Hall|]. intros g Hg'. eapply Forall_impl; [exact Hreq|]. intros j Hj. eapply scannable_readable; [exact Hg'|exact Hj]. }
    exists (chunks_from (add_groups t rgs) required None gs 0). split.
    + apply (scan_delivers _ (add_groups t rgs) required None gs Hgs Hall Hread ltac:(apply Forall_true; intros; by eexists) fuel 0 0).
      by apply (position_ok_0 _ (add_groups t rgs) gs Hall).
    + rewrite rows_of_scan, scan_rows_all. f_equal. unfold gs. rewrite fmap_app, concat_app, snd_zip by lia. f_equal.
      rewrite <- (proj1 (row_groups_spec rows)) at 2. unfold cells. by rewrite concat_map.
Qed.

(** ** Strings without bytes *)

Section NoBytes.
Context {F : Type} `{PosixFileLaws F} `{!ReliableFile F} `{MapOrderLaws}.

(** [AllocatePages(0)]. *)
Lemma pad_and_write_nothing (ex : InsertExecutor F) :
  pad_and_write [] ex = (Throw (InvalidArgument "DiskManager::AllocatePages: count must be > 0"), ex).
Proof.
  unfold pad_and_write. change (length []) with 0%nat. change (u32 ((Z.of_nat 0 + kPageSizeBytes - 1) / kPageSizeBytes)) with 0.
  unfold mbind, io_bind, on_catalog, on_disk_manager, io_zoom. by destruct ex as [[] ? ?].
Qed.

Lemma write_varchar_nothing (ex : InsertExecutor F) (column : Varchar.VarcharColumn) l :
  disk_wf (ex_disk ex) -> Varchar.repr column l -> Varchar.rows_size l = 0 ->
  next_page (ex_disk ex) + pages_of (offset_bytes (Varchar.rows_offsets l)) < 2 ^ 32 ->
  exists ex', write_varchar column (length l) ex = (Throw (InvalidArgument "DiskManager::AllocatePages: count must be > 0"), ex') /\
    wrote ex (pages_of (offset_bytes (Varchar.rows_offsets l))) ex'.
Proof.
  intros Hwf Hr Hsz Hov. set (ob := offset_bytes (Varchar.rows_offsets l)) in *.
  assert (Varchar.rows_data l = []) as Hd by (unfold Varchar.rows_size in Hsz; apply nil_length_inv; lia).
  assert (ob <> []) as Hob.
  { intros E. apply (f_equal length) in E. unfold ob in E. rewrite length_offset_bytes, Varchar.length_rows_offsets in E. simpl in E. lia. }
  destruct (pad_and_write_returns ex ob Hwf Hob Hov) as (range & ex1 & HP & Hw & _).
  exists ex1. split; [|done]. unfold write_varchar. rewrite (SerializeVarchar_spec column l Hr). fold ob. rewrite Hd.
  unfold mbind, io_bind, io_lift. rewrite HP. by rewrite pad_and_write_nothing.
Qed.

Lemma empty_strings_bytes k j : col_bytes (cells (replicate k [VStr ""%string])) j = 0.
Proof.
  induction k as [|k IH]; [done|]. change (cell_len (cell_at [Some (VStr ""%string)] j) + col_bytes (cells (replicate k [VStr ""%string])) j = 0).
  rewrite IH. by destruct j.
Qed.

Lemma stage_empty_strings (ex0 : InsertExecutor F) n :
  table_types (ins_table_ ex0) = [kVarchar] -> staged ex0 [] -> Z.of_nat n < 10240 ->
  returns (for_each (replicate n (literal_row [VStr ""%string])) (fun row _ => InsertRow row) tt) ex0 (fun _ ex' =>
    exists st, ex' = with_staging st ex0 /\ staged ex' (cells (replicate n [VStr ""%string]))).
Proof.
  intros Htys Hst0 Hmax.
  eapply returns_mono; [apply (returns_for_each (fun dn _ ex' => exists st, ex' = with_staging st ex0 /\
    staged ex' (cells (replicate (length dn) [VStr ""%string]))))|].
  - intros dn x todo [] ex' Hsplit (st & -> & Hst).
    assert (replicate n (literal_row [VStr ""%string]) !! length dn = Some x) as [-> Hlt]%lookup_replicate
      by (rewrite Hsplit; by apply list_lookup_middle).
    assert (cells (replicate (length dn) [VStr ""%string]) ++ [map Some [VStr ""%string]] = cells (replicate (S (length dn)) [VStr ""%string])) as Hcells.
    { rewrite replicate_S_end, cells_app. done. }
    unfold InsertRow. eapply returns_bind.
    { apply (AppendRow_returns _ (cells (replicate (length dn) [VStr ""%string])) [VStr ""%string]);
        [done|by symmetry|]. intros j. rewrite Hcells, empty_strings_bytes. lia. }
    intros _ ex1 (st1 & -> & Hst1). cbn beta. rewrite Hcells in Hst1. apply returns_get_bind.
    rewrite (proj2 Hst1), length_cells, length_replicate. rewrite (proj2 (Z.leb_gt _ _)) by (unfold kRowGroupSize; lia).
    apply returns_ret. rewrite length_app, Nat.add_1_r. exists st1. split; [done|exact Hst1].
  - exists (staging_ ex0). split; [by destruct ex0|]. by destruct ex0.
  - intros u ex' Hex. by rewrite length_replicate in Hex.
Qed.

(** An INSERT into a table of one VARCHAR column whose strings are all empty fails: the
    second buffer to write has no bytes, and the executor asks for zero pages. The
    table gets no row, and the pages of the offsets already written are not reused. *)
Theorem empty_strings_not_inserted (c : Catalog F) t n :
  catalog_meta_wf c -> disk_wf (disk_manager_ c) -> tables_by_name_ c !! table_name_ t = Some t ->
  table_types t = [kVarchar] -> (0 < n)%nat -> Z.of_nat n < kRowGroupSize -> next_page (disk_manager_ c) + 16 < 2 ^ 32 ->
  exists c', RunInsert (tbl_id_ t) (replicate n (literal_row [VStr ""%string])) c =
      (Throw (InvalidArgument "DiskManager::AllocatePages: count must be > 0"), c') /\
    tables_by_name_ c' = tables_by_name_ c /\ next_page (disk_manager_ c) < next_page (disk_manager_ c').
Proof.
  intros Hmeta Hwf Ht Htys Hn Hmax Hov. unfold kRowGroupSize in Hmax.
  unfold RunInsert, new_executor. rewrite (GetTableById_Some c _ t _ Hmeta Ht eq_refl). set (ex0 := mk_insert c t (new_staging t)).
  destruct (stage_empty_strings ex0 n Htys (new_staging_staged t c) Hmax) as ([] & ex1 & HR & st & -> & Hst).
  unfold mbind at 1, io_bind at 1. rewrite HR. unfold Finish, FlushRowGroup, mbind at 1, io_bind at 1, io_get.
  destruct Hst as [Hrep Hcount]. change (table_types (ins_table_ (with_staging st ex0))) with (table_types t) in Hrep.
  rewrite Htys in Hrep. rewrite Hcount, length_cells, length_replicate, (proj2 (Nat.eqb_neq n 0)) by lia.
  destruct (rows_repr_lookup _ _ _ 0 kVarchar Hrep eq_refl) as (col & Hcol & Hcr).
  pose proof (rows_repr_length _ _ _ Hrep) as Hlen.
  destruct (stage_columns_ (staging_ (with_staging st ex0))) as [|col' [|? ?]] eqn:Hcols; try done. injection Hcol as ->.
  destruct col as [?|?|vc]; [by destruct Hcr..|]. destruct Hcr as (_ & l & Hl & Hrs).
  assert (length l = n) as Hll.
  { apply (f_equal length) in Hrs. unfold column_of in Hrs. by rewrite !length_map, length_cells, length_replicate in Hrs. }
  destruct (write_varchar_nothing (with_staging st ex0) vc l) as (ex2 & HW & d' & -> & Hg & Hnext); [done|done| | |].
  - rewrite rows_size_str_size, <- Hrs, str_size_column. apply empty_strings_bytes.
  - change (ex_disk (with_staging st ex0)) with (disk_manager_ c). eapply Z.le_lt_trans; [|exact Hov]. apply Z.add_le_mono_l.
    apply pages_of_le; [lia|]. rewrite length_offset_bytes, Varchar.length_rows_offsets. lia.
  - rewrite Hll in HW. exists (catalog_ (with_disk d' (with_staging st ex0))). split_and!; [|done|].
    + cbn [for_each write_column]. unfold mbind, io_bind. by rewrite HW.
    + change (next_page d' = next_page (disk_manager_ c) + pages_of (offset_bytes (Varchar.rows_offsets l))) in Hnext.
      cbn [with_disk catalog_ disk_manager_]. rewrite Hnext. pose proof (pages_of_bounds (offset_bytes (Varchar.rows_offsets l))) as [Hb _].
      rewrite length_offset_bytes, Varchar.length_rows_offsets in Hb. lia.
Qed.

End NoBytes.

(** ** The theorems at a concrete table *)

Definition t_table : TableObject := new_table 0 "t" [id_column].
Definition t_rows : list (list Value) := [[VInt 7]; [VInt (-8)]].

Lemma created_table :
  catalog_meta_wf created /\ disk_wf (disk_manager_ created) /\ tables_by_name_ created !! table_name_ t_table = Some t_table.
Proof. destruct created_ok as [Hr _]. destruct (reachable_wf created Hr) as [? ?]. split_and!; [done..|by vm_compute]. Qed.

Lemma t_rows_ok : Forall (group_ok (table_types t_table)) (row_groups t_rows).
Proof.
  assert (row_groups t_rows = [t_rows]) as -> by reflexivity. constructor; [|constructor]. split.
  - repeat constructor; simpl; unfold is_i32; lia.
  - intros [|[|j]]; done.
  - intros [|j]; done.
Qed.

Lemma t_rows_pages :
  next_page (disk_manager_ created) + groups_pages (table_types t_table) (row_groups t_rows) < 2 ^ 32.
Proof. vm_compute. reflexivity. Qed.

Lemma RunInsert_correct_witness :
  exists c' rgs, RunInsert 0 (map literal_row t_rows) created = (Ok tt, c') /\
    tables_by_name_ c' = <["t"%string := add_groups t_table rgs]> (tables_by_name_ created).
Proof.
  destruct created_table as (Hmeta & Hwf & Ht).
  destruct (RunInsert_correct created t_table t_rows Hmeta Hwf Ht ltac:(discriminate) t_rows_ok t_rows_pages)
    as (c' & rgs & HR & Htab & _). exists c', rgs. exact (conj HR Htab).
Defined.

Lemma insert_then_scan_witness :
  exists c' t', RunInsert 0 (map literal_row t_rows) created = (Ok tt, c') /\ GetTable c' "t" = Some t' /\
    exists cs, delivers (scan_inv (alloc_view (disk_manager_ c'))) 1 (new_scan t' [0%nat] None) cs /\
      rows_of cs = [[Some (VInt 7)]; [Some (VInt (-8))]].
Proof.
  destruct created_table as (Hmeta & Hwf & Ht).
  assert (Forall (scannable (table_types t_table)) [0%nat]) as Hreq by (repeat constructor; done).
  destruct (insert_then_scan created t_table t_rows [] [0%nat] 2 Hmeta Hwf Ht ltac:(discriminate) t_rows_ok t_rows_pages
    eq_refl ltac:(constructor) Hreq ltac:(lia)) as (c' & t' & HR & HG & _ & Hscan).
  exists c', t'. destruct (Hscan 1%nat) as (cs & Hd & Hr). split; [exact HR|]. split; [exact HG|]. exists cs. exact (conj Hd Hr).
Defined.

(** A table with one VARCHAR column. *)
Definition name_column : ColumnDef := mk_column "name" kVarchar 0.
Definition named : Catalog mem_file := snd (CreateTable "n" [name_column] empty_catalog).
Definition n_table : TableObject := new_table 0 "n" [name_column].

Lemma named_ok : catalog_reachable named.
Proof.
  destruct empty_catalog_ok as [Hr Hok].
  by apply (reach_create empty_catalog "n" [name_column] 0 named Hr Hok); [..|vm_compute].
Qed.

Lemma empty_strings_not_inserted_witness :
  exists c', RunInsert 0 [literal_row [VStr ""%string]] named =
    (Throw (InvalidArgument "DiskManager::AllocatePages: count must be > 0"), c').
Proof.
  destruct (reachable_wf named named_ok) as [Hmeta Hwf].
  assert (tables_by_name_ named !! table_name_ n_table = Some n_table) as Ht by (vm_compute; reflexivity).
  assert (next_page (disk_manager_ named) + 16 < 2 ^ 32) as Hov by (vm_compute; reflexivity).
  destruct (empty_strings_not_inserted named n_table 1 Hmeta Hwf Ht eq_refl ltac:(lia) ltac:(reflexivity) Hov)
    as (c' & HR & _). exists c'. exact HR.
Defined.
