(* ===== verification/Misread.v ===== *)
(** Where [SeqScanOperator] reads the wrong validity bits. The bitmaps of a row group's
    columns share one region, of several pages when there are many columns, but
    [AppendVarchar] of [src/execution/seq_scan_operator.cpp] has only the region's first
    page in a frame and indexes past it. [Scan] is about the columns whose bits are in
    the first page; this file says what the scan delivers for the ones behind it. *)

From S2P Require Import Prelude Scalar ByteIO Bitmap Columns ZoneMap Footer Disk Replacer BufferPool Schema Catalog Chunk Rows Expr Operators Layout Pages Scan Insert.

(** The bit that is found for row [r] of column [j], of a group of [n] rows, when the region's
    first page is in frame [f]: it is in the frame after. *)
Definition next_frame_bit (p : BufferPool) (f n j r : nat) : bool :=
  disk_bit (frame_bytes p (S f)) (j * bytes_per_column n + r / 8 - kPage) (r mod 8).

(** The bit's byte is on the second page of the region. *)
Definition on_second_page (n j r : nat) : Prop := (kPage <= j * bytes_per_column n + r / 8 < 2 * kPage)%nat.

Lemma IsColumnValidAtRow_next p f n j r :
  length (BufferPool.pages_ p) = (pool_size_ p * kPage)%nat -> (f < pool_size_ p)%nat -> on_second_page n j r ->
  IsColumnValidAtRow (BufferPool.pages_ p) (frame_ptr f) n j r =
    if decide (S f < pool_size_ p)%nat then Ok (next_frame_bit p f n j r) else Undefined.
Proof.
  unfold on_second_page, next_frame_bit. intros Hl Hf Hk. set (k := (j * bytes_per_column n + r / 8)%nat) in *.
  unfold IsColumnValidAtRow. replace (frame_ptr f + j * bytes_per_column n + r / 8)%nat with (frame_ptr (S f) + (k - kPage))%nat
    by (unfold frame_ptr, k in *; lia).
  case_decide as Hlast.
  - pose proof (frame_in_pool (pool_size_ p) (S f) Hlast) as Hin. unfold disk_bit, frame_bytes.
    rewrite region_lookup by lia.
    destruct (lookup_lt_is_Some_2 (BufferPool.pages_ p) (frame_ptr (S f) + (k - kPage))) as [x Hx]; [lia|].
    rewrite (proj2 (vec_get_Ok _ _ _) Hx), Hx. cbn [mbind result_bind]. by rewrite land_shiftr_testbit by lia.
  - unfold vec_get. rewrite lookup_ge_None_2; [done|]. rewrite Hl. unfold frame_ptr.
    assert (S f = pool_size_ p) as <- by lia. lia.
Qed.

Section Misread.
Context {F : Type} `{PosixFileLaws F} `{!ReliableFile F} (view : Z -> option (list byte)).
Context (tys : list TypeId) (rg : RowGroupFooterEntry) (rows : list (list (option Value))).
Context (Hrg : row_group_stored view tys rg rows) (v j : nat) (Hj : tys !! j = Some kVarchar) (Hv : (v * 1024 < length rows)%nat).
Context (Hsecond : forall i, (i < length (vector_rows v rows))%nat -> on_second_page (length rows) j (v * 1024 + i)).

(** The validity region's first page, in the pool at the end. *)
Definition holds_first_page (s : Store F) (f : nat) : Prop :=
  page_table_ (pool_ s) !! start_page_id (validity_bitmap_region_ rg) = Some f.

Lemma read_validity_next l opad dpad (a m : nat) s :
  scan_inv view s -> vector_loaded rows j v l dpad a m ->
  exists r s' f, read_validity rg rows v j l opad dpad a m s = (r, s') /\ holds_first_page s' f /\
    if decide (S f < pool_size_ (pool_ s'))%nat then
      exists column, r = Ok column /\
        col_repr (VarcharCol column) kVarchar
          (column_read (fun i => next_frame_bit (pool_ s') f (length rows) j (v * 1024 + i)) j (vector_rows v rows))
    else r = Undefined.
Proof.
  intros (Hwf & Hb & Hview & _) Hload. destruct (validity_page view tys rg rows Hrg j _ Hj) as (bits & bpad & _ & Hu & Hu0 & Hpage).
  destruct (FetchPage_returns view s _ _ Hwf Hu Hu0 ltac:(by eexists) (Hview _ _ Hu Hpage) ltac:(lia)) as (? & s1 & HF & f & -> & Hh).
  pose proof (h_wf _ _ _ _ _ _ Hh) as Hwf1. pose proof (mapped_lt s1 _ f Hwf1 (h_table _ _ _ _ _ _ Hh)) as Hf.
  pose proof (fun r => IsColumnValidAtRow_next (pool_ s1) f (length rows) j r (sw_pages s1 Hwf1) Hf) as Hbit.
  unfold read_validity, with_page. rewrite (io_bind_Ok _ _ _ _ _ HF). destruct (decide (S f < pool_size_ (pool_ s1))%nat) as [Hlast|Hlast].
  - destruct (UnpinPage_spec s1 (start_page_id (validity_bitmap_region_ rg)) false Hwf1) as (s2 & HU & Hwf2 & _ & Ht & Hpg & _).
    assert (pool_size_ (pool_ s2) = pool_size_ (pool_ s1)) as Hsize.
    { pose proof (sw_pages s1 Hwf1) as E1. pose proof (sw_pages s2 Hwf2) as E2. rewrite Hpg, E1 in E2. pose proof kPage_pos. nia. }
    destruct (read_varchar_column_spec rows j v l opad dpad (BufferPool.pages_ (pool_ s1)) (frame_ptr f) a m
      (fun i => next_frame_bit (pool_ s1) f (length rows) j (v * 1024 + i)) Hload) as (column & HR & Hcol).
    { intros i Hi. by rewrite (Hbit _ (Hsecond i Hi)). }
    exists (Ok column), s2, f. unfold holds_first_page. rewrite Ht, Hsize, decide_True by done.
    split; [|split; [apply (h_table _ _ _ _ _ _ Hh)|]].
    + unfold mbind, io_bind, io_get, io_lift. rewrite HR. unfold mbind, io_bind in HU. by rewrite HU.
    + exists column. split; [done|]. unfold next_frame_bit, frame_bytes in *. by rewrite Hpg.
  - exists Undefined, s1, f. rewrite decide_False by done. split; [|split; [apply (h_table _ _ _ _ _ _ Hh)|done]].
    unfold mbind, io_bind, io_get, io_lift. unfold read_varchar_column.
    destruct (length (vector_rows v rows)) as [|n] eqn:En; [rewrite length_vector_rows in En; lia|].
    cbn [for_range]. by rewrite Hbit by (apply Hsecond; lia).
Qed.

(** C36. A VARCHAR column whose validity bits lie on the second page of the region (with full
    row groups, the column ordinals 4 and 5, and part of 3 and 6): for every vector, what
    [AppendVarchar] adds to the chunk depends on the frame after the one that holds the
    first page. The cells of the column are null, or not, as the bits of that frame's
    contents say, whatever page it holds; a stored null taken for valid is delivered as
    the empty string; and where the first page is in the last frame the bits are
    read past the pool's memory. *)
Theorem varchar_validity_next_frame chunk cols sel s :
  scan_inv view s -> chunk_repr chunk cols sel -> length sel = length (vector_rows v rows) ->
  exists r s' f, AppendVarchar chunk rg j (v * 1024) (length sel) s = (r, s') /\ holds_first_page s' f /\
    if decide (S f < pool_size_ (pool_ s'))%nat then
      exists chunk', r = Ok chunk' /\
        chunk_repr chunk' (cols ++ [(kVarchar,
          column_read (fun i => next_frame_bit (pool_ s') f (length rows) j (v * 1024 + i)) j (vector_rows v rows))]) sel
    else r = Undefined.
Proof.
  intros Hinv Hch Hsel. destruct (AppendVarchar_prefix view tys rg rows Hrg v j chunk s Hinv Hj Hv)
    as (l & opad & dpad & a & m & s1 & Hload & Hinv1 & HA).
  rewrite Hsel, HA. destruct (read_validity_next l opad dpad a m s1 Hinv1 Hload) as (r & s2 & f & HR & Ht & Hcase).
  case_decide as Hlast.
  - destruct Hcase as (column & -> & Hcol).
    destruct (AddColumn_repr chunk cols sel _ _ _ Hch Hcol) as (chunk' & HC & Hch').
    { rewrite Hsel. unfold column_read. by rewrite length_imap. }
    exists (Ok chunk'), s2, f. split; [by rewrite (io_bind_Ok _ _ _ _ _ HR), HC|]. split; [done|].
    rewrite decide_True by done. by exists chunk'.
  - subst r. exists Undefined, s2, f. split; [|split; [done|by rewrite decide_False]]. unfold mbind, io_bind. by rewrite HR.
Qed.
End Misread.

(** ** A table whose VARCHAR column has its bits on the second page *)

(** 32 INTEGER columns and a VARCHAR column, with 1024 rows: the bitmaps take 33 * 128 bytes. *)
Definition wide_columns : list ColumnDef := replicate 32 (mk_column "c" kInteger 0) ++ [mk_column "s" kVarchar 32].
Definition wide : Catalog mem_file := snd (CreateTable "w" wide_columns empty_catalog).
Definition wide_table : TableObject := new_table 0 "w" wide_columns.
Definition wide_row : list Value := replicate 32 (VInt 1) ++ [VStr "a"%string].
Definition wide_rows : list (list Value) := replicate 1024 wide_row.

Lemma wide_created : catalog_meta_wf wide /\ disk_wf (disk_manager_ wide) /\ tables_by_name_ wide !! "w"%string = Some wide_table.
Proof.
  destruct empty_catalog_ok as [Hr Hok].
  assert (catalog_reachable wide) as Hw by (by apply (reach_create empty_catalog "w" wide_columns 0 wide Hr Hok); [..|vm_compute]).
  destruct (reachable_wf wide Hw) as [Hm Hd]. split_and!; [done..|by vm_compute].
Qed.

Lemma wide_bytes n j : col_bytes (cells (replicate n wide_row)) j = Z.of_nat n * cell_len (cell_at (map Some wide_row) j).
Proof.
  induction n as [|n IH]; [done|]. unfold cells, col_bytes in *. cbn [replicate map foldr]. rewrite IH. lia.
Qed.

Lemma wide_group_ok : Forall (group_ok (table_types wide_table)) (row_groups wide_rows).
Proof.
  assert (row_groups wide_rows = [wide_rows]) as -> by (vm_compute; reflexivity). constructor; [|constructor].
  assert (forall j, cell_len (cell_at (map Some wide_row) j) = if decide (j = 32)%nat then 1 else 0) as Hlen.
  { intros j. destruct (decide (j < 33)%nat) as [Hj|Hj].
    - do 33 (destruct j as [|j]; [reflexivity|]). lia.
    - unfold cell_at. rewrite lookup_ge_None_2 by (simpl; lia). by rewrite decide_False by lia. }
  split.
  - apply Forall_replicate. split; [done|]. repeat constructor; simpl; unfold is_i32; lia.
  - intros j. unfold wide_rows. rewrite wide_bytes, Hlen. case_decide; lia.
  - intros j Hj. unfold wide_rows. rewrite wide_bytes, Hlen. case_decide as Hd; [lia|]. exfalso.
    destruct (decide (j < 33)%nat) as [Hlt|Hlt]; [|by rewrite lookup_ge_None_2 in Hj by (simpl; lia)].
    do 33 (destruct j as [|j]; [done|]). lia.
Qed.

Lemma wide_on_second_page i : (i < 1024)%nat -> on_second_page 1024 32 (0 * 1024 + i).
Proof.
  intros Hi. unfold on_second_page. assert (bytes_per_column 1024 = 128)%nat as -> by (vm_compute; reflexivity).
  assert (kPage = 4096)%nat as -> by reflexivity. pose proof (Nat.Div0.div_lt_upper_bound (0 * 1024 + i) 8 128 ltac:(lia)). lia.
Qed.

Lemma varchar_validity_next_frame_witness :
  exists (c' : Catalog mem_file) rg chunk r s' f,
    RunInsert 0 (map literal_row wide_rows) wide = (Ok tt, c') /\
    AppendVarchar chunk rg 32 (0 * 1024) 1024 (mk_store (disk_manager_ c') (new_pool 2)) = (r, s') /\ holds_first_page rg s' f /\
    if decide (S f < pool_size_ (pool_ s'))%nat then is_ok r else r = Undefined.
Proof.
  destruct wide_created as (Hmeta & Hwf & Ht).
  destruct (RunInsert_inserted wide wide_table wide_rows ltac:(discriminate) wide_group_ok ltac:(vm_compute; reflexivity) Hmeta Hwf Ht)
    as (c' & HR & rgs & _ & _ & _ & _ & Hst & _).
  assert (row_groups wide_rows = [wide_rows]) as Hgs by (vm_compute; reflexivity). rewrite Hgs in Hst.
  apply Forall2_cons_inv_r in Hst as (rg & rgs' & Hrg & _ & _).
  destruct (chunk_exists [] 1024 ltac:(lia) ltac:(constructor)) as [chunk Hch].
  assert (length (cells wide_rows) = 1024)%nat as Hl by (unfold cells, wide_rows; by rewrite length_map, length_replicate).
  assert (length (vector_rows 0 (cells wide_rows)) = 1024)%nat as Hlv by (by rewrite length_vector_rows, Hl).
  destruct (varchar_validity_next_frame (alloc_view (disk_manager_ c')) (table_types wide_table) rg (cells wide_rows) Hrg 0 32 eq_refl
    ltac:(rewrite Hl; lia) ltac:(rewrite Hl, Hlv; apply wide_on_second_page) chunk [] (replicate 1024 true)
    (mk_store (disk_manager_ c') (new_pool 2)) (fresh_scan_inv _ 2 ltac:(lia)) Hch ltac:(by rewrite length_replicate, Hlv))
    as (r & s' & f & HA & Hf & Hcase).
  rewrite length_replicate in HA. exists c', rg, chunk, r, s', f. split_and!; [exact HR|exact HA|exact Hf|].
  case_decide; [|exact Hcase]. destruct Hcase as (chunk' & -> & _). by exists chunk'.
Defined.
