(* ===== verification/Ast.v ===== *)
(** Model of [binder/ast.hpp] and [src/binder/ast.cpp]: the syntax trees the parser
    builds. A [unique_ptr] the parser never leaves null is the tree itself; those the
    sources test, or that may be null, are options. *)

From S2P Require Import Prelude Scalar Expr.

Record ColumnRefNode : Type := mk_column_ref { table_qualifier : option string; column_name : string }.

(** [std::variant<NullLiteral, std::int64_t, double, std::string>]. *)
Inductive Literal : Type :=
  | NullLiteral
  | Int64Literal (value : Z)
  | DoubleLiteral (value : f64)
  | StringLiteral (value : string).

Inductive RawExpression : Type :=
  | RawColumnRef (node : ColumnRefNode)
  | RawConst (value : Literal)
  | RawBinaryOp (op : BinaryOperator) (left right : RawExpression)
  | RawUnaryOp (op : UnaryOperator) (operand : RawExpression)
  | RawFunctionCall (name : string) (args : list RawExpression) (is_star_arg : bool).

Inductive TableRefNode : Type :=
  | BaseTableRef (table_name : string) (alias : option string)
  | JoinRef (left right : option TableRefNode) (on_condition : option RawExpression).

Record SelectItem : Type := mk_select_item { is_wildcard : bool; expression : option RawExpression }.

Record SelectNode : Type := mk_select {
  select_list : list SelectItem;
  from_tables : list TableRefNode;
  where_clause : option RawExpression;
  group_by_exprs : list RawExpression;
  having_clause : option RawExpression;
  has_distinct : bool;
  has_order_by : bool;
  has_limit : bool;
  has_with_clause : bool;
  has_set_operation : bool;
}.

Record InsertNode : Type := mk_insert_node {
  insert_table_name : string;
  insert_columns : list string;
  value_rows : list (list RawExpression);
}.

Record RawColumnDef : Type := mk_raw_column { raw_name : string; raw_type_name : string }.
Record CreateTableNode : Type := mk_create_node { create_table_name : string; create_columns : list RawColumnDef }.

(** [ParsedStatement] ([binder/parser.hpp]). *)
Inductive ParsedStatement : Type :=
  | SelectStatement (select : SelectNode)
  | InsertStatement (insert : InsertNode)
  | CreateTableStatement (create : CreateTableNode).

Definition RawMakeColumnRef (qualifier : option string) (column_name : string) : RawExpression :=
  RawColumnRef (mk_column_ref qualifier column_name).
Definition RawMakeNullConst : RawExpression := RawConst NullLiteral.
Definition RawMakeIntConst (value : Z) : RawExpression := RawConst (Int64Literal value).
Definition RawMakeFloatConst (value : f64) : RawExpression := RawConst (DoubleLiteral value).
Definition RawMakeStringConst (value : string) : RawExpression := RawConst (StringLiteral value).
Definition RawMakeBinaryOp (op : BinaryOperator) (left right : RawExpression) : RawExpression := RawBinaryOp op left right.
Definition RawMakeUnaryOp (op : UnaryOperator) (operand : RawExpression) : RawExpression := RawUnaryOp op operand.
Definition RawMakeFunctionCall (name : string) (args : list RawExpression) (is_star_arg : bool) : RawExpression :=
  RawFunctionCall name args is_star_arg.
Definition MakeBaseTableRef (table_name : string) (alias : option string) : TableRefNode := BaseTableRef table_name alias.
Definition MakeJoinRef (left right : option TableRefNode) (on_condition : option RawExpression) : TableRefNode :=
  JoinRef left right on_condition.
