(* ===== verification/Plan.v ===== *)
(** Model of [binder/logical_plan.hpp] and [src/binder/logical_plan.cpp]: logical plans,
    whose columns are named by the binding of a FROM item and the ordinal in its table. *)

From S2P Require Import Prelude Expr.

(** [execution::BoundColumnRef] as a value of its own. *)
Record ColumnRef : Type := mk_ref { ref_table_id : Z; ref_ordinal : Z; ref_type : TypeId }.
#[global] Instance ColumnRef_eq_dec : EqDecision ColumnRef.
Proof. solve_decision. Defined.

Record OutputColumn : Type := mk_output { display_name : string; output_type : ExpressionType }.

Inductive AggregateFunctionKind : Type := kCountStar | kCount | kSum | kAvg | kMin | kMax.
#[global] Instance AggregateFunctionKind_eq_dec : EqDecision AggregateFunctionKind.
Proof. solve_decision. Defined.

Record AggregateCall : Type := mk_call { function : AggregateFunctionKind; argument : option ColumnRef }.

(** [std::numeric_limits<std::uint32_t>::max()]. *)
Definition kAggregateOutputBindingId : Z := 2 ^ 32 - 1.

Inductive LogicalPlanNode : Type :=
  | LogicalScan (binding_id physical_table_id : Z) (output_columns : list OutputColumn) (required_ordinals : list Z)
  | LogicalFilter (input : LogicalPlanNode) (predicate : BoundExpression)
  | LogicalJoin (left right : LogicalPlanNode) (equi_conditions : list (ColumnRef * ColumnRef))
  | LogicalAggregate (input : LogicalPlanNode) (group_by : list ColumnRef) (aggregates : list AggregateCall)
      (output_columns : list OutputColumn)
  | LogicalProjection (input : LogicalPlanNode) (select_expressions : list BoundExpression)
      (output_columns : list OutputColumn).

Fixpoint OutputSchema (node : LogicalPlanNode) : result (list OutputColumn) :=
  match node with
  | LogicalScan _ _ output_columns required_ordinals =>
      for_each required_ordinals (fun ordinal schema =>
        column ← vec_get output_columns (Z.to_nat ordinal); mret (schema ++ [column])) []
  | LogicalAggregate _ _ _ output_columns => mret output_columns
  | LogicalProjection _ _ output_columns => mret output_columns
  | LogicalFilter input _ => OutputSchema input
  | LogicalJoin l r _ =>
      left_cols ← OutputSchema l;
      right_cols ← OutputSchema r;
      mret (left_cols ++ right_cols)
  end.

Fixpoint CollectBindingIds (node : LogicalPlanNode) : list Z :=
  match node with
  | LogicalScan binding_id _ _ _ => [binding_id]
  | LogicalJoin l r _ => CollectBindingIds l ++ CollectBindingIds r
  | LogicalFilter input _ => CollectBindingIds input
  | LogicalAggregate input _ _ _ => CollectBindingIds input
  | LogicalProjection input _ _ => CollectBindingIds input
  end.

Definition MakeLogicalScan (binding_id physical_table_id : Z) (output_columns : list OutputColumn) : LogicalPlanNode :=
  LogicalScan binding_id physical_table_id output_columns (map Z.of_nat (seq 0 (length output_columns))).
Definition MakeLogicalFilter (input : LogicalPlanNode) (predicate : BoundExpression) : LogicalPlanNode :=
  LogicalFilter input predicate.
Definition MakeLogicalJoin (left right : LogicalPlanNode) (equi_conditions : list (ColumnRef * ColumnRef))
    : LogicalPlanNode := LogicalJoin left right equi_conditions.
Definition MakeLogicalAggregate (input : LogicalPlanNode) (group_by : list ColumnRef) (aggregates : list AggregateCall)
    (output_columns : list OutputColumn) : LogicalPlanNode := LogicalAggregate input group_by aggregates output_columns.
Definition MakeLogicalProjection (input : LogicalPlanNode) (select_expressions : list BoundExpression)
    (output_columns : list OutputColumn) : LogicalPlanNode := LogicalProjection input select_expressions output_columns.

(** A new scan reads every column. *)
Lemma OutputSchema_scan binding_id table_id columns :
  OutputSchema (MakeLogicalScan binding_id table_id columns) = Ok columns.
Proof.
  unfold MakeLogicalScan. simpl. set (n := length columns).
  destruct (for_each_inv (fun dn schema => schema = take (length dn) columns)
    (fun ordinal schema => column ← vec_get columns (Z.to_nat ordinal); mret (schema ++ [column]))
    (map Z.of_nat (seq 0 n)) []) as (s & -> & ->); [|done|].
  - intros dn x todo s Hsplit ->.
    assert (map Z.of_nat (seq 0 n) !! length dn = Some x) as Hx by (rewrite Hsplit; by apply list_lookup_middle).
    rewrite list_lookup_fmap in Hx. destruct (seq 0 n !! length dn) as [k|] eqn:Hk; [|done].
    apply lookup_seq in Hk as [-> Hlt]. injection Hx as <-. rewrite Nat2Z.id. simpl.
    destruct (lookup_lt_is_Some_2 columns (length dn) Hlt) as [c Hc]. rewrite (proj2 (vec_get_Ok _ _ _) Hc). simpl.
    eexists. split; [done|]. rewrite length_app. simpl. rewrite Nat.add_1_r. by rewrite (take_S_r _ _ _ Hc).
  - rewrite length_map, length_seq. unfold n. by rewrite firstn_all.
Qed.
