(* ===== verification/Resolution.v ===== *)
(** Model of [src/binder/resolution.cpp]: the tables of a FROM clause, and the columns that
    names refer to. *)

From S2P Require Import Prelude Disk Schema Catalog Ast Plan.

Record ResolvedTableBinding : Type := mk_binding { binding_id : Z; binding_name : string; binding_table : TableObject }.

Definition ResolutionScope : Type := list ResolvedTableBinding.

Definition duplicate_message (name : string) : string :=
  "Duplicate table reference '" ++ name ++ "' in FROM/JOIN -- a repeated table (self-join) requires distinct aliases".

(** The test of one existing binding. *)
Definition reject_duplicate (name : string) (existing : ResolvedTableBinding) : io ResolutionScope unit :=
  if (binding_name existing =? name)%string then io_throw (ResolutionException (duplicate_message name)) else mret tt.

Definition RegisterTable {F} (table_name : string) (alias : option string) (catalog : Catalog F) : io ResolutionScope Z :=
  match GetTable catalog table_name with
  | None => io_throw (ResolutionException ("Unknown table: " ++ table_name))
  | Some table =>
      let name := default table_name alias in
      scope ← io_get;
      _ ← for_each scope (fun existing _ => reject_duplicate name existing) tt;
      let id := u32 (Z.of_nat (length scope)) in
      _ ← io_put (scope ++ [mk_binding id name table]);
      mret id
  end.

Definition bound_column (binding : ResolvedTableBinding) (col : ColumnDef) : ColumnRef :=
  mk_ref (binding_id binding) (ordinal col) (type col).

Definition ambiguous_message (column : string) : string := "Ambiguous column reference: " ++ column.

(** The loop over the bindings for a qualified name. *)
Fixpoint resolve_qualified (bindings : list ResolvedTableBinding) (qualifier column : string) : result ColumnRef :=
  match bindings with
  | [] => Throw (ResolutionException ("Unknown table alias or name: " ++ qualifier))
  | binding :: bindings' =>
      if (binding_name binding =? qualifier)%string then
        col ← FindColumn (binding_table binding) column;
        match col with
        | None => Throw (ResolutionException ("Column '" ++ column ++ "' not found in '" ++ qualifier ++ "'"))
        | Some col => mret (bound_column binding col)
        end
      else resolve_qualified bindings' qualifier column
  end.

(** One round of the loop for an unqualified name. *)
Definition resolve_in (column : string) (binding : ResolvedTableBinding) (found : option ColumnRef) : result (option ColumnRef) :=
  col ← FindColumn (binding_table binding) column;
  match col, found with
  | None, _ => mret found
  | Some _, Some _ => Throw (ResolutionException (ambiguous_message column))
  | Some col, None => mret (Some (bound_column binding col))
  end.

Definition resolve_unqualified (bindings : list ResolvedTableBinding) (column : string) : result ColumnRef :=
  found ← for_each bindings (resolve_in column) None;
  match found with
  | None => Throw (ResolutionException ("Column not found: " ++ column))
  | Some ref => mret ref
  end.

Definition Resolve (scope : ResolutionScope) (column_ref : ColumnRefNode) : result ColumnRef :=
  match table_qualifier column_ref with
  | Some qualifier => resolve_qualified scope qualifier (column_name column_ref)
  | None => resolve_unqualified scope (column_name column_ref)
  end.

(** [bindings_.at(binding_id)]. *)
Definition BindingFor (scope : ResolutionScope) (id : Z) : result ResolvedTableBinding :=
  match scope !! Z.to_nat id with
  | Some binding => Ok binding
  | None => Throw (OutOfRange "vector::at")
  end.

(** ** What names refer to *)

Definition table_ok (t : TableObject) : Prop :=
  column_ordinal_map_ t = ordinal_map (tbl_columns_ t) /\ ordinals_ok (tbl_columns_ t).

(** The bindings are numbered in order, their names differ, and their tables are well formed. *)
Record scope_wf (scope : ResolutionScope) : Prop := {
  sw_bindings : forall i b, scope !! i = Some b -> binding_id b = Z.of_nat i /\ table_ok (binding_table b);
  sw_names : NoDup (map binding_name scope);
}.

(** The type of a column of a binding. *)
Definition scope_type (scope : ResolutionScope) (id ord : Z) : option TypeId :=
  b ← scope !! Z.to_nat id; c ← tbl_columns_ (binding_table b) !! Z.to_nat ord; Some (type c).

(** The first column of a table with a name. *)
Definition named_column (t : TableObject) (column : string) : option ColumnDef :=
  head (filter (fun c => name c = column) (tbl_columns_ t)).

(** What a reference may mean: the column of that name in each binding it may be qualified by. *)
Definition qualifies (column_ref : ColumnRefNode) (b : ResolvedTableBinding) : bool :=
  match table_qualifier column_ref with None => true | Some q => (binding_name b =? q)%string end.
Definition candidate (column_ref : ColumnRefNode) (b : ResolvedTableBinding) : option ColumnRef :=
  if qualifies column_ref b
  then bound_column b <$> named_column (binding_table b) (column_name column_ref) else None.
Definition candidates (scope : ResolutionScope) (column_ref : ColumnRefNode) : list ColumnRef :=
  omap (candidate column_ref) scope.

Lemma candidate_typed scope column_ref i b ref :
  scope_wf scope -> scope !! i = Some b -> candidate column_ref b = Some ref ->
  ref_table_id ref = Z.of_nat i /\ scope_type scope (ref_table_id ref) (ref_ordinal ref) = Some (ref_type ref) /\
  0 <= ref_ordinal ref.
Proof.
  intros Hwf Hb. destruct (sw_bindings _ Hwf i b Hb) as [Hid [_ Hord]]. unfold candidate. destruct (qualifies _ _); [|done].
  destruct (named_column (binding_table b) (column_name column_ref)) as [c|] eqn:Hc; [|done]. intros [= <-].
  unfold named_column in Hc. apply head_Some_elem_of, list_elem_of_filter in Hc as [_ Hc].
  apply list_elem_of_lookup in Hc as [j Hj]. simpl. rewrite Hid. split; [done|]. unfold scope_type.
  rewrite Nat2Z.id, Hb. simpl. rewrite (Hord j c Hj), Nat2Z.id, Hj. split; [done|lia].
Qed.

Lemma candidates_cons b bs column_ref :
  candidates (b :: bs) column_ref =
    match candidate column_ref b with Some ref => ref :: candidates bs column_ref | None => candidates bs column_ref end.
Proof. done. Qed.

Lemma candidates_none bs column_ref : (forall b, b ∈ bs -> qualifies column_ref b = false) -> candidates bs column_ref = [].
Proof.
  induction bs as [|b bs IH]; intros Hq; [done|]. rewrite candidates_cons. unfold candidate.
  rewrite (Hq b) by by constructor. apply IH. intros b' Hb'. apply Hq. by constructor.
Qed.

Lemma resolve_qualified_spec bindings q column :
  (forall b, b ∈ bindings -> table_ok (binding_table b)) -> NoDup (map binding_name bindings) ->
  match candidates bindings (mk_column_ref (Some q) column) with
  | [ref] => resolve_qualified bindings q column = Ok ref
  | [] => exists what, resolve_qualified bindings q column = Throw (ResolutionException what)
  | _ => False
  end.
Proof.
  induction bindings as [|b bs IH]; intros Hok Hnd; [by eexists|]. apply NoDup_cons in Hnd as [Hnin Hnd].
  destruct (Hok b) as [Hm Hord]; [by constructor|]. rewrite candidates_cons. unfold candidate, qualifies. simpl.
  destruct (String.eqb_spec (binding_name b) q) as [Hq|Hne].
  - rewrite (FindColumn_spec _ _ Hm Hord), bind_Ok. fold (named_column (binding_table b) column).
    rewrite candidates_none; [destruct (named_column (binding_table b) column); simpl; [done|by eexists]|].
    intros b' Hb'. unfold qualifies. simpl. apply String.eqb_neq. intros Hq'. apply Hnin.
    rewrite Hq, <- Hq'. by apply list_elem_of_fmap_2.
  - apply IH; [|done]. intros b' Hb'. apply Hok. by constructor.
Qed.

(** The loop for an unqualified name keeps the only candidate so far. *)
Lemma resolve_unqualified_loop bindings column found :
  (forall b, b ∈ bindings -> table_ok (binding_table b)) ->
  for_each bindings (resolve_in column) found =
  match found, candidates bindings (mk_column_ref None column) with
  | _, [] => Ok found
  | None, [ref] => Ok (Some ref)
  | _, _ => Throw (ResolutionException (ambiguous_message column))
  end.
Proof.
  revert found. induction bindings as [|b bs IH]; intros found Hok; [by destruct found|].
  destruct (Hok b) as [Hm Hord]; [by constructor|]. rewrite candidates_cons. unfold candidate. cbn [for_each qualifies table_qualifier column_name].
  assert (resolve_in column b found = match named_column (binding_table b) column, found with
    | None, _ => Ok found
    | Some _, Some _ => Throw (ResolutionException (ambiguous_message column))
    | Some c, None => Ok (Some (bound_column b c)) end) as ->.
  { unfold resolve_in. rewrite (FindColumn_spec _ _ Hm Hord). fold (named_column (binding_table b) column).
    by destruct (named_column (binding_table b) column), found. }
  assert (forall b', b' ∈ bs -> table_ok (binding_table b')) as Hok' by (intros b' Hb'; apply Hok; by constructor).
  destruct (named_column (binding_table b) column) as [c|], found as [r|]; try done;
    cbn [mbind result_bind fmap option_fmap option_map]; rewrite IH by done; by destruct (candidates bs _).
Qed.

(** What [Resolve] returns: the only candidate. *)
Lemma Resolve_spec scope column_ref :
  scope_wf scope ->
  match candidates scope column_ref with
  | [ref] => Resolve scope column_ref = Ok ref /\
      scope_type scope (ref_table_id ref) (ref_ordinal ref) = Some (ref_type ref)
  | [] => exists what, Resolve scope column_ref = Throw (ResolutionException what)
  | _ => table_qualifier column_ref = None /\
      Resolve scope column_ref = Throw (ResolutionException (ambiguous_message (column_name column_ref)))
  end.
Proof.
  intros Hwf. assert (forall b, b ∈ scope -> table_ok (binding_table b)) as Hok.
  { intros b [i Hi]%list_elem_of_lookup. apply (sw_bindings _ Hwf i b Hi). }
  assert (forall ref, candidates scope column_ref = [ref] -> scope_type scope (ref_table_id ref) (ref_ordinal ref) = Some (ref_type ref)) as Hty.
  { intros ref Hc. assert (ref ∈ candidates scope column_ref) as Hin by (rewrite Hc; by constructor).
    apply list_elem_of_omap in Hin as (b & [i Hi]%list_elem_of_lookup & Hb). by apply (candidate_typed scope column_ref i b ref Hwf Hi Hb). }
  destruct column_ref as [[q|] column]; unfold Resolve; cbn [table_qualifier column_name] in *.
  - pose proof (resolve_qualified_spec scope q column Hok (sw_names _ Hwf)) as Hq.
    destruct (candidates scope _) as [|ref [|? ?]]; [done|by split; [|apply Hty]|done].
  - unfold resolve_unqualified. rewrite (resolve_unqualified_loop scope column None Hok).
    destruct (candidates scope _) as [|ref [|? ?]]; simpl; [by eexists|by split; [|apply Hty]|done].
Qed.

(** C23. [Resolve] gives a column reference its meaning: exactly when one column of the FROM
    clause can be meant, it returns that column, with its type in its table; it throws
    a [ResolutionException] when there is none or, for an unqualified name, several. *)
Theorem Resolve_correct scope column_ref :
  scope_wf scope ->
  match candidates scope column_ref with
  | [ref] => Resolve scope column_ref = Ok ref /\
      scope_type scope (ref_table_id ref) (ref_ordinal ref) = Some (ref_type ref)
  | [] => exists what, Resolve scope column_ref = Throw (ResolutionException what)
  | _ => table_qualifier column_ref = None /\
      Resolve scope column_ref = Throw (ResolutionException (ambiguous_message (column_name column_ref)))
  end.
Proof. apply Resolve_spec. Qed.

(** Registering a table adds a binding with the next number, unless the table is unknown or
    its name is taken. *)
Lemma RegisterTable_spec {F} (catalog : Catalog F) table_name alias scope :
  scope_wf scope -> (forall t, GetTable catalog table_name = Some t -> table_ok t) -> Z.of_nat (length scope) < 2 ^ 32 ->
  match RegisterTable table_name alias catalog scope with
  | (Ok id, scope') => exists t, GetTable catalog table_name = Some t /\ id = Z.of_nat (length scope) /\
      scope' = scope ++ [mk_binding id (default table_name alias) t] /\ scope_wf scope'
  | (Throw (ResolutionException _), scope') => scope' = scope
  | _ => False
  end.
Proof.
  intros Hwf Hok Hlen. unfold RegisterTable. destruct (GetTable catalog table_name) as [t|] eqn:Ht; [|done].
  set (n := default table_name alias). unfold mbind at 1, io_bind at 1, io_get. cbn beta iota.
  assert (forall bs, for_each bs (fun existing _ => reject_duplicate n existing) tt scope =
      (Throw (ResolutionException (duplicate_message n)), scope) \/
    for_each bs (fun existing _ => reject_duplicate n existing) tt scope = (Ok tt, scope) /\ n ∉ map binding_name bs) as Hloop.
  { induction bs as [|b bs IH]; [right; split; [done|apply not_elem_of_nil]|]. cbn [for_each].
    unfold mbind, io_bind, reject_duplicate at 1 3. destruct (String.eqb_spec (binding_name b) n) as [|Hne]; [by left|]. simpl.
    destruct IH as [IH|[IH Hnin]]; [left; exact IH|right]. split; [exact IH|].
    intros [Heq|Hin]%elem_of_cons; [by symmetry in Heq|done]. }
  unfold mbind at 1, io_bind at 1. destruct (Hloop scope) as [->|[-> Hnin]]; [done|].
  unfold mbind, io_bind, io_put, mret, io_ret. rewrite u32_id by (unfold is_u32; lia).
  exists t. split_and!; [done..|]. split.
  - intros i b Hb. apply lookup_app_Some in Hb as [Hb|[Hge Hb]]; [by apply (sw_bindings _ Hwf)|].
    apply list_lookup_singleton_Some in Hb as [Hi <-]. simpl. split; [lia|by apply Hok].
  - rewrite map_app. apply NoDup_app. split_and!; [apply (sw_names _ Hwf)| |apply NoDup_singleton].
    intros x Hx ->%list_elem_of_singleton. done.
Qed.

(** ** A concrete scope *)

Definition t_scope : ResolutionScope := [mk_binding 0 "t" (new_table 0 "t" [id_column])].

Lemma t_scope_wf : scope_wf t_scope.
Proof.
  split; [|apply NoDup_singleton]. intros i b [-> <-]%list_lookup_singleton_Some. split; [done|]. split; [done|].
  by intros j c [-> <-]%list_lookup_singleton_Some.
Qed.

Lemma Resolve_correct_witness :
  Resolve t_scope (mk_column_ref (Some "t"%string) "id") = Ok (mk_ref 0 0 kInteger) /\
  scope_type t_scope 0 0 = Some kInteger.
Proof. exact (Resolve_correct t_scope (mk_column_ref (Some "t"%string) "id") t_scope_wf). Defined.

(** A table of two INTEGER columns. *)
Definition pair_columns : list ColumnDef := [mk_column "a" kInteger 0; mk_column "b" kInteger 1].
Definition pair_catalog : Catalog mem_file := snd (CreateTable "p" pair_columns empty_catalog).
Definition pair_table : TableObject := new_table 0 "p" pair_columns.

Lemma pair_catalog_ok : catalog_reachable pair_catalog.
Proof. destruct empty_catalog_ok as [Hr Hok]. by apply (reach_create empty_catalog "p" pair_columns 0 pair_catalog Hr Hok); [..|vm_compute]. Qed.

Lemma pair_table_ok : table_ok pair_table.
Proof. split; [done|]. intros [|[|i]] c Hc; by simplify_eq/=. Qed.
