(* ===== verification/Coercion.v ===== *)
(** Model of [src/binder/type_coercion.cpp]. *)

From S2P Require Import Prelude Scalar Chunk Expr Ast.

Definition IsComparisonOperator (op : BinaryOperator) : bool :=
  match op with
  | kEqual | kNotEqual | kLessThan | kLessThanOrEqual | kGreaterThan | kGreaterThanOrEqual => true
  | _ => false
  end.

Definition IsLogicalOperator (op : BinaryOperator) : bool := bool_decide (op = kAnd) || bool_decide (op = kOr).

Definition RequiresFloatPromotion (l r : ExpressionType) : bool :=
  bool_decide (l = ExprInteger /\ r = ExprFloat) || bool_decide (l = ExprFloat /\ r = ExprInteger).

Definition ResultTypeForBinaryOp (op : BinaryOperator) (l r : ExpressionType) : result ExpressionType :=
  if IsLogicalOperator op then
    if negb (bool_decide (l = ExprBoolean)) || negb (bool_decide (r = ExprBoolean))
    then Throw (TypeCoercionException "AND/OR require boolean operands")
    else mret ExprBoolean
  else
    let either_is_varchar := bool_decide (l = ExprVarchar) || bool_decide (r = ExprVarchar) in
    let both_are_varchar := bool_decide (l = ExprVarchar) && bool_decide (r = ExprVarchar) in
    if either_is_varchar && negb both_are_varchar
    then Throw (TypeCoercionException "Cannot mix VARCHAR with a numeric type")
    else if IsComparisonOperator op then mret ExprBoolean
    else if both_are_varchar then Throw (TypeCoercionException "VARCHAR does not support arithmetic operators")
    else if bool_decide (l = ExprFloat) || bool_decide (r = ExprFloat) then mret ExprFloat
    else mret ExprInteger.

Definition ResultTypeForUnaryOp (op : UnaryOperator) (operand : ExpressionType) : result ExpressionType :=
  if bool_decide (operand = ExprBoolean) then mret ExprBoolean
  else Throw (TypeCoercionException "NOT requires a boolean operand").

Definition BindConst (raw_const : Literal) : result BoundExpression :=
  match raw_const with
  | NullLiteral => Throw (TypeCoercionException
      "NULL literal binding is not yet supported (see this module's header comment)")
  | Int64Literal value =>
      if (value <? - 2 ^ 31) || (2 ^ 31 - 1 <? value)
      then Throw (TypeCoercionException "Integer literal out of range for INTEGER (int32)")
      else mret (MakeIntConst (i32 value))
  | DoubleLiteral value => mret (MakeFloatConst (f32_of_f64 value))
  | StringLiteral value => mret (MakeStringConst value)
  end.

(** The operators the binder and the evaluator take for logical and arithmetic agree. *)
Lemma logical_agrees op : IsLogicalOperator op = Expr.IsLogicalOperator op.
Proof. by destruct op. Qed.

Lemma operator_cases op : IsComparisonOperator op = negb (IsLogicalOperator op) && negb (IsArithmeticOperator op).
Proof. by destruct op. Qed.
