(* ===== verification/DisjointSet.v ===== *)
(** Model of the [DisjointSet] of [src/binder/binder.cpp]: a forest of parent indices with
    path halving and no ranks. It implements a partition, given by the representative
    of each element: [Find] terminates, returns the representative and does not change
    the partition; [Union] merges two classes. *)

From S2P Require Import Prelude.

Definition DisjointSet : Type := list nat.

Definition new_disjoint_set (n : nat) : DisjointSet := seq 0 n.

(** The [while] loop of [Find]. *)
Fixpoint find_loop (fuel : nat) (x : nat) (parent : DisjointSet) : result (nat * DisjointSet) :=
  match fuel with
  | O => OutOfFuel
  | S fuel' =>
      p ← vec_get parent x;
      if (p =? x)%nat then mret (x, parent)
      else
        grand ← vec_get parent p;
        parent ← vec_set parent x grand;
        x ← vec_get parent x;
        find_loop fuel' x parent
  end.

(** One unit of fuel per element, and one for the root. *)
Definition Find (x : nat) (parent : DisjointSet) : result (nat * DisjointSet) := find_loop (S (length parent)) x parent.

(** [parent_[Find(a)] = Find(b)]: the right side is evaluated first. *)
Definition Union (a b : nat) (parent : DisjointSet) : result DisjointSet :=
  '(root_b, parent) ← Find b parent;
  '(root_a, parent) ← Find a parent;
  vec_set parent root_a root_b.

(** ** Partitions *)

Section Forest.

Definition roots (n : nat) (rep : nat -> nat) : nat := length (filter (fun x => rep x = x) (seq 0 n)).

(** [parent] is a forest with representatives [rep] and depths at most [depth]. *)
Record forest (parent : DisjointSet) (rep depth : nat -> nat) : Prop := {
  fo_range : forall x p, parent !! x = Some p -> (p < length parent)%nat;
  fo_rep : forall x p, parent !! x = Some p -> rep p = rep x;
  fo_root : forall x p, parent !! x = Some p -> p = x <-> rep x = x;
  fo_depth : forall x p, parent !! x = Some p -> p <> x -> (depth p < depth x)%nat;
  fo_zero : forall x, rep x = x -> depth x = 0%nat;
  fo_bound : forall x, (x < length parent)%nat -> (depth x + roots (length parent) rep <= length parent)%nat;
}.

Definition partition (parent : DisjointSet) (rep : nat -> nat) : Prop := exists depth, forest parent rep depth.

Lemma roots_id n : roots n id = n.
Proof. unfold roots. rewrite filter_all; [apply length_seq|done]. Qed.

Lemma new_disjoint_set_partition n : partition (new_disjoint_set n) id.
Proof.
  exists (fun _ => 0%nat). unfold new_disjoint_set.
  split; try (intros x p [-> Hp]%lookup_seq; rewrite ?length_seq; simpl; unfold id; lia); [done|].
  intros x. rewrite length_seq, roots_id. lia.
Qed.

(** A representative is in range and is its own representative. *)
Lemma forest_rep parent rep depth x :
  forest parent rep depth -> (x < length parent)%nat -> (rep x < length parent)%nat /\ rep (rep x) = rep x.
Proof.
  intros Hf. remember (depth x) as d eqn:Hd. revert x Hd. induction d as [d IH] using lt_wf_ind. intros x -> Hx.
  destruct (lookup_lt_is_Some_2 parent x Hx) as [p Hp]. pose proof (fo_range _ _ _ Hf x p Hp).
  destruct (decide (p = x)) as [->|Hne].
  - pose proof (proj1 (fo_root _ _ _ Hf x x Hp) eq_refl) as Hr. by rewrite !Hr.
  - destruct (IH (depth p) (fo_depth _ _ _ Hf x p Hp Hne) p eq_refl) as [Hl Hr]; [done|].
    by rewrite (fo_rep _ _ _ Hf x p Hp) in *.
Qed.

(** Pointing an element to its grandparent. *)
Lemma halve_forest parent rep depth x p grand :
  forest parent rep depth -> parent !! x = Some p -> p <> x -> parent !! p = Some grand ->
  forest (<[x := grand]> parent) rep depth.
Proof. unfold DisjointSet in *.
  intros Hf Hx Hne Hp. pose proof (fo_rep _ _ _ Hf x p Hx) as Hr1. pose proof (fo_rep _ _ _ Hf p grand Hp) as Hr2.
  pose proof (fo_depth _ _ _ Hf x p Hx Hne) as Hd1. pose proof (lookup_lt_Some _ _ _ Hx) as Hlt.
  assert (depth grand < depth x)%nat as Hd.
  { destruct (decide (grand = p)) as [->|Hg]; [done|]. pose proof (fo_depth _ _ _ Hf p grand Hp Hg). lia. }
  split.
  - intros y q Hy. rewrite length_insert. apply list_lookup_insert_Some in Hy as [(<- & <- & _)|[_ Hy]]; [|by apply (fo_range _ _ _ Hf y)].
    by apply (fo_range _ _ _ Hf p).
  - intros y q Hy. apply list_lookup_insert_Some in Hy as [(<- & <- & _)|[_ Hy]]; [congruence|by apply (fo_rep _ _ _ Hf)].
  - intros y q Hy. apply list_lookup_insert_Some in Hy as [(<- & <- & _)|[_ Hy]]; [|by apply (fo_root _ _ _ Hf)].
    split; [intros ->; lia|]. intros Hr. by apply (fo_root _ _ _ Hf x p Hx) in Hr.
  - intros y q Hy Hqy. apply list_lookup_insert_Some in Hy as [(<- & <- & _)|[_ Hy]]; [done|by apply (fo_depth _ _ _ Hf)].
  - apply (fo_zero _ _ _ Hf).
  - intros y. rewrite length_insert. apply (fo_bound _ _ _ Hf).
Qed.

Lemma find_loop_spec fuel x parent rep depth :
  forest parent rep depth -> (x < length parent)%nat -> (depth x < fuel)%nat ->
  exists parent', find_loop fuel x parent = Ok (rep x, parent') /\ length parent' = length parent /\ forest parent' rep depth.
Proof. unfold DisjointSet in *.
  revert x parent. induction fuel as [|fuel IH]; intros x parent Hf Hx Hd; [lia|]. simpl.
  destruct (lookup_lt_is_Some_2 parent x Hx) as [p Hp]. rewrite (proj2 (vec_get_Ok _ _ _) Hp), bind_Ok.
  destruct (Nat.eqb_spec p x) as [->|Hne].
  - exists parent. by rewrite (proj1 (fo_root _ _ _ Hf x x Hp) eq_refl).
  - pose proof (fo_range _ _ _ Hf x p Hp) as Hpl. destruct (lookup_lt_is_Some_2 parent p Hpl) as [g Hg].
    rewrite (proj2 (vec_get_Ok _ _ _) Hg), bind_Ok, vec_set_lt, bind_Ok by done.
    rewrite (proj2 (vec_get_Ok (<[x := g]> parent) x g)), bind_Ok by by apply list_lookup_insert_eq.
    pose proof (halve_forest _ _ _ _ _ _ Hf Hp Hne Hg) as Hf'.
    pose proof (fo_depth _ _ _ Hf x p Hp Hne) as Hd1.
    assert (depth g <= depth p)%nat as Hd2.
    { destruct (decide (g = p)) as [->|Hgp]; [done|]. pose proof (fo_depth _ _ _ Hf p g Hg Hgp). lia. }
    destruct (IH g (<[x := g]> parent) Hf') as (parent' & HF & Hl & Hf''); [|lia|].
    { rewrite length_insert. by apply (fo_range _ _ _ Hf p). }
    exists parent'. rewrite length_insert in Hl. split_and!; [|done|done].
    by rewrite HF, (fo_rep _ _ _ Hf p g Hg), (fo_rep _ _ _ Hf x p Hp).
Qed.

Lemma Find_spec x parent rep :
  partition parent rep -> (x < length parent)%nat ->
  exists parent', Find x parent = Ok (rep x, parent') /\ length parent' = length parent /\ partition parent' rep.
Proof.
  intros [depth Hf] Hx. pose proof (fo_bound _ _ _ Hf x Hx).
  destruct (find_loop_spec (S (length parent)) x parent rep depth Hf Hx) as (parent' & HF & Hl & Hf'); [lia|].
  exists parent'. split_and!; [done|done|by exists depth].
Qed.

(** ** Merging two classes *)

Definition merge (rep : nat -> nat) (a b : nat) : nat -> nat := fun x => if decide (rep x = rep a) then rep b else rep x.

Lemma merge_same rep a b : rep a = rep b -> forall x, merge rep a b x = rep x.
Proof. intros Hab x. unfold merge. case_decide; congruence. Qed.

(** Merging distinct classes leaves one root fewer. *)
Lemma roots_merge n rep a b :
  (forall x, (x < n)%nat -> (rep x < n)%nat /\ rep (rep x) = rep x) -> (a < n)%nat -> (b < n)%nat -> rep a <> rep b ->
  S (roots n (merge rep a b)) = roots n rep.
Proof.
  intros Hrep Ha Hb Hne. destruct (Hrep a Ha) as [Hal Har]. destruct (Hrep b Hb) as [Hbl Hbr]. unfold roots.
  assert (rep a ∈ filter (fun x => rep x = x) (seq 0 n)) as Hin by (apply list_elem_of_filter; split; [done|apply elem_of_seq; lia]).
  apply list_elem_of_split in Hin as (l1 & l2 & Hl). rewrite Hl, length_app. simpl.
  assert (NoDup (l1 ++ rep a :: l2)) as Hnd by (rewrite <- Hl; apply NoDup_filter, NoDup_seq).
  apply NoDup_app in Hnd as (_ & H1 & [H2 _]%NoDup_cons).
  assert (filter (fun x => merge rep a b x = x) (seq 0 n) = filter (fun x => x <> rep a) (filter (fun x => rep x = x) (seq 0 n))) as ->.
  { rewrite list_filter_filter. apply filter_ext_in. intros x Hx. unfold merge. case_decide as Hd; [|].
    - split; [|intros [Hxr Hrx]; congruence]. intros <-. exfalso. congruence.
    - split; [|by intros [? ?]]. intros Hr. split; [|done]. intros ->. congruence. }
  rewrite Hl, filter_app, filter_cons_False by tauto. rewrite filter_all, filter_all; [rewrite length_app; lia| |].
  - intros x Hx ->. done.
  - intros x Hx ->. apply (H1 (rep a) Hx). by constructor.
Qed.

Lemma link_forest parent rep depth a b :
  forest parent rep depth -> (a < length parent)%nat -> (b < length parent)%nat -> rep a <> rep b ->
  forest (<[rep a := rep b]> parent) (merge rep a b) (fun x => if decide (rep x = rep a) then S (depth x) else depth x).
Proof. unfold DisjointSet in *.
  intros Hf Ha Hb Hne. pose proof (fun x => forest_rep parent rep depth x Hf) as Hrep.
  destruct (Hrep a Ha) as [Hal Har]. destruct (Hrep b Hb) as [Hbl Hbr].
  split.
  - intros x p Hx. rewrite length_insert. apply list_lookup_insert_Some in Hx as [(_ & <- & _)|[_ Hx]]; [done|by apply (fo_range _ _ _ Hf x)].
  - intros x p Hx. unfold merge. apply list_lookup_insert_Some in Hx as [(<- & <- & _)|[Hne' Hx]].
    + by rewrite Har, Hbr, (decide_False (P := rep b = rep a)), (decide_True (P := rep a = rep a)) by congruence.
    + by rewrite (fo_rep _ _ _ Hf x p Hx).
  - intros x p Hx. unfold merge. apply list_lookup_insert_Some in Hx as [(<- & <- & _)|[Hne' Hx]].
    + rewrite decide_True by congruence. done.
    + pose proof (fo_root _ _ _ Hf x p Hx) as Hroot. case_decide as Hd; [|done]. rewrite Hd in Hroot.
      split; [intros ->; exfalso; apply Hne'; by apply Hroot|]. intros Hbx. exfalso. apply Hne. congruence.
  - intros x p Hx Hpx. apply list_lookup_insert_Some in Hx as [(<- & <- & _)|[Hne' Hx]].
    + rewrite Hbr, Har, (decide_False (P := rep b = rep a)), (decide_True (P := rep a = rep a)) by congruence.
      rewrite (fo_zero _ _ _ Hf (rep b) Hbr). lia.
    + rewrite (fo_rep _ _ _ Hf x p Hx). pose proof (fo_depth _ _ _ Hf x p Hx Hpx). case_decide; lia.
  - intros x. unfold merge. case_decide as Hd; [intros Hx; exfalso; apply Hne; congruence|]. apply (fo_zero _ _ _ Hf).
  - intros x. rewrite length_insert. intros Hx. pose proof (roots_merge (length parent) rep a b Hrep Ha Hb Hne).
    pose proof (fo_bound _ _ _ Hf x Hx). case_decide; lia.
Qed.

Lemma partition_ext parent rep rep' : (forall x, rep x = rep' x) -> partition parent rep -> partition parent rep'.
Proof.
  intros He [depth Hf]. exists depth. split.
  - apply (fo_range _ _ _ Hf).
  - intros x p Hx. rewrite <- !He. by apply (fo_rep _ _ _ Hf).
  - intros x p Hx. rewrite <- He. by apply (fo_root _ _ _ Hf).
  - apply (fo_depth _ _ _ Hf).
  - intros x. rewrite <- He. apply (fo_zero _ _ _ Hf).
  - intros x Hx. unfold roots. erewrite filter_ext_in; [by apply (fo_bound _ _ _ Hf)|]. intros y _. simpl. by rewrite He.
Qed.

Lemma Union_spec a b parent rep :
  partition parent rep -> (a < length parent)%nat -> (b < length parent)%nat ->
  exists parent', Union a b parent = Ok parent' /\ length parent' = length parent /\ partition parent' (merge rep a b).
Proof.
  intros Hp Ha Hb. unfold Union.
  destruct (Find_spec b parent rep Hp Hb) as (p1 & -> & Hl1 & Hp1). rewrite bind_Ok.
  destruct (Find_spec a p1 rep Hp1) as (p2 & -> & Hl2 & [depth Hf]); [lia|]. rewrite bind_Ok.
  pose proof (forest_rep p2 rep depth a Hf ltac:(lia)) as [Hal Har].
  pose proof (forest_rep p2 rep depth b Hf ltac:(lia)) as [Hbl Hbr].
  rewrite vec_set_lt by done. eexists. split; [done|]. split; [rewrite length_insert; lia|].
  destruct (decide (rep a = rep b)) as [Hab|Hne].
  - apply (partition_ext _ rep); [intros x; by rewrite merge_same|]. exists depth. unfold DisjointSet in *.
    destruct (lookup_lt_is_Some_2 p2 (rep a) Hal) as [r Hr].
    assert (r = rep a) as -> by by apply (fo_root _ _ _ Hf (rep a) r Hr). rewrite <- Hab. by rewrite list_insert_id.
  - eexists. apply link_forest; [exact Hf|lia|lia|done].
Qed.

End Forest.

(** ** Sequences of operations *)

(** The classes after some unions. *)
Definition unions (ops : list (nat * nat)) : nat -> nat := foldl (fun rep ab => merge rep ab.1 ab.2) id ops.

Definition union_all (ops : list (nat * nat)) (n : nat) : result DisjointSet :=
  for_each ops (fun ab parent => Union ab.1 ab.2 parent) (new_disjoint_set n).

Lemma union_all_spec ops n :
  Forall (fun ab => (ab.1 < n)%nat /\ (ab.2 < n)%nat) ops ->
  exists parent, union_all ops n = Ok parent /\ length parent = n /\ partition parent (unions ops).
Proof.
  intros Hops. unfold union_all.
  apply (for_each_inv (fun dn parent => length parent = n /\ partition parent (unions dn))).
  - intros dn [a b] todo parent Hsplit [Hl Hp]. rewrite Hsplit in Hops.
    apply Forall_app in Hops as [_ Hops]. apply Forall_cons in Hops as [[Ha Hb] _]. simpl in *.
    destruct (Union_spec a b parent (unions dn) Hp) as (parent' & -> & Hl' & Hp'); [lia..|].
    exists parent'. split; [done|]. split; [lia|]. unfold unions. by rewrite foldl_snoc.
  - split; [apply length_seq|apply new_disjoint_set_partition].
Qed.

(** Whether [x] and [y] are connected by the given pairs. *)
Inductive connected (ops : list (nat * nat)) : nat -> nat -> Prop :=
  | conn_refl x : connected ops x x
  | conn_step x y z : connected ops x y -> (y, z) ∈ ops \/ (z, y) ∈ ops -> connected ops x z.

Lemma connected_trans ops x y z : connected ops x y -> connected ops y z -> connected ops x z.
Proof. intros Hxy Hyz. induction Hyz as [|y w v _ IH Hs]; [done|]. eapply conn_step; [by apply IH|done]. Qed.

Lemma connected_sym ops x y : connected ops x y -> connected ops y x.
Proof.
  induction 1 as [|x y z _ IH Hs]; [constructor|]. eapply connected_trans; [|exact IH].
  eapply conn_step; [constructor|]. tauto.
Qed.

Lemma connected_mono ops ops' x y : (forall e, e ∈ ops -> e ∈ ops') -> connected ops x y -> connected ops' x y.
Proof. intros Hs. induction 1 as [|x y z _ IH [H|H]]; [constructor| |]; eapply conn_step; eauto. Qed.

Lemma unions_connected ops x y : unions ops x = unions ops y <-> connected ops x y.
Proof.
  assert (forall x, connected ops x (unions ops x)) as Hto.
  { induction ops as [|[a b] ops IH] using rev_ind; intros z; [constructor|].
    assert (forall x y, connected ops x y -> connected (ops ++ [(a, b)]) x y) as Hm
      by (intros x' y'; apply connected_mono; intros e He; apply elem_of_app; by left).
    unfold unions. rewrite foldl_snoc. fold (unions ops). unfold merge. simpl. case_decide as Hd; [|by apply Hm].
    eapply connected_trans; [apply Hm, IH|]. rewrite Hd. eapply connected_trans; [apply connected_sym, Hm, IH|].
    eapply connected_trans; [|apply Hm, IH]. eapply conn_step; [constructor|]. left. apply elem_of_app. right. by constructor. }
  split.
  - intros He. eapply connected_trans; [apply Hto|]. rewrite He. apply connected_sym, Hto.
  - assert (forall a b, (a, b) ∈ ops -> unions ops a = unions ops b) as Hedge.
    { clear Hto. induction ops as [|[c d] ops IH] using rev_ind; intros a b Hin; [by apply not_elem_of_nil in Hin|].
      unfold unions. rewrite foldl_snoc. fold (unions ops). unfold merge. simpl.
      apply elem_of_app in Hin as [Hin|Hin%list_elem_of_singleton]; [by rewrite (IH a b Hin)|].
      injection Hin as -> ->. rewrite decide_True by done. by case_decide. }
    induction 1 as [|x y z _ IH [Hs|Hs]]; [done| |]; rewrite IH; [|symmetry]; by apply Hedge.
Qed.

(** C25. [DisjointSet]: after any unions of elements in range, every [Find] terminates, and two
    elements have the same representative exactly when the unions connect them; a
    [Find] halves paths but changes neither representatives nor later results. *)
Theorem disjoint_set_partition ops n x y :
  Forall (fun ab => (ab.1 < n)%nat /\ (ab.2 < n)%nat) ops -> (x < n)%nat -> (y < n)%nat ->
  exists parent root_x parent1 root_y parent2, union_all ops n = Ok parent /\
    Find x parent = Ok (root_x, parent1) /\ Find y parent1 = Ok (root_y, parent2) /\
    (root_x = root_y <-> connected ops x y).
Proof.
  intros Hops Hx Hy. destruct (union_all_spec ops n Hops) as (parent & HU & Hl & Hp).
  destruct (Find_spec x parent _ Hp) as (p1 & HF1 & Hl1 & Hp1); [lia|].
  destruct (Find_spec y p1 _ Hp1) as (p2 & HF2 & _ & _); [lia|].
  exists parent, (unions ops x), p1, (unions ops y), p2. split_and!; [done..|]. apply unions_connected.
Qed.

Lemma disjoint_set_partition_witness :
  exists parent root_x parent1 root_y parent2, union_all [(0, 1); (2, 3); (1, 3)]%nat 5 = Ok parent /\
    Find 0 parent = Ok (root_x, parent1) /\ Find 2 parent1 = Ok (root_y, parent2) /\
    (root_x = root_y <-> connected [(0, 1); (2, 3); (1, 3)]%nat 0 2).
Proof. apply (disjoint_set_partition [(0, 1); (2, 3); (1, 3)]%nat 5 0 2); [repeat constructor; simpl; lia|lia|lia]. Defined.
