(* ===== verification/Binder.v ===== *)
(** Model of [src/binder/binder.cpp]: statements bound to logical plans, rows of literals
    or a new table. Exceptions of name resolution and typing become [BindException]s.
    The catalog is a parameter of the SELECT and INSERT paths, which only look tables
    up, and the state of the CREATE TABLE path. *)

From S2P Require Import Prelude Scalar Disk Schema Catalog Chunk Expr Ast Plan Resolution Coercion DisjointSet.

Fixpoint FlattenAnd (expr : RawExpression) (out : list RawExpression) : list RawExpression :=
  match expr with
  | RawBinaryOp kAnd l r => FlattenAnd r (FlattenAnd l out)
  | _ => out ++ [expr]
  end.

Definition column_ref_expr (ref : ColumnRef) : BoundExpression :=
  MakeColumnRef (ref_table_id ref) (ref_ordinal ref) (ref_type ref).

Fixpoint BindScalarExpression (raw : RawExpression) (scope : ResolutionScope) : result BoundExpression :=
  match raw with
  | RawColumnRef node => ref ← Resolve scope node; mret (column_ref_expr ref)
  | RawConst value => BindConst value
  | RawBinaryOp op raw_left raw_right =>
      l ← BindScalarExpression raw_left scope;
      r ← BindScalarExpression raw_right scope;
      result_type ← ResultTypeForBinaryOp op (ResultType l) (ResultType r);
      if IsLogicalOperator op then mret (MakeBooleanOp op l r) else mret (MakeArithmeticOp op l r result_type)
  | RawUnaryOp op raw_operand =>
      operand ← BindScalarExpression raw_operand scope;
      _ ← ResultTypeForUnaryOp op (ResultType operand);
      mret (MakeNot operand)
  | RawFunctionCall _ _ _ => Throw (BindException
      "Aggregate functions may only appear as a bare SELECT-list item, not nested inside a larger expression")
  end.

Definition BindPredicate (raw : RawExpression) (scope : ResolutionScope) : result BoundExpression :=
  bound ← BindScalarExpression raw scope;
  if bool_decide (ResultType bound = ExprBoolean) then mret bound
  else Throw (BindException "Expected a boolean expression here").

Fixpoint CollectColumnRefs (expr : BoundExpression) (out : list ColumnRef) : list ColumnRef :=
  match expr with
  | BoundColumnRef table_id ordinal type => out ++ [mk_ref table_id ordinal type]
  | ConstNode _ => out
  | BinaryOpNode _ l r _ => CollectColumnRefs r (CollectColumnRefs l out)
  | UnaryOpNode _ operand => CollectColumnRefs operand out
  end.

Definition same_column (a b : ColumnRef) : bool :=
  (ref_table_id a =? ref_table_id b) && (ref_ordinal a =? ref_ordinal b).

Definition ContainsColumn (haystack : list ColumnRef) (needle : ColumnRef) : bool :=
  existsb (fun c => same_column c needle) haystack.

Definition ResultTypeForAggregate (kind : AggregateFunctionKind) (argument_type : option ExpressionType)
    : result ExpressionType :=
  match kind with
  | kCountStar | kCount => mret ExprInteger
  | kAvg => mret ExprFloat
  | kSum | kMin | kMax =>
      match argument_type with
      | None => Throw (BindException "Aggregate function requires an argument type")
      | Some t => mret t
      end
  end.

(** [*argument_type] of an empty optional is undefined. *)
Definition AggregateOutputTypeId (kind : AggregateFunctionKind) (argument_type : option TypeId) : result TypeId :=
  match kind with
  | kCountStar | kCount => mret kInteger
  | kAvg => mret kFloat
  | kSum | kMin | kMax => match argument_type with None => Undefined | Some t => mret t end
  end.

(** [::tolower] in the C locale. *)
Definition tolower (c : ascii) : ascii :=
  let n := nat_of_ascii c in if ((65 <=? n) && (n <=? 90))%nat then ascii_of_nat (n + 32) else c.
Fixpoint lower (s : string) : string :=
  match s with EmptyString => EmptyString | String c s => String (tolower c) (lower s) end.

(** The kinds by name, with the types SUM and AVG refuse. *)
Definition aggregate_kind (name : string) (type : TypeId) : result AggregateFunctionKind :=
  if (name =? "count")%string then mret kCount
  else if (name =? "sum")%string then
    (if bool_decide (type = kVarchar) then Throw (BindException "SUM does not support VARCHAR") else mret kSum)
  else if (name =? "avg")%string then
    (if bool_decide (type = kVarchar) then Throw (BindException "AVG does not support VARCHAR") else mret kAvg)
  else if (name =? "min")%string then mret kMin
  else if (name =? "max")%string then mret kMax
  else Throw (BindException ("Unsupported function: " ++ name)).

Definition BindAggregateCall (name : string) (args : list RawExpression) (is_star_arg : bool) (scope : ResolutionScope)
    : result AggregateCall :=
  let name := lower name in
  if (name =? "count")%string && is_star_arg then mret (mk_call kCountStar None)
  else match args with
       | [RawColumnRef node] =>
           ref ← Resolve scope node;
           kind ← aggregate_kind name (ref_type ref);
           mret (mk_call kind (Some ref))
       | [_] => Throw (BindException "Aggregate function arguments must be a plain column reference")
       | _ => Throw (BindException ("Aggregate function '" ++ name ++ "' expects exactly one argument"))
       end.

Definition MapRawTypeName (raw_type_name : string) : result TypeId :=
  if (raw_type_name =? "int4")%string then mret kInteger
  else if (raw_type_name =? "float4")%string then mret kFloat
  else if ((raw_type_name =? "varchar") || (raw_type_name =? "text"))%string then mret kVarchar
  else Throw (BindException ("Unsupported column type: " ++ raw_type_name ++
    " (GistDB supports only INTEGER/int4, FLOAT/float4, VARCHAR/text)")).

(** ** The FROM clause *)

Record FromBinding : Type := mk_from { from_plan : LogicalPlanNode; binding_ids : list Z }.

(** An equality between two plain column references. *)
Definition column_equality (raw : RawExpression) : option (ColumnRefNode * ColumnRefNode) :=
  match raw with
  | RawBinaryOp kEqual (RawColumnRef lhs) (RawColumnRef rhs) => Some (lhs, rhs)
  | _ => None
  end.

Definition join_condition_message : string :=
  "JOIN condition must be an equality (or AND of equalities) between plain column references (GistDB only supports a Hash Join operator)".

Definition join_conditions (on_condition : option RawExpression) (scope : ResolutionScope)
    : result (list (ColumnRef * ColumnRef)) :=
  match on_condition with
  | None => mret []
  | Some condition =>
      for_each (FlattenAnd condition []) (fun conjunct equi_conditions =>
        match column_equality conjunct with
        | None => Throw (BindException join_condition_message)
        | Some (lhs, rhs) =>
            l ← Resolve scope lhs;
            r ← Resolve scope rhs;
            mret (equi_conditions ++ [(l, r)])
        end) []
  end.

Definition table_output_columns (table : TableObject) : list OutputColumn :=
  map (fun col => mk_output (name col) (ToExpressionType (type col))) (tbl_columns_ table).

Section Catalog.
Context {F : Type} (catalog : Catalog F).

Fixpoint BindTableRef (ref : TableRefNode) : io ResolutionScope FromBinding :=
  match ref with
  | BaseTableRef table_name alias =>
      id ← RegisterTable table_name alias catalog;
      scope ← io_get;
      binding ← io_lift (BindingFor scope id);
      mret (mk_from (MakeLogicalScan id (tbl_id_ (binding_table binding)) (table_output_columns (binding_table binding))) [id])
  | JoinRef (Some raw_left) (Some raw_right) on_condition =>
      l ← BindTableRef raw_left;
      r ← BindTableRef raw_right;
      scope ← io_get;
      equi_conditions ← io_lift (join_conditions on_condition scope);
      mret (mk_from (MakeLogicalJoin (from_plan l) (from_plan r) equi_conditions) (binding_ids l ++ binding_ids r))
  | JoinRef _ _ _ => io_throw (BindException "Malformed JOIN")
  end.

End Catalog.

(** The lambda [part_index_of]. *)
Definition part_index_of (parts : list FromBinding) (id : Z) : result nat :=
  match list_find (fun part => id ∈ binding_ids part) parts with
  | Some (i, _) => mret i
  | None => Throw (BindException "Internal error: binding_id not found in any FROM part")
  end.

(** [connecting_pairs] and [connecting_equalities], one entry for each equality. *)
Record Connection : Type := mk_connection { part_a : nat; part_b : nat; equality : ColumnRef * ColumnRef }.

(** One conjunct of the WHERE clause: an equality across parts, or what remains. *)
Definition classify_conjunct (parts : list FromBinding) (scope : ResolutionScope) (conjunct : RawExpression)
    (st : list RawExpression * list Connection) : result (list RawExpression * list Connection) :=
  let '(remaining, connections) := st in
  match column_equality conjunct with
  | Some (lhs, rhs) =>
      left_ref ← Resolve scope lhs;
      right_ref ← Resolve scope rhs;
      a ← part_index_of parts (ref_table_id left_ref);
      b ← part_index_of parts (ref_table_id right_ref);
      if (a =? b)%nat then mret (remaining ++ [conjunct], connections)
      else mret (remaining, connections ++ [mk_connection a b (left_ref, right_ref)])
  | None => mret (remaining ++ [conjunct], connections)
  end.

(** The condition of the inner loop, for part [i]. *)
Definition connects (c : Connection) (i : nat) (groups : DisjointSet) : result (bool * DisjointSet) :=
  '(root_a, groups) ← Find (part_a c) groups;
  '(root, groups) ← Find 0 groups;
  if (root_a =? root)%nat && (part_b c =? i)%nat then mret (true, groups)
  else
    '(root_b, groups) ← Find (part_b c) groups;
    '(root, groups) ← Find 0 groups;
    mret ((root_b =? root)%nat && (part_a c =? i)%nat, groups).

(** The first connection of part [i] with the parts combined so far. *)
Fixpoint find_connection (connections : list Connection) (i : nat) (groups : DisjointSet)
    : result (option Connection * DisjointSet) :=
  match connections with
  | [] => mret (None, groups)
  | c :: connections' =>
      '(found, groups) ← connects c i groups;
      if found : bool then mret (Some c, groups) else find_connection connections' i groups
  end.

Definition cartesian_message : string := "Cartesian product not allowed: FROM items must be connected by a WHERE-clause".

(** One round of the outer loop. *)
Definition join_part (parts : list FromBinding) (connections : list Connection) (i : nat)
    (st : LogicalPlanNode * DisjointSet) : result (LogicalPlanNode * DisjointSet) :=
  let '(combined, groups) := st in
  part ← vec_get parts i;
  '(found, groups) ← find_connection connections i groups;
  match found with
  | None => Throw (BindException cartesian_message)
  | Some c =>
      groups ← Union i 0 groups;
      mret (MakeLogicalJoin combined (from_plan part) [equality c], groups)
  end.

Definition combine_parts (parts : list FromBinding) (connections : list Connection) : result LogicalPlanNode :=
  first ← vec_get parts 0;
  '(combined, _) ← for_range 1 (length parts - 1) (join_part parts connections)
    (from_plan first, new_disjoint_set (length parts));
  mret combined.

Record FromClauseResult : Type := mk_from_result { result_plan : LogicalPlanNode; remaining_where_conjuncts : list RawExpression }.

Section Select.
Context {F : Type} (catalog : Catalog F).

Definition BindFromClause (items : list TableRefNode) (where_conjuncts : list RawExpression)
    : io ResolutionScope FromClauseResult :=
  match items with
  | [] => io_throw (BindException "FROM clause must reference at least one table")
  | _ =>
      parts ← for_each items (fun item parts => part ← BindTableRef catalog item; mret (parts ++ [part])) [];
      match parts with
      | [part] => mret (mk_from_result (from_plan part) where_conjuncts)
      | _ =>
          scope ← io_get;
          '(remaining, connections) ← io_lift (for_each where_conjuncts (classify_conjunct parts scope) ([], []));
          combined ← io_lift (combine_parts parts connections);
          mret (mk_from_result combined remaining)
      end
  end.

(** ** SELECT *)

(** The predicate of the WHERE conjuncts that are left; [None] is a null pointer. *)
Definition bind_where (conjuncts : list RawExpression) (scope : ResolutionScope) : result (option BoundExpression) :=
  for_each conjuncts (fun conjunct predicate =>
    bound ← BindPredicate conjunct scope;
    mret (Some (match predicate with None => bound | Some p => MakeBooleanOp kAnd p bound end))) None.

(** A select-list item that is a function call, with its position. *)
Record AggregateItem : Type := mk_item { item_index : nat; item_name : string; item_args : list RawExpression; item_star : bool }.

(** [item.expression->node]: a null expression is undefined. *)
Definition item_expression (item : SelectItem) : result RawExpression :=
  match expression item with None => Undefined | Some e => mret e end.

Definition collect_aggregate_items (items : list SelectItem) : result (list AggregateItem) :=
  for_range 0 (length items) (fun i found =>
    item ← vec_get items i;
    if is_wildcard item then mret found
    else
      e ← item_expression item;
      match e with
      | RawFunctionCall name args star => mret (found ++ [mk_item i name args star])
      | _ => mret found
      end) [].

Definition is_aggregate_item (aggregate_items : list AggregateItem) (i : nat) : bool :=
  existsb (fun p => item_index p =? i)%nat aggregate_items.

(** GROUP BY: the columns and their names. *)
Definition bind_group_by (exprs : list RawExpression) (scope : ResolutionScope) : result (list ColumnRef * list string) :=
  for_each exprs (fun e st =>
    match e with
    | RawColumnRef node =>
        ref ← Resolve scope node;
        mret (st.1 ++ [ref], st.2 ++ [column_name node])
    | _ => Throw (BindException "GROUP BY currently only supports plain column references")
    end) ([], []).

Definition bind_aggregates (items : list AggregateItem) (scope : ResolutionScope) (columns : list OutputColumn)
    : result (list AggregateCall * list OutputColumn) :=
  for_each items (fun item st =>
    agg ← BindAggregateCall (item_name item) (item_args item) (item_star item) scope;
    result_type ← ResultTypeForAggregate (function agg) ((fun ref => ToExpressionType (ref_type ref)) <$> argument agg);
    mret (st.1 ++ [agg], st.2 ++ [mk_output (item_name item) result_type])) ([], columns).

(** Every column of an item that is not an aggregate must be a GROUP BY column. *)
Definition check_grouped (items : list SelectItem) (aggregate_items : list AggregateItem) (group_by_cols : list ColumnRef)
    (scope : ResolutionScope) : result unit :=
  for_range 0 (length items) (fun i _ =>
    if is_aggregate_item aggregate_items i then mret tt
    else
      item ← vec_get items i;
      e ← item_expression item;
      bound ← BindScalarExpression e scope;
      for_each (CollectColumnRefs bound []) (fun ref _ =>
        if ContainsColumn group_by_cols ref then mret tt
        else Throw (BindException "Non-aggregated SELECT column must appear in GROUP BY")) tt) tt.

(** The plan of GROUP BY, the aggregates and HAVING. *)
Definition bind_aggregation (select : SelectNode) (aggregate_items : list AggregateItem) (scope : ResolutionScope)
    (plan : LogicalPlanNode) : result (LogicalPlanNode * list ColumnRef * list AggregateCall) :=
  if bool_decide (select_list select = []) || existsb is_wildcard (select_list select)
  then Throw (BindException "SELECT * cannot be combined with GROUP BY or aggregate functions")
  else
    '(group_by_cols, group_by_names) ← bind_group_by (group_by_exprs select) scope;
    let group_columns := zip_with (fun name ref => mk_output name (ToExpressionType (ref_type ref))) group_by_names group_by_cols in
    '(aggregates, output_columns) ← bind_aggregates aggregate_items scope group_columns;
    _ ← check_grouped (select_list select) aggregate_items group_by_cols scope;
    let plan := MakeLogicalAggregate plan group_by_cols aggregates output_columns in
    match having_clause select with
    | None => mret (plan, group_by_cols, aggregates)
    | Some having => predicate ← BindPredicate having scope; mret (MakeLogicalFilter plan predicate, group_by_cols, aggregates)
    end.

(** [std::find_if] and [std::distance]: the size when there is none. *)
Definition position_of (group_by_cols : list ColumnRef) (ref : ColumnRef) : nat :=
  match list_find (fun key => same_column key ref = true) group_by_cols with Some (i, _) => i | None => length group_by_cols end.

(** The select list over an aggregation: the state is the expressions, their columns and
    [next_aggregate_index]. *)
Definition project_aggregate_item (select : SelectNode) (aggregate_items : list AggregateItem) (group_by_cols : list ColumnRef)
    (aggregates : list AggregateCall) (scope : ResolutionScope) (i : nat)
    (st : list BoundExpression * list OutputColumn * nat) : result (list BoundExpression * list OutputColumn * nat) :=
  let '(exprs, columns, next) := st in
  if is_aggregate_item aggregate_items i then
    agg ← vec_get aggregates next;
    result_type ← AggregateOutputTypeId (function agg) (ref_type <$> argument agg);
    item ← vec_get aggregate_items next;
    mret (exprs ++ [MakeColumnRef kAggregateOutputBindingId (u32 (Z.of_nat (length group_by_cols + next))) result_type],
          columns ++ [mk_output (item_name item) (ToExpressionType result_type)], S next)
  else
    item ← vec_get (select_list select) i;
    e ← item_expression item;
    match e with
    | RawColumnRef node =>
        resolved ← Resolve scope node;
        mret (exprs ++ [MakeColumnRef kAggregateOutputBindingId (u32 (Z.of_nat (position_of group_by_cols resolved))) (ref_type resolved)],
              columns ++ [mk_output (column_name node) (ToExpressionType (ref_type resolved))], next)
    | _ => Undefined (* [*column_ref] of a null pointer *)
    end.

(** One column of [SELECT *]. *)
Definition project_binding (binding : ResolvedTableBinding) (st : list BoundExpression * list OutputColumn)
    : list BoundExpression * list OutputColumn :=
  foldl (fun st col => (st.1 ++ [MakeColumnRef (binding_id binding) (ordinal col) (type col)],
                        st.2 ++ [mk_output (name col) (ToExpressionType (type col))]))
    st (tbl_columns_ (binding_table binding)).

Definition project_item (scope : ResolutionScope) (item : SelectItem) (st : list BoundExpression * list OutputColumn)
    : result (list BoundExpression * list OutputColumn) :=
  if is_wildcard item then mret (foldl (fun st binding => project_binding binding st) st scope)
  else
    e ← item_expression item;
    bound ← BindScalarExpression e scope;
    let display_name := match e with RawColumnRef node => column_name node | _ => ""%string end in
    mret (st.1 ++ [bound], st.2 ++ [mk_output display_name (ResultType bound)]).

Definition unsupported_message : string :=
  "DISTINCT, ORDER BY, LIMIT/OFFSET, WITH, and set operations are not supported ".

Definition is_aggregate_query (select : SelectNode) (aggregate_items : list AggregateItem) : bool :=
  negb (bool_decide (aggregate_items = [])) || negb (bool_decide (group_by_exprs select = [])) ||
  bool_decide (is_Some (having_clause select)).

(** Everything after the FROM clause. *)
Definition bind_select_list (select : SelectNode) (scope : ResolutionScope) (plan : LogicalPlanNode) : result LogicalPlanNode :=
  aggregate_items ← collect_aggregate_items (select_list select);
  if is_aggregate_query select aggregate_items then
    '(plan, group_by_cols, aggregates) ← bind_aggregation select aggregate_items scope plan;
    '(exprs, columns, _) ← for_range 0 (length (select_list select))
      (project_aggregate_item select aggregate_items group_by_cols aggregates scope) ([], [], 0%nat);
    mret (MakeLogicalProjection plan exprs columns)
  else
    '(exprs, columns) ← for_each (select_list select) (project_item scope) ([], []);
    mret (MakeLogicalProjection plan exprs columns).

Definition BindSelect (select : SelectNode) : result LogicalPlanNode :=
  if has_distinct select || has_order_by select || has_limit select || has_with_clause select || has_set_operation select
  then Throw (BindException unsupported_message)
  else
    let where_conjuncts := match where_clause select with None => [] | Some e => FlattenAnd e [] end in
    let '(from, scope) := BindFromClause (from_tables select) where_conjuncts [] in
    from ← from;
    predicate ← bind_where (remaining_where_conjuncts from) scope;
    let plan := match predicate with None => result_plan from | Some p => MakeLogicalFilter (result_plan from) p end in
    bind_select_list select scope plan.

(** ** INSERT *)

Record BoundInsert : Type := mk_bound_insert { bound_table_id : Z; bound_rows : list (list (option BoundExpression)) }.

Definition insert_ordinals (insert : InsertNode) (table : TableObject) : result (list Z) :=
  match insert_columns insert with
  | [] => mret (map Z.of_nat (seq 0 (NumColumns table)))
  | names =>
      for_each names (fun name ordinals =>
        col ← FindColumn table name;
        match col with
        | None => Throw (BindException ("Unknown column '" ++ name ++ "' in table " ++ insert_table_name insert))
        | Some col => mret (ordinals ++ [ordinal col])
        end) []
  end.

(** One value of a row. *)
Definition bind_cell (table : TableObject) (target_ordinals : list Z) (raw_row : list RawExpression) (i : nat)
    (bound_row : list (option BoundExpression)) : result (list (option BoundExpression)) :=
  raw ← vec_get raw_row i;
  match raw with
  | RawConst value =>
      bound_value ← BindConst value;
      target ← vec_get target_ordinals i;
      column ← Column table (Z.to_nat target);
      if bool_decide (ToExpressionType (type column) = ResultType bound_value)
      then vec_set bound_row (Z.to_nat target) (Some bound_value)
      else Throw (BindException ("Type mismatch in INSERT value for column " ++ name column))
  | _ => Throw (BindException "INSERT values must be literal constants")
  end.

Definition partial_insert_message : string :=
  "Partial column-list INSERT (omitted columns implicitly NULL) is not yet supported -- blocked on ConstNode's missing null case, see this module's prior flagged gap".

Definition bind_row (table : TableObject) (target_ordinals : list Z) (raw_row : list RawExpression)
    : result (list (option BoundExpression)) :=
  if negb (length raw_row =? length target_ordinals)%nat
  then Throw (BindException "VALUES row has a different number of entries than the column list")
  else if negb (length target_ordinals =? NumColumns table)%nat then Throw (BindException partial_insert_message)
  else for_range 0 (length raw_row) (bind_cell table target_ordinals raw_row) (replicate (NumColumns table) None).

Definition BindInsert (insert : InsertNode) : result BoundInsert :=
  match GetTable catalog (insert_table_name insert) with
  | None => Throw (BindException ("Unknown table: " ++ insert_table_name insert))
  | Some table =>
      target_ordinals ← insert_ordinals insert table;
      rows ← for_each (value_rows insert) (fun raw_row rows =>
        row ← bind_row table target_ordinals raw_row; mret (rows ++ [row])) [];
      mret (mk_bound_insert (tbl_id_ table) rows)
  end.

End Select.

(** ** CREATE TABLE *)

Definition bind_columns (raw : list RawColumnDef) : result (list ColumnDef) :=
  for_range 0 (length raw) (fun i columns =>
    def ← vec_get raw i;
    ty ← MapRawTypeName (raw_type_name def);
    mret (columns ++ [mk_column (raw_name def) ty (Z.of_nat i)])) [].

Section Bind.
Context {F : Type} `{PosixFile F} `{MapOrder}.

Definition BindCreateTable (create : CreateTableNode) : io (Catalog F) Z :=
  columns ← io_lift (bind_columns (create_columns create));
  CreateTable (create_table_name create) columns.

Inductive BindResult : Type :=
  | BoundSelect (plan : LogicalPlanNode)
  | BoundInsertion (insert : BoundInsert)
  | TableCreated (table_id : Z).

(** The [catch] clauses. *)
Definition as_bind_exception (e : exn) : exn :=
  match e with
  | ResolutionException what | TypeCoercionException what | ParseException what => BindException what
  | _ => e
  end.

Definition catch_bind {W A} (m : io W A) : io W A := fun w =>
  match m w with (Throw e, w') => (Throw (as_bind_exception e), w') | r => r end.

Definition Bind (statement : ParsedStatement) : io (Catalog F) BindResult :=
  catch_bind
    match statement with
    | SelectStatement select =>
        catalog ← io_get; plan ← io_lift (BindSelect catalog select); mret (BoundSelect plan)
    | InsertStatement insert =>
        catalog ← io_get; bound ← io_lift (BindInsert catalog insert); mret (BoundInsertion bound)
    | CreateTableStatement create => id ← BindCreateTable create; mret (TableCreated id)
    end.

End Bind.
