(* ===== verification/FromClause.v ===== *)
(** The FROM clause of [src/binder/binder.cpp]: how comma-separated items are combined into
    joins. The disjoint set only decides which parts are already combined, so
    [combine_parts] is the definition without it; two consequences are that only one
    equality per part is kept, and that the order of the items matters. *)

From S2P Require Import Prelude Scalar Schema Catalog Expr Ast Plan Resolution Coercion DisjointSet Binder.

(** ** The reference definition *)

(** Whether an equality connects part [i] with one of the parts before it. *)
Definition joins (i : nat) (c : Connection) : bool :=
  (part_a c <? i)%nat && (part_b c =? i)%nat || (part_b c <? i)%nat && (part_a c =? i)%nat.

(** Each part is joined with the parts before it by the first equality that connects it with them. *)
Fixpoint join_rest (connections : list Connection) (i : nat) (rest : list FromBinding) (combined : LogicalPlanNode)
    : result LogicalPlanNode :=
  match rest with
  | [] => mret combined
  | part :: rest' =>
      match List.find (joins i) connections with
      | None => Throw (BindException cartesian_message)
      | Some c => join_rest connections (S i) rest' (MakeLogicalJoin combined (from_plan part) [equality c])
      end
  end.

(** ** The disjoint set *)

(** After [i] rounds the first [i] parts are one class, the others are alone. *)
Definition combined_rep (i x : nat) : nat := if decide (x < i)%nat then 0%nat else x.

Lemma combined_rep_S i x : (0 < i)%nat -> merge (combined_rep i) i 0 x = combined_rep (S i) x.
Proof. intros Hi. unfold merge, combined_rep. repeat case_decide; lia. Qed.

Lemma combined_rep_1 x : combined_rep 1 x = id x.
Proof. unfold combined_rep, id. case_decide; lia. Qed.

Section Combine.
Context (n : nat).

Definition groups_ok (i : nat) (groups : DisjointSet) : Prop := length groups = n /\ partition groups (combined_rep i).

Lemma Find_groups i x groups :
  groups_ok i groups -> (x < n)%nat -> exists groups', Find x groups = Ok (combined_rep i x, groups') /\ groups_ok i groups'.
Proof.
  intros [Hl Hp] Hx. destruct (Find_spec x groups _ Hp) as (g & HF & Hl' & Hp'); [lia|]. exists g. split; [done|]. split; [lia|done].
Qed.

Lemma same_class i x : (0 < i)%nat -> (combined_rep i x =? combined_rep i 0)%nat = (x <? i)%nat.
Proof.
  intros Hi. unfold combined_rep. rewrite (decide_True (P := (0 < i)%nat)) by done.
  destruct (Nat.ltb_spec x i), (decide (x < i)%nat); try lia; destruct (Nat.eqb_spec x 0); simpl; lia || done.
Qed.

Lemma connects_spec i c groups :
  groups_ok i groups -> (0 < i < n)%nat -> (part_a c < n)%nat -> (part_b c < n)%nat ->
  exists groups', connects c i groups = Ok (joins i c, groups') /\ groups_ok i groups'.
Proof.
  intros Hg Hi Ha Hb. unfold connects, joins.
  destruct (Find_groups i _ _ Hg Ha) as (g1 & -> & Hg1). rewrite bind_Ok.
  destruct (Find_groups i 0 _ Hg1) as (g2 & -> & Hg2); [lia|]. rewrite bind_Ok, same_class by lia.
  destruct ((part_a c <? i)%nat && (part_b c =? i)%nat); [by exists g2|].
  destruct (Find_groups i _ _ Hg2 Hb) as (g3 & -> & Hg3). rewrite bind_Ok.
  destruct (Find_groups i 0 _ Hg3) as (g4 & -> & Hg4); [lia|]. rewrite bind_Ok, same_class by lia. by exists g4.
Qed.

Lemma find_connection_spec i connections groups :
  groups_ok i groups -> (0 < i < n)%nat -> Forall (fun c => (part_a c < n)%nat /\ (part_b c < n)%nat) connections ->
  exists groups', find_connection connections i groups = Ok (List.find (joins i) connections, groups') /\ groups_ok i groups'.
Proof.
  intros Hg Hi Hc. revert groups Hg. induction Hc as [|c cs [Ha Hb] _ IH]; intros groups Hg; simpl; [by exists groups|].
  destruct (connects_spec i c groups Hg Hi Ha Hb) as (g1 & -> & Hg1). rewrite bind_Ok.
  destruct (joins i c); [by exists g1|]. by apply IH.
Qed.

Lemma join_loop_spec (parts : list FromBinding) connections i rest combined groups :
  length parts = n -> rest = drop i parts -> groups_ok i groups -> (0 < i <= n)%nat ->
  Forall (fun c => (part_a c < n)%nat /\ (part_b c < n)%nat) connections ->
  (fst <$> for_range i (length rest) (join_part parts connections) (combined, groups)) = join_rest connections i rest combined.
Proof.
  intros Hl. revert i combined groups. induction rest as [|part rest IH]; intros i combined groups Hrest Hg Hi Hc; [done|].
  assert (parts !! i = Some part) as Hp by (rewrite <- (Nat.add_0_r i), <- lookup_drop, <- Hrest; done).
  pose proof (lookup_lt_Some _ _ _ Hp) as Hlt. rewrite (drop_S _ _ _ Hp) in Hrest. injection Hrest as Hrest.
  cbn [length for_range join_rest]. unfold join_part at 2. rewrite (proj2 (vec_get_Ok _ _ _) Hp), bind_Ok.
  destruct (find_connection_spec i connections groups Hg) as (g1 & -> & [Hl1 Hg1]); [lia|done|]. rewrite bind_Ok.
  destruct (List.find (joins i) connections) as [c|]; [|done].
  destruct (Union_spec i 0 g1 _ Hg1) as (g2 & -> & Hl2 & Hg2); [lia|lia|]. rewrite bind_Ok.
  change (mret ?x ≫= ?f) with (f x). cbn beta. apply IH; [done| |lia|done]. split; [lia|].
  eapply partition_ext; [|exact Hg2]. intros x. apply combined_rep_S. lia.
Qed.

End Combine.

(** Combining terminates, and without the disjoint sets. *)
Lemma combine_parts_spec first rest connections :
  Forall (fun c => (part_a c < S (length rest))%nat /\ (part_b c < S (length rest))%nat) connections ->
  combine_parts (first :: rest) connections = join_rest connections 1 rest (from_plan first).
Proof.
  intros Hc. unfold combine_parts. cbn [vec_get lookup list_lookup]. rewrite bind_Ok.
  rewrite <- (join_loop_spec (S (length rest)) (first :: rest) connections 1 rest (from_plan first) (new_disjoint_set (S (length rest)))); [|done|done| |lia|done].
  - replace (length (first :: rest) - 1)%nat with (length rest) by (simpl; lia). cbn [length].
    destruct (for_range 1 (length rest) _ _) as [[combined g]| | |]; done.
  - split; [apply length_seq|]. eapply partition_ext; [|apply new_disjoint_set_partition]. intros x. by rewrite combined_rep_1.
Qed.

(** ** What is kept of the WHERE clause *)

Lemma part_index_of_lt parts id i : part_index_of parts id = Ok i -> (i < length parts)%nat.
Proof.
  unfold part_index_of. destruct (list_find _ parts) as [[j p]|] eqn:Hf; [|done]. intros [= <-].
  apply list_find_Some in Hf as (Hj & _). by eapply lookup_lt_Some.
Qed.

(** The connection a conjunct is, if it is one. *)
Definition connection_of (parts : list FromBinding) (scope : ResolutionScope) (raw : RawExpression) : result (option Connection) :=
  match column_equality raw with
  | None => mret None
  | Some (lhs, rhs) =>
      l ← Resolve scope lhs;
      r ← Resolve scope rhs;
      a ← part_index_of parts (ref_table_id l);
      b ← part_index_of parts (ref_table_id r);
      mret (if (a =? b)%nat then None else Some (mk_connection a b (l, r)))
  end.

(** Every conjunct with the connection it is. *)
Fixpoint classified (parts : list FromBinding) (scope : ResolutionScope) (conjuncts : list RawExpression)
    : result (list (RawExpression * option Connection)) :=
  match conjuncts with
  | [] => mret []
  | raw :: conjuncts' =>
      c ← connection_of parts scope raw;
      rest ← classified parts scope conjuncts';
      mret ((raw, c) :: rest)
  end.

Definition is_rest (rc : RawExpression * option Connection) : bool := match snd rc with None => true | Some _ => false end.
Definition connections_in (cs : list (RawExpression * option Connection)) : list Connection := omap snd cs.
Definition rest_of (cs : list (RawExpression * option Connection)) : list RawExpression := fst <$> List.filter is_rest cs.

Lemma classify_spec parts scope conjuncts remaining connections :
  for_each conjuncts (classify_conjunct parts scope) (remaining, connections) =
  (cs ← classified parts scope conjuncts; mret (remaining ++ rest_of cs, connections ++ connections_in cs)).
Proof.
  revert remaining connections. induction conjuncts as [|raw raws IH]; intros remaining connections.
  { cbn [for_each classified]. rewrite bind_Ok. unfold rest_of, connections_in. simpl. by rewrite !app_nil_r. }
  cbn [for_each classified]. rewrite bind_bind.
  assert (classify_conjunct parts scope raw (remaining, connections) =
    (c ← connection_of parts scope raw; mret (remaining ++ rest_of [(raw, c)], connections ++ connections_in [(raw, c)]))) as ->.
  { unfold classify_conjunct, connection_of, rest_of, connections_in.
    destruct (column_equality raw) as [[lhs rhs]|]; [|by simpl; rewrite app_nil_r].
    repeat (rewrite !bind_bind; apply bind_ext; intros ?).
    destruct (_ =? _)%nat; simpl; by rewrite app_nil_r. }
  rewrite bind_bind. apply bind_ext. intros c.
  rewrite bind_Ok, IH, bind_bind. apply bind_ext. intros cs.
  rewrite bind_Ok. unfold rest_of, connections_in. destruct c; simpl; by rewrite ?app_nil_r, <- ?app_assoc.
Qed.

Lemma classified_lt parts scope conjuncts cs :
  classified parts scope conjuncts = Ok cs ->
  Forall (fun c => (part_a c < length parts)%nat /\ (part_b c < length parts)%nat) (connections_in cs).
Proof.
  revert cs. induction conjuncts as [|raw raws IH]; intros cs; simpl; [by intros [= <-]|].
  intros Hc. apply bind_Ok_inv in Hc as (c & Hc & HH). apply bind_Ok_inv in HH as (rest & Hr & [= <-]).
  unfold connections_in. simpl. destruct c as [c|]; [|by apply IH]. constructor; [|by apply IH].
  unfold connection_of in Hc. destruct (column_equality raw) as [[lhs rhs]|]; [|discriminate Hc].
  apply bind_Ok_inv in Hc as (l & _ & Hc). apply bind_Ok_inv in Hc as (r & _ & Hc).
  apply bind_Ok_inv in Hc as (a & Ha & Hc). apply bind_Ok_inv in Hc as (b & Hb & Hc).
  destruct (_ =? _)%nat; [discriminate Hc|]. injection Hc as <-. by split; eapply part_index_of_lt.
Qed.

(** [BindFromClause] of several items. *)
Lemma BindFromClause_parts {F} (catalog : Catalog F) items scope p0 p1 parts conjuncts :
  for_each items (fun item parts => part ← BindTableRef catalog item; mret (parts ++ [part])) [] [] = (Ok (p0 :: p1 :: parts), scope) ->
  BindFromClause catalog items conjuncts [] =
    (cs ← classified (p0 :: p1 :: parts) scope conjuncts;
     plan ← join_rest (connections_in cs) 1 (p1 :: parts) (from_plan p0);
     mret (mk_from_result plan (rest_of cs)), scope).
Proof.
  intros Hparts. assert (items <> []) as Hne by (by intros ->). unfold BindFromClause.
  destruct items as [|item items]; [done|]. unfold mbind at 1, io_bind at 1. rewrite Hparts.
  unfold mbind at 1 2 3, io_bind, io_get, io_lift. rewrite classify_spec.
  destruct (classified _ scope conjuncts) as [cs|e| |] eqn:Hcs; rewrite ?bind_Ok; [|done..].
  unfold mret at 1, result_ret at 1. cbn iota beta.
  rewrite combine_parts_spec by (by apply (classified_lt (p0 :: p1 :: parts) scope conjuncts)).
  by destruct (join_rest _ _ _ _).
Qed.

(** C24. Binding a FROM clause of several items always terminates. The WHERE conjuncts are split
    into the equalities across items and the rest; each item is joined, in order, by the
    first equality that connects it with the items before it and by that equality alone,
    the clause is refused when there is none, and only the rest is kept for the filter. *)
Theorem BindFromClause_correct {F} (catalog : Catalog F) items scope p0 p1 parts conjuncts :
  for_each items (fun item parts => part ← BindTableRef catalog item; mret (parts ++ [part])) [] [] = (Ok (p0 :: p1 :: parts), scope) ->
  BindFromClause catalog items conjuncts [] =
    (cs ← classified (p0 :: p1 :: parts) scope conjuncts;
     plan ← join_rest (connections_in cs) 1 (p1 :: parts) (from_plan p0);
     mret (mk_from_result plan (rest_of cs)), scope).
Proof. apply BindFromClause_parts. Qed.

(** A conjunct that is an equality across two parts. *)
Definition crosses (parts : list FromBinding) (scope : ResolutionScope) (raw : RawExpression) (c : Connection) : Prop :=
  exists lhs rhs l r, column_equality raw = Some (lhs, rhs) /\ Resolve scope lhs = Ok l /\ Resolve scope rhs = Ok r /\
    part_index_of parts (ref_table_id l) = Ok (part_a c) /\ part_index_of parts (ref_table_id r) = Ok (part_b c) /\
    part_a c <> part_b c /\ equality c = (l, r).

Lemma crosses_lt parts scope raw c : crosses parts scope raw c -> (part_a c < length parts)%nat /\ (part_b c < length parts)%nat.
Proof. intros (lhs & rhs & l & r & _ & _ & _ & Ha & Hb & _). by split; eapply part_index_of_lt. Qed.

(** The equalities across parts all become connections. *)
Lemma classify_crossing parts scope conjuncts cs remaining connections :
  Forall2 (crosses parts scope) conjuncts cs ->
  for_each conjuncts (classify_conjunct parts scope) (remaining, connections) = Ok (remaining, connections ++ cs).
Proof.
  intros Hc. revert connections. induction Hc as [|raw c raws cs Hc _ IH]; intros connections; [by rewrite app_nil_r|].
  cbn [for_each]. destruct Hc as (lhs & rhs & l & r & He & Hl & Hr & Ha & Hb & Hne & Heq).
  assert (classify_conjunct parts scope raw (remaining, connections) = Ok (remaining, connections ++ [c])) as ->.
  { unfold classify_conjunct. rewrite He, Hl, bind_Ok, Hr, bind_Ok, Ha, bind_Ok, Hb, bind_Ok, (proj2 (Nat.eqb_neq _ _) Hne).
    destruct c. simpl in *. by subst. }
  rewrite bind_Ok, IH, <- app_assoc. done.
Qed.

(** A comma-separated FROM clause of two items keeps only the first of the WHERE equalities
    between them: it becomes the join's only key, and the others are neither keys nor
    left for the filter, so rows that violate them are returned. *)
Theorem comma_join_keeps_one_equality {F} (catalog : Catalog F) item0 item1 p0 p1 scope conjuncts c cs :
  for_each [item0; item1] (fun item parts => part ← BindTableRef catalog item; mret (parts ++ [part])) [] [] = (Ok [p0; p1], scope) ->
  Forall2 (crosses [p0; p1] scope) conjuncts (c :: cs) ->
  BindFromClause catalog [item0; item1] conjuncts [] =
    (Ok (mk_from_result (MakeLogicalJoin (from_plan p0) (from_plan p1) [equality c]) []), scope).
Proof.
  intros Hparts Hc. unfold BindFromClause. unfold mbind at 1, io_bind at 1. rewrite Hparts.
  unfold mbind, io_bind, io_get, io_lift. rewrite (classify_crossing _ _ _ _ [] [] Hc). cbn [app].
  rewrite combine_parts_spec.
  - inversion Hc as [|raw ? raws ? Hcross _]; subst. pose proof (crosses_lt _ _ _ _ Hcross) as [Ha Hb].
    destruct Hcross as (_ & _ & _ & _ & _ & _ & _ & _ & _ & Hne & _). simpl in Ha, Hb.
    assert (joins 1 c = true) as Hj; [|by cbn [join_rest List.find]; rewrite Hj].
    unfold joins. destruct (part_a c) as [|[|?]], (part_b c) as [|[|?]]; simpl; done || lia.
  - apply Forall_lookup. intros i d Hd. destruct (Forall2_lookup_r _ _ _ _ _ Hc Hd) as (raw & _ & Hcross).
    by apply (crosses_lt _ _ _ _ Hcross).
Qed.

(** [FROM p x, p y WHERE x.a = y.a AND x.b = y.b]. *)
Definition same_names (column : string) : RawExpression :=
  RawMakeBinaryOp kEqual (RawMakeColumnRef (Some "x"%string) column) (RawMakeColumnRef (Some "y"%string) column).
Definition pair_scope : ResolutionScope := [mk_binding 0 "x" pair_table; mk_binding 1 "y" pair_table].
Definition pair_scan (id : Z) : LogicalPlanNode := MakeLogicalScan id 0 (table_output_columns pair_table).

Lemma comma_join_keeps_one_equality_witness :
  BindFromClause pair_catalog [MakeBaseTableRef "p" (Some "x"%string); MakeBaseTableRef "p" (Some "y"%string)]
    [same_names "a"; same_names "b"] [] =
  (Ok (mk_from_result (MakeLogicalJoin (pair_scan 0) (pair_scan 1) [(mk_ref 0 0 kInteger, mk_ref 1 0 kInteger)]) []), pair_scope).
Proof.
  assert (for_each [MakeBaseTableRef "p" (Some "x"%string); MakeBaseTableRef "p" (Some "y"%string)]
    (fun item parts => part ← BindTableRef pair_catalog item; mret (parts ++ [part])) [] [] =
    (Ok [mk_from (pair_scan 0) [0]; mk_from (pair_scan 1) [1]], pair_scope)) as Hparts by (vm_compute; reflexivity).
  assert (forall column ord, Resolve pair_scope (mk_column_ref (Some "x"%string) column) = Ok (mk_ref 0 ord kInteger) ->
    Resolve pair_scope (mk_column_ref (Some "y"%string) column) = Ok (mk_ref 1 ord kInteger) ->
    crosses [mk_from (pair_scan 0) [0]; mk_from (pair_scan 1) [1]] pair_scope (same_names column)
      (mk_connection 0 1 (mk_ref 0 ord kInteger, mk_ref 1 ord kInteger))) as Hcross.
  { intros column ord Hx Hy. do 4 eexists. split; [reflexivity|]. split; [exact Hx|]. split; [exact Hy|].
    split; [reflexivity|]. split; [reflexivity|]. split; [discriminate|reflexivity]. }
  apply (comma_join_keeps_one_equality pair_catalog _ _ _ _ _ _ (mk_connection 0 1 (mk_ref 0 0 kInteger, mk_ref 1 0 kInteger))
    [mk_connection 0 1 (mk_ref 0 1 kInteger, mk_ref 1 1 kInteger)] Hparts).
  constructor; [|constructor; [|constructor]]; apply Hcross; reflexivity.
Defined.

(** The items are combined in the order in which they are written: three items of which the
    third is connected with both others are refused as a Cartesian product although the
    equalities connect them all, and accepted when the connecting item is second. *)
Theorem connected_items_rejected p0 p1 p2 e e' :
  combine_parts [p0; p1; p2] [mk_connection 0 2 e; mk_connection 1 2 e'] = Throw (BindException cartesian_message) /\
  (forall x y, (x < 3)%nat -> (y < 3)%nat -> connected [(0, 2); (1, 2)]%nat x y) /\
  combine_parts [p0; p2; p1] [mk_connection 0 1 e; mk_connection 2 1 e'] =
    Ok (MakeLogicalJoin (MakeLogicalJoin (from_plan p0) (from_plan p2) [e]) (from_plan p1) [e']).
Proof.
  split_and!.
  - rewrite combine_parts_spec by (repeat constructor; simpl; lia). reflexivity.
  - intros x y Hx Hy. apply unions_connected. by destruct x as [|[|[|?]]], y as [|[|[|?]]]; try lia.
  - rewrite combine_parts_spec by (repeat constructor; simpl; lia). reflexivity.
Qed.

Lemma BindFromClause_correct_witness :
  BindFromClause pair_catalog [MakeBaseTableRef "p" (Some "x"%string); MakeBaseTableRef "p" (Some "y"%string)]
    [same_names "a"; same_names "b"] [] =
  (Ok (mk_from_result (MakeLogicalJoin (pair_scan 0) (pair_scan 1) [(mk_ref 0 0 kInteger, mk_ref 1 0 kInteger)]) []), pair_scope).
Proof.
  rewrite (BindFromClause_correct pair_catalog _ pair_scope (mk_from (pair_scan 0) [0]) (mk_from (pair_scan 1) [1]) []).
  - vm_compute. reflexivity.
  - vm_compute. reflexivity.
Defined.
