(* ===== verification/Typing.v ===== *)
(** What [src/binder/binder.cpp] guarantees of the expressions it builds: their types agree
    with what the evaluator computes, except that it lets booleans be compared and added. *)

From S2P Require Import Prelude Scalar Bitmap Columns Schema Catalog Chunk Expr Eval Ast Plan Resolution Coercion Binder.

(** ** Well-typed expressions over the columns of several tables *)

(** As [Expr.infer], with columns named by binding and ordinal. *)
Fixpoint infer_in (column : Z -> Z -> option TypeId) (e : BoundExpression) : option ExpressionType :=
  match e with
  | BoundColumnRef id ord ty =>
      match column id ord with
      | Some ty' => if decide (ty' = ty) then Some (ToExpressionType ty) else None
      | None => None
      end
  | ConstNode v => Some (ToExpressionType (type_of v))
  | BinaryOpNode op l r at_ =>
      tl ← infer_in column l; tr ← infer_in column r; infer_binary op at_ tl tr
  | UnaryOpNode kNot e => t ← infer_in column e; if decide (t = ExprBoolean) then Some ExprBoolean else None
  end.

Lemma infer_in_single tys e : infer_in (fun _ ord => tys !! Z.to_nat ord) e = infer tys e.
Proof. induction e as [id ord ty|v|op l IHl r IHr at_|[] e IH]; simpl; [done|done|by rewrite IHl, IHr|by rewrite IH]. Qed.

(** Whether the value of an expression is a truth value. *)
Definition is_boolean (raw : RawExpression) : bool :=
  match raw with
  | RawBinaryOp op _ _ => negb (IsArithmeticOperator op)
  | RawUnaryOp _ _ => true
  | _ => false
  end.

(** No comparison or arithmetic on truth values. *)
Fixpoint operands_ok (raw : RawExpression) : bool :=
  match raw with
  | RawBinaryOp op l r =>
      operands_ok l && operands_ok r && (Coercion.IsLogicalOperator op || negb (is_boolean l || is_boolean r))
  | RawUnaryOp _ e => operands_ok e
  | _ => true
  end.

Section Typing.
Context (scope : ResolutionScope) (Hscope : scope_wf scope).

Lemma Resolve_Ok_typed cr ref :
  Resolve scope cr = Ok ref -> scope_type scope (ref_table_id ref) (ref_ordinal ref) = Some (ref_type ref).
Proof.
  assert (forall b, b ∈ scope -> table_ok (binding_table b)) as Hok.
  { intros b [i Hi]%list_elem_of_lookup. apply (sw_bindings _ Hscope i b Hi). }
  assert (candidates scope cr = [ref] -> scope_type scope (ref_table_id ref) (ref_ordinal ref) = Some (ref_type ref)) as Hty.
  { intros Hc. assert (ref ∈ candidates scope cr) as Hin by (rewrite Hc; by constructor).
    apply list_elem_of_omap in Hin as (b & [i Hi]%list_elem_of_lookup & Hb). by apply (candidate_typed scope cr i b ref Hscope Hi Hb). }
  destruct cr as [[q|] column]; unfold Resolve; cbn [table_qualifier column_name] in *; intros HR; apply Hty.
  - pose proof (resolve_qualified_spec scope q column Hok (sw_names _ Hscope)) as Hq.
    destruct (candidates scope _) as [|r [|? ?]]; [destruct Hq as [? Hq]; by rewrite Hq in HR|rewrite Hq in HR; by injection HR as ->|done].
  - unfold resolve_unqualified in HR. rewrite (resolve_unqualified_loop scope column None Hok) in HR.
    destruct (candidates scope _) as [|r [|? ?]]; cbn [mbind result_bind] in HR; [discriminate HR|by injection HR as ->|discriminate HR].
Qed.

Lemma BindConst_typed v e : BindConst v = Ok e -> exists x, e = ConstNode x.
Proof. destruct v; simpl; [done|case_match; [done|]|..]; intros [= <-]; by eexists. Qed.

(** The result type the binder stores agrees with the evaluator's operators. *)
Lemma binary_typed op tl tr t :
  Coercion.ResultTypeForBinaryOp op tl tr = Ok t ->
  infer_binary op (if Coercion.IsLogicalOperator op then ExprInteger else t) tl tr =
    if Coercion.IsLogicalOperator op || negb (bool_decide (tl = ExprBoolean) || bool_decide (tr = ExprBoolean))
    then Some t else None.
Proof. destruct op, tl, tr; simpl; intros [= <-]; done. Qed.

Lemma Bind_boolean raw e :
  BindScalarExpression raw scope = Ok e -> bool_decide (ResultType e = ExprBoolean) = is_boolean raw.
Proof.
  destruct raw as [cr|v|op l r|op a|f args star]; simpl; [| | | |done].
  - intros (ref & _ & [= <-])%bind_Ok_inv. by destruct ref as [? ? []].
  - intros (x & ->)%BindConst_typed. by destruct x.
  - intros (bl & _ & (br & _ & (t & Ht & He)%bind_Ok_inv)%bind_Ok_inv)%bind_Ok_inv.
    revert Ht He. unfold MakeBooleanOp, MakeArithmeticOp.
    destruct op, (ResultType bl), (ResultType br); simpl; intros [= <-] [= <-]; done.
  - by intros (ba & _ & (t & _ & [= <-])%bind_Ok_inv)%bind_Ok_inv.
Qed.

(** C22. Binding types expressions: a bound expression is well typed over the columns of the
    FROM clause, with the type [ResultType] reports, exactly when no comparison or
    arithmetic operator is applied to a truth value. *)
Theorem BindScalarExpression_typed raw e :
  BindScalarExpression raw scope = Ok e ->
  infer_in (scope_type scope) e = if operands_ok raw then Some (ResultType e) else None.
Proof.
  revert e. induction raw as [cr|v|op l IHl r IHr|op a IHa|f args star]; intros e HB; simpl in HB; [| | | |done].
  - apply bind_Ok_inv in HB as (ref & Hr & [= <-]). simpl. rewrite (Resolve_Ok_typed _ _ Hr). by rewrite decide_True.
  - apply BindConst_typed in HB as (x & ->). by destruct x.
  - apply bind_Ok_inv in HB as (bl & Hl & HB). apply bind_Ok_inv in HB as (br & Hr & HB).
    apply bind_Ok_inv in HB as (t & Ht & HB). pose proof (binary_typed _ _ _ _ Ht) as Hbin.
    pose proof (Bind_boolean _ _ Hl) as Hbl. pose proof (Bind_boolean _ _ Hr) as Hbr.
    assert (infer_in (scope_type scope) e = (tl ← infer_in (scope_type scope) bl; tr ← infer_in (scope_type scope) br;
      infer_binary op (if Coercion.IsLogicalOperator op then ExprInteger else t) tl tr)) as ->
      by (destruct (Coercion.IsLogicalOperator op); by injection HB as <-).
    assert (ResultType e = t) as ->
      by (revert Ht HB; unfold MakeBooleanOp, MakeArithmeticOp; destruct op, (ResultType bl), (ResultType br); simpl; intros [= <-] [= <-]; done).
    rewrite (IHl _ Hl), (IHr _ Hr). simpl. destruct (operands_ok l), (operands_ok r); simpl; try done.
    by rewrite Hbin, Hbl, Hbr.
  - apply bind_Ok_inv in HB as (ba & Ha & HB). apply bind_Ok_inv in HB as (t & Ht & [= <-]).
    unfold MakeNot. simpl. destruct op. rewrite (IHa _ Ha). destruct (operands_ok a); [|done]. simpl.
    unfold ResultTypeForUnaryOp in Ht. by case_bool_decide; [rewrite decide_True|].
Qed.

End Typing.

(** ** Truth values as operands *)

(** A comparison, AND, OR or NOT evaluates to truth values. *)
Lemma boolean_result e chunk v :
  (forall op l r at_, e = BinaryOpNode op l r at_ -> IsArithmeticOperator op = false) -> ResultType e = ExprBoolean ->
  EvaluateExpr e chunk = Ok v -> exists values validity, v = BooleanResult values validity.
Proof.
  intros Hop Ht HE. destruct e as [id ord ty|x|op l r at_|[] a]; simpl in *; [by destruct ty|by destruct x| |].
  - apply bind_Ok_inv in HE as (vl & _ & HE). apply bind_Ok_inv in HE as (vr & _ & HE).
    unfold EvaluateBinary in HE. rewrite (Hop op l r at_ eq_refl) in HE. destruct (Expr.IsLogicalOperator op).
    + apply bind_Ok_inv in HE as ([lv ld] & _ & HE). apply bind_Ok_inv in HE as ([rv rd] & _ & HE).
      unfold EvaluateLogical in HE. apply bind_Ok_inv in HE as (va & _ & HE). apply bind_Ok_inv in HE as (vd & _ & [= <-]). eauto.
    + unfold EvaluateComparison in HE. apply bind_Ok_inv in HE as (va & _ & HE). apply bind_Ok_inv in HE as (vd & _ & [= <-]). eauto.
  - apply bind_Ok_inv in HE as (va & _ & HE). unfold EvaluateUnary in HE. apply bind_Ok_inv in HE as ([ov od] & _ & HE).
    apply bind_Ok_inv in HE as (vb & _ & HE). apply bind_Ok_inv in HE as (vd & _ & [= <-]). eauto.
Qed.

(** The first row of an operator on a truth value throws. *)
Lemma boolean_left_throws op at_ values validity vr n :
  Expr.IsLogicalOperator op = false -> (0 < n)%nat ->
  EvaluateBinary op at_ (BooleanResult values validity) vr n = Throw BadVariantAccess.
Proof.
  intros Hop Hn. destruct n as [|n]; [lia|]. unfold EvaluateBinary. rewrite Hop.
  destruct (IsArithmeticOperator op); [|].
  - by case_decide.
  - unfold EvaluateComparison, fill_bitmap. cbn [for_range CompareRow]. by destruct (IsFloatResult _ || IsFloatResult vr).
Qed.

(** The binder accepts a truth value as the left operand of a comparison or of arithmetic
    on a number or truth value, as in [(a = b) + 1]; evaluating the bound expression on
    any non-empty chunk throws [bad_variant_access]. *)
Theorem boolean_operands_accepted scope op l r bl br :
  BindScalarExpression l scope = Ok bl -> is_boolean l = true -> BindScalarExpression r scope = Ok br ->
  ResultType br <> ExprVarchar -> Coercion.IsLogicalOperator op = false ->
  exists e, BindScalarExpression (RawBinaryOp op l r) scope = Ok e /\
    forall chunk vl vr, (0 < chunk_rows_ chunk)%nat -> EvaluateExpr bl chunk = Ok vl -> EvaluateExpr br chunk = Ok vr ->
      Evaluate e chunk = Throw BadVariantAccess.
Proof.
  intros Hl Hbool Hr Hty Hop. pose proof (Bind_boolean _ _ _ Hl) as Hbl. rewrite Hbool in Hbl.
  apply bool_decide_eq_true_1 in Hbl.
  assert (exists t, Coercion.ResultTypeForBinaryOp op (ResultType bl) (ResultType br) = Ok t) as [t Ht].
  { rewrite Hbl. revert Hop Hty. destruct op, (ResultType br); simpl; intros; try done; by eexists. }
  exists (MakeArithmeticOp op bl br t). split.
  - simpl. by rewrite Hl, bind_Ok, Hr, bind_Ok, Ht, bind_Ok, Hop.
  - intros chunk vl vr Hn HEl HEr. unfold Evaluate, MakeArithmeticOp. simpl. rewrite HEl, bind_Ok, HEr, bind_Ok.
    destruct (boolean_result bl chunk vl) as (values & validity & ->); [|done|done|].
    + intros op' l' r' at_ ->. destruct l as [cr|v|op0 l0 r0|op0 a|f args star]; simpl in *; try done.
      * apply bind_Ok_inv in Hl as (bl' & _ & Hl). apply bind_Ok_inv in Hl as (br' & _ & Hl). apply bind_Ok_inv in Hl as (t' & _ & Hl).
        apply negb_true_iff in Hbool. destruct (Coercion.IsLogicalOperator op0); by injection Hl as <- _ _ _.
      * by apply bind_Ok_inv in Hl as (? & _ & (? & _ & ?)%bind_Ok_inv).
    + apply boolean_left_throws; [by rewrite <- logical_agrees|done].
Qed.

(** [(id = 1) + 1] over a table with one row. *)
Definition id_is_one : RawExpression := RawMakeBinaryOp kEqual (RawMakeColumnRef None "id") (RawMakeIntConst 1).

Lemma boolean_operands_accepted_witness :
  exists e, BindScalarExpression (RawMakeBinaryOp kAdd id_is_one (RawMakeIntConst 1)) t_scope = Ok e /\
    Evaluate e (mk_chunk 1 (mk_bitmap 1 [1]) [IntCol (FixedWidth.mk_fixed [5] (mk_bitmap 1 [1]))]) = Throw BadVariantAccess.
Proof.
  destruct (boolean_operands_accepted t_scope kAdd id_is_one (RawMakeIntConst 1) _ _ eq_refl eq_refl eq_refl ltac:(discriminate) eq_refl)
    as (e & HB & HE). exists e. split; [exact HB|]. eapply HE; [apply Nat.lt_0_1|vm_compute; reflexivity|vm_compute; reflexivity].
Defined.

Lemma BindScalarExpression_typed_witness :
  BindScalarExpression id_is_one t_scope = Ok (BinaryOpNode kEqual (BoundColumnRef 0 0 kInteger) (ConstNode (VInt 1)) ExprBoolean) /\
  infer_in (scope_type t_scope) (BinaryOpNode kEqual (BoundColumnRef 0 0 kInteger) (ConstNode (VInt 1)) ExprBoolean) = Some ExprBoolean.
Proof.
  assert (BindScalarExpression id_is_one t_scope = Ok (BinaryOpNode kEqual (BoundColumnRef 0 0 kInteger) (ConstNode (VInt 1)) ExprBoolean)) as HB
    by reflexivity.
  exact (conj HB (BindScalarExpression_typed t_scope t_scope_wf id_is_one _ HB)).
Defined.
