(* ===== verification/InsertBinding.v ===== *)
(** The INSERT path of [src/binder/binder.cpp]: the rows a bound INSERT hands to the executor
    have one literal per column, of the column's type and in range, which is what
    [Insert] needs; except that a column named twice leaves a null pointer in the row. *)

From S2P Require Import Prelude Scalar Bitmap Columns Disk Schema Catalog Chunk Rows Expr Insert Ast Plan Resolution Coercion Binder.

(** The value a literal denotes; [None] when [BindConst] refuses it. *)
Definition literal_value (v : Literal) : option Value :=
  match v with
  | NullLiteral => None
  | Int64Literal z => if decide (is_i32 z) then Some (VInt z) else None
  | DoubleLiteral d => Some (VFloat (f32_of_f64 d))
  | StringLiteral s => Some (VStr s)
  end.

Lemma BindConst_spec v :
  match literal_value v with
  | Some x => BindConst v = Ok (ConstNode x) /\ literal_ok x
  | None => exists what, BindConst v = Throw (TypeCoercionException what)
  end.
Proof.
  destruct v as [|z|d|s]; simpl; [by eexists| |split; [done|apply f32_encode_ok]|done].
  unfold is_i32. case_decide as Hz; rewrite ?(proj2 (Z.ltb_ge z (- 2 ^ 31))), ?(proj2 (Z.ltb_ge (2 ^ 31 - 1) z)) by lia; simpl.
  - rewrite i32_id by (unfold is_i32; lia). split; [done|]. unfold is_i32. lia.
  - destruct (Z.ltb_spec z (- 2 ^ 31)), (Z.ltb_spec (2 ^ 31 - 1) z); simpl; try by eexists. lia.
Qed.

(** ** The target columns *)

(** The column the [i]-th value of a row goes to. *)
Definition target (t : TableObject) (columns : list string) (i : nat) : option nat :=
  match columns with
  | [] => if decide (i < NumColumns t)%nat then Some i else None
  | _ => n ← columns !! i; Z.to_nat ∘ ordinal <$> named_column t n
  end.

Lemma named_column_lookup t n c :
  table_ok t -> named_column t n = Some c ->
  name c = n /\ exists j, ordinal c = Z.of_nat j /\ tbl_columns_ t !! j = Some c.
Proof.
  intros [_ Hord] Hc. unfold named_column in Hc. apply head_Some_elem_of, list_elem_of_filter in Hc as [Hn Hin].
  apply list_elem_of_lookup in Hin as [j Hj]. split; [done|]. exists j. by rewrite (Hord j c Hj).
Qed.

Lemma insert_ordinals_spec insert t ords :
  table_ok t -> insert_ordinals insert t = Ok ords ->
  length ords = (if decide (insert_columns insert = []) then NumColumns t else length (insert_columns insert)) /\
  forall i, (i < length ords)%nat -> exists j, ords !! i = Some (Z.of_nat j) /\ (j < NumColumns t)%nat /\
    target t (insert_columns insert) i = Some j.
Proof.
  intros Hok. unfold insert_ordinals, target. destruct (insert_columns insert) as [|n0 names0] eqn:Hcols.
  - intros [= <-]. rewrite length_map, length_seq, decide_True by done. split; [done|]. intros i Hi. exists i.
    rewrite list_lookup_fmap, lookup_seq_lt, decide_True by done. done.
  - rewrite <- Hcols. set (names := insert_columns insert) in *. rewrite decide_False by by rewrite Hcols.
    intros HF. assert (Forall2 (fun n o => exists c, named_column t n = Some c /\ o = ordinal c) names ords) as Hm.
    { refine (for_each_Ok (fun dn ordinals => Forall2 (fun n o => exists c, named_column t n = Some c /\ o = ordinal c) dn ordinals)
        _ names [] ords _ (Forall2_nil_2 _ _ _) HF).
      intros dn n acc acc' Hacc HS _. rewrite (FindColumn_spec t n (proj1 Hok) (proj2 Hok)), bind_Ok in HS.
      fold (named_column t n) in HS. destruct (named_column t n) as [c|] eqn:Hc; [|done]. injection HS as <-.
      apply Forall2_app; [done|]. constructor; [by exists c|constructor]. }
    pose proof (Forall2_length _ _ _ Hm) as Hl.
    split; [done|]. intros i Hi. destruct (lookup_lt_is_Some_2 ords i Hi) as [o Ho].
    destruct (Forall2_lookup_r _ _ _ _ _ Hm Ho) as (n & Hn & c & Hc & ->).
    destruct (named_column_lookup t n c Hok Hc) as (_ & j & Hj & Hjc). exists j. rewrite Ho, Hj. split; [done|].
    split; [by eapply lookup_lt_Some|]. rewrite Hn. simpl. rewrite Hc. simpl. by rewrite Hj, Nat2Z.id.
Qed.

Lemma target_inj t columns i i' j :
  table_ok t -> NoDup columns -> target t columns i = Some j -> target t columns i' = Some j -> i = i'.
Proof.
  intros Hok Hnd. unfold target. destruct columns as [|n0 names0]; [intros; repeat case_decide; simplify_eq; done|].
  set (names := n0 :: names0) in *. intros Hi Hi'.
  destruct (names !! i) as [n|] eqn:Hn; [|done]. destruct (names !! i') as [n'|] eqn:Hn'; [|done]. simpl in *.
  destruct (named_column t n) as [c|] eqn:Hc; [|done]. destruct (named_column t n') as [c'|] eqn:Hc'; [|done]. simpl in *.
  destruct (named_column_lookup t n c Hok Hc) as (<- & k & Hk & Hkc).
  destruct (named_column_lookup t n' c' Hok Hc') as (<- & k' & Hk' & Hkc').
  rewrite Hk, Nat2Z.id in Hi. rewrite Hk', Nat2Z.id in Hi'. simplify_eq. by eapply NoDup_lookup.
Qed.

(** ** One row *)

Section Row.
Context (t : TableObject) (columns : list string) (ords : list Z).
Hypothesis Hok : table_ok t.
Hypothesis Hnd : NoDup columns.
Hypothesis Hords : forall i, (i < length ords)%nat ->
  exists j, ords !! i = Some (Z.of_nat j) /\ (j < NumColumns t)%nat /\ target t columns i = Some j.

(** The row after [i] values: the values so far are in their columns, the others are null. *)
Definition row_so_far (raw : list RawExpression) (i : nat) (row : list (option BoundExpression)) : Prop :=
  length row = NumColumns t /\
  forall k, (k < i)%nat -> exists j v x, target t columns k = Some j /\ raw !! k = Some (RawConst v) /\
    literal_value v = Some x /\ row !! j = Some (Some (ConstNode x)) /\ literal_ok x /\
    type <$> tbl_columns_ t !! j = Some (type_of x).

Lemma bind_cell_step raw i row row' :
  (i < length ords)%nat -> row_so_far raw i row -> bind_cell t ords raw i row = Ok row' -> row_so_far raw (S i) row'.
Proof.
  intros Hi [Hl Hrow] HB. unfold bind_cell in HB. apply bind_Ok_inv in HB as (e & He & HB). apply vec_get_Ok in He.
  destruct e as [|v| | |]; try done. apply bind_Ok_inv in HB as (b & Hb & HB). apply bind_Ok_inv in HB as (o & Ho & HB).
  apply vec_get_Ok in Ho. destruct (Hords i Hi) as (j & Hj & Hjn & Ht). rewrite Hj in Ho. injection Ho as <-.
  rewrite Nat2Z.id in HB. apply bind_Ok_inv in HB as (c & Hc & HB). unfold Column in Hc. apply vec_get_Ok in Hc.
  pose proof (BindConst_spec v) as Hv. destruct (literal_value v) as [x|] eqn:Hx; [|destruct Hv; congruence].
  destruct Hv as [Hbx Hxok]. rewrite Hbx in Hb. injection Hb as <-.
  case_bool_decide as Hty; [|done]. rewrite vec_set_lt in HB by lia. injection HB as <-.
  split; [by rewrite length_insert|]. intros k Hk. destruct (decide (k = i)) as [->|Hne].
  - exists j, v, x. split_and!; [done..| |done|].
    + apply list_lookup_insert_eq. lia.
    + rewrite Hc. simpl. f_equal. revert Hty. simpl. by destruct (type c), x.
  - destruct (Hrow k) as (j' & v' & x' & Ht' & Hr' & Hx' & Hrow' & Hok' & Hty'); [lia|].
    exists j', v', x'. split_and!; [done..| |done|done]. rewrite list_lookup_insert_ne; [done|].
    intros <-. apply Hne. by eapply (target_inj t columns).
Qed.

(** Every column is the target of a value. *)
Lemma targets_cover j : length ords = NumColumns t -> (j < NumColumns t)%nat -> exists i, (i < length ords)%nat /\ target t columns i = Some j.
Proof.
  intros Hl Hj. assert (NoDup ords) as Hnd'.
  { apply NoDup_alt. intros i i' o Hi Hi'. pose proof (lookup_lt_Some _ _ _ Hi) as Hlt. pose proof (lookup_lt_Some _ _ _ Hi') as Hlt'.
    destruct (Hords i Hlt) as (k & Hk & _ & Ht). destruct (Hords i' Hlt') as (k' & Hk' & _ & Ht').
    assert (k' = k) as -> by (simplify_eq; lia). by eapply (target_inj t columns). }
  assert (ords ⊆+ map Z.of_nat (seq 0 (NumColumns t))) as Hsub.
  { apply NoDup_submseteq; [done|]. intros o [i Hi]%list_elem_of_lookup. pose proof (lookup_lt_Some _ _ _ Hi) as Hlt.
    destruct (Hords i Hlt) as (k & Hk & Hkn & _). simplify_eq. apply list_elem_of_fmap_2. apply elem_of_seq. lia. }
  assert (ords ≡ₚ map Z.of_nat (seq 0 (NumColumns t))) as Hperm
    by (apply submseteq_length_Permutation; [done|rewrite length_map, length_seq; lia]).
  assert (Z.of_nat j ∈ ords) as [i Hi]%list_elem_of_lookup by (rewrite Hperm; apply list_elem_of_fmap_2, elem_of_seq; lia).
  pose proof (lookup_lt_Some _ _ _ Hi) as Hlt. exists i. split; [done|].
  destruct (Hords i Hlt) as (k & Hk & _ & Ht). assert (k = j) as <- by (simplify_eq; lia). done.
Qed.

Lemma bind_row_spec raw row :
  bind_row t ords raw = Ok row ->
  exists vs, row = literal_row vs /\ map type_of vs = table_types t /\ Forall literal_ok vs /\
    length raw = length vs /\
    forall i e, raw !! i = Some e -> exists j v, target t columns i = Some j /\ e = RawConst v /\ vs !! j = literal_value v.
Proof.
  unfold bind_row. destruct (Nat.eqb_spec (length raw) (length ords)) as [Hlr|]; [|done].
  destruct (Nat.eqb_spec (length ords) (NumColumns t)) as [Hln|]; [|done]. simpl. intros HR.
  assert (row_so_far raw (length raw) row) as [Hl Hrow].
  { refine (for_range_Ok (row_so_far raw) _ 0 (length raw) _ row _ _ HR).
    - intros i s s' Hi. apply bind_cell_step. lia.
    - split; [apply length_replicate|intros; lia]. }
  destruct (list_choice (fun j x => row !! j = Some (Some (ConstNode x)) /\ literal_ok x /\
    type <$> tbl_columns_ t !! j = Some (type_of x)) (NumColumns t)) as (vs & Hvl & Hvs).
  { intros j Hj. destruct (targets_cover j Hln Hj) as (i & Hi & Ht).
    destruct (Hrow i) as (j' & v & x & Ht' & _ & _ & Hx); [lia|]. rewrite Ht in Ht'. injection Ht' as <-. by exists x. }
  exists vs. split_and!.
  - apply list_eq_same_length with (n := NumColumns t); [unfold literal_row; by rewrite length_map|done|].
    intros j e1 e2 Hj H1 H2. destruct (lookup_lt_is_Some_2 vs j) as [x Hx]; [lia|]. unfold literal_row in H2.
    rewrite list_lookup_fmap, Hx in H2. destruct (Hvs j x Hx) as [Hr _]. simpl in H2. congruence.
  - apply list_eq_same_length with (n := NumColumns t); [unfold table_types; by rewrite length_map|by rewrite length_map|].
    intros j t1 t2 Hj H1 H2. unfold table_types in H2. rewrite list_lookup_fmap in H1. rewrite list_lookup_fmap in H2.
    destruct (vs !! j) as [x|] eqn:Hx; [|done]. destruct (Hvs j x Hx) as (_ & _ & Hty).
    destruct (tbl_columns_ t !! j); [|done]. simpl in *. congruence.
  - apply Forall_lookup. intros j x Hx. by destruct (Hvs j x Hx) as (_ & ? & _).
  - lia.
  - intros i e He. pose proof (lookup_lt_Some _ _ _ He) as Hi. destruct (Hrow i Hi) as (j & v & x & Ht & Hr & Hx & Hj & _).
    exists j, v. rewrite He in Hr. injection Hr as ->. split_and!; [done|done|]. rewrite Hx.
    assert (j < NumColumns t)%nat as Hjn by (rewrite <- Hl; by eapply lookup_lt_Some).
    destruct (lookup_lt_is_Some_2 vs j) as [y Hy]; [lia|]. destruct (Hvs j y Hy) as [Hyr _]. congruence.
Qed.

End Row.

(** ** The statement *)

(** Where the values of a row go: each to the column it is written for. *)
Definition placed (t : TableObject) (columns : list string) (raw : list RawExpression) (vs : list Value) : Prop :=
  length raw = length vs /\
  forall i e, raw !! i = Some e -> exists j v, target t columns i = Some j /\ e = RawConst v /\ vs !! j = literal_value v.

Lemma BindInsert_rows {F} (catalog : Catalog F) insert t b :
  GetTable catalog (insert_table_name insert) = Some t -> table_ok t -> NoDup (insert_columns insert) ->
  BindInsert catalog insert = Ok b ->
  bound_table_id b = tbl_id_ t /\ exists rows, bound_rows b = map literal_row rows /\
    Forall (fun vs => map type_of vs = table_types t /\ Forall literal_ok vs) rows /\
    Forall2 (placed t (insert_columns insert)) (value_rows insert) rows.
Proof.
  intros Ht Hok Hnd HB. unfold BindInsert in HB. rewrite Ht in HB. apply bind_Ok_inv in HB as (ords & HO & HB).
  apply bind_Ok_inv in HB as (brows & HR & [= <-]). split; [done|]. cbn [bound_rows].
  destruct (insert_ordinals_spec insert t ords Hok HO) as [_ Hords].
  refine (for_each_Ok (fun dn acc => exists rows, acc = map literal_row rows /\
    Forall (fun vs => map type_of vs = table_types t /\ Forall literal_ok vs) rows /\
    Forall2 (placed t (insert_columns insert)) dn rows) _ (value_rows insert) [] brows _ _ HR); [|by exists []].
  intros dn raw acc acc' (rows & -> & Hty & Hpl) HS _. apply bind_Ok_inv in HS as (row & Hrow & [= <-]).
  destruct (bind_row_spec t (insert_columns insert) ords Hok Hnd Hords raw row Hrow) as (vs & -> & Hvt & Hvo & Hvl & Hvp).
  exists (rows ++ [vs]). rewrite map_app. split; [done|]. split; [by apply Forall_app; split; [|repeat constructor]|].
  apply Forall2_app; [done|]. constructor; [by split|constructor].
Qed.

(** What the executor needs of the sizes of the rows (see [Insert.group_ok]). *)
Definition sizes_ok (t : TableObject) (rows : list (list Value)) : Prop :=
  Forall (fun g => (forall j, col_bytes (cells g) j < 2 ^ 31) /\
    (forall j, table_types t !! j = Some kVarchar -> 0 < col_bytes (cells g) j)) (row_groups rows).

(** Running what [BindInsert] returns. *)
Lemma BindInsert_runs {F} `{PosixFileLaws F} `{!ReliableFile F} `{MapOrderLaws} (c : Catalog F) insert t b :
  catalog_meta_wf c -> disk_wf (disk_manager_ c) -> GetTable c (insert_table_name insert) = Some t -> table_ok t ->
  table_types t <> [] -> NoDup (insert_columns insert) -> BindInsert c insert = Ok b ->
  exists rows, bound_rows b = map literal_row rows /\ Forall (fun vs => map type_of vs = table_types t /\ Forall literal_ok vs) rows /\
    Forall2 (placed t (insert_columns insert)) (value_rows insert) rows /\
    (sizes_ok t rows -> next_page (disk_manager_ c) + groups_pages (table_types t) (row_groups rows) < 2 ^ 32 ->
     exists c', RunInsert (bound_table_id b) (bound_rows b) c = (Ok tt, c') /\ inserted c t (row_groups rows) c').
Proof.
  intros Hmeta Hwf Ht Hok Htys Hnd HI.
  destruct (BindInsert_rows c insert t b Ht Hok Hnd HI) as (Hid & rows & Hrows & Hty & Hpl).
  exists rows. split_and!; [done..|]. intros Hsz Hpages. rewrite Hid, Hrows.
  assert (table_name_ t = insert_table_name insert) as Hn
    by (by destruct (mw_lookup _ _ _ t Hmeta Ht) as (e & rgs & _ & <- & -> & _)).
  apply RunInsert_inserted; [exact Htys| |exact Hpages|exact Hmeta|exact Hwf|rewrite Hn; exact Ht].
  apply Forall_lookup. intros i g Hg. pose proof (Forall_lookup_1 _ _ _ _ Hsz Hg) as [Hb Hd].
  split; [|done|done]. apply Forall_forall. intros vs Hvs. rewrite Forall_forall in Hty. apply Hty.
  rewrite <- (proj1 (row_groups_spec rows)). apply list_elem_of_In, in_concat. exists g.
  split; apply list_elem_of_In; [by eapply list_elem_of_lookup_2|done].
Qed.

(** C21. An INSERT statement that binds (and names no column twice) puts every value in the
    column it is written for, with the column's type, and does not touch the catalog;
    running the bound insert then stores exactly these rows. *)
Theorem insert_statement_correct {F} `{PosixFileLaws F} `{!ReliableFile F} `{MapOrderLaws} (c c1 : Catalog F) insert t b :
  catalog_meta_wf c -> disk_wf (disk_manager_ c) -> GetTable c (insert_table_name insert) = Some t -> table_ok t ->
  table_types t <> [] -> NoDup (insert_columns insert) ->
  Bind (InsertStatement insert) c = (Ok (BoundInsertion b), c1) ->
  c1 = c /\ exists rows, bound_rows b = map literal_row rows /\
    Forall2 (placed t (insert_columns insert)) (value_rows insert) rows /\
    (sizes_ok t rows -> next_page (disk_manager_ c) + groups_pages (table_types t) (row_groups rows) < 2 ^ 32 ->
     exists c', RunInsert (bound_table_id b) (bound_rows b) c = (Ok tt, c') /\ inserted c t (row_groups rows) c').
Proof.
  intros Hmeta Hwf Ht Hok Htys Hnd HB. unfold Bind, catch_bind, mbind, io_bind, io_get, io_lift in HB.
  destruct (BindInsert c insert) as [b'|e| |] eqn:HI; try discriminate HB. injection HB as -> <-. split; [done|].
  destruct (BindInsert_runs c insert t b Hmeta Hwf Ht Hok Htys Hnd HI) as (rows & Hrows & _ & Hpl & Hrun). by exists rows.
Qed.

(** A row of which one pointer is null cannot be staged. *)
Lemma AppendRow_null {F} `{PosixFile F} `{MapOrder} (ex : InsertExecutor F) v column column' :
  stage_columns_ (staging_ ex) !! 0%nat = Some column -> append_literal column v = Ok column' ->
  fst (AppendRow [Some (ConstNode v); None] ex) = Undefined.
Proof.
  intros Hc Ha. unfold AppendRow. cbn [length for_range]. unfold mbind, io_bind, append_cell at 1.
  unfold mbind, io_bind, io_lift, io_get. cbn [vec_get lookup list_lookup]. by rewrite (proj2 (vec_get_Ok _ _ _) Hc), Ha.
Qed.

(** Naming a column twice in an INSERT is not refused: over a table of two columns the second
    value replaces the first, the other column keeps a null pointer, and the executor
    dereferences it. *)
Theorem duplicate_insert_column {F} `{PosixFileLaws F} `{MapOrderLaws} (c : Catalog F) t c0 c1 x y :
  catalog_meta_wf c -> GetTable c (table_name_ t) = Some t -> table_ok t -> tbl_columns_ t = [c0; c1] ->
  type c0 = kInteger -> is_i32 x -> is_i32 y ->
  let insert := mk_insert_node (table_name_ t) [name c0; name c0] [[RawMakeIntConst x; RawMakeIntConst y]] in
  exists b, BindInsert c insert = Ok b /\ bound_rows b = [[Some (MakeIntConst y); None]] /\
    fst (RunInsert (bound_table_id b) (bound_rows b) c) = Undefined.
Proof.
  intros Hmeta Ht Hok Hcols Hty Hx Hy insert. pose proof (proj2 Hok 0%nat c0) as Hord. rewrite Hcols in Hord. specialize (Hord eq_refl).
  assert (FindColumn t (name c0) = Ok (Some c0)) as Hfind.
  { rewrite (FindColumn_spec t _ (proj1 Hok) (proj2 Hok)), Hcols. by rewrite filter_cons_True. }
  assert (forall z, is_i32 z -> BindConst (Int64Literal z) = Ok (ConstNode (VInt z))) as Hconst.
  { intros z Hz. pose proof (BindConst_spec (Int64Literal z)) as Hb. simpl literal_value in Hb. rewrite decide_True in Hb by done. apply Hb. }
  exists (mk_bound_insert (tbl_id_ t) [[Some (MakeIntConst y); None]]). split_and!; [|done|].
  - unfold BindInsert. cbn [insert insert_table_name value_rows insert_columns]. rewrite Ht. unfold insert_ordinals. cbn [insert_columns insert].
    cbn [for_each]. rewrite Hfind. cbn [mbind result_bind mret result_ret app]. unfold bind_row, NumColumns. rewrite Hcols. cbn [length Nat.eqb negb].
    cbn [for_range replicate]. unfold bind_cell, vec_get, Column. unfold RawMakeIntConst. rewrite Hord, Hcols. cbn -[BindConst i32].
    rewrite !Hconst by done. change (Z.to_nat (Z.of_nat 0)) with 0%nat. unfold vec_get, vec_set. cbn. by rewrite Hty.
  - unfold RunInsert, new_executor. cbn [bound_table_id bound_rows]. rewrite (GetTableById_Some c _ t _ Hmeta Ht eq_refl).
    cbn [for_each]. unfold InsertRow, mbind, io_bind.
    pose proof (AppendRow_null (mk_insert c t (new_staging t)) (VInt y) (IntCol FixedWidth.empty)) as HA.
    destruct (FixedWidth.Append_spec FixedWidth.empty y FixedWidth.empty_wf) as (col & Hcol & _).
    specialize (HA (IntCol col)). unfold MakeIntConst.
    destruct (AppendRow [Some (ConstNode (VInt y)); None] (mk_insert c t (new_staging t))) as [r ex].
    assert (r = Undefined) as ->; [|done]. apply HA.
    + unfold new_staging. cbn [staging_ stage_columns_]. rewrite Hcols. simpl. by rewrite Hty.
    + change (IntCol <$> FixedWidth.Append FixedWidth.empty y = Ok (IntCol col)). by rewrite Hcol.
Qed.

(** ** The theorems at concrete tables *)

Definition insert_seven : InsertNode := mk_insert_node "t" ["id"%string] [[RawMakeIntConst 7]; [RawMakeIntConst (-8)]].

Lemma t_table_ok : table_ok t_table.
Proof. split; [done|]. by intros i c [-> <-]%list_lookup_singleton_Some. Qed.

Lemma insert_statement_correct_witness :
  exists b rows, Bind (InsertStatement insert_seven) created = (Ok (BoundInsertion b), created) /\
    bound_rows b = map literal_row rows /\ Forall2 (placed t_table ["id"%string]) (value_rows insert_seven) rows.
Proof.
  destruct created_table as (Hmeta & Hwf & Ht).
  assert (Bind (InsertStatement insert_seven) created = (Ok (BoundInsertion (mk_bound_insert 0 (map literal_row t_rows))), created)) as HB
    by (vm_compute; reflexivity).
  destruct (insert_statement_correct created created insert_seven t_table _ Hmeta Hwf Ht t_table_ok ltac:(discriminate)
    (NoDup_singleton _) HB) as (_ & rows & Hr & Hp & _).
  exists (mk_bound_insert 0 (map literal_row t_rows)), rows. exact (conj HB (conj Hr Hp)).
Defined.

Lemma duplicate_insert_column_witness :
  exists b, BindInsert pair_catalog (mk_insert_node "p" ["a"%string; "a"%string] [[RawMakeIntConst 1; RawMakeIntConst 2]]) = Ok b /\
    bound_rows b = [[Some (MakeIntConst 2); None]] /\ fst (RunInsert (bound_table_id b) (bound_rows b) pair_catalog) = Undefined.
Proof.
  destruct (reachable_wf pair_catalog pair_catalog_ok) as [Hmeta _].
  assert (GetTable pair_catalog (table_name_ pair_table) = Some pair_table) as Ht by (vm_compute; reflexivity).
  exact (duplicate_insert_column pair_catalog pair_table _ _ 1 2 Hmeta Ht pair_table_ok eq_refl eq_refl
    ltac:(unfold is_i32; lia) ltac:(unfold is_i32; lia)).
Defined.
