(* ===== verification/PredicateUtils.v ===== *)
(** Model of [src/optimizer/predicate_utils.cpp]: predicates as lists of conjuncts, and the
    columns an expression refers to. Expressions are values, so moving a conjunct out of
    one list into another is a copy whose source is not used again. *)

From S2P Require Import Prelude Expr Plan.

Fixpoint FlattenConjuncts_into (expr : BoundExpression) (out : list BoundExpression) : list BoundExpression :=
  match expr with
  | BinaryOpNode kAnd l r _ => FlattenConjuncts_into r (FlattenConjuncts_into l out)
  | _ => out ++ [expr]
  end.
Definition FlattenConjuncts (expr : BoundExpression) : list BoundExpression := FlattenConjuncts_into expr [].

Fixpoint ExtractConjuncts_into (expr : BoundExpression) (out : list BoundExpression) : list BoundExpression :=
  match expr with
  | BinaryOpNode kAnd l r _ => ExtractConjuncts_into r (ExtractConjuncts_into l out)
  | _ => out ++ [expr]
  end.
Definition ExtractConjuncts (expr : BoundExpression) : list BoundExpression := ExtractConjuncts_into expr [].

Definition RebuildConjunction (conjuncts : list BoundExpression) : result BoundExpression :=
  first ← vec_get conjuncts 0;
  for_range 1 (length conjuncts - 1) (fun i res => c ← vec_get conjuncts i; mret (MakeBooleanOp kAnd res c)) first.

Fixpoint CollectColumnRefs_into (expr : BoundExpression) (out : list ColumnRef) : list ColumnRef :=
  match expr with
  | BoundColumnRef table_id ordinal type => out ++ [mk_ref table_id ordinal type]
  | ConstNode _ => out
  | BinaryOpNode _ l r _ => CollectColumnRefs_into r (CollectColumnRefs_into l out)
  | UnaryOpNode _ operand => CollectColumnRefs_into operand out
  end.
Definition CollectColumnRefs (expr : BoundExpression) : list ColumnRef := CollectColumnRefs_into expr [].

Definition AllColumnsAvailable (expr : BoundExpression) (available_table_ids : list Z) : bool :=
  forallb (fun ref => bool_decide (ref_table_id ref ∈ available_table_ids)) (CollectColumnRefs expr).

(** ** Facts *)

Lemma CollectColumnRefs_acc e out : CollectColumnRefs_into e out = out ++ CollectColumnRefs e.
Proof.
  unfold CollectColumnRefs. revert out. induction e as [i o t|v|op l IHl r IHr at_|op e IH]; intros out; simpl.
  - done.
  - by rewrite app_nil_r.
  - by rewrite IHr, (IHl out), (IHr (CollectColumnRefs_into l [])), app_assoc.
  - apply IH.
Qed.

Lemma CollectColumnRefs_binary op l r t :
  CollectColumnRefs (BinaryOpNode op l r t) = CollectColumnRefs l ++ CollectColumnRefs r.
Proof. unfold CollectColumnRefs at 1. simpl. by rewrite CollectColumnRefs_acc. Qed.

Lemma ExtractConjuncts_acc e out : ExtractConjuncts_into e out = out ++ ExtractConjuncts e.
Proof.
  unfold ExtractConjuncts. revert out. induction e as [i o t|v|op l IHl r IHr at_|op e IH]; intros out; try done.
  destruct op; try done. simpl. by rewrite IHr, (IHl out), (IHr (ExtractConjuncts_into l [])), app_assoc.
Qed.

Lemma ExtractConjuncts_and l r t : ExtractConjuncts (BinaryOpNode kAnd l r t) = ExtractConjuncts l ++ ExtractConjuncts r.
Proof. unfold ExtractConjuncts at 1. simpl. by rewrite ExtractConjuncts_acc. Qed.

Lemma ExtractConjuncts_refs e : concat (map CollectColumnRefs (ExtractConjuncts e)) = CollectColumnRefs e.
Proof.
  induction e as [i o t|v|op l IHl r IHr at_|op e IH]; [done|done| |unfold ExtractConjuncts; simpl; apply app_nil_r].
  assert (op <> kAnd -> ExtractConjuncts (BinaryOpNode op l r at_) = [BinaryOpNode op l r at_]) as Hne by by destruct op.
  destruct (decide (op = kAnd)) as [->|Hop]; [|rewrite (Hne Hop); simpl; apply app_nil_r].
  by rewrite ExtractConjuncts_and, map_app, concat_app, IHl, IHr, CollectColumnRefs_binary.
Qed.

(** The conjunction that is rebuilt. *)
Definition conjunction (c : BoundExpression) (cs : list BoundExpression) : BoundExpression := foldl (MakeBooleanOp kAnd) c cs.

Lemma RebuildConjunction_spec c cs : RebuildConjunction (c :: cs) = Ok (conjunction c cs).
Proof.
  unfold RebuildConjunction. cbn [vec_get lookup list_lookup]. rewrite bind_Ok.
  replace (length (c :: cs) - 1)%nat with (length cs) by (simpl; lia).
  destruct (for_range_inv (fun i res => res = conjunction c (take (i - 1) cs))
    (fun i res => x ← vec_get (c :: cs) i; mret (MakeBooleanOp kAnd res x)) 1 (length cs) c) as (res & -> & ->).
  - intros i res Hi ->. destruct (lookup_lt_is_Some_2 cs (i - 1)) as [x Hx]; [lia|].
    assert ((c :: cs) !! i = Some x) as Hc by (destruct i as [|i]; [lia|]; by rewrite Nat.sub_succ, Nat.sub_0_r in Hx).
    rewrite (proj2 (vec_get_Ok _ _ _) Hc), bind_Ok. eexists. split; [done|].
    replace (S i - 1)%nat with (S (i - 1)) by lia. rewrite (take_S_r _ _ _ Hx). unfold conjunction. by rewrite foldl_app.
  - done.
  - by replace (1 + length cs - 1)%nat with (length cs) by lia; rewrite firstn_all.
Qed.

Lemma AllColumnsAvailable_spec e ids :
  AllColumnsAvailable e ids = true <-> Forall (fun ref => ref_table_id ref ∈ ids) (CollectColumnRefs e).
Proof.
  unfold AllColumnsAvailable. rewrite forallb_forall, Forall_forall. setoid_rewrite <- list_elem_of_In.
  split; intros H ref Hr; specialize (H ref Hr); by apply bool_decide_eq_true in H || apply bool_decide_eq_true.
Qed.
