(* ===== verification/Queries.v ===== *)
(** What a logical plan means. A row of a plan is an environment: the value of every column
    that can be named, by binding and ordinal. A scan binds the columns of its table; an
    aggregation binds its output columns and, under their own names, the columns it
    groups by, which is what a HAVING clause can name. *)

From S2P Require Import Prelude Scalar Chunk Rows Expr Operators Accumulator Aggregate Plan PredicateUtils.

Abbreviation Row := (list (option Value)) (only parsing).
Abbreviation Env := (gmap (Z * Z) (option Value)) (only parsing).

(** ** Expressions *)

(** A column that is not bound reads as null. *)
Definition env_cell (row : Env) (table_id ordinal : Z) : option Value := default None (row !! (table_id, ordinal)).
Definition ref_cell (row : Env) (ref : ColumnRef) : option Value := env_cell row (ref_table_id ref) (ref_ordinal ref).

Fixpoint env_eval (e : BoundExpression) (row : Env) : option SqlVal :=
  match e with
  | BoundColumnRef table_id ordinal _ => Some (SqlValue (env_cell row table_id ordinal))
  | ConstNode v => Some (SqlValue (Some v))
  | BinaryOpNode op l r at_ => a ← env_eval l row; b ← env_eval r row; sql_binary op at_ a b
  | UnaryOpNode kNot e =>
      match env_eval e row with Some (SqlBool b) => Some (SqlBool (negb <$> b)) | _ => None end
  end.

Definition env_passes (predicate : BoundExpression) (row : Env) : Prop := env_eval predicate row = Some (SqlBool (Some true)).
#[global] Instance env_passes_dec p row : Decision (env_passes p row).
Proof. unfold env_passes. apply _. Defined.

Definition all_pass (conjuncts : list BoundExpression) (row : Env) : Prop := Forall (fun c => env_passes c row) conjuncts.
#[global] Instance all_pass_dec cs row : Decision (all_pass cs row).
Proof. unfold all_pass. apply _. Defined.

(** The value of a select expression. *)
Definition env_value (e : BoundExpression) (row : Env) : option Value :=
  match env_eval e row with Some (SqlValue v) => v | _ => None end.

(** ** Plans *)

(** The columns of a table row under a binding. *)
Definition env_row (table_id : Z) (row : Row) : Env := list_to_map (imap (fun j v => ((table_id, Z.of_nat j), v)) row).

(** Two columns hold the same value, and not null. *)
Definition cells_equal (row : Env) (condition : ColumnRef * ColumnRef) : bool :=
  match ref_cell row condition.1, ref_cell row condition.2 with
  | Some a, Some b => bool_decide (a = b)
  | _, _ => false
  end.

(** Every pair of rows that satisfies the conditions, the left rows in the outer loop. *)
Definition join_rows (conditions : list (ColumnRef * ColumnRef)) (ls rs : list Env) : list Env :=
  concat (map (fun l => filter (fun row => forallb (cells_equal row) conditions = true) (map (fun r => l ∪ r) rs)) ls).

Definition group_key (group_by : list ColumnRef) (row : Env) : Row := map (ref_cell row) group_by.

(** The distinct keys in order of first appearance. *)
Definition group_keys (group_by : list ColumnRef) (rows : list Env) : list Row :=
  foldl add_group (if decide (group_by = []) then [[]] else []) (map (group_key group_by) rows).

Definition execution_kind (kind : AggregateFunctionKind) : Accumulator.AggregateFunctionKind :=
  match kind with
  | kCountStar => Accumulator.kCountStar | kCount => Accumulator.kCount | kSum => Accumulator.kSum
  | kAvg => Accumulator.kAvg | kMin => Accumulator.kMin | kMax => Accumulator.kMax
  end.

(** An aggregate of the rows of a group; a missing argument is null. *)
Definition call_value (rows : list Env) (call : AggregateCall) : option Value :=
  aggregate (mk_spec (execution_kind (function call)) None (default kInteger (ref_type <$> argument call)))
    (map (fun row => argument call ≫= ref_cell row) rows).

Definition rows_with_key (group_by : list ColumnRef) (key : Row) (rows : list Env) : list Env :=
  filter (fun row => group_key group_by row = key) rows.

Definition group_env (group_by : list ColumnRef) (aggregates : list AggregateCall) (rows : list Env) (key : Row) : Env :=
  env_row kAggregateOutputBindingId (key ++ map (call_value (rows_with_key group_by key rows)) aggregates) ∪
  list_to_map (zip (map (fun ref => (ref_table_id ref, ref_ordinal ref)) group_by) key).

(** The grouping columns of a key. *)
Definition key_env (gb : list ColumnRef) (key : Row) : Env :=
  list_to_map (zip (map (fun ref => (ref_table_id ref, ref_ordinal ref)) gb) key).

(** The binding of a projection's columns, which nothing can name. *)
Definition kOutputBindingId : Z := -1.

Section Plan.
Context (db : Z -> list Row).

Fixpoint plan_rows (plan : LogicalPlanNode) : list Env :=
  match plan with
  | LogicalScan binding_id physical_table_id _ _ => map (env_row binding_id) (db physical_table_id)
  | LogicalFilter input predicate => filter (env_passes predicate) (plan_rows input)
  | LogicalJoin l r conditions => join_rows conditions (plan_rows l) (plan_rows r)
  | LogicalAggregate input group_by aggregates _ =>
      map (group_env group_by aggregates (plan_rows input)) (group_keys group_by (plan_rows input))
  | LogicalProjection input exprs _ =>
      map (fun row => env_row kOutputBindingId (map (fun e => env_value e row) exprs)) (plan_rows input)
  end.

(** The result of a query, whose root is a projection. *)
Definition query_rows (plan : LogicalPlanNode) : list Row :=
  match plan with
  | LogicalProjection input exprs _ => map (fun row => map (fun e => env_value e row) exprs) (plan_rows input)
  | _ => []
  end.

End Plan.
