(* ===== verification/Pushdown.v ===== *)
(** Model of [src/optimizer/predicate_pushdown.cpp], and the theorem that pushing predicates
    towards the scans does not change what a plan means, row order included. *)

From S2P Require Import Prelude Scalar Chunk Rows Expr Operators Accumulator Aggregate Ast Plan PredicateUtils Queries.

(** ** The code *)

Definition ReferencesOnlyGroupByColumns (expr : BoundExpression) (group_by : list ColumnRef) : bool :=
  forallb (fun ref => existsb (fun key =>
    (ref_table_id key =? ref_table_id ref) && (ref_ordinal key =? ref_ordinal ref)) group_by) (CollectColumnRefs expr).

Definition WrapInFilter (node : LogicalPlanNode) (conjuncts : list BoundExpression) : result LogicalPlanNode :=
  match conjuncts with
  | [] => mret node
  | _ => predicate ← RebuildConjunction conjuncts; mret (MakeLogicalFilter node predicate)
  end.

(** The loop over the conjuncts above a join: what goes left, what goes right, what stays. *)
Definition join_buckets (left_ids right_ids : list Z) (conjuncts : list BoundExpression)
    : list BoundExpression * list BoundExpression * list BoundExpression :=
  foldl (fun buckets conjunct =>
    let '(left_bucket, right_bucket, stays_here) := buckets in
    if AllColumnsAvailable conjunct left_ids then (left_bucket ++ [conjunct], right_bucket, stays_here)
    else if AllColumnsAvailable conjunct right_ids then (left_bucket, right_bucket ++ [conjunct], stays_here)
    else (left_bucket, right_bucket, stays_here ++ [conjunct])) ([], [], []) conjuncts.

(** The loop over the conjuncts above an aggregation. *)
Definition aggregate_buckets (group_by : list ColumnRef) (conjuncts : list BoundExpression)
    : list BoundExpression * list BoundExpression :=
  foldl (fun buckets conjunct =>
    let '(eligible, ineligible) := buckets in
    if ReferencesOnlyGroupByColumns conjunct group_by then (eligible ++ [conjunct], ineligible)
    else (eligible, ineligible ++ [conjunct])) ([], []) conjuncts.

Fixpoint PlaceInto (node : LogicalPlanNode) (conjuncts : list BoundExpression) : result LogicalPlanNode :=
  match conjuncts with
  | [] => mret node
  | _ =>
      match node with
      | LogicalScan _ _ _ _ => WrapInFilter node conjuncts
      | LogicalFilter input predicate =>
          predicate ← RebuildConjunction (predicate :: conjuncts);
          mret (LogicalFilter input predicate)
      | LogicalJoin l r equi_conditions =>
          let '(left_bucket, right_bucket, stays_here) := join_buckets (CollectBindingIds l) (CollectBindingIds r) conjuncts in
          l ← PlaceInto l left_bucket;
          r ← PlaceInto r right_bucket;
          WrapInFilter (LogicalJoin l r equi_conditions) stays_here
      | LogicalAggregate input group_by aggregates output_columns =>
          let '(eligible, ineligible) := aggregate_buckets group_by conjuncts in
          input ← PlaceInto input eligible;
          WrapInFilter (LogicalAggregate input group_by aggregates output_columns) ineligible
      | LogicalProjection input select_expressions output_columns =>
          input ← PlaceInto input conjuncts;
          mret (LogicalProjection input select_expressions output_columns)
      end
  end.

Fixpoint Rewrite (node : LogicalPlanNode) : result LogicalPlanNode :=
  match node with
  | LogicalScan _ _ _ _ => mret node
  | LogicalFilter input predicate =>
      rewritten_child ← Rewrite input;
      PlaceInto rewritten_child (ExtractConjuncts predicate)
  | LogicalJoin l r equi_conditions =>
      l ← Rewrite l;
      r ← Rewrite r;
      mret (LogicalJoin l r equi_conditions)
  | LogicalAggregate input group_by aggregates output_columns =>
      input ← Rewrite input;
      mret (LogicalAggregate input group_by aggregates output_columns)
  | LogicalProjection input select_expressions output_columns =>
      input ← Rewrite input;
      mret (LogicalProjection input select_expressions output_columns)
  end.

Definition PushdownPredicates (root : LogicalPlanNode) : result LogicalPlanNode := Rewrite root.

(** ** Conjunctions *)

Lemma passes_and a b t row : env_passes (BinaryOpNode kAnd a b t) row <-> env_passes a row /\ env_passes b row.
Proof.
  unfold env_passes. simpl.
  destruct (env_eval a row) as [[[v|]|[[]|]]|], (env_eval b row) as [[[w|]|[[]|]]|]; simpl;
    (split; [intros H; try discriminate H; done|intros [H1 H2]; try discriminate H1; try discriminate H2; done]).
Qed.

Lemma passes_conjunction c cs row : env_passes (conjunction c cs) row <-> all_pass (c :: cs) row.
Proof.
  unfold conjunction, all_pass. revert c. induction cs as [|d cs IH]; intros c; simpl.
  - by rewrite Forall_singleton.
  - rewrite IH, !Forall_cons. unfold MakeBooleanOp. rewrite passes_and. tauto.
Qed.

Lemma passes_extract e row : all_pass (ExtractConjuncts e) row <-> env_passes e row.
Proof.
  assert (forall e, ExtractConjuncts e = [e] -> all_pass (ExtractConjuncts e) row <-> env_passes e row) as Hone.
  { intros e' ->. unfold all_pass. by rewrite Forall_singleton. }
  induction e as [i o t|v|op l IHl r IHr at_|op e IH]; [by apply Hone|by apply Hone| |by apply Hone].
  destruct (decide (op = kAnd)) as [->|Hop]; [|apply Hone; by destruct op].
  unfold all_pass in *. by rewrite ExtractConjuncts_and, Forall_app, IHl, IHr, passes_and.
Qed.

Lemma WrapInFilter_spec node cs : exists plan, WrapInFilter node cs = Ok plan /\
  plan = match cs with [] => node | c :: cs => LogicalFilter node (conjunction c cs) end.
Proof. destruct cs as [|c cs]; [by eexists|]. unfold WrapInFilter. rewrite RebuildConjunction_spec. by eexists. Qed.

(** The buckets are the conjuncts, each in one of them. *)
Definition goes_left (ls : list Z) (c : BoundExpression) : bool := AllColumnsAvailable c ls.
Definition goes_right (ls rs : list Z) (c : BoundExpression) : bool := negb (goes_left ls c) && AllColumnsAvailable c rs.
Definition stays (ls rs : list Z) (c : BoundExpression) : bool := negb (goes_left ls c) && negb (goes_right ls rs c).

Lemma join_buckets_spec ls rs cs :
  join_buckets ls rs cs = (List.filter (goes_left ls) cs, List.filter (goes_right ls rs) cs, List.filter (stays ls rs) cs).
Proof.
  unfold join_buckets. induction cs as [|c cs IH] using rev_ind; [done|].
  rewrite foldl_app, IH, !List.filter_app. simpl. unfold stays, goes_right, goes_left.
  destruct (AllColumnsAvailable c ls); simpl; [by rewrite !app_nil_r|].
  destruct (AllColumnsAvailable c rs); simpl; by rewrite !app_nil_r.
Qed.

Lemma aggregate_buckets_spec gb cs :
  aggregate_buckets gb cs = (List.filter (fun c => ReferencesOnlyGroupByColumns c gb) cs,
    List.filter (fun c => negb (ReferencesOnlyGroupByColumns c gb)) cs).
Proof.
  unfold aggregate_buckets. induction cs as [|c cs IH] using rev_ind; [done|].
  rewrite foldl_app, IH, !List.filter_app. simpl. destruct (ReferencesOnlyGroupByColumns c gb); by rewrite !app_nil_r.
Qed.

Lemma all_pass_split (p : BoundExpression -> bool) cs row :
  all_pass cs row <-> all_pass (List.filter p cs) row /\ all_pass (List.filter (fun c => negb (p c)) cs) row.
Proof.
  unfold all_pass. induction cs as [|c cs IH]; simpl; [by rewrite !Forall_nil|].
  rewrite Forall_cons, IH. destruct (p c); simpl; rewrite Forall_cons; tauto.
Qed.

Lemma all_pass_buckets ls rs cs row :
  all_pass cs row <-> all_pass (List.filter (goes_left ls) cs ++ List.filter (goes_right ls rs) cs) row /\
    all_pass (List.filter (stays ls rs) cs) row.
Proof.
  unfold all_pass. rewrite Forall_app. induction cs as [|d ds IH]; simpl; [by rewrite !Forall_nil|].
  rewrite Forall_cons, IH. unfold stays, goes_right. destruct (goes_left ls d); simpl; [rewrite Forall_cons; tauto|].
  destruct (AllColumnsAvailable d rs); simpl; rewrite Forall_cons; tauto.
Qed.

(** ** Rows and the columns they bind *)

Lemma env_eval_agree e row row' :
  Forall (fun ref => ref_cell row ref = ref_cell row' ref) (CollectColumnRefs e) -> env_eval e row = env_eval e row'.
Proof.
  induction e as [i o t|v|op l IHl r IHr at_|[] e IH]; intros Hag; simpl.
  - unfold CollectColumnRefs in Hag. simpl in Hag. rewrite Forall_singleton in Hag. do 2 f_equal. exact Hag.
  - done.
  - rewrite CollectColumnRefs_binary in Hag. apply Forall_app in Hag as [Hl Hr]. by rewrite IHl, IHr.
  - by rewrite IH.
Qed.

(** Every column a row binds belongs to one of the bindings. *)
Definition covered (ids : list Z) (row : Env) : Prop := forall id ord v, row !! (id, ord) = Some v -> id ∈ ids.

Lemma env_row_lookup b row id ord v :
  env_row b row !! (id, ord) = Some v <-> id = b /\ 0 <= ord /\ row !! Z.to_nat ord = Some v.
Proof.
  unfold env_row. rewrite <- elem_of_list_to_map.
  - rewrite list_elem_of_lookup. setoid_rewrite list_lookup_imap. split.
    + intros (j & Hj). destruct (row !! j) as [w|] eqn:Ew; [|done]. injection Hj as <- <- <-. by rewrite Nat2Z.id; split_and!; [|lia|].
    + intros (-> & Ho & Hv). exists (Z.to_nat ord). by rewrite Hv; simpl; rewrite Z2Nat.id.
  - rewrite fmap_imap. apply NoDup_alt. intros i j x Hi Hj. rewrite !list_lookup_imap in Hi, Hj.
    destruct (row !! i), (row !! j); simplify_eq/=; lia.
Qed.

Lemma env_row_covered b row : covered [b] (env_row b row).
Proof. intros id ord v (-> & _)%env_row_lookup. by apply list_elem_of_singleton. Qed.

Lemma covered_union ids ids' l r : covered ids l -> covered ids' r -> covered (ids ++ ids') (l ∪ r).
Proof. intros Hl Hr id ord v [Hv|[_ Hv]]%lookup_union_Some_raw; apply elem_of_app; [left; eauto|right; eauto]. Qed.

Lemma ref_cell_left ids l r ref : covered ids r -> ref_table_id ref ∉ ids -> ref_cell (l ∪ r) ref = ref_cell l ref.
Proof.
  intros Hr Hn. unfold ref_cell, env_cell. rewrite lookup_union.
  destruct (r !! (ref_table_id ref, ref_ordinal ref)) eqn:E; [by apply Hr in E|]. by destruct (l !! _).
Qed.

Lemma ref_cell_right ids l r ref : covered ids l -> ref_table_id ref ∉ ids -> ref_cell (l ∪ r) ref = ref_cell r ref.
Proof.
  intros Hl Hn. unfold ref_cell, env_cell. rewrite lookup_union.
  destruct (l !! (ref_table_id ref, ref_ordinal ref)) eqn:E; [by apply Hl in E|]. by destruct (r !! _).
Qed.

(** ** The plans that are rewritten *)

Definition apart (ids ids' : list Z) : Prop := forall id, id ∈ ids -> id ∉ ids'.

(** Scans, filters and joins; the operands of a join have different bindings. *)
Fixpoint relational (plan : LogicalPlanNode) : Prop :=
  match plan with
  | LogicalScan _ _ _ _ => True
  | LogicalFilter input _ => relational input
  | LogicalJoin l r _ => relational l /\ relational r /\ apart (CollectBindingIds l) (CollectBindingIds r)
  | _ => False
  end.

(** Plans below which a predicate may be placed: not below an aggregation without GROUP BY. *)
Fixpoint filterable (plan : LogicalPlanNode) : Prop :=
  match plan with
  | LogicalFilter input _ => filterable input
  | LogicalAggregate _ group_by _ _ => group_by <> []
  | LogicalProjection _ _ _ => False
  | _ => True
  end.

(** The plans of the binder, except HAVING without GROUP BY. *)
Fixpoint scoped (plan : LogicalPlanNode) : Prop :=
  match plan with
  | LogicalScan _ _ _ _ => True
  | LogicalFilter input _ => scoped input /\ filterable input
  | LogicalJoin l r _ => relational l /\ relational r /\ apart (CollectBindingIds l) (CollectBindingIds r)
  | LogicalAggregate input group_by _ _ => scoped input /\ filterable input /\
      Forall (fun ref => ref_table_id ref <> kAggregateOutputBindingId) group_by
  | LogicalProjection input _ _ => scoped input
  end.

Lemma relational_scoped plan : relational plan -> scoped plan /\ filterable plan.
Proof. induction plan; simpl; try done; tauto. Qed.

Section Equivalence.
Context (db : Z -> list Row).

Lemma join_rows_cons conds l ls rs : join_rows conds (l :: ls) rs = join_rows conds [l] rs ++ join_rows conds ls rs.
Proof. unfold join_rows. simpl. by rewrite app_nil_r. Qed.

Lemma elem_of_join_rows conds ls rs row :
  row ∈ join_rows conds ls rs -> exists l r, l ∈ ls /\ r ∈ rs /\ row = l ∪ r /\ forallb (cells_equal row) conds = true.
Proof.
  unfold join_rows. rewrite list_elem_of_In, in_concat. intros (rows & Hin & Hrow).
  apply in_map_iff in Hin as (l & <- & Hl). apply list_elem_of_In, list_elem_of_filter in Hrow as [Hc Hrow].
  apply list_elem_of_fmap in Hrow as (r & -> & Hr). exists l, r. split_and!; [by apply list_elem_of_In|done|done|done].
Qed.

Lemma relational_covered plan row : relational plan -> row ∈ plan_rows db plan -> covered (CollectBindingIds plan) row.
Proof.
  revert row. induction plan as [b t cs req|i IH pred|l IHl r IHr conds| |]; intros row; simpl; try done.
  - intros _ (x & -> & _)%list_elem_of_fmap. apply env_row_covered.
  - intros Hrel [_ Hrow]%list_elem_of_filter. by apply IH.
  - intros (Hl & Hr & _) (x & y & Hx & Hy & -> & _)%elem_of_join_rows. apply covered_union; auto.
Qed.

(** Filtering a join is joining filtered operands. *)
Lemma filter_join (P Pl Pr Q : Env -> Prop) `{!forall x, Decision (P x)} `{!forall x, Decision (Pl x)}
    `{!forall x, Decision (Pr x)} `{!forall x, Decision (Q x)} conds ls rs :
  (forall l r, l ∈ ls -> r ∈ rs -> P (l ∪ r) <-> Pl l /\ Pr r /\ Q (l ∪ r)) ->
  filter P (join_rows conds ls rs) = filter Q (join_rows conds (filter Pl ls) (filter Pr rs)).
Proof.
  intros HP. induction ls as [|l ls IH]; [done|]. rewrite join_rows_cons, filter_app, IH.
  2: { intros l' r Hl Hr. apply HP; [by constructor|done]. }
  rewrite filter_cons. clear IH.
  assert (filter P (join_rows conds [l] rs) = if decide (Pl l) then filter Q (join_rows conds [l] (filter Pr rs)) else []) as ->.
  { unfold join_rows. simpl. rewrite !app_nil_r.
    assert (forall r, r ∈ rs -> P (l ∪ r) <-> Pl l /\ Pr r /\ Q (l ∪ r)) as HP' by (intros r Hr; apply HP; [constructor|done]).
    rewrite list_filter_filter, filter_map. destruct (decide (Pl l)) as [Hl|Hl].
    - rewrite list_filter_filter, filter_map, list_filter_filter. f_equal. apply filter_ext_in. intros r Hr. rewrite (HP' r Hr). tauto.
    - rewrite filter_none; [done|]. intros r Hr [Hp _]. by destruct (proj1 (HP' r Hr) Hp). }
  destruct (decide (Pl l)); [|done]. by rewrite (join_rows_cons conds l (filter Pl ls)), filter_app.
Qed.

(** ** Filtering groups *)

Lemma add_group_filter (P : Row -> Prop) `{!forall x, Decision (P x)} init k :
  filter P (add_group init k) = if decide (P k) then add_group (filter P init) k else filter P init.
Proof.
  unfold add_group. destruct (decide (k ∈ init)) as [Hin|Hin]; destruct (decide (P k)) as [HP|HP]; try done.
  - by rewrite decide_True by by apply list_elem_of_filter.
  - rewrite filter_app, filter_cons, decide_True, decide_False by (done || by intros [_ ?]%list_elem_of_filter). done.
  - by rewrite filter_app, filter_cons, decide_False, app_nil_r.
Qed.

Lemma foldl_add_group_filter (P : Row -> Prop) `{!forall x, Decision (P x)} init ks :
  foldl add_group (filter P init) (filter P ks) = filter P (foldl add_group init ks).
Proof.
  revert init. induction ks as [|k ks IH]; intros init; [done|]. rewrite filter_cons. simpl. rewrite <- IH, add_group_filter.
  by destruct (decide (P k)).
Qed.

Definition in_key (gb : list ColumnRef) (ref : ColumnRef) : Prop :=
  exists key, key ∈ gb /\ ref_table_id key = ref_table_id ref /\ ref_ordinal key = ref_ordinal ref.

Lemma key_env_cell gb row ref : in_key gb ref -> ref_cell (key_env gb (group_key gb row)) ref = ref_cell row ref.
Proof.
  intros (key & Hin & Hid & Hord). unfold ref_cell, env_cell, key_env, group_key. induction gb as [|g gb IH]; [by apply not_elem_of_nil in Hin|].
  simpl. destruct (decide ((ref_table_id g, ref_ordinal g) = (ref_table_id ref, ref_ordinal ref))) as [Heq|Hne].
  - rewrite Heq, lookup_insert_eq. unfold ref_cell, env_cell. by rewrite Heq.
  - rewrite lookup_insert_ne by done. apply elem_of_cons in Hin as [->|Hin]; [by rewrite Hid, Hord in Hne|by apply IH].
Qed.

Lemma ReferencesOnlyGroupByColumns_spec e gb :
  ReferencesOnlyGroupByColumns e gb = true <-> Forall (in_key gb) (CollectColumnRefs e).
Proof.
  unfold ReferencesOnlyGroupByColumns. rewrite forallb_forall, Forall_forall. setoid_rewrite <- list_elem_of_In.
  apply forall_proper. intros ref. apply imp_iff_compat_l. rewrite existsb_exists. unfold in_key.
  apply exist_proper. intros key. rewrite list_elem_of_In, andb_true_iff, !Z.eqb_eq. tauto.
Qed.

Lemma group_env_cell gb aggs rows key ref :
  ref_table_id ref <> kAggregateOutputBindingId -> ref_cell (group_env gb aggs rows key) ref = ref_cell (key_env gb key) ref.
Proof.
  intros Hne. unfold group_env. eapply ref_cell_right; [apply env_row_covered|]. by intros ?%list_elem_of_singleton.
Qed.

Lemma all_pass_agree cs row row' :
  Forall (fun c => Forall (fun ref => ref_cell row ref = ref_cell row' ref) (CollectColumnRefs c)) cs ->
  all_pass cs row <-> all_pass cs row'.
Proof.
  intros Hag. unfold all_pass.
  induction Hag as [|c cs Hc _ IH]; [by rewrite !Forall_nil|]. rewrite !Forall_cons, IH. unfold env_passes. by rewrite (env_eval_agree c row row').
Qed.

(** A predicate on the grouping columns may be applied before grouping. *)
Lemma filter_groups gb aggs rows cs :
  gb <> [] -> Forall (fun ref => ref_table_id ref <> kAggregateOutputBindingId) gb ->
  Forall (fun c => ReferencesOnlyGroupByColumns c gb = true) cs ->
  filter (all_pass cs) (map (group_env gb aggs rows) (group_keys gb rows)) =
  map (group_env gb aggs (filter (all_pass cs) rows)) (group_keys gb (filter (all_pass cs) rows)).
Proof.
  intros Hgb Hids Hcs. set (P := fun key => all_pass cs (key_env gb key)).
  assert (forall ref, in_key gb ref -> ref_table_id ref <> kAggregateOutputBindingId) as Hne.
  { intros ref (key & Hin & <- & _). rewrite Forall_forall in Hids. by apply Hids. }
  assert (Forall (fun c => Forall (in_key gb) (CollectColumnRefs c)) cs) as Hrefs.
  { eapply Forall_impl; [exact Hcs|]. intros c. apply ReferencesOnlyGroupByColumns_spec. }
  assert (forall row, all_pass cs row <-> P (group_key gb row)) as Hrow.
  { intros row. apply all_pass_agree. eapply Forall_impl; [exact Hrefs|]. intros c Hc. eapply Forall_impl; [exact Hc|].
    intros ref Hr. by rewrite key_env_cell. }
  assert (forall rows' key, all_pass cs (group_env gb aggs rows' key) <-> P key) as Hkey.
  { intros rows' key. apply all_pass_agree. eapply Forall_impl; [exact Hrefs|]. intros c Hc. eapply Forall_impl; [exact Hc|].
    intros ref Hr. apply group_env_cell. by apply Hne. }
  assert (group_keys gb (filter (all_pass cs) rows) = filter P (group_keys gb rows)) as ->.
  { unfold group_keys. rewrite decide_False by done. rewrite <- foldl_add_group_filter. f_equal.
    rewrite filter_map. f_equal. apply filter_ext_in. intros row _. apply Hrow. }
  rewrite filter_map. erewrite (filter_ext_in _ P) by (intros key _; apply Hkey).
  apply map_ext_in. intros key Hin%list_elem_of_In. apply list_elem_of_filter in Hin as [HP _].
  unfold group_env. assert (rows_with_key gb key (filter (all_pass cs) rows) = rows_with_key gb key rows) as ->; [|done].
  unfold rows_with_key. rewrite list_filter_filter. apply filter_ext_in. intros row _. rewrite Hrow. split; [by intros [-> _]|by intros ->].
Qed.

(** ** Placing predicates *)

(** [plan'] is [plan] with the conjuncts placed into it. *)
Record placed (plan : LogicalPlanNode) (cs : list BoundExpression) (plan' : LogicalPlanNode) : Prop := {
  pl_ids : CollectBindingIds plan' = CollectBindingIds plan;
  pl_relational : relational plan -> relational plan';
  pl_filterable : filterable plan -> filterable plan';
  pl_scoped : scoped plan';
  pl_rows : plan_rows db plan' = filter (all_pass cs) (plan_rows db plan);
}.

Lemma filter_pass_nil (rows : list Env) : filter (all_pass []) rows = rows.
Proof. apply filter_all. intros row _. constructor. Qed.

Lemma placed_refl plan : scoped plan -> placed plan [] plan.
Proof. intros Hs. split; try done. by rewrite filter_pass_nil. Qed.

Lemma placed_trans plan cs1 plan1 cs2 plan2 cs :
  placed plan cs1 plan1 -> placed plan1 cs2 plan2 ->
  (forall row, all_pass cs row <-> all_pass cs1 row /\ all_pass cs2 row) -> placed plan cs plan2.
Proof.
  intros [Hi1 Hr1 Hf1 Hs1 Hp1] [Hi2 Hr2 Hf2 Hs2 Hp2] Hcs. split; auto; [congruence|].
  rewrite Hp2, Hp1, list_filter_filter. apply filter_ext_in. intros row _. rewrite Hcs. tauto.
Qed.

Lemma WrapInFilter_placed node cs : scoped node -> cs = [] \/ filterable node ->
  exists plan, WrapInFilter node cs = Ok plan /\ placed node cs plan.
Proof.
  intros Hs Hf. destruct (WrapInFilter_spec node cs) as (plan & HW & ->). eexists. split; [exact HW|].
  destruct cs as [|c cs]; [by apply placed_refl|]. destruct Hf as [|Hf]; [done|]. split; try done.
  simpl. apply filter_ext_in. intros row _. apply passes_conjunction.
Qed.

Lemma join_placed l r conds lb rb l' r' :
  scoped (LogicalJoin l r conds) -> placed l lb l' -> placed r rb r' ->
  Forall (fun c => AllColumnsAvailable c (CollectBindingIds l) = true) lb ->
  Forall (fun c => AllColumnsAvailable c (CollectBindingIds r) = true) rb ->
  placed (LogicalJoin l r conds) (lb ++ rb) (LogicalJoin l' r' conds).
Proof.
  intros (Hl & Hr & Hap) [Hil Hrl Hfl Hsl Hpl] [Hir Hrr Hfr Hsr Hpr] Hlb Hrb.
  split; simpl; [by rewrite Hil, Hir|by rewrite Hil, Hir; auto|done|by rewrite Hil, Hir; auto|].
  rewrite Hpl, Hpr. symmetry.
  etransitivity; [apply (filter_join _ (all_pass lb) (all_pass rb) (fun _ => True))|by apply filter_all]. intros x y Hx Hy. pose proof (relational_covered l x Hl Hx) as Hcx. pose proof (relational_covered r y Hr Hy) as Hcy.
  assert (all_pass lb (x ∪ y) <-> all_pass lb x) as Hbl.
  { apply all_pass_agree. eapply Forall_impl; [exact Hlb|]. intros c Hc%AllColumnsAvailable_spec. eapply Forall_impl; [exact Hc|].
    intros ref Hin. eapply ref_cell_left; [exact Hcy|by apply Hap]. }
  assert (all_pass rb (x ∪ y) <-> all_pass rb y) as Hbr.
  { apply all_pass_agree. eapply Forall_impl; [exact Hrb|]. intros c Hc%AllColumnsAvailable_spec. eapply Forall_impl; [exact Hc|].
    intros ref Hin. eapply ref_cell_right; [exact Hcx|]. intros Hin'. by apply (Hap _ Hin'). }
  unfold all_pass at 1. rewrite Forall_app. unfold all_pass in Hbl, Hbr |- *. rewrite Hbl, Hbr. tauto.
Qed.

Lemma aggregate_placed input gb aggs columns cs input' :
  scoped (LogicalAggregate input gb aggs columns) -> placed input cs input' -> cs = [] \/ gb <> [] ->
  Forall (fun c => ReferencesOnlyGroupByColumns c gb = true) cs ->
  placed (LogicalAggregate input gb aggs columns) cs (LogicalAggregate input' gb aggs columns).
Proof.
  intros (Hs & Hf & Hids) [Hi Hr Hf' Hs' Hp] Hgb Hcs. split; simpl; [done|done|done|by auto|].
  rewrite Hp. destruct cs as [|c cs]; [by rewrite !filter_pass_nil|]. destruct Hgb as [|Hgb]; [done|].
  symmetry. by apply filter_groups.
Qed.

Lemma Forall_List_filter {A} (p : A -> bool) xs : Forall (fun x => p x = true) (List.filter p xs).
Proof. apply Forall_forall. intros x Hx%list_elem_of_In%filter_In. apply Hx. Qed.

Lemma PlaceInto_spec plan cs : scoped plan -> cs = [] \/ filterable plan ->
  exists plan', PlaceInto plan cs = Ok plan' /\ placed plan cs plan'.
Proof.
  revert cs. induction plan as [b t columns req|i IH pred|l IHl r IHr conds|i IH gb aggs columns|i IH es columns]; intros cs Hs Hf;
    (destruct cs as [|c cs]; [eexists; split; [done|by apply placed_refl]|]); (destruct Hf as [|Hf]; [done|]).
  - apply WrapInFilter_placed; auto.
  - cbn [PlaceInto]. rewrite RebuildConjunction_spec, bind_Ok. eexists. split; [done|]. split; try done.
    simpl. rewrite list_filter_filter. apply filter_ext_in. intros row _. rewrite passes_conjunction. unfold all_pass. rewrite !Forall_cons. unfold MakeBooleanOp. rewrite passes_and. tauto.
  - cbn [PlaceInto]. rewrite join_buckets_spec. set (cs0 := c :: cs) in *.
    destruct Hs as (Hl & Hr & Hap). pose proof (relational_scoped l Hl) as [Hsl Hfl]. pose proof (relational_scoped r Hr) as [Hsr Hfr].
    set (ls := CollectBindingIds l) in *. set (rs := CollectBindingIds r) in *.
    destruct (IHl (List.filter (goes_left ls) cs0) Hsl (or_intror Hfl)) as (l' & -> & Hpl). rewrite bind_Ok.
    destruct (IHr (List.filter (goes_right ls rs) cs0) Hsr (or_intror Hfr)) as (r' & -> & Hpr). rewrite bind_Ok.
    assert (placed (LogicalJoin l r conds) (List.filter (goes_left ls) cs0 ++ List.filter (goes_right ls rs) cs0)
      (LogicalJoin l' r' conds)) as Hj.
    { apply join_placed; [done|done|done|apply Forall_List_filter|]. eapply Forall_impl; [apply Forall_List_filter|].
      intros d Hd. by apply andb_true_iff in Hd as [_ ?]. }
    destruct (WrapInFilter_placed (LogicalJoin l' r' conds) (List.filter (stays ls rs) cs0))
      as (plan & HW & Hw); [exact (pl_scoped _ _ _ Hj)|by right|].
    exists plan. split; [exact HW|]. eapply placed_trans; [exact Hj|exact Hw|]. intros row. apply all_pass_buckets.
  - cbn [PlaceInto]. rewrite aggregate_buckets_spec. set (cs0 := c :: cs) in *. destruct Hs as (Hs & Hfi & Hids).
    destruct (IH (List.filter (fun c => ReferencesOnlyGroupByColumns c gb) cs0) Hs (or_intror Hfi)) as (i' & -> & Hpi). rewrite bind_Ok.
    assert (placed (LogicalAggregate i gb aggs columns) (List.filter (fun c => ReferencesOnlyGroupByColumns c gb) cs0)
      (LogicalAggregate i' gb aggs columns)) as Ha by (apply aggregate_placed; [done|done|by right|apply Forall_List_filter]).
    destruct (WrapInFilter_placed (LogicalAggregate i' gb aggs columns)
      (List.filter (fun c => negb (ReferencesOnlyGroupByColumns c gb)) cs0)) as (plan & HW & Hw); [exact (pl_scoped _ _ _ Ha)|by right|].
    exists plan. split; [exact HW|]. eapply placed_trans; [exact Ha|exact Hw|]. intros row. apply all_pass_split.
  - done.
Qed.

Lemma Rewrite_spec plan : scoped plan -> exists plan', Rewrite plan = Ok plan' /\ placed plan [] plan'.
Proof.
  induction plan as [b t columns req|i IH pred|l IHl r IHr conds|i IH gb aggs columns|i IH es columns]; intros Hs; cbn [Rewrite].
  - eexists. split; [done|by apply placed_refl].
  - destruct Hs as [Hs Hf]. destruct (IH Hs) as (i' & -> & Hi). rewrite bind_Ok.
    destruct (PlaceInto_spec i' (ExtractConjuncts pred)) as (plan' & HP & Hp); [exact (pl_scoped _ _ _ Hi)|right; by apply (pl_filterable _ _ _ Hi)|].
    exists plan'. split; [done|]. destruct Hi as [Hi1 Hr1 Hf1 Hs1 Hp1], Hp as [Hi2 Hr2 Hf2 Hs2 Hp2].
    split; simpl; auto; [congruence|]. rewrite Hp2, Hp1, !filter_pass_nil. apply filter_ext_in. intros row _. apply passes_extract.
  - pose proof Hs as (Hl & Hr & Hap).
    destruct (IHl (proj1 (relational_scoped l Hl))) as (l' & -> & Hpl). rewrite bind_Ok.
    destruct (IHr (proj1 (relational_scoped r Hr))) as (r' & -> & Hpr). rewrite bind_Ok.
    eexists. split; [done|]. by apply (join_placed l r conds [] []).
  - destruct (IH (proj1 Hs)) as (i' & -> & Hi). rewrite bind_Ok. eexists. split; [done|].
    apply aggregate_placed; [done|done|by left|done].
  - destruct (IH Hs) as (i' & -> & [Hi Hr Hf Hs' Hp]). rewrite bind_Ok. eexists. split; [done|].
    split; simpl; try done. by rewrite Hp, !filter_pass_nil.
Qed.

End Equivalence.

(** C7. Predicate pushdown always returns a plan, and the plan has the rows of the original in
    their order, over any tables: for plans whose joins are between different bindings
    and in which no predicate stands above an aggregation without GROUP BY. *)
Theorem PushdownPredicates_correct (db : Z -> list Row) plan :
  scoped plan -> exists plan', PushdownPredicates plan = Ok plan' /\ scoped plan' /\ plan_rows db plan' = plan_rows db plan.
Proof.
  intros Hs. destruct (Rewrite_spec db plan Hs) as (plan' & HR & Hp). exists plan'. split; [done|].
  split; [apply (pl_scoped _ _ _ _ Hp)|by rewrite (pl_rows _ _ _ _ Hp), filter_pass_nil].
Qed.

Lemma constant_conjuncts e : CollectColumnRefs e = [] -> Forall (fun c => CollectColumnRefs c = []) (ExtractConjuncts e).
Proof.
  rewrite <- ExtractConjuncts_refs. induction (ExtractConjuncts e) as [|c cs IH]; [by constructor|]. simpl.
  intros [Hc Hcs]%app_nil. constructor; auto.
Qed.

Lemma PlaceInto_constant (db : Z -> list Row) i aggs columns cs :
  scoped i -> filterable i -> Forall (fun c => CollectColumnRefs c = []) cs ->
  exists i', PlaceInto (LogicalAggregate i [] aggs columns) cs = Ok (LogicalAggregate i' [] aggs columns).
Proof.
  intros Hs Hf Hcs. destruct cs as [|c cs]; [by eexists|]. cbn [PlaceInto]. rewrite aggregate_buckets_spec.
  assert (forall ds, Forall (fun c => CollectColumnRefs c = []) ds ->
    List.filter (fun c => ReferencesOnlyGroupByColumns c []) ds = ds /\
    List.filter (fun c => negb (ReferencesOnlyGroupByColumns c [])) ds = []) as Hall.
  { induction 1 as [|d ds Hd _ [IH1 IH2]]; [done|]. simpl. unfold ReferencesOnlyGroupByColumns in *. by rewrite Hd, IH1, IH2. }
  destruct (Hall _ Hcs) as [-> ->]. destruct (PlaceInto_spec db i (c :: cs) Hs (or_intror Hf)) as (i' & -> & _).
  by exists i'.
Qed.

Lemma global_group_keys rows : group_keys [] rows = [[]].
Proof.
  unfold group_keys. simpl. induction rows as [|row rows IH]; [done|]. simpl.
  unfold add_group at 2. by rewrite decide_True by (by apply list_elem_of_singleton).
Qed.

(** C38. A HAVING condition without columns is pushed below an aggregation without GROUP BY: a
    false one removes the only row in the plan as bound, and has no such effect in the
    plan that is executed, which delivers the aggregates of no rows. *)
Theorem constant_having_ignored (db : Z -> list Row) input aggregates columns having :
  scoped input -> filterable input -> CollectColumnRefs having = [] -> (forall row, ~ env_passes having row) ->
  let plan := LogicalFilter (LogicalAggregate input [] aggregates columns) having in
  exists plan', PushdownPredicates plan = Ok plan' /\ plan_rows db plan = [] /\ length (plan_rows db plan') = 1%nat.
Proof.
  intros Hs Hf Href Hfalse plan. destruct (Rewrite_spec db input Hs) as (i1 & HR & Hp).
  destruct (PlaceInto_constant db i1 aggregates columns (ExtractConjuncts having)) as (i2 & HP);
    [exact (pl_scoped _ _ _ _ Hp)|by apply (pl_filterable _ _ _ _ Hp)|by apply constant_conjuncts|].
  exists (LogicalAggregate i2 [] aggregates columns). split; [|split].
  - unfold PushdownPredicates, plan. cbn [Rewrite]. by rewrite HR.
  - apply filter_none. intros row _. apply Hfalse.
  - simpl. by rewrite global_group_keys.
Qed.

(** ** A plan of two scans *)

Definition x_column : ColumnRef := mk_ref 0 0 kInteger.
Definition y_column : ColumnRef := mk_ref 1 0 kInteger.
Definition less_than_five (ref : ColumnRef) : BoundExpression :=
  MakeArithmeticOp kLessThan (MakeColumnRef (ref_table_id ref) (ref_ordinal ref) (ref_type ref)) (MakeIntConst 5) ExprBoolean.
Definition two_scans : LogicalPlanNode :=
  LogicalJoin (MakeLogicalScan 0 7 [mk_output "a" ExprInteger]) (MakeLogicalScan 1 7 [mk_output "a" ExprInteger])
    [(x_column, y_column)].
Definition filtered_join : LogicalPlanNode := LogicalFilter two_scans (less_than_five y_column).

Example pushed_right : PushdownPredicates filtered_join = Ok (LogicalJoin (MakeLogicalScan 0 7 [mk_output "a" ExprInteger])
  (LogicalFilter (MakeLogicalScan 1 7 [mk_output "a" ExprInteger]) (less_than_five y_column)) [(x_column, y_column)]).
Proof. reflexivity. Qed.

Lemma PushdownPredicates_correct_witness :
  exists plan', PushdownPredicates filtered_join = Ok plan' /\ scoped plan' /\
    plan_rows (fun _ => [[Some (VInt 3)]; [Some (VInt 9)]]) plan' = plan_rows (fun _ => [[Some (VInt 3)]; [Some (VInt 9)]]) filtered_join.
Proof.
  apply PushdownPredicates_correct. split; [|done]. split_and!; [done|done|].
  intros id ->%list_elem_of_singleton Hin%list_elem_of_singleton. discriminate Hin.
Defined.

Lemma constant_having_ignored_witness :
  let having := MakeArithmeticOp kLessThan (MakeIntConst 2) (MakeIntConst 1) ExprBoolean in
  let plan := LogicalFilter (LogicalAggregate (MakeLogicalScan 0 7 []) [] [mk_call kCountStar None] []) having in
  exists plan', PushdownPredicates plan = Ok plan' /\ plan_rows (fun _ => []) plan = [] /\
    length (plan_rows (fun _ => []) plan') = 1%nat.
Proof. intros having plan. apply constant_having_ignored; [done|done|reflexivity|]. intros row Hrow. discriminate Hrow. Defined.
