(* ===== verification/Pruning.v ===== *)
(** Model of [src/optimizer/column_pruning.cpp]: the columns every operator needs of its input
    are passed down to the scans. Pruning only changes which columns the scans read: the
    rows of the plan stay the same, and a scan keeps, in ascending order, exactly the
    columns of its binding that are needed. *)

From stdpp Require Import sorting.
From S2P Require Import Prelude Scalar Chunk Rows Expr Plan PredicateUtils Queries.

(** ** The code *)

(** [std::unique]: one element of every run of equal ones. *)
Fixpoint unique (l : list Z) : list Z :=
  match l with
  | [] => []
  | x :: l' => match l' with y :: _ => if x =? y then unique l' else x :: unique l' | [] => [x] end
  end.

(** [std::sort]; on integers every sorting function is this one. *)
Definition sort (l : list Z) : list Z := merge_sort Z.le l.

Definition scan_ordinals (binding_id : Z) (required_from_above : list ColumnRef) : list Z :=
  unique (sort (foldl (fun ordinals ref =>
    if ref_table_id ref =? binding_id then ordinals ++ [ref_ordinal ref] else ordinals) [] required_from_above)).

(** What goes to either side of a join. *)
Definition route (left_ids right_ids : list Z) (required : list ColumnRef) : list ColumnRef * list ColumnRef :=
  foldl (fun sides ref =>
    let '(for_left, for_right) := sides in
    if bool_decide (ref_table_id ref ∈ left_ids) then (for_left ++ [ref], for_right)
    else if bool_decide (ref_table_id ref ∈ right_ids) then (for_left, for_right ++ [ref])
    else (for_left, for_right)) ([], []) required.

Fixpoint Propagate (node : LogicalPlanNode) (required_from_above : list ColumnRef) : LogicalPlanNode :=
  match node with
  | LogicalScan binding_id physical_table_id output_columns _ =>
      LogicalScan binding_id physical_table_id output_columns (scan_ordinals binding_id required_from_above)
  | LogicalFilter input predicate =>
      LogicalFilter (Propagate input (required_from_above ++ CollectColumnRefs predicate)) predicate
  | LogicalJoin l r equi_conditions =>
      let required := foldl (fun required condition => required ++ [condition.1] ++ [condition.2]) required_from_above equi_conditions in
      let '(for_left, for_right) := route (CollectBindingIds l) (CollectBindingIds r) required in
      LogicalJoin (Propagate l for_left) (Propagate r for_right) equi_conditions
  | LogicalAggregate input group_by aggregates output_columns =>
      let required := foldl (fun required agg =>
        match argument agg with Some ref => required ++ [ref] | None => required end) group_by aggregates in
      LogicalAggregate (Propagate input required) group_by aggregates output_columns
  | LogicalProjection input select_expressions output_columns =>
      let required := foldl (fun required expr => required ++ CollectColumnRefs expr) [] select_expressions in
      LogicalProjection (Propagate input required) select_expressions output_columns
  end.

Definition PruneColumns (root : LogicalPlanNode) : LogicalPlanNode := Propagate root [].

(** ** The loops *)

Lemma foldl_collect {A B} (f : A -> list B) (xs : list A) (acc : list B) :
  foldl (fun acc x => acc ++ f x) acc xs = acc ++ concat (map f xs).
Proof. revert acc. induction xs as [|x xs IH]; intros acc; simpl; [by rewrite app_nil_r|]. by rewrite IH, <- app_assoc. Qed.

Lemma unique_elem l x : x ∈ unique l <-> x ∈ l.
Proof.
  induction l as [|y l IH]; [done|]. simpl. destruct l as [|z l]; [done|]. destruct (Z.eqb_spec y z) as [->|Hne].
  - rewrite IH, !elem_of_cons. tauto.
  - rewrite elem_of_cons, IH. by rewrite (elem_of_cons _ x y).
Qed.

Lemma unique_head x l : exists l', unique (x :: l) = x :: l'.
Proof.
  revert x. induction l as [|y l IH]; intros x; [by eexists|]. simpl. destruct (Z.eqb_spec x y) as [->|]; [apply IH|by eexists].
Qed.

Lemma unique_sorted l : StronglySorted Z.le l -> StronglySorted Z.lt (unique l).
Proof.
  induction l as [|x l IH]; intros Hs; [constructor|]. apply StronglySorted_inv in Hs as [Hs Hx]. specialize (IH Hs).
  simpl. destruct l as [|y l]; [by repeat constructor|]. destruct (Z.eqb_spec x y) as [->|Hne]; [done|].
  constructor; [done|]. apply Forall_forall. intros z Hz. rewrite unique_elem in Hz. rewrite Forall_forall in Hx.
  pose proof (Hx y ltac:(constructor)). apply StronglySorted_inv in Hs as [_ Hy]. rewrite Forall_forall in Hy.
  apply elem_of_cons in Hz as [->|Hz]; [lia|]. specialize (Hy z Hz). lia.
Qed.

Lemma scan_ordinals_spec b required :
  StronglySorted Z.lt (scan_ordinals b required) /\
  forall ord, ord ∈ scan_ordinals b required <-> exists ref, ref ∈ required /\ ref_table_id ref = b /\ ref_ordinal ref = ord.
Proof.
  unfold scan_ordinals, sort. set (all := foldl _ _ _).
  assert (forall ord, ord ∈ all <-> exists ref, ref ∈ required /\ ref_table_id ref = b /\ ref_ordinal ref = ord) as Hall.
  { intros ord. unfold all. clear all. induction required as [|ref required IH] using rev_ind.
    - split; [by intros ?%not_elem_of_nil|by intros (? & ?%not_elem_of_nil & _)].
    - rewrite foldl_app. simpl. setoid_rewrite elem_of_app. setoid_rewrite list_elem_of_singleton.
      destruct (Z.eqb_spec (ref_table_id ref) b) as [Hb|Hb].
      + rewrite elem_of_app, IH, list_elem_of_singleton. split.
        * intros [(r & Hr & ?)| ->]; eauto 6.
        * intros (r & [Hr| ->] & Hid & Ho); [left; eauto|by right].
      + rewrite IH. split; [intros (r & Hr & ?); eauto 6|]. intros (r & [Hr| ->] & Hid & Ho); [eauto|done]. }
  split.
  - apply unique_sorted. apply Sorted_StronglySorted; [intros ???; lia|]. apply Sorted_merge_sort. intros x y. lia.
  - intros ord. rewrite unique_elem, <- Hall. by rewrite (merge_sort_Permutation Z.le all).
Qed.

(** ** What pruning keeps *)

Lemma route_spec ls rs required :
  route ls rs required = (List.filter (fun ref => bool_decide (ref_table_id ref ∈ ls)) required,
    List.filter (fun ref => negb (bool_decide (ref_table_id ref ∈ ls)) && bool_decide (ref_table_id ref ∈ rs)) required).
Proof.
  unfold route. induction required as [|ref required IH] using rev_ind; [done|].
  rewrite foldl_app, IH, !List.filter_app. simpl. case_bool_decide; simpl; [by rewrite app_nil_r|].
  case_bool_decide; by rewrite ?app_nil_r.
Qed.

Lemma Propagate_ids plan required : CollectBindingIds (Propagate plan required) = CollectBindingIds plan.
Proof.
  revert required. induction plan as [b t cols req|i IH e|l IHl r IHr conds|i IH gb aggs cols|i IH es cols]; intros required; simpl; auto.
  rewrite route_spec. simpl. by rewrite IHl, IHr.
Qed.

Lemma Propagate_rows db plan required : plan_rows db (Propagate plan required) = plan_rows db plan.
Proof.
  revert required. induction plan as [b t cols req|i IH e|l IHl r IHr conds|i IH gb aggs cols|i IH es cols]; intros required; simpl.
  - done.
  - by rewrite IH.
  - rewrite route_spec. simpl. by rewrite IHl, IHr.
  - by rewrite IH.
  - by rewrite IH.
Qed.
