(* ===== verification/Optimizer.v ===== *)
(** Model of [src/optimizer/optimizer.cpp]: the translation of an optimized logical plan into
    a tree of operators. Columns that the plan names by binding and ordinal become
    positions in the rows of the child operator. *)

From S2P Require Import Prelude Scalar ByteIO Disk BufferPool Schema Catalog Chunk Expr Operators HashJoin Accumulator Aggregate Scan Plan PredicateUtils Pushdown Pruning.

(** ** Trees of operators *)

(** The classes of the operators of a tree, and the tree's type: [std::unique_ptr<Operator>] is
    a tree of some shape. *)
Inductive Shape : Type :=
  | ScanShape
  | FilterShape (child : Shape)
  | ProjectionShape (child : Shape)
  | JoinShape (build probe : Shape)
  | AggregationShape (child : Shape).

Fixpoint tree (shape : Shape) : Type :=
  match shape with
  | ScanShape => SeqScanOperator
  | FilterShape child => FilterOperator (tree child)
  | ProjectionShape child => ProjectionOperator (tree child)
  | JoinShape build probe => HashJoinOperator (tree build) (tree probe)
  | AggregationShape child => AggregationOperator (tree child)
  end.

Record AnyOperator : Type := any_operator { op_shape : Shape; op_tree : tree op_shape }.

Section Dispatch.
Context {F : Type} `{PosixFile F}.

(** The virtual [GetNext]. *)
#[global] Fixpoint tree_op (shape : Shape) : Operator (Store F) (tree shape) :=
  match shape with
  | ScanShape => SeqScanOperator_op
  | FilterShape child => @FilterOperator_op _ _ (tree_op child)
  | ProjectionShape child => @ProjectionOperator_op _ _ (tree_op child)
  | JoinShape build probe => @HashJoinOperator_op _ _ _ (tree_op build) (tree_op probe)
  | AggregationShape child => @AggregationOperator_op _ _ (tree_op child)
  end.

#[global] Instance AnyOperator_op : Operator (Store F) AnyOperator := fun fuel op =>
  '(chunk, next) ← @GetNext _ _ (tree_op (op_shape op)) fuel (op_tree op);
  mret (chunk, any_operator (op_shape op) next).
End Dispatch.

(** ** The code *)

Definition boolean_column_message : string :=
  "A column resolved to BOOLEAN. BOOLEAN is an internal-only predicate type and should never reach physical column translation".

Definition ToTypeId (type : ExpressionType) : result TypeId :=
  match type with
  | ExprInteger => mret kInteger
  | ExprFloat => mret kFloat
  | ExprVarchar => mret kVarchar
  | ExprBoolean => Throw (RuntimeError boolean_column_message)
  end.

Fixpoint PhysicalOutputSchema (node : LogicalPlanNode) : result (list TypeId) :=
  match node with
  | LogicalScan _ _ output_columns required_ordinals =>
      for_each required_ordinals (fun ordinal types =>
        column ← vec_get output_columns (Z.to_nat ordinal);
        type ← ToTypeId (output_type column);
        mret (types ++ [type])) []
  | LogicalFilter input _ => PhysicalOutputSchema input
  | LogicalJoin l r _ =>
      types ← PhysicalOutputSchema r;
      probe_types ← PhysicalOutputSchema l;
      mret (types ++ probe_types)
  | _ => Throw (RuntimeError "Aggregate/Projection as a Join operand is unsupported. No subquery-in-FROM support.")
  end.

Fixpoint FindColumnPosition (node : LogicalPlanNode) (ref : ColumnRef) : result Z :=
  match node with
  | LogicalScan binding_id _ _ required_ordinals =>
      if negb (binding_id =? ref_table_id ref)
      then Throw (RuntimeError "FindColumnPosition: column's table_id doesn't match this scan")
      else
        match list_find (fun ordinal => ordinal = ref_ordinal ref) required_ordinals with
        | None => Throw (RuntimeError
            "FindColumnPosition: column was pruned but is still referenced -- Column Pruning bug, not a user error")
        | Some (i, _) => mret (Z.of_nat i)
        end
  | LogicalFilter input _ => FindColumnPosition input ref
  | LogicalJoin l r _ =>
      if bool_decide (ref_table_id ref ∈ CollectBindingIds l) then
        right_types ← PhysicalOutputSchema r;
        position ← FindColumnPosition l ref;
        mret (Z.of_nat (length right_types) + position)
      else FindColumnPosition r ref
  | LogicalAggregate _ _ _ _ =>
      if negb (ref_table_id ref =? kAggregateOutputBindingId)
      then Throw (RuntimeError
        "FindColumnPosition: a raw table column cannot be resolved above a LogicalAggregate -- only its own computed output columns are reachable here")
      else mret (ref_ordinal ref)
  | LogicalProjection _ _ _ => Throw (RuntimeError "FindColumnPosition: Projection as a Join operand is unsupported.")
  end.

Definition find_position (node : LogicalPlanNode) (ref : ColumnRef) : result Z :=
  position ← FindColumnPosition node ref; mret (u32 position).

Fixpoint RewriteColumnRefsToPhysicalPositions (expr : BoundExpression) (child : LogicalPlanNode) : result BoundExpression :=
  match expr with
  | BoundColumnRef table_id ordinal type =>
      position ← find_position child (mk_ref table_id ordinal type);
      mret (BoundColumnRef table_id position type)
  | ConstNode _ => mret expr
  | BinaryOpNode op l r type =>
      l ← RewriteColumnRefsToPhysicalPositions l child;
      r ← RewriteColumnRefsToPhysicalPositions r child;
      mret (BinaryOpNode op l r type)
  | UnaryOpNode op operand =>
      operand ← RewriteColumnRefsToPhysicalPositions operand child;
      mret (UnaryOpNode op operand)
  end.

Definition TryExtractZoneMapSkip (predicate : BoundExpression) (scan_binding_id : Z) : option ZoneMapSkipCondition :=
  match predicate with
  | BinaryOpNode op (BoundColumnRef table_id ordinal _) (ConstNode value) _ =>
      if negb (table_id =? scan_binding_id) then None
      else
        match value with
        | VInt z => Some (mk_skip (Z.to_nat ordinal) op (SkipInt z))
        | VFloat f => Some (mk_skip (Z.to_nat ordinal) op (SkipFloat f))
        | VStr _ => None
        end
  | _ => None
  end.

(** The [switch] over the aggregate functions. *)
Definition translate_function (kind : Plan.AggregateFunctionKind) : Accumulator.AggregateFunctionKind :=
  match kind with
  | Plan.kCountStar => Accumulator.kCountStar
  | Plan.kCount => Accumulator.kCount
  | Plan.kSum => Accumulator.kSum
  | Plan.kAvg => Accumulator.kAvg
  | Plan.kMin => Accumulator.kMin
  | Plan.kMax => Accumulator.kMax
  end.

(** The keys of a join: the probe (left) and build (right) positions. *)
Definition join_keys (l r : LogicalPlanNode) (equi_conditions : list (ColumnRef * ColumnRef)) : result (list nat * list nat) :=
  for_each equi_conditions (fun condition keys =>
    let '(key_a, key_b) := condition in
    let a_is_left := bool_decide (ref_table_id key_a ∈ CollectBindingIds l) in
    let left_key := if a_is_left then key_a else key_b in
    let right_key := if a_is_left then key_b else key_a in
    probe ← find_position l left_key;
    build ← find_position r right_key;
    mret (keys.1 ++ [Z.to_nat probe], keys.2 ++ [Z.to_nat build])) ([], []).

Definition group_positions (input : LogicalPlanNode) (group_by : list ColumnRef) : result (list nat * list TypeId) :=
  for_each group_by (fun ref groups =>
    position ← find_position input ref;
    mret (groups.1 ++ [Z.to_nat position], groups.2 ++ [ref_type ref])) ([], []).

Definition aggregate_specs (input : LogicalPlanNode) (aggregates : list AggregateCall) : result (list AggregateSpec) :=
  for_each aggregates (fun agg specs =>
    '(arg_col, arg_type) ←
      match Plan.argument agg with
      | Some ref => position ← find_position input ref; mret (Some (Z.to_nat position), ref_type ref)
      | None => mret (None, kInteger)
      end;
    mret (specs ++ [mk_spec (translate_function (Plan.function agg)) arg_col arg_type])) [].

Definition rewrite_all (exprs : list BoundExpression) (child : LogicalPlanNode) : result (list BoundExpression) :=
  for_each exprs (fun expr rewritten =>
    expr ← RewriteColumnRefsToPhysicalPositions expr child; mret (rewritten ++ [expr])) [].

Section Translate.
Context {F : Type} `{MapOrder} (catalog : Catalog F).

Definition find_table (physical_table_id : Z) : result TableObject :=
  match GetTableById catalog physical_table_id with
  | None => Throw (RuntimeError "Optimizer::Translate: unknown table_id")
  | Some table => mret table
  end.

Definition make_scan (table : TableObject) (required_ordinals : list Z) (skip : option ZoneMapSkipCondition) : AnyOperator :=
  any_operator ScanShape (new_scan table (map Z.to_nat required_ordinals) skip).
Definition make_filter (child : AnyOperator) (predicate : BoundExpression) : AnyOperator :=
  any_operator (FilterShape (op_shape child)) (mk_filter (op_tree child) predicate).
Definition make_join (build probe : AnyOperator) (build_keys probe_keys : list nat) (build_types : list TypeId) : AnyOperator :=
  any_operator (JoinShape (op_shape build) (op_shape probe))
    (new_join (op_tree build) (op_tree probe) build_keys probe_keys build_types).
Definition make_aggregation (child : AnyOperator) (group_by : list nat) (types : list TypeId) (specs : list AggregateSpec)
    : AnyOperator :=
  any_operator (AggregationShape (op_shape child)) (new_aggregation (op_tree child) group_by types specs).
Definition make_projection (child : AnyOperator) (exprs : list BoundExpression) : AnyOperator :=
  any_operator (ProjectionShape (op_shape child)) (mk_projection (op_tree child) exprs []).

Fixpoint Translate (node : LogicalPlanNode) : result AnyOperator :=
  match node with
  | LogicalScan _ physical_table_id _ required_ordinals =>
      table ← find_table physical_table_id;
      mret (make_scan table required_ordinals None)
  | LogicalFilter input predicate =>
      match input with
      | LogicalScan binding_id physical_table_id _ required_ordinals =>
          let skip := TryExtractZoneMapSkip predicate binding_id in
          table ← find_table physical_table_id;
          predicate ← RewriteColumnRefsToPhysicalPositions predicate input;
          mret (make_filter (make_scan table required_ordinals skip) predicate)
      | _ =>
          predicate ← RewriteColumnRefsToPhysicalPositions predicate input;
          child ← Translate input;
          mret (make_filter child predicate)
      end
  | LogicalJoin l r equi_conditions =>
      '(probe_key_ordinals, build_key_ordinals) ← join_keys l r equi_conditions;
      build_column_types ← PhysicalOutputSchema r;
      probe_child ← Translate l;
      build_child ← Translate r;
      mret (make_join build_child probe_child build_key_ordinals probe_key_ordinals build_column_types)
  | LogicalAggregate input group_by aggregates _ =>
      '(group_by_positions, group_by_types) ← group_positions input group_by;
      specs ← aggregate_specs input aggregates;
      child ← Translate input;
      mret (make_aggregation child group_by_positions group_by_types specs)
  | LogicalProjection input select_expressions _ =>
      exprs ← rewrite_all select_expressions input;
      child ← Translate input;
      mret (make_projection child exprs)
  end.

Definition Optimize (root : LogicalPlanNode) : result AnyOperator :=
  root ← PushdownPredicates root;
  Translate (PruneColumns root).

End Translate.
