(* ===== verification/Streams.v ===== *)
(** Streams of rows: what the operators of a tree promise each other. [streams op tys rows]
    says that, with enough fuel, [op] delivers exactly [rows], in chunks whose columns
    have the types [tys] and integers of magnitude at most [B]. Each operator's theorem is
    restated as a rule that turns the streams of its children into its own, for expressions that
    cannot overflow on such integers. *)

From S2P Require Import Prelude Scalar ByteIO Bitmap Columns Chunk Rows Expr Eval Operators HashJoin Accumulator Aggregate.

(** ** Expressions that cannot overflow *)

(** A bound of 2^31 or more says nothing: it holds of every column. *)
Definition value_within (B : Z) (v : Value) : Prop := match v with VInt z => Z.abs z <= B | _ => True end.
Definition raw_within (B : Z) (r : Value * bool) : Prop := r.2 = true -> value_within B r.1.
Definition chunk_within (B : Z) (c : chunkspec) : Prop := B < 2 ^ 31 -> Forall (fun p => Forall (raw_within B) p.2) c.1.
Definition cells_within (B : Z) (row : list (option Value)) : Prop := forall j v, cell_at row j = Some v -> value_within B v.
Definition rows_within (B : Z) (rows : list (list (option Value))) : Prop := B < 2 ^ 31 -> Forall (cells_within B) rows.

Section Bound.
Context (B : Z).

(** The integers that an expression can have for a value, when those of the columns are at most
    [B]. *)
Fixpoint magnitude (e : BoundExpression) : Z :=
  match e with
  | BoundColumnRef _ _ _ => Z.max 0 B
  | ConstNode (VInt z) => Z.abs z
  | ConstNode _ => 0
  | BinaryOpNode op l r _ =>
      match op with
      | kAdd | kSubtract => magnitude l + magnitude r
      | kMultiply => magnitude l * magnitude r
      | kDivide => magnitude l
      | _ => 0
      end
  | UnaryOpNode _ _ => 0
  end.

(** No arithmetic on integers can overflow. *)
Fixpoint exact (e : BoundExpression) : bool :=
  match e with
  | BinaryOpNode op l r at_ => exact l && exact r &&
      (negb (IsArithmeticOperator op) || bool_decide (at_ = ExprFloat) ||
       bool_decide (magnitude l < 2 ^ 31 /\ magnitude r < 2 ^ 31 /\ magnitude e < 2 ^ 31))
  | UnaryOpNode _ e => exact e
  | _ => true
  end.

End Bound.

(** Constants below 2 MB. *)
Fixpoint short (e : BoundExpression) : Prop :=
  match e with
  | ConstNode v => str_len v < 2 ^ 21
  | BinaryOpNode _ l r _ => short l /\ short r
  | UnaryOpNode _ e => short e
  | BoundColumnRef _ _ _ => True
  end.

Definition raws_typed (tys : list TypeId) (row : list (Value * bool)) : Prop :=
  length row = length tys /\ forall j ty r, tys !! j = Some ty -> row !! j = Some r -> type_of r.1 = ty.

Lemma norm_raw_typed ty r : type_of r.1 = ty -> type_of (norm_raw ty r).1 = ty.
Proof. unfold norm_raw. destruct r as [v []]; [done|]. by destruct ty. Qed.

Lemma quot_within x y a : Z.abs x <= a -> Z.abs (Z.quot x y) <= a.
Proof.
  intros Hx. destruct (decide (y = 0)) as [->|Hy]; [assert (Z.quot x 0 = 0) as -> by (by destruct x); simpl; lia|].
  rewrite <- Z.quot_abs by done. rewrite Z.quot_div_nonneg by lia. pose proof (Z.div_le_upper_bound (Z.abs x) (Z.abs y) (Z.abs x)). nia.
Qed.

(** What an expression of type [t] is, on a row within the bound. *)
Definition bounded (m : Z) (v : RowVal) : Prop := m < 2 ^ 31 -> match v with RVal w _ => value_within m w | RBool _ _ => True end.

Lemma int_arithmetic op x y a b :
  IsArithmeticOperator op = true -> Z.abs x <= a -> Z.abs y <= b ->
  let m := match op with kAdd | kSubtract => a + b | kMultiply => a * b | kDivide => a | _ => 0 end in
  m < 2 ^ 31 -> exists z, ApplyIntArithmetic op x y = Ok z /\ Z.abs z <= m.
Proof.
  intros Hop Hx Hy m Hm. assert (forall z, Z.abs z <= m -> checked_i32 z = Ok z) as Hc
    by (intros z Hz; unfold checked_i32; rewrite decide_True; [done|unfold is_i32; lia]).
  destruct op; try done; cbn [ApplyIntArithmetic].
  - exists (x + y). split; [apply Hc|]; unfold m in *; lia.
  - exists (x - y). split; [apply Hc|]; unfold m in *; lia.
  - assert (Z.abs (x * y) <= a * b) as Hxy by (rewrite Z.abs_mul; nia). exists (x * y). split; [apply Hc|]; unfold m in *; lia.
  - destruct (Z.eqb_spec y 0); [exists 0; split; [done|unfold m; simpl; lia]|]. pose proof (quot_within x y a Hx) as Hq.
    exists (Z.quot x y). split; [by apply Hc|done].
Qed.

Lemma row_binary_total B op l r at_ a b t :
  infer_binary op at_ (rowval_type a) (rowval_type b) = Some t -> bounded (magnitude B l) a -> bounded (magnitude B r) b ->
  negb (IsArithmeticOperator op) || bool_decide (at_ = ExprFloat) ||
    bool_decide (magnitude B l < 2 ^ 31 /\ magnitude B r < 2 ^ 31 /\ magnitude B (BinaryOpNode op l r at_) < 2 ^ 31) = true ->
  exists v, row_binary op at_ a b = Some v /\ rowval_type v = t /\ bounded (magnitude B (BinaryOpNode op l r at_)) v.
Proof.
  unfold infer_binary, row_binary, row_arith. intros Ht Ha Hb.
  destruct (IsArithmeticOperator op) eqn:Hop; cbn [negb orb].
  - intros Hx. destruct (decide (at_ = ExprFloat)) as [->|Hf].
    + destruct a as [[]|], b as [[]|]; simpl in *; try discriminate Ht; injection Ht as <-; by eexists.
    + rewrite (bool_decide_false _ Hf) in Hx. apply bool_decide_eq_true in Hx as (Hl & Hr & Hm).
      case_decide as Hi; [|discriminate Ht]. injection Ht as <-. destruct Hi as (-> & Hta & Htb).
      destruct a as [[x| |] va|], b as [[y| |] vb|]; try done. specialize (Ha Hl). specialize (Hb Hr). simpl in Ha, Hb.
      destruct (int_arithmetic op x y _ _ Hop Ha Hb) as (z & -> & Hz); [by destruct op|]. eexists. split; [done|]. split; [done|].
      intros _. simpl. by destruct op.
  - intros _. destruct (IsLogicalOperator op) eqn:Hl.
    + case_decide as Hbb; [|discriminate Ht]. injection Ht as <-.
      destruct a as [[]|], b as [[]|]; simpl in *; destruct Hbb; try done. by eexists.
    + destruct a as [[]|], b as [[]|]; simpl in *; repeat case_decide; try discriminate Ht;
        try (injection Ht as <-; by eexists); try (by destruct H); by eexists.
Qed.

Lemma row_eval_total B tys e t row :
  infer tys e = Some t -> exact B e = true -> raws_typed tys row -> (B < 2 ^ 31 -> Forall (raw_within B) row) ->
  exists v, row_eval e row = Some v /\ rowval_type v = t /\ bounded (magnitude B e) v.
Proof.
  intros Ht Hex [Hlen Hty] Hin. revert t Ht Hex. induction e as [i ord ty|v|op l IHl r IHr at_|[] e IH]; intros t Ht Hex.
  - simpl in *. destruct (tys !! Z.to_nat ord) as [ty'|] eqn:Et; [|done]. case_decide as Heq; [|done]. injection Ht as <-. subst ty'.
    destruct (lookup_lt_is_Some_2 row (Z.to_nat ord)) as [r Hr]; [rewrite Hlen; by eapply lookup_lt_Some|].
    rewrite Hr. eexists. split; [done|]. split; [simpl; by rewrite (norm_raw_typed ty r (Hty _ _ _ Et Hr))|].
    cbn [magnitude]. intros HB. specialize (Hin ltac:(lia)). pose proof (Forall_lookup_1 _ _ _ _ Hin Hr) as Hw. unfold raw_within in Hw.
    destruct r as [v []]; [specialize (Hw eq_refl); destruct v; simpl in *; done || lia|]. destruct ty; simpl; lia || done.
  - simpl in *. injection Ht as <-. eexists. split; [done|]. split; [done|]. intros _. destruct v; simpl; lia || done.
  - cbn [exact] in Hex. apply andb_true_iff in Hex as [[Hl Hr]%andb_true_iff Ho]. cbn [infer] in Ht.
    destruct (infer tys l) as [tl|] eqn:El; [|done]. destruct (infer tys r) as [tr|] eqn:Er; [|done]. simpl in Ht.
    destruct (IHl tl eq_refl Hl) as (a & Ha & <- & Hba). destruct (IHr tr eq_refl Hr) as (b & Hb & <- & Hbb). cbn [row_eval]. rewrite Ha, Hb. simpl.
    by apply row_binary_total.
  - simpl in *. destruct (infer tys e) as [te|] eqn:Ee; [|done]. simpl in Ht. case_decide as Hb; [|done]. injection Ht as <-.
    destruct (IH te eq_refl Hex) as ([v b|v b] & -> & Hv & _); [subst te; by destruct v|]. by eexists.
Qed.

Lemma raw_row_typed chunk cols sel i : chunk_repr chunk cols sel -> (i < length sel)%nat -> raws_typed cols.*1 (raw_row cols i).
Proof.
  intros Hch Hi. unfold raw_row. split; [by rewrite length_map, length_fmap|]. intros j ty r Hj Hr.
  apply list_lookup_fmap_Some in Hj as (p & -> & Ep). apply list_lookup_fmap_Some in Hr as (p' & -> & Ep'). rewrite Ep in Ep'.
  injection Ep' as <-.
  destruct (Forall2_lookup_r _ _ _ _ _ (cr_cols _ _ _ Hch) Ep) as (c & _ & Hc & Hl).
  destruct (lookup_lt_is_Some_2 p.2 i) as [r Hr]; [lia|]. rewrite Hr. simpl.
  eapply col_repr_typed; [exact Hc|]. by eapply list_elem_of_lookup_2.
Qed.

Lemma short_consts_fit n e : (n <= 1024)%nat -> short e -> consts_fit n e.
Proof.
  intros Hn. induction e as [i ord ty|v|op l IHl r IHr at_|op e IH]; simpl; try tauto.
  pose proof (str_len_nonneg v). nia.
Qed.

Lemma raw_row_within B cols i : Forall (fun p => Forall (raw_within B) p.2) cols -> Forall (raw_within B) (raw_row cols i).
Proof.
  intros Hc. unfold raw_row. apply Forall_map. eapply Forall_impl; [exact Hc|]. intros p Hp. simpl in *.
  destruct (p.2 !! i) as [r|] eqn:Hr; [by eapply (Forall_lookup_1 _ _ _ _ Hp)|done].
Qed.

Lemma live_rows_within B c : chunk_within B c -> rows_within B (live_rows c.1 c.2).
Proof.
  intros Hc HB. specialize (Hc HB). unfold live_rows. apply Forall_map, Forall_forall. intros i _ j v Hj.
  pose proof (raw_row_within B c.1 i Hc) as Hr. unfold cell_at, cell_row in Hj. rewrite list_lookup_fmap in Hj.
  destruct (raw_row c.1 i !! j) as [[w []]|] eqn:E; [|done..]. injection Hj as <-. by apply (Forall_lookup_1 _ _ _ _ Hr E).
Qed.

Lemma rows_of_within B cs : Forall (chunk_within B) cs -> rows_within B (rows_of cs).
Proof.
  intros Hcs HB. induction Hcs as [|c cs Hc _ IH]; [constructor|]. rewrite rows_of_cons. apply Forall_app. split; [by apply live_rows_within|done].
Qed.

Lemma column_of_within B ty j rows : Forall (cells_within B) rows -> Forall (raw_within B) (column_of ty j rows).
Proof.
  intros Hr. apply Forall_map. eapply Forall_impl; [exact Hr|]. intros row Hrow Hv. simpl in *.
  destruct (cell_at row j) as [v|] eqn:E; [by eapply Hrow|done].
Qed.

Lemma specs_within B tys rows : Forall (cells_within B) rows -> Forall (fun p => Forall (raw_within B) p.2) (specs_of tys rows).
Proof.
  intros Hr. apply Forall_lookup. intros j p Hj. unfold specs_of in Hj. rewrite list_lookup_imap in Hj.
  destruct (tys !! j); [|done]. injection Hj as <-. by apply column_of_within.
Qed.

Lemma exact_evaluable B e t chunk c :
  chunk_repr chunk c.1 c.2 -> chunk_within B c -> infer c.1.*1 e = Some t -> exact B e = true -> short e -> evaluable e t c.
Proof.
  intros Hch Hin Ht Hex Hs. split; [done|]. split; [apply short_consts_fit; [apply (cr_size _ _ _ Hch)|done]|].
  intros i Hi. destruct (row_eval_total B _ e t (raw_row c.1 i) Ht Hex) as (v & Hv & _); [by eapply raw_row_typed| |by eexists].
  intros HB. apply raw_row_within. by apply Hin.
Qed.

(** ** The rules *)

Section Streams.
Context {W : Type} (inv : W -> Prop) (w0 : W) (Hw0 : inv w0).

Definition streams {S} `{Operator W S} (B : Z) (s : S) (tys : list TypeId) (rows : list (list (option Value))) : Prop :=
  exists cs bound, Forall (fun c => c.1.*1 = tys) cs /\ Forall (chunk_within B) cs /\ rows_of cs = rows /\
    forall fuel, (bound <= fuel)%nat -> delivers inv fuel s cs.

Lemma streams_typed {S} `{Operator W S} B (s : S) tys rows : streams B s tys rows -> Forall (row_typed tys) rows.
Proof. intros (cs & bound & Htys & _ & <- & Hd). eapply rows_of_typed; [|exact Htys]. eapply delivers_chunks; [by apply (Hd bound)|done]. Qed.

Section Unary.
Context {S : Type} `{Operator W S} (B : Z) (child : S) (tys : list TypeId) (rows : list (list (option Value))).
Hypothesis Hchild : streams B child tys rows.

Lemma all_evaluable (cs : list chunkspec) bound e t :
  Forall (fun c => c.1.*1 = tys) cs -> Forall (chunk_within B) cs -> delivers inv bound child cs ->
  infer tys e = Some t -> exact B e = true -> short e -> Forall (evaluable e t) cs.
Proof.
  intros Htys Hin Hd Ht Hex Hs. pose proof (delivers_chunks _ _ _ _ _ Hd Hw0) as Hch. rewrite Forall_forall in *.
  intros c Hc. destruct (Hch c Hc) as [chunk Hr]. eapply exact_evaluable; [exact Hr|by apply Hin|by rewrite (Htys c Hc)|done|done].
Qed.

Lemma streams_filter e :
  infer tys e = Some ExprBoolean -> exact B e = true -> short e ->
  streams B (mk_filter child e) tys (filter (passes e) rows).
Proof.
  intros Ht Hex Hs. destruct Hchild as (cs & bound & Htys & Hin & <- & Hd).
  pose proof (all_evaluable cs bound e _ Htys Hin (Hd bound (le_n _)) Ht Hex Hs) as Hev.
  exists (map (filtered e) cs), bound. split_and!.
  - by apply Forall_map.
  - by apply Forall_map.
  - apply rows_of_filtered.
  - intros fuel Hf. apply filter_delivers; [by apply Hd|done].
Qed.

Lemma streams_project ps batch :
  Forall (fun p => infer tys p.1 = Some (ToExpressionType p.2) /\ exact B p.1 = true /\ short p.1) ps ->
  streams (2 ^ 31) (mk_projection child ps.*1 batch) ps.*2 (map (project_row ps.*1) rows).
Proof.
  intros Hps. destruct Hchild as (cs & bound & Htys & Hin & <- & Hd).
  assert (Forall (fun c => Forall (fun p => evaluable p.1 (ToExpressionType p.2) c) ps) cs) as Hev.
  { apply Forall_forall. intros c Hc. apply Forall_forall. intros p Hp. rewrite Forall_forall in Hps.
    destruct (Hps p Hp) as (Ht & Hex & Hs).
    pose proof (all_evaluable cs bound p.1 _ Htys Hin (Hd bound (le_n _)) Ht Hex Hs) as Hall. rewrite Forall_forall in Hall. by apply Hall. }
  exists (map (projected ps) cs), bound. split_and!.
  - apply Forall_map, Forall_forall. intros c _. unfold projected. simpl. rewrite <- list_fmap_compose. done.
  - apply Forall_forall. intros c _ HB. lia.
  - by apply rows_of_projected.
  - intros fuel Hf. apply projection_delivers; [by apply Hd|done].
Qed.

Lemma batches_types n tys' rs : Forall (fun c => c.1.*1 = tys') (batches n tys' rs).
Proof.
  revert rs. induction n as [|n IH]; intros [|r rs]; try constructor; [|apply IH]. apply specs_of_types.
Qed.

Lemma streams_aggregate ords gts specs :
  key_types ords tys = Some gts -> Forall (spec_ok tys) specs -> Forall row_ok rows -> Z.of_nat (length rows) < 2 ^ 32 ->
  streams (2 ^ 31) (new_aggregation child ords gts specs) (out_types gts specs) (group_by ords specs rows).
Proof.
  intros Hk Hsp Hok Hn. destruct Hchild as (cs & bound & Htys & Hin & <- & Hd).
  assert (forall fuel, (bound + length cs < fuel)%nat ->
    delivers inv fuel (new_aggregation child ords gts specs) (group_batches ords gts specs (rows_of cs)) /\
    rows_of (group_batches ords gts specs (rows_of cs)) = group_by ords specs (rows_of cs)) as Ha.
  { intros fuel Hf. apply (aggregation_delivers inv fuel w0 child cs tys); try done; [apply Hd|]; lia. }
  exists (group_batches ords gts specs (rows_of cs)), (Datatypes.S (bound + length cs)). split_and!.
  - apply batches_types.
  - apply Forall_forall. intros c _ HB. lia.
  - apply (Ha (Datatypes.S (bound + length cs))). lia.
  - intros fuel Hf. apply Ha. lia.
Qed.

End Unary.

Lemma split_out_types n btys ptys pairs : Forall (fun c => c.1.*1 = btys ++ ptys) (split_out n btys ptys pairs).
Proof.
  revert pairs. induction n as [|n IH]; intros pairs; cbn [split_out]; (constructor;
    [unfold out_spec; simpl; by rewrite fmap_app, !specs_of_types|]); destruct (_ <? _)%nat; try constructor. apply IH.
Qed.

Lemma split_out_within B n btys ptys pairs :
  B < 2 ^ 31 -> Forall (fun p => cells_within B p.1 /\ cells_within B p.2) pairs -> Forall (chunk_within B) (split_out n btys ptys pairs).
Proof.
  intros HB. revert pairs. induction n as [|n IH]; intros pairs Hp; cbn [split_out]; (constructor; [intros _;
    unfold out_spec; simpl; apply Forall_app; split; apply specs_within, Forall_map;
      (eapply Forall_impl; [exact (Forall_take _ 1024%nat _ Hp)|by intros ? []])|]); destruct (_ <? _)%nat; try constructor.
  apply IH. by apply Forall_drop.
Qed.

Lemma join_specs_within B bk pk btys brows pcs :
  B < 2 ^ 31 -> Forall (cells_within B) brows -> Forall (chunk_within B) pcs -> Forall (chunk_within B) (join_specs bk pk btys brows pcs).
Proof.
  intros HB Hb Hp. unfold join_specs. apply Forall_concat, Forall_map. eapply Forall_impl; [exact Hp|]. intros c Hc.
  apply split_out_within; [done|]. pose proof (live_rows_within B c Hc HB) as Hl. apply Forall_forall. rewrite Forall_forall in Hb, Hl.
  intros p Hin. destruct (in_pairs_from _ _ _ _ _ Hin) as [[_ Hin1]%list_elem_of_filter Hin2]. auto.
Qed.

Lemma streams_join B {Sb Sp} `{Operator W Sb} `{Operator W Sp} (build : Sb) (probe : Sp) bk pk btys ptys kts brows prows :
  streams B build btys brows -> streams B probe ptys prows -> key_types bk btys = Some kts -> key_types pk ptys = Some kts ->
  Forall row_ok brows -> Forall row_ok prows ->
  is_u32 (Z.of_nat (length brows)) -> (forall j, col_bytes brows j < 2 ^ 31) ->
  streams B (new_join build probe bk pk btys) (btys ++ ptys) (nested_loop_join bk pk brows prows).
Proof.
  intros (bcs & bb & Hbt & Hbw & <- & Hdb) (pcs & pb & Hpt & Hpw & <- & Hdp) Hbk Hpk Hbo Hpo Hu Hfit.
  assert (Forall (fun c => key_types pk c.1.*1 = Some kts) pcs) as Hpk'.
  { eapply Forall_impl; [exact Hpt|]. intros c Hc. cbn beta in Hc. by rewrite Hc. }
  assert (forall fuel, (bb + pb + length bcs < fuel)%nat ->
    delivers inv fuel (new_join build probe bk pk btys) (join_specs bk pk btys (rows_of bcs) pcs) /\
    rows_of (join_specs bk pk btys (rows_of bcs) pcs) = nested_loop_join bk pk (rows_of bcs) (rows_of pcs)) as Hj.
  { intros fuel Hf. apply (join_delivers inv fuel w0 build probe bcs pcs bk pk btys kts); try done; [apply Hdb|apply Hdp|]; lia. }
  exists (join_specs bk pk btys (rows_of bcs) pcs), (S (bb + pb + length bcs)). split_and!.
  - unfold join_specs. apply Forall_concat, Forall_map. eapply Forall_impl; [exact Hpt|]. intros c Hc. cbn beta in Hc. rewrite Hc.
    apply split_out_types.
  - destruct (decide (B < 2 ^ 31)) as [HB|HB]; [|by apply Forall_forall; intros c _ ?].
    apply join_specs_within; [done|by apply rows_of_within|done].
  - apply (Hj (S (bb + pb + length bcs))). lia.
  - intros fuel Hf. apply Hj. lia.
Qed.

End Streams.
