(* ===== verification/Positions.v ===== *)
(** From names to positions: the columns of the operator a plan is translated to, where
    [FindColumnPosition] finds them, and what a rewritten expression computes. *)

From S2P Require Import Prelude Scalar Chunk Rows Expr Operators HashJoin Accumulator Aggregate Schema Catalog Typing Plan PredicateUtils Queries Pushdown Streams Optimizer.

Section Positions.
(** The types of the columns of every binding. *)
Context (column : Z -> Z -> option TypeId).

(** [specs] of an aggregate over some position. *)
Definition call_spec (arg_col : option nat) (call : AggregateCall) : AggregateSpec :=
  mk_spec (translate_function (Plan.function call)) arg_col (default kInteger (ref_type <$> Plan.argument call)).

Definition numbered (id : Z) (types : list TypeId) : list ColumnRef := imap (fun j ty => mk_ref id (Z.of_nat j) ty) types.

(** The columns of an operator, in order; a join has the build side, its right operand, first. *)
Fixpoint columns (plan : LogicalPlanNode) : list ColumnRef :=
  match plan with
  | LogicalScan b _ _ required => map (fun ord => mk_ref b ord (default kInteger (column b ord))) required
  | LogicalFilter input _ => columns input
  | LogicalJoin l r _ => columns r ++ columns l
  | LogicalAggregate _ group_by aggregates _ =>
      numbered kAggregateOutputBindingId
        (map ref_type group_by ++ map (fun call => Accumulator.output_type (call_spec None call)) aggregates)
  | LogicalProjection _ _ _ => []
  end.

Definition types (plan : LogicalPlanNode) : list TypeId := map ref_type (columns plan).

(** The row an operator delivers for a row of the plan. *)
Definition phys_row (plan : LogicalPlanNode) (row : Env) : Row := map (ref_cell row) (columns plan).

(** A scan that reads existing columns, with the types the plan declares. *)
Definition scan_typed (b : Z) (output_columns : list OutputColumn) (required : list Z) : Prop :=
  Forall (fun ord => 0 <= ord /\ exists ty c, column b ord = Some ty /\ output_columns !! Z.to_nat ord = Some c /\
    Plan.output_type c = ToExpressionType ty) required.

(** Scans, filters and joins over them, with the operands of a join apart. *)
Fixpoint placed_columns (plan : LogicalPlanNode) : Prop :=
  match plan with
  | LogicalScan b _ output_columns required => scan_typed b output_columns required
  | LogicalFilter input _ => placed_columns input
  | LogicalJoin l r _ => placed_columns l /\ placed_columns r /\ apart (CollectBindingIds l) (CollectBindingIds r)
  | _ => False
  end.

Lemma ToTypeId_inv ty : ToTypeId (ToExpressionType ty) = Ok ty.
Proof. by destruct ty. Qed.

Lemma PhysicalOutputSchema_spec plan : placed_columns plan -> PhysicalOutputSchema plan = Ok (types plan).
Proof.
  unfold types. induction plan as [b t cols req|i IH pred|l IHl r IHr conds|i IH gb aggs cols|i IH es cols]; simpl; try done.
  - intros Hreq. rewrite map_map. cbn [ref_type].
    destruct (for_each_inv (fun dn ts => ts = map (fun ord => default kInteger (column b ord)) dn)
      (fun ordinal ts => c ← vec_get cols (Z.to_nat ordinal); type ← ToTypeId (Plan.output_type c); mret (ts ++ [type])) req [])
      as (ts & -> & ->); [|done|done].
    intros dn ord todo ts -> ->. unfold scan_typed in Hreq; rewrite Forall_forall in Hreq.
    destruct (Hreq ord) as (_ & ty & c & Hty & Hc & Hct); [apply elem_of_app; right; constructor|].
    rewrite (proj2 (vec_get_Ok _ _ _) Hc), bind_Ok, Hct, ToTypeId_inv, bind_Ok. eexists. split; [done|].
    by rewrite map_app; simpl; rewrite Hty.
  - intros (Hl & Hr & _). by rewrite IHr, bind_Ok, IHl, bind_Ok, map_app.
Qed.

Lemma columns_ids plan ref : placed_columns plan -> ref ∈ columns plan -> ref_table_id ref ∈ CollectBindingIds plan.
Proof.
  induction plan as [b t cols req|i IH pred|l IHl r IHr conds|i IH gb aggs cols|i IH es cols]; simpl; try done.
  - intros _ (ord & -> & _)%list_elem_of_fmap. by apply list_elem_of_singleton.
  - intros (Hl & Hr & _) [Hin|Hin]%elem_of_app; apply elem_of_app; auto.
Qed.

(** [FindColumnPosition] finds a column where the operator has it. *)
Lemma FindColumnPosition_spec plan ref :
  placed_columns plan -> ref ∈ columns plan ->
  exists i, FindColumnPosition plan ref = Ok (Z.of_nat i) /\ columns plan !! i = Some ref.
Proof.
  induction plan as [b t cols req|i IH pred|l IHl r IHr conds|i IH gb aggs cols|i IH es cols]; simpl; try done.
  - intros _ (ord & -> & Hord)%list_elem_of_fmap. cbn [ref_table_id ref_ordinal]. rewrite Z.eqb_refl. cbn [negb].
    destruct (list_find (fun o => o = ord) req) as [[i o]|] eqn:Hf.
    + exists i. split; [done|]. apply list_find_Some in Hf as (Hi & -> & _). by rewrite list_lookup_fmap, Hi.
    + by rewrite list_find_None, Forall_forall in Hf; destruct (Hf ord Hord).
  - intros (Hl & Hr & Hap) Hin. destruct (bool_decide_reflect (ref_table_id ref ∈ CollectBindingIds l)) as [Hid|Hid].
    + rewrite (PhysicalOutputSchema_spec r Hr), bind_Ok. unfold types. rewrite length_map.
      apply elem_of_app in Hin as [Hin|Hin]; [by apply (columns_ids r ref Hr), (Hap _ Hid) in Hin|].
      destruct (IHl Hl Hin) as (i & -> & Hi). rewrite bind_Ok. exists (length (columns r) + i)%nat.
      split; [unfold mret, result_ret; f_equal; lia|]. rewrite lookup_app_r by lia. by replace (length (columns r) + i - length (columns r))%nat with i by lia.
    + apply elem_of_app in Hin as [Hin|Hin]; [|by apply (columns_ids l ref Hl) in Hin].
      destruct (IHr Hr Hin) as (i & -> & Hi). exists i. split; [done|]. by apply lookup_app_l_Some.
Qed.

(** ** Expressions *)

Definition locates (plan : LogicalPlanNode) : Prop :=
  forall ref, ref ∈ columns plan -> exists i, FindColumnPosition plan ref = Ok (Z.of_nat i) /\ columns plan !! i = Some ref.

Definition narrow (plan : LogicalPlanNode) : Prop := Z.of_nat (length (columns plan)) < 2 ^ 32.

Lemma placed_locates plan : placed_columns plan -> locates plan.
Proof. intros Hp ref. by apply FindColumnPosition_spec. Qed.

Lemma aggregate_locates input gb aggs cols : locates (LogicalAggregate input gb aggs cols).
Proof.
  intros ref Href. simpl in *. unfold numbered in *. apply list_elem_of_lookup in Href as [i Hi]. pose proof Hi as Hi'.
  rewrite list_lookup_imap in Hi. destruct (_ !! i) as [ty|]; [|done]. injection Hi as <-. simpl. by exists i.
Qed.

Lemma phys_row_lookup plan row i ref : columns plan !! i = Some ref -> phys_row plan row !! i = Some (ref_cell row ref).
Proof. intros Hi. unfold phys_row. by rewrite list_lookup_fmap, Hi. Qed.

Lemma phys_row_cell plan row i ref : columns plan !! i = Some ref -> cell_at (phys_row plan row) i = ref_cell row ref.
Proof. intros Hi. unfold cell_at. by rewrite (phys_row_lookup _ _ _ _ Hi). Qed.

Lemma types_lookup plan i ref : columns plan !! i = Some ref -> types plan !! i = Some (ref_type ref).
Proof. intros Hi. unfold types. by rewrite list_lookup_fmap, Hi. Qed.

Lemma find_position_spec plan ref :
  locates plan -> narrow plan -> ref ∈ columns plan ->
  exists i, find_position plan ref = Ok (Z.of_nat i) /\ columns plan !! i = Some ref.
Proof.
  intros Hl Hn Hin. destruct (Hl ref Hin) as (i & Hf & Hi). exists i. split; [|done]. unfold find_position. rewrite Hf, bind_Ok.
  unfold mret, result_ret. f_equal. apply lookup_lt_Some in Hi as Hlt. unfold narrow in Hn. apply u32_id. unfold is_u32. lia.
Qed.

(** A rewritten expression has the same type, and on the operator's rows the value of the
    original on the plan's. *)
Lemma rewrite_expr_spec (gamma : Z -> Z -> option TypeId) plan e t :
  locates plan -> narrow plan -> infer_in gamma e = Some t -> Forall (fun ref => ref ∈ columns plan) (CollectColumnRefs e) ->
  exists e', RewriteColumnRefsToPhysicalPositions e plan = Ok e' /\ infer (types plan) e' = Some t /\
    (forall B, magnitude B e' = magnitude B e) /\ (forall B, exact B e' = exact B e) /\ (short e -> short e') /\ forall row, sql_eval e' (phys_row plan row) = env_eval e row.
Proof.
  intros Hl Hn. revert t. induction e as [id ord ty|v|op l IHl r IHr at_|[] e IH]; intros t Ht Hrefs; simpl in *.
  - unfold CollectColumnRefs in Hrefs. simpl in Hrefs. rewrite Forall_singleton in Hrefs.
    destruct (find_position_spec plan _ Hl Hn Hrefs) as (i & -> & Hi). rewrite bind_Ok. eexists. split; [done|]. simpl.
    rewrite Nat2Z.id, (types_lookup _ _ _ Hi). cbn [ref_type]. rewrite decide_True by done.
    destruct (gamma id ord) as [ty'|]; [|done]. case_decide; [|done]. split_and!; try done.
    intros row. by rewrite (phys_row_lookup _ _ _ _ Hi).
  - eexists. split; [done|]. by split_and!.
  - rewrite CollectColumnRefs_binary in Hrefs. apply Forall_app in Hrefs as [Hrl Hrr].
    destruct (infer_in gamma l) as [tl|]; [|done]. destruct (infer_in gamma r) as [tr|]; [|done]. simpl in Ht.
    destruct (IHl tl eq_refl Hrl) as (l' & -> & Hil & Hml & Hel & Hsl & Hvl). rewrite bind_Ok.
    destruct (IHr tr eq_refl Hrr) as (r' & -> & Hir & Hmr & Her & Hsr & Hvr). rewrite bind_Ok.
    eexists. split; [done|]. simpl. rewrite Hil, Hir. split_and!; [done|intros B; by rewrite Hml, Hmr|intros B; by rewrite Hml, Hmr, Hel, Her|tauto|].
    intros row. by rewrite Hvl, Hvr.
  - destruct (infer_in gamma e) as [te|]; [|done]. simpl in Ht.
    destruct (IH te eq_refl Hrefs) as (e' & -> & Hi & Hm & He & Hs & Hv). rewrite bind_Ok. eexists. split; [done|]. simpl.
    rewrite Hi. split_and!; [done|done|done|done|]. intros row. by rewrite Hv.
Qed.

Lemma passes_rewritten (e e' : BoundExpression) plan rows :
  (forall row, sql_eval e' (phys_row plan row) = env_eval e row) ->
  filter (passes e') (map (phys_row plan) rows) = map (phys_row plan) (filter (env_passes e) rows).
Proof. intros Hv. rewrite filter_map. f_equal. apply filter_ext_in. intros row _. unfold passes, env_passes. by rewrite Hv. Qed.

End Positions.
