(* ===== verification/Joins.v ===== *)
(** The joins of a plan and the hash joins they are translated to: the key positions that
    [Translate] computes, and the nested-loop join on operator rows against the join of
    the plan's rows. *)

From S2P Require Import Prelude Scalar Chunk Rows Expr Operators HashJoin Accumulator Aggregate Typing Plan PredicateUtils Queries Pushdown Streams Optimizer Positions.

(** ** Keys *)

(** Lists of keys are equal when their elements are. *)
Lemma keys_match_pointwise {A} (f g : A -> option Value) (xs : list A) :
  match mapM f xs, mapM g xs with Some a, Some b => bool_decide (a = b) | _, _ => false end =
  forallb (fun x => match f x, g x with Some a, Some b => bool_decide (a = b) | _, _ => false end) xs.
Proof.
  induction xs as [|x xs IH]; [done|]. simpl. rewrite <- IH.
  destruct (f x) as [a|]; simpl; [|done]. destruct (g x) as [b|]; simpl; [|by destruct (mapM f xs)].
  destruct (mapM f xs) as [ka|]; simpl; [|by rewrite andb_false_r].
  destruct (mapM g xs) as [kb|]; simpl; [|by rewrite andb_false_r].
  destruct (decide (a = b)) as [->|Hne]; [|by rewrite !bool_decide_false by congruence].
  rewrite (bool_decide_true (b = b)) by done. destruct (decide (ka = kb)) as [->|Hne]; [by rewrite !bool_decide_true|].
  by rewrite !bool_decide_false by congruence.
Qed.

Lemma mapM_Forall2 {A B C} (f : B -> option C) (g : A -> option C) (xs : list A) (ys : list B) :
  Forall2 (fun x y => f y = g x) xs ys -> mapM f ys = mapM g xs.
Proof. induction 1 as [|x y xs ys Hxy _ IH]; [done|]. simpl. by rewrite Hxy, IH. Qed.

Lemma mapM_total {A B} (f : A -> option B) (g : A -> B) xs : Forall (fun x => f x = Some (g x)) xs -> mapM f xs = Some (map g xs).
Proof. induction 1 as [|x xs Hx _ IH]; [done|]. simpl. by rewrite Hx, IH. Qed.

Section Join.
Context (column : Z -> Z -> option TypeId) (l r : LogicalPlanNode).
Hypothesis Hl : placed_columns column l.
Hypothesis Hr : placed_columns column r.
Hypothesis Hapart : apart (CollectBindingIds l) (CollectBindingIds r).
Hypothesis Hnl : narrow column l.
Hypothesis Hnr : narrow column r.

(** A condition compares a column of one side with one of the other, of the same type. *)
Definition condition_ok (condition : ColumnRef * ColumnRef) : Prop :=
  (condition.1 ∈ columns column l /\ condition.2 ∈ columns column r \/
   condition.2 ∈ columns column l /\ condition.1 ∈ columns column r) /\
  ref_type condition.1 = ref_type condition.2.

(** The left column of a condition and the right one. *)
Definition oriented (condition : ColumnRef * ColumnRef) : ColumnRef * ColumnRef :=
  if bool_decide (ref_table_id condition.1 ∈ CollectBindingIds l) then condition else (condition.2, condition.1).

Lemma oriented_columns condition : condition_ok condition ->
  (oriented condition).1 ∈ columns column l /\ (oriented condition).2 ∈ columns column r /\
  ref_type (oriented condition).1 = ref_type (oriented condition).2.
Proof.
  destruct condition as [a b]. unfold oriented. simpl. intros [[[Ha Hb]|[Hb Ha]] Hty]; simpl in *.
  - by rewrite bool_decide_true by by apply (columns_ids column l a Hl).
  - rewrite bool_decide_false; [by simpl|]. intros Hin. by apply (Hapart _ Hin), (columns_ids column r a Hr).
Qed.

Lemma cells_equal_oriented row condition :
  cells_equal row condition = match ref_cell row (oriented condition).2, ref_cell row (oriented condition).1 with
    | Some a, Some b => bool_decide (a = b) | _, _ => false end.
Proof.
  unfold cells_equal, oriented. case_bool_decide; simpl; [|done].
  destruct (ref_cell row condition.1) as [a|], (ref_cell row condition.2) as [b|]; try done.
  apply bool_decide_ext. split; by intros ->.
Qed.

Lemma join_keys_spec conds :
  Forall condition_ok conds ->
  exists pk bk, join_keys l r conds = Ok (pk, bk) /\
    Forall2 (fun condition p => columns column l !! p = Some (oriented condition).1) conds pk /\
    Forall2 (fun condition p => columns column r !! p = Some (oriented condition).2) conds bk.
Proof.
  intros Hconds. unfold join_keys.
  set (body := fun (condition : ColumnRef * ColumnRef) (keys : list nat * list nat) => _ : result (list nat * list nat)).
  destruct (for_each_inv (fun dn keys =>
    Forall2 (fun condition p => columns column l !! p = Some (oriented condition).1) dn keys.1 /\
    Forall2 (fun condition p => columns column r !! p = Some (oriented condition).2) dn keys.2) body conds ([], []))
    as ([pk bk] & HE & Hpk & Hbk); [|by split; constructor|by exists pk, bk].
  intros dn [a b] todo [pk bk] -> [Hpk Hbk]. cbn [fst snd] in *.
  assert (condition_ok (a, b)) as Hc by (rewrite Forall_forall in Hconds; apply Hconds, elem_of_app; right; constructor).
  destruct (oriented_columns (a, b) Hc) as (Hcl & Hcr & _).
  destruct (find_position_spec column l _ (placed_locates column l Hl) Hnl Hcl) as (i & Hi & Hli).
  destruct (find_position_spec column r _ (placed_locates column r Hr) Hnr Hcr) as (j & Hj & Hrj).
  exists (pk ++ [i], bk ++ [j]). split; [|split; apply Forall2_app; auto].
  assert (body (a, b) (pk, bk) = (probe ← find_position l (oriented (a, b)).1; build ← find_position r (oriented (a, b)).2;
    mret (pk ++ [Z.to_nat probe], bk ++ [Z.to_nat build]))) as ->.
  { unfold body, oriented. simpl. by case_bool_decide. }
  by rewrite Hi, bind_Ok, Hj, bind_Ok, !Nat2Z.id.
Qed.

(** The keys of both sides have the same types. *)
Lemma key_types_of plan (f : ColumnRef * ColumnRef -> ColumnRef) conds ps :
  Forall2 (fun condition p => columns column plan !! p = Some (f condition)) conds ps ->
  key_types ps (types column plan) = Some (map (fun condition => ref_type (f condition)) conds).
Proof.
  intros HF. unfold key_types.
  rewrite (mapM_Forall2 _ (fun condition => Some (ref_type (f condition))) conds ps).
  - apply mapM_total. by apply Forall_forall.
  - eapply Forall2_impl; [exact HF|]. intros condition p Hp. by rewrite (types_lookup _ _ _ _ Hp).
Qed.

Lemma key_values_of plan (f : ColumnRef * ColumnRef -> ColumnRef) conds ps row :
  Forall2 (fun condition p => columns column plan !! p = Some (f condition)) conds ps ->
  key_values ps (phys_row column plan row) = mapM (fun condition => ref_cell row (f condition)) conds.
Proof.
  intros HF. unfold key_values. apply mapM_Forall2. eapply Forall2_impl; [exact HF|]. intros condition p Hp.
  by apply phys_row_cell.
Qed.

(** ** Rows *)

Lemma ref_cell_sides lrow rrow ref :
  covered (CollectBindingIds l) lrow -> covered (CollectBindingIds r) rrow ->
  (ref ∈ columns column l -> ref_cell (lrow ∪ rrow) ref = ref_cell lrow ref) /\
  (ref ∈ columns column r -> ref_cell (lrow ∪ rrow) ref = ref_cell rrow ref).
Proof.
  intros Hcl Hcr. split; intros Hin%columns_ids; try done.
  - eapply ref_cell_left; [exact Hcr|by apply Hapart].
  - eapply ref_cell_right; [exact Hcl|]. intros Hin'. by apply (Hapart _ Hin').
Qed.

Lemma phys_row_join conds lrow rrow :
  covered (CollectBindingIds l) lrow -> covered (CollectBindingIds r) rrow ->
  phys_row column (LogicalJoin l r conds) (lrow ∪ rrow) = phys_row column r rrow ++ phys_row column l lrow.
Proof.
  intros Hcl Hcr. unfold phys_row. cbn [columns]. rewrite map_app.
  f_equal; apply map_ext_in; intros ref Hin%list_elem_of_In; by apply (ref_cell_sides lrow rrow ref Hcl Hcr).
Qed.

Lemma keys_match_conditions conds pk bk lrow rrow :
  Forall condition_ok conds ->
  Forall2 (fun condition p => columns column l !! p = Some (oriented condition).1) conds pk ->
  Forall2 (fun condition p => columns column r !! p = Some (oriented condition).2) conds bk ->
  covered (CollectBindingIds l) lrow -> covered (CollectBindingIds r) rrow ->
  keys_match bk pk (phys_row column r rrow) (phys_row column l lrow) = forallb (cells_equal (lrow ∪ rrow)) conds.
Proof.
  intros Hconds Hpk Hbk Hcl Hcr. unfold keys_match.
  rewrite (key_values_of r _ conds bk rrow Hbk), (key_values_of l _ conds pk lrow Hpk), keys_match_pointwise.
  clear Hpk Hbk. induction Hconds as [|c conds Hc _ IH]; [done|]. cbn [forallb]. rewrite IH. f_equal.
  rewrite cells_equal_oriented. destruct (oriented_columns c Hc) as (H1 & H2 & _).
  rewrite (proj1 (ref_cell_sides lrow rrow (oriented c).1 Hcl Hcr) H1).
  by rewrite (proj2 (ref_cell_sides lrow rrow (oriented c).2 Hcl Hcr) H2).
Qed.

(** The hash join's specification on the operators' rows is the join of the plan's rows. *)
Lemma nested_loop_join_rows conds pk bk lrows rrows :
  Forall condition_ok conds ->
  Forall2 (fun condition p => columns column l !! p = Some (oriented condition).1) conds pk ->
  Forall2 (fun condition p => columns column r !! p = Some (oriented condition).2) conds bk ->
  Forall (covered (CollectBindingIds l)) lrows -> Forall (covered (CollectBindingIds r)) rrows ->
  nested_loop_join bk pk (map (phys_row column r) rrows) (map (phys_row column l) lrows) =
  map (phys_row column (LogicalJoin l r conds)) (join_rows conds lrows rrows).
Proof.
  intros Hconds Hpk Hbk Hcl Hcr. unfold nested_loop_join, join_rows. rewrite concat_map, !map_map. f_equal.
  apply map_ext_in. intros lrow Hlrow%list_elem_of_In. rewrite !filter_map, !map_map.
  rewrite Forall_forall in Hcl, Hcr. specialize (Hcl lrow Hlrow).
  rewrite (filter_ext_in _ (fun rrow => forallb (cells_equal (lrow ∪ rrow)) conds = true) rrows).
  - apply map_ext_in. intros rrow [_ Hrrow]%list_elem_of_In%list_elem_of_filter. by rewrite phys_row_join by auto.
  - intros rrow Hrrow. by rewrite (keys_match_conditions conds pk bk lrow rrow) by auto.
Qed.

End Join.
