(* ===== verification/Execution.v ===== *)
(** Running a translated plan: over a store that holds the tables of the catalog, the
    operators of scans, filters and joins deliver the rows of the plan. *)

From S2P Require Import Prelude Scalar ByteIO Bitmap Columns ZoneMap Footer Disk Replacer BufferPool Schema Catalog Chunk Rows Expr Eval Operators HashJoin Accumulator Aggregate Layout Pages Scan Typing Plan PredicateUtils Queries Pushdown Pruning Streams Optimizer Positions Joins.

#[global] Existing Instance tree_op.

(** ** Tables on a store *)

Section Tables.
Context (view : Z -> option (list byte)).

Definition no_nan (row : Row) : Prop := forall j f, cell_at row j = Some (VFloat f) -> f32_is_nan f = false.

(** The pages of [view] hold the row groups of [table], whose rows are [rows]; the values have
    the sizes the engine supports and the columns can be scanned. *)
Definition table_stored (table : TableObject) (rows : list Row) : Prop :=
  let tys := map type (tbl_columns_ table) in
  Forall row_ok rows /\ Forall no_nan rows /\
  exists gs, gs.*1 = row_groups_ table /\ rows = concat gs.*2 /\
    Forall (fun g => row_group_stored view tys g.1 g.2) gs /\
    Forall (fun g => forall j, (j < length tys)%nat -> readable tys g.2 j) gs.

Lemma stored_row_typed tys rg rows row : row_group_stored view tys rg rows -> row ∈ rows ->
  forall j ty v, tys !! j = Some ty -> cell_at row j = Some v -> type_of v = ty.
Proof.
  intros (_ & _ & columns & Hrep & _) Hrow j ty v Hty Hv.
  destruct (columns_repr_lookup_r columns (length rows) (specs_of tys rows) j ty (column_of ty j rows) Hrep) as (col & _ & Hcr & _).
  { by rewrite specs_of_lookup, Hty. }
  apply list_elem_of_lookup in Hrow as [i Hi]. pose proof (column_of_lookup ty j rows i row Hi) as Hr.
  rewrite Hv in Hr. apply list_elem_of_lookup_2 in Hr. by apply (col_repr_typed _ _ _ _ Hcr) in Hr.
Qed.

End Tables.

Lemma env_row_cell b row ord : 0 <= ord -> env_cell (env_row b row) b ord = cell_at row (Z.to_nat ord).
Proof.
  intros Ho. unfold env_cell, cell_at. destruct (env_row b row !! (b, ord)) as [v|] eqn:E.
  - apply env_row_lookup in E as (_ & _ & ->). done.
  - destruct (row !! Z.to_nat ord) as [v|] eqn:Ev; [|done]. assert (env_row b row !! (b, ord) = Some v) as E'; [|congruence].
    apply env_row_lookup. by split_and!.
Qed.

(** ** Zone-map conditions *)

(** Comparisons of a column with a constant are between values of one type. *)
Fixpoint same_typed (e : BoundExpression) : bool :=
  match e with
  | BinaryOpNode _ (BoundColumnRef _ _ ty) (ConstNode v) _ => bool_decide (type_of v = ty)
  | BinaryOpNode _ l r _ => same_typed l && same_typed r
  | UnaryOpNode _ e => same_typed e
  | _ => true
  end.

Lemma compare_constant op at_ a v :
  sql_binary op at_ (SqlValue a) (SqlValue (Some v)) = Some (SqlBool (Some true)) ->
  exists x, a = Some x /\ value_compare op x v = Some true.
Proof.
  destruct a as [x|]; unfold sql_binary.
  - destruct (IsArithmeticOperator op).
    + case_decide; [destruct (Expr.as_float x); [|done]; by destruct (Expr.as_float v)|]. destruct x, v; try done.
      case_match; [done|]. by destruct (to_option _).
    + destruct (IsLogicalOperator op); [done|]. destruct (value_compare op x v) as [c|] eqn:Ec; [|done]. intros [= ->]. eauto.
  - by destruct (IsArithmeticOperator op), (IsLogicalOperator op).
Qed.

(** The condition taken from a predicate is about a column of the table, of the constant's type,
    and a row that passes the predicate satisfies it. *)
Lemma skip_spec b e skip (tys : list TypeId) :
  TryExtractZoneMapSkip e b = Some skip -> same_typed e = true ->
  Forall (fun ref => 0 <= ref_ordinal ref /\ tys !! Z.to_nat (ref_ordinal ref) = Some (ref_type ref)) (CollectColumnRefs e) ->
  tys !! skip_ordinal skip = Some (constant_type (skip_constant skip)) /\
  forall row, (forall j ty v, tys !! j = Some ty -> cell_at row j = Some v -> type_of v = ty) ->
    env_passes e (env_row b row) -> satisfies skip row = true.
Proof.
  unfold TryExtractZoneMapSkip. destruct e as [| |op l r at_|]; try done. destruct l as [id ord ty| | |]; try done.
  destruct r as [|v| |]; try done. destruct (Z.eqb_spec id b) as [->|]; [|done]. cbn [negb]. intros Hskip Hsame%bool_decide_eq_true Hrefs.
  unfold CollectColumnRefs in Hrefs. simpl in Hrefs. rewrite Forall_singleton in Hrefs. destruct Hrefs as [Ho Hty].
  cbn [ref_ordinal ref_type] in *. rewrite <- Hsame in Hty.
  split; [by destruct v as [z|f|s]; [| |done]; injection Hskip as <-|]. intros row Htyped.
  unfold env_passes. cbn [env_eval mbind option_bind]. rewrite env_row_cell by done. intros (x & Hx & Hc)%compare_constant.
  pose proof (Htyped _ _ _ Hty Hx) as Hxt.
  destruct v as [z|f|s]; [| |done]; injection Hskip as <-; unfold satisfies; cbn [skip_ordinal skip_constant skip_op];
    rewrite Hx; destruct x; try done; by injection Hc.
Qed.

(** ** Scans *)

Section Run.
Context {F : Type} `{PosixFileLaws F} `{!ReliableFile F} (view : Z -> option (list byte)).
Context (w0 : Store F) (Hw0 : scan_inv view w0).
Context (column : Z -> Z -> option TypeId) (B : Z).

(** [column] gives binding [b] the types of the table's columns. *)
Definition binding_types (b : Z) (table : TableObject) : Prop :=
  forall ord, column b ord = if decide (0 <= ord) then map type (tbl_columns_ table) !! Z.to_nat ord else None.

Definition skip_fits (tys : list TypeId) (skip : option ZoneMapSkipCondition) : Prop :=
  match skip with None => True | Some c => tys !! skip_ordinal c = Some (constant_type (skip_constant c)) end.

Definition may_pass (skip : option ZoneMapSkipCondition) (row : Row) : Prop :=
  match skip with None => True | Some c => satisfies c row = true end.

Lemma skips_ok table required skip tys rg rows :
  skip_fits tys skip -> row_group_stored view tys rg rows -> is_ok (skips (new_scan table required skip) rg).
Proof.
  intros Hfit Hst. destruct skip as [c|]; [|by eexists]. pose proof (zone_map_test view tys rg rows c _ Hst Hfit) as Hz.
  by rewrite decide_True in Hz.
Qed.

(** The rows of the row groups that are not skipped: every row that can pass is among them. *)
Lemma kept_rows table required skip (gs : list (RowGroupFooterEntry * list Row)) tys (P : Row -> Prop) `{!forall x, Decision (P x)} :
  Forall (fun g => row_group_stored view tys g.1 g.2) gs -> Forall no_nan (concat gs.*2) ->
  (forall row, row ∈ concat gs.*2 -> P row -> may_pass skip row) ->
  filter P (concat (map (fun g => if skipped table required skip g.1 then [] else g.2) gs)) = filter P (concat gs.*2).
Proof.
  intros Hst. induction Hst as [|[rg rows] gs Hg _ IH]; intros Hnan Hpass; [done|]. cbn [map concat fmap list_fmap fst snd] in *.
  apply Forall_app in Hnan as [Hn Hnan]. rewrite !filter_app, IH; [|done|].
  2: { intros row Hrow. apply Hpass, elem_of_app. by right. }
  f_equal. destruct (skipped table required skip rg) eqn:Hsk; [|done]. symmetry. apply filter_none. intros row Hrow HP.
  unfold skipped, skips in Hsk. cbn [new_scan zone_map_skip_] in Hsk. destruct skip as [c|]; [|done].
  destruct (ZoneMapRulesOutRowGroup rg c) as [[]| | |] eqn:Hz; try done.
  assert (satisfies c row = false) as Hf; [|specialize (Hpass row ltac:(apply elem_of_app; by left) HP); simpl in Hpass; congruence].
  eapply excluded_sound; [exact Hg| |exact Hz|done]. intros row' f Hin Hc. rewrite Forall_forall in Hn. by eapply Hn.
Qed.

Lemma scan_chunks_within table required skip (gs : list (RowGroupFooterEntry * list Row)) :
  rows_within B (concat gs.*2) -> Forall (chunk_within B) (chunks_from table required skip gs 0).
Proof.
  destruct (decide (B < 2 ^ 31)) as [HB|HB]; [|by intros _; apply Forall_forall; intros c _ ?]. intros Hw. specialize (Hw HB).
  induction gs as [|[rg rows] gs IH]; [constructor|]. cbn [chunks_from fmap list_fmap concat snd] in *. apply Forall_app in Hw as [Hr Hw].
  destruct (skipped table required skip rg); [by apply IH|]. rewrite drop_0. apply Forall_app. split; [|by apply IH].
  apply Forall_map, Forall_forall. intros v _ _. apply Forall_map, Forall_forall. intros j _. apply column_of_within.
  by apply Forall_take, Forall_drop.
Qed.

Lemma scan_streams b t cols required table rows skip :
  table_stored view table rows -> rows_within B rows -> binding_types b table -> scan_typed column b cols required ->
  skip_fits (map type (tbl_columns_ table)) skip ->
  exists kept, streams (scan_inv view) B (new_scan table (map Z.to_nat required) skip) (types column (LogicalScan b t cols required))
    (map (fun row => phys_row column (LogicalScan b t cols required) (env_row b row)) kept) /\
    forall (P : Row -> Prop) (dec : forall x, Decision (P x)), (forall row, row ∈ rows -> P row -> may_pass skip row) ->
      filter P kept = filter P rows.
Proof.
  intros (Hok & Hnan & gs & Hgs & -> & Hst & Hread) Hw Hb Hreq Hfit. set (tys := map type (tbl_columns_ table)) in *.
  set (ords := map Z.to_nat required).
  exists (concat (map (fun g => if skipped table ords skip g.1 then [] else g.2) gs)). split.
  2: { intros P HP Hpass. by apply (kept_rows table ords skip gs tys). }
  assert (Forall (fun ord => 0 <= ord /\ exists ty, column b ord = Some ty /\ tys !! Z.to_nat ord = Some ty) required) as Htys.
  { unfold scan_typed in Hreq. eapply Forall_impl; [exact Hreq|]. intros ord (Ho & ty & c & Hty & _). split; [done|]. exists ty.
    split; [done|]. by rewrite Hb, decide_True in Hty. }
  assert (Forall (fun g => Forall (readable tys g.2) ords) gs) as Hreadable.
  { eapply Forall_impl; [exact Hread|]. intros g Hg. apply Forall_map. eapply Forall_impl; [exact Htys|].
    intros ord (_ & ty & _ & Hty). apply Hg. by eapply lookup_lt_Some. }
  assert (Forall (fun g => is_ok (skips (new_scan table ords skip) g.1)) gs) as Hskips.
  { eapply Forall_impl; [exact Hst|]. intros g Hg. by apply (skips_ok table ords skip tys g.1 g.2). }
  exists (chunks_from table ords skip gs 0), 0%nat. split_and!.
  - clear -Htys Hb. induction gs as [|[rg rows] gs IH]; [constructor|]. cbn [chunks_from].
    destruct (skipped table ords skip rg); [done|]. rewrite drop_0. apply Forall_app. split; [|done].
    apply Forall_map, Forall_forall. intros v _. cbn [fst]. unfold scan_columns, types, ords. cbn [columns].
    rewrite <- list_fmap_compose, !map_map. cbn [ref_type]. apply map_ext_in. intros ord Hord%list_elem_of_In.
    rewrite Forall_forall in Htys. destruct (Htys ord Hord) as (_ & ty & -> & Hty). unfold type_at. simpl. unfold tys in Hty. by rewrite Hty.
  - by apply scan_chunks_within.
  - rewrite rows_of_scan. unfold scan_rows. rewrite concat_map, map_map. f_equal. apply map_ext. intros [rg rows]. cbn [fst snd].
    destruct (skipped table ords skip rg); [done|]. apply map_ext. intros row. unfold pick, phys_row, ords. cbn [columns].
    rewrite !map_map. apply map_ext_in. intros ord Hord%list_elem_of_In. rewrite Forall_forall in Htys.
    unfold ref_cell. cbn [ref_table_id ref_ordinal]. by rewrite env_row_cell by (by apply Htys).
  - intros fuel _. apply (scan_delivers view table ords skip gs Hgs Hst Hreadable Hskips fuel 0 0).
    by apply (position_ok_0 view table gs Hst).
Qed.

(** ** Scans, filters and joins *)

Context `{MapOrder} (catalog : Catalog F) (db : Z -> list Row).

Definition scan_ok (b t : Z) (cols : list OutputColumn) (required : list Z) : Prop :=
  scan_typed column b cols required /\
  exists table, GetTableById catalog t = Some table /\ binding_types b table /\ table_stored view table (db t) /\ rows_within B (db t).

Definition predicate_ok (available : list ColumnRef) (e : BoundExpression) : Prop :=
  infer_in column e = Some ExprBoolean /\ Forall (fun ref => ref ∈ available) (CollectColumnRefs e) /\
  exact B e = true /\ short e /\ same_typed e = true.

(** The bytes of a column of some rows. *)
Definition ref_bytes (rows : list Env) (ref : ColumnRef) : Z := foldr (fun row n => cell_len (ref_cell row ref) + n) 0 rows.

(** The build side of a join fits the 32-bit counters and offsets of its columns. *)
Definition build_fits (rows : list Env) : Prop :=
  is_u32 (Z.of_nat (length rows)) /\ forall ref, ref_bytes rows ref < 2 ^ 31.

Fixpoint executable (plan : LogicalPlanNode) : Prop :=
  match plan with
  | LogicalScan b t cols required => scan_ok b t cols required
  | LogicalFilter input e => executable input /\ predicate_ok (columns column input) e
  | LogicalJoin l r conds => executable l /\ executable r /\ apart (CollectBindingIds l) (CollectBindingIds r) /\
      Forall (condition_ok column l r) conds /\ build_fits (plan_rows db r)
  | _ => False
  end.

Lemma executable_placed plan : executable plan -> placed_columns column plan.
Proof. induction plan as [b t cols req|i IH pred|l IHl r IHr conds| |]; simpl; try done; [by intros []|tauto|intros (? & ? & ? & _); auto]. Qed.

Lemma executable_relational plan : executable plan -> relational plan.
Proof. induction plan as [b t cols req|i IH pred|l IHl r IHr conds| |]; simpl; try done; [tauto|intros (? & ? & ? & _); auto]. Qed.

Definition env_ok (row : Env) : Prop := forall k v, row !! k = Some (Some v) -> value_ok v.

Lemma plan_rows_ok plan : executable plan -> Forall env_ok (plan_rows db plan).
Proof.
  induction plan as [b t cols req|i IH pred|l IHl r IHr conds| |]; simpl; try done.
  - intros (_ & table & _ & _ & (Hok & _) & _). apply Forall_map. eapply Forall_impl; [exact Hok|].
    intros row Hrow [id ord] v (_ & _ & Hv)%env_row_lookup. by eapply Hrow.
  - intros [Hi _]. specialize (IH Hi). rewrite Forall_forall in *. intros row [_ Hrow]%list_elem_of_filter. auto.
  - intros (Hl & Hr & _). specialize (IHl Hl). specialize (IHr Hr). rewrite Forall_forall in *.
    intros row (x & y & Hx & Hy & -> & _)%elem_of_join_rows k v [Hv|[_ Hv]]%lookup_union_Some_raw; [by apply (IHl x Hx k)|by apply (IHr y Hy k)].
Qed.

Lemma phys_row_ok plan row : env_ok row -> row_ok (phys_row column plan row).
Proof.
  intros Hok j v Hj. unfold phys_row in Hj. apply list_lookup_fmap_Some in Hj as (ref & Hv & _).
  unfold ref_cell, env_cell in Hv. destruct (row !! _) as [o|] eqn:E; [|done]. simpl in Hv. subst o. by apply Hok in E.
Qed.

Lemma phys_rows_ok plan rows : Forall env_ok rows -> Forall row_ok (map (phys_row column plan) rows).
Proof. intros Hok. apply Forall_map. eapply Forall_impl; [exact Hok|]. apply phys_row_ok. Qed.

Lemma phys_bytes plan rows j :
  (forall ref, ref_bytes rows ref < 2 ^ 31) -> col_bytes (map (phys_row column plan) rows) j < 2 ^ 31.
Proof.
  intros Hb. destruct (columns column plan !! j) as [ref|] eqn:Hj.
  - enough (col_bytes (map (phys_row column plan) rows) j = ref_bytes rows ref) as -> by apply Hb.
    clear Hb. induction rows as [|row rows IH]; [done|]. unfold col_bytes, ref_bytes in *. simpl. by rewrite IH, (phys_row_cell _ _ _ _ _ Hj).
  - enough (col_bytes (map (phys_row column plan) rows) j = 0) as -> by done.
    clear Hb. induction rows as [|row rows IH]; [done|]. unfold col_bytes in *. simpl. rewrite IH. unfold cell_at, phys_row.
    by rewrite list_lookup_fmap, Hj.
Qed.

(** What a translated operator delivers. *)
Definition delivers_rows (plan : LogicalPlanNode) (rows : list Env) : Prop :=
  exists op, Translate catalog plan = Ok op /\
    streams (scan_inv view) B (op_tree op) (types column plan) (map (phys_row column plan) rows).

Lemma scan_runs b t cols required :
  scan_ok b t cols required -> delivers_rows (LogicalScan b t cols required) (plan_rows db (LogicalScan b t cols required)).
Proof.
  intros (Hreq & table & Ht & Hb & Hst & Hw).
  destruct (scan_streams b t cols required table (db t) None Hst Hw Hb Hreq I) as (kept & Hs & Hkept).
  exists (make_scan table required None). split; [cbn [Translate]; unfold find_table; by rewrite Ht|].
  assert (kept = db t) as ->; [|by cbn [plan_rows]; rewrite map_map].
  rewrite <- (filter_all (fun _ => True) kept), <- (filter_all (fun _ => True) (db t)) by done. by apply Hkept.
Qed.

Lemma filter_scan_runs b t cols required e :
  executable (LogicalFilter (LogicalScan b t cols required) e) -> narrow column (LogicalScan b t cols required) ->
  delivers_rows (LogicalFilter (LogicalScan b t cols required) e) (plan_rows db (LogicalFilter (LogicalScan b t cols required) e)).
Proof.
  intros [(Hreq & table & Ht & Hb & Hst & Hw) (Hty & Hrefs & Hex & Hsh & Hsame)] Hn. set (scan := LogicalScan b t cols required) in *.
  destruct (rewrite_expr_spec column column scan e _ (placed_locates column scan Hreq) Hn Hty Hrefs) as (e' & HR & Hi & _ & He & Hs & Hv).
  set (tys := map type (tbl_columns_ table)).
  assert (Forall (fun ref => 0 <= ref_ordinal ref /\ tys !! Z.to_nat (ref_ordinal ref) = Some (ref_type ref)) (CollectColumnRefs e)) as Htys.
  { eapply Forall_impl; [exact Hrefs|]. intros ref (ord & -> & Hord)%list_elem_of_fmap. unfold scan_typed in Hreq.
    rewrite Forall_forall in Hreq. destruct (Hreq ord Hord) as (Ho & ty & c & Hc & _). split; [done|]. simpl. rewrite Hc.
    by rewrite Hb, decide_True in Hc. }
  assert (forall row, row ∈ db t -> forall j ty v, tys !! j = Some ty -> cell_at row j = Some v -> type_of v = ty) as Htyped.
  { destruct Hst as (_ & _ & gs & _ & -> & Hgs & _). intros row Hrow. apply list_elem_of_In, in_concat in Hrow as (rows & Hin & Hrow).
    apply list_elem_of_In, list_elem_of_fmap in Hin as (g & -> & Hg). rewrite Forall_forall in Hgs.
    apply (stored_row_typed view tys g.1 g.2 row (Hgs g Hg)). by apply list_elem_of_In. }
  assert (skip_fits tys (TryExtractZoneMapSkip e b)) as Hfit.
  { destruct (TryExtractZoneMapSkip e b) as [c|] eqn:Hskip; [|done]. by apply (skip_spec b e c tys Hskip Hsame Htys). }
  destruct (scan_streams b t cols required table (db t) _ Hst Hw Hb Hreq Hfit) as (kept & Hstr & Hkept).
  exists (make_filter (make_scan table required (TryExtractZoneMapSkip e b)) e'). split.
  { cbn [Translate scan]. unfold find_table. rewrite Ht, bind_Ok. fold scan. by rewrite HR. }
  change (plan_rows db (LogicalFilter scan e)) with (filter (env_passes e) (map (env_row b) (db t))).
  pose proof (streams_filter _ _ Hw0 _ _ _ _ Hstr e' Hi ltac:(by rewrite He) (Hs Hsh)) as Hf.
  rewrite <- (map_map (env_row b) (phys_row column scan)), (passes_rewritten column e e' scan _ Hv), filter_map in Hf.
  rewrite filter_map. rewrite <- (Hkept (fun row => env_passes e (env_row b row)) _); [exact Hf|].
  intros row Hrow Hp. unfold may_pass. destruct (TryExtractZoneMapSkip e b) as [c|] eqn:Hskip; [|done].
  destruct (skip_spec b e c tys Hskip Hsame Htys) as [_ Hsat]. apply Hsat; [by apply Htyped|done].
Qed.

Lemma filter_runs input e :
  (forall b t cols required, input <> LogicalScan b t cols required) -> placed_columns column input ->
  predicate_ok (columns column input) e -> narrow column input ->
  delivers_rows input (plan_rows db input) -> delivers_rows (LogicalFilter input e) (plan_rows db (LogicalFilter input e)).
Proof.
  intros Hne Hp (Hty & Hrefs & Hex & Hsh & _) Hn (op & HT & Hstr).
  destruct (rewrite_expr_spec column column input e _ (placed_locates column input Hp) Hn Hty Hrefs) as (e' & HR & Hi & _ & He & Hs & Hv).
  exists (make_filter op e'). split.
  - destruct input as [b t cols req| | | |]; [by destruct (Hne b t cols req)|..]; cbn [Translate] in *; by rewrite HR, bind_Ok, HT.
  - pose proof (streams_filter _ _ Hw0 _ _ _ _ Hstr e' Hi ltac:(by rewrite He) (Hs Hsh)) as Hf.
    by rewrite (passes_rewritten column e e' input _ Hv) in Hf.
Qed.

Lemma join_runs l r conds :
  executable (LogicalJoin l r conds) -> narrow column l -> narrow column r ->
  delivers_rows l (plan_rows db l) -> delivers_rows r (plan_rows db r) ->
  delivers_rows (LogicalJoin l r conds) (plan_rows db (LogicalJoin l r conds)).
Proof.
  intros (Hl & Hr & Hap & Hconds & Hu & Hbytes) Hnl Hnr (opl & HTl & Hsl) (opr & HTr & Hsr).
  pose proof (executable_placed l Hl) as Hpl. pose proof (executable_placed r Hr) as Hpr.
  destruct (join_keys_spec column l r Hpl Hpr Hap Hnl Hnr conds Hconds) as (pk & bk & HK & Hpk & Hbk).
  exists (make_join opr opl bk pk (types column r)). split.
  - cbn [Translate]. rewrite HK, bind_Ok, (PhysicalOutputSchema_spec column r Hpr), bind_Ok, HTl, bind_Ok, HTr. done.
  - assert (types column (LogicalJoin l r conds) = types column r ++ types column l) as -> by apply map_app.
    cbn [plan_rows]. rewrite <- (nested_loop_join_rows column l r Hpl Hpr Hap conds pk bk); [|done|done|done| |].
    + apply (streams_join _ _ Hw0 _ _ _ bk pk _ _ (map (fun c => ref_type (oriented l c).1) conds)); [exact Hsr|exact Hsl| | | | | |].
      * rewrite (key_types_of column r _ conds bk Hbk). f_equal. apply map_ext_in. intros c Hc%list_elem_of_In.
        rewrite Forall_forall in Hconds. symmetry. by apply (oriented_columns column l r Hpl Hpr Hap c (Hconds c Hc)).
      * apply (key_types_of column l _ conds pk Hpk).
      * by apply phys_rows_ok, plan_rows_ok.
      * by apply phys_rows_ok, plan_rows_ok.
      * by rewrite length_map.
      * intros j. by apply phys_bytes.
    + apply Forall_forall. intros row. apply relational_covered. by apply executable_relational.
    + apply Forall_forall. intros row. apply relational_covered. by apply executable_relational.
Qed.

(** The operators of a plan of scans, filters and joins deliver its rows. *)
Lemma relational_runs plan : executable plan -> narrow column plan -> delivers_rows plan (plan_rows db plan).
Proof.
  induction plan as [b t cols req|i IH e|l IHl r IHr conds| |]; intros Hex Hn; try done.
  - by apply scan_runs.
  - pose proof Hex as [Hi He]. specialize (IH Hi Hn).
    destruct i as [b t cols req|i' e'|l r conds| |]; try done; [by apply filter_scan_runs|..];
      (apply filter_runs; [done|by apply executable_placed|done|done|done]).
  - pose proof Hex as (Hl & Hr & _). unfold narrow in *. cbn [columns] in Hn. rewrite length_app in Hn.
    apply join_runs; [done|unfold narrow; lia|unfold narrow; lia|apply IHl; [done|lia]|apply IHr; [done|lia]].
Qed.

End Run.
