(* ===== verification/Grouping.v ===== *)
(** The aggregations of a plan: the positions and specifications that [Translate] computes,
    and GROUP BY on operator rows against the groups of the plan's rows. *)

From S2P Require Import Prelude Scalar Chunk Rows Expr Operators HashJoin Accumulator Aggregate Typing Plan PredicateUtils Queries Pushdown Streams Optimizer Positions.

Section Grouping.
Context (column : Z -> Z -> option TypeId) (input : LogicalPlanNode).
Hypothesis Hplaced : placed_columns column input.
Hypothesis Hnarrow : narrow column input.

(** An aggregate the engine computes, over a column of the input. *)
Definition call_ok (call : AggregateCall) : Prop :=
  match Plan.argument call with
  | None => Plan.function call = Plan.kCountStar
  | Some ref => ref ∈ columns column input /\
      (Plan.function call = Plan.kSum \/ Plan.function call = Plan.kAvg -> ref_type ref <> kVarchar)
  end.

Definition at_position (ref : ColumnRef) (p : nat) : Prop := columns column input !! p = Some ref.

(** The specification of a call over its argument's position. *)
Definition specifies (call : AggregateCall) (spec : AggregateSpec) : Prop :=
  exists arg_col, spec = call_spec arg_col call /\
    match Plan.argument call, arg_col with
    | Some ref, Some p => at_position ref p
    | None, None => True
    | _, _ => False
    end.

Lemma group_positions_spec gb :
  Forall (fun ref => ref ∈ columns column input) gb ->
  exists ps, group_positions input gb = Ok (ps, map ref_type gb) /\ Forall2 at_position gb ps.
Proof.
  intros Hgb. unfold group_positions.
  set (body := fun (ref : ColumnRef) (st : list nat * list TypeId) => _ : result (list nat * list TypeId)).
  destruct (for_each_inv (fun dn st => Forall2 at_position dn st.1 /\ st.2 = map ref_type dn) body gb ([], []))
    as ([ps ts] & HE & Hps & Hts); [|by split; constructor|simpl in Hts; subst ts; by exists ps].
  intros dn ref todo [ps ts] -> [Hps Hts]. simpl in Hts. subst ts. unfold body.
  assert (ref ∈ columns column input) as Hin by (rewrite Forall_forall in Hgb; apply Hgb, elem_of_app; right; constructor).
  destruct (find_position_spec column input ref (placed_locates column input Hplaced) Hnarrow Hin) as (i & -> & Hi).
  rewrite bind_Ok, Nat2Z.id. eexists. split; [done|]. split; [apply Forall2_app; auto|by rewrite map_app].
Qed.

Lemma aggregate_specs_spec aggs :
  Forall call_ok aggs -> exists specs, aggregate_specs input aggs = Ok specs /\ Forall2 specifies aggs specs.
Proof.
  intros Haggs. unfold aggregate_specs.
  set (body := fun (agg : AggregateCall) (specs : list AggregateSpec) => _ : result (list AggregateSpec)).
  destruct (for_each_inv (fun dn specs => Forall2 specifies dn specs) body aggs []) as (specs & HE & Hs); [|constructor|by exists specs].
  intros dn call todo specs -> Hs. unfold body.
  assert (call_ok call) as Hc by (rewrite Forall_forall in Haggs; apply Haggs, elem_of_app; right; constructor).
  unfold call_ok in Hc. destruct (Plan.argument call) as [ref|] eqn:Ha.
  - destruct Hc as [Hin _].
    destruct (find_position_spec column input ref (placed_locates column input Hplaced) Hnarrow Hin) as (i & -> & Hi).
    rewrite !bind_Ok, Nat2Z.id. eexists. split; [done|]. apply Forall2_app; [done|]. constructor; [|constructor].
    exists (Some i). unfold call_spec. by rewrite Ha.
  - rewrite bind_Ok. eexists. split; [done|]. apply Forall2_app; [done|]. constructor; [|constructor].
    exists None. unfold call_spec. by rewrite Ha.
Qed.

Lemma specs_ok aggs specs : Forall call_ok aggs -> Forall2 specifies aggs specs -> Forall (spec_ok (types column input)) specs.
Proof.
  intros Haggs HF. induction HF as [|call spec aggs specs (arg & -> & Harg) _ IH]; [constructor|].
  apply Forall_cons in Haggs as [Hc Haggs]. constructor; [|by apply IH]. unfold spec_ok, call_ok, call_spec in *. cbn.
  destruct (Plan.argument call) as [ref|]; destruct arg as [p|]; try done; [|left; by rewrite Hc].
  right. exists p. destruct Hc as [_ Hv]. split_and!; [done|by apply types_lookup|].
  intros Hf. apply Hv. destruct (Plan.function call); simpl in Hf; destruct Hf; try done; tauto.
Qed.

Lemma group_types gb ps : Forall2 at_position gb ps -> key_types ps (types column input) = Some (map ref_type gb).
Proof.
  unfold key_types. induction 1 as [|ref p gb ps Hp _ IH]; [done|]. simpl. by rewrite (types_lookup _ _ _ _ Hp); simpl; rewrite IH.
Qed.

(** ** Rows *)

Lemma group_of_key gb ps row : Forall2 at_position gb ps -> group_of ps (phys_row column input row) = group_key gb row.
Proof.
  unfold group_of, group_key. induction 1 as [|ref p gb ps Hp _ IH]; [done|]. simpl. by rewrite IH, (phys_row_cell _ _ _ _ _ Hp).
Qed.

Lemma groups_keys gb ps rows : Forall2 at_position gb ps -> groups ps (map (phys_row column input) rows) = group_keys gb rows.
Proof.
  intros HF. unfold groups, group_keys. rewrite map_map. f_equal.
  - inversion HF; subst; [done|]. by rewrite !decide_False.
  - apply map_ext. intros row. by apply group_of_key.
Qed.

Lemma group_rows_key gb ps key rows : Forall2 at_position gb ps ->
  group_rows ps key (map (phys_row column input) rows) = map (phys_row column input) (rows_with_key gb key rows).
Proof.
  intros HF. unfold group_rows, rows_with_key. rewrite filter_map. f_equal. apply filter_ext_in. intros row _.
  by rewrite (group_of_key gb ps row HF).
Qed.

Lemma aggregate_value call spec rows : specifies call spec ->
  aggregate spec (map (argument_cell spec) (map (phys_row column input) rows)) = call_value rows call.
Proof.
  intros (arg & -> & Harg). unfold call_value, call_spec. rewrite map_map.
  assert (translate_function (Plan.function call) = execution_kind (Plan.function call)) as -> by by destruct (Plan.function call).
  change (aggregate (mk_spec (execution_kind (Plan.function call)) arg ?t)) with (aggregate (mk_spec (execution_kind (Plan.function call)) None t)).
  f_equal. apply map_ext. intros row. unfold argument_cell. cbn.
  destruct (Plan.argument call) as [ref|]; destruct arg as [p|]; try done. by apply phys_row_cell.
Qed.

Lemma numbered_row id (types : list TypeId) row other :
  length types = length row -> map (ref_cell (env_row id row ∪ other)) (numbered id types) = row.
Proof.
  intros Hlen. apply list_eq. intros j. rewrite list_lookup_fmap. unfold numbered. rewrite list_lookup_imap.
  destruct (types !! j) as [ty|] eqn:Ht.
  - destruct (lookup_lt_is_Some_2 row j) as [v Hv]; [rewrite <- Hlen; by eapply lookup_lt_Some|]. rewrite Hv. simpl. f_equal.
    unfold ref_cell, env_cell. cbn. erewrite lookup_union_Some_l; [done|]. apply env_row_lookup. split_and!; [done|lia|].
    by rewrite Nat2Z.id.
  - symmetry. apply lookup_ge_None. rewrite <- Hlen. by apply lookup_ge_None.
Qed.

Lemma group_keys_length gb rows : Forall (fun key => length key = length gb) (group_keys gb rows).
Proof.
  unfold group_keys. assert (Forall (fun key => length key = length gb) (if decide (gb = []) then [[]] else [] : list Row)) as Hinit.
  { case_decide as Hgb; [subst gb|]; repeat constructor. }
  revert Hinit. generalize (if decide (gb = []) then [[]] else [] : list Row) as keys.
  induction rows as [|row rows IH]; intros keys Hk; [done|]. simpl. apply IH. unfold add_group. case_decide; [done|].
  apply Forall_app. split; [done|]. constructor; [apply length_map|constructor].
Qed.

(** The aggregation's specification on the operators' rows is the plan's groups. *)
Lemma group_by_rows gb ps aggs specs cols rows :
  Forall2 at_position gb ps -> Forall2 specifies aggs specs ->
  group_by ps specs (map (phys_row column input) rows) =
  map (phys_row column (LogicalAggregate input gb aggs cols)) (map (group_env gb aggs rows) (group_keys gb rows)).
Proof.
  intros HF HS. unfold group_by. rewrite (groups_keys gb ps rows HF), map_map. apply map_ext_in. intros key Hkey%list_elem_of_In.
  pose proof (group_keys_length gb rows) as Hlen. rewrite Forall_forall in Hlen. specialize (Hlen key Hkey).
  assert (phys_row column (LogicalAggregate input gb aggs cols) (group_env gb aggs rows key) =
    key ++ map (call_value (rows_with_key gb key rows)) aggs) as ->.
  { unfold phys_row, group_env. cbn [columns]. apply numbered_row. by rewrite !length_app, !length_map, Hlen. }
  f_equal. rewrite (group_rows_key gb ps key rows HF). clear -HS.
  induction HS as [|call spec aggs specs Hc _ IH]; [done|]. simpl. by rewrite IH, (aggregate_value call spec _ Hc).
Qed.

Lemma out_types_numbered gb aggs specs cols : Forall2 specifies aggs specs ->
  out_types (map ref_type gb) specs = types column (LogicalAggregate input gb aggs cols).
Proof.
  intros HS. unfold out_types, types. cbn [columns]. unfold numbered.
  assert (forall ts, map ref_type (imap (fun j ty => mk_ref kAggregateOutputBindingId (Z.of_nat j) ty) ts) = ts) as ->.
  { intros ts. apply list_eq. intros j. rewrite list_lookup_fmap, list_lookup_imap. by destruct (ts !! j). }
  f_equal. induction HS as [|call spec aggs specs (arg & -> & _) _ IH]; [done|]. simpl. by rewrite IH.
Qed.

End Grouping.
