(* ===== verification/Optimization.v ===== *)
(** The optimizer end to end: for the plans the binder builds from queries, [Optimize] returns
    an operator that delivers the rows of the query. *)

From S2P Require Import Prelude Scalar ByteIO Bitmap Columns ZoneMap Footer Disk Replacer BufferPool Schema Catalog Chunk Rows Expr Eval Operators HashJoin Accumulator Aggregate Layout Pages Scan Typing Plan PredicateUtils Queries Pushdown Pruning Streams Optimizer Positions Joins Grouping Execution.

Section Optimization.
Context {F : Type} `{PosixFileLaws F} `{!ReliableFile F} (view : Z -> option (list byte)).
Context `{MapOrder} (catalog : Catalog F) (db : Z -> list Row) (column : Z -> Z -> option TypeId).

(** The magnitude of the integers in the tables. *)
Context (B : Z).

(** ** The plans of queries *)

Definition typed (ref : ColumnRef) : Prop := column (ref_table_id ref) (ref_ordinal ref) = Some (ref_type ref).
Definition known (ids : list Z) (ref : ColumnRef) : Prop := ref_table_id ref ∈ ids /\ typed ref.

(** A predicate over some bindings, whose integer arithmetic cannot overflow. *)
Definition wf_predicate (ids : list Z) (e : BoundExpression) : Prop :=
  infer_in column e = Some ExprBoolean /\ Forall (fun ref => ref_table_id ref ∈ ids) (CollectColumnRefs e) /\
  exact B e = true /\ short e /\ same_typed e = true.

Definition wf_condition (ls rs : list Z) (condition : ColumnRef * ColumnRef) : Prop :=
  (known ls condition.1 /\ known rs condition.2 \/ known ls condition.2 /\ known rs condition.1) /\
  ref_type condition.1 = ref_type condition.2.

Definition wf_scan (b t : Z) (cols : list OutputColumn) : Prop :=
  (forall ord ty, column b ord = Some ty -> exists c, cols !! Z.to_nat ord = Some c /\ Plan.output_type c = ToExpressionType ty) /\
  exists table, GetTableById catalog t = Some table /\ binding_types column b table /\ table_stored view table (db t) /\ rows_within B (db t).

(** FROM and WHERE. *)
Fixpoint wf_from (plan : LogicalPlanNode) : Prop :=
  match plan with
  | LogicalScan b t cols _ => wf_scan b t cols
  | LogicalFilter input e => wf_from input /\ wf_predicate (CollectBindingIds input) e
  | LogicalJoin l r conds => wf_from l /\ wf_from r /\ apart (CollectBindingIds l) (CollectBindingIds r) /\
      Forall (wf_condition (CollectBindingIds l) (CollectBindingIds r)) conds
  | _ => False
  end.

Definition wf_call (ids : list Z) (call : AggregateCall) : Prop :=
  match Plan.argument call with
  | None => Plan.function call = Plan.kCountStar
  | Some ref => known ids ref /\ (Plan.function call = Plan.kSum \/ Plan.function call = Plan.kAvg -> ref_type ref <> kVarchar)
  end.

Fixpoint grouping (plan : LogicalPlanNode) : list ColumnRef :=
  match plan with LogicalAggregate _ gb _ _ => gb | LogicalFilter input _ => grouping input | _ => [] end.

(** GROUP BY and HAVING; the condition is on the grouping columns. *)
Fixpoint wf_group (plan : LogicalPlanNode) : Prop :=
  match plan with
  | LogicalAggregate input gb aggs _ => wf_from input /\ Forall (known (CollectBindingIds input)) gb /\
      Forall (fun ref => ref_table_id ref <> kAggregateOutputBindingId) gb /\ Forall (wf_call (CollectBindingIds input)) aggs
  | LogicalFilter input e => wf_group input /\ grouping input <> [] /\ infer_in column e = Some ExprBoolean /\
      Forall (in_key (grouping input)) (CollectColumnRefs e) /\ exact B e = true /\ short e /\ same_typed e = true
  | _ => False
  end.

(** The types of the columns of an aggregation. *)
Fixpoint group_output (plan : LogicalPlanNode) : list ColumnRef :=
  match plan with LogicalFilter input _ => group_output input | LogicalAggregate _ _ _ _ => columns column plan | _ => [] end.

Definition wf_selected (ids : list Z) (e : BoundExpression) (ty : TypeId) : Prop :=
  infer_in column e = Some (ToExpressionType ty) /\ Forall (fun ref => ref_table_id ref ∈ ids) (CollectColumnRefs e) /\
  exact B e = true /\ short e.

Definition wf_query (input : LogicalPlanNode) (exprs : list BoundExpression) : Prop :=
  wf_from input /\ Forall (fun e => exists ty, wf_selected (CollectBindingIds input) e ty) exprs \/
  wf_group input /\ Forall (fun e => exists ref, ref ∈ group_output input /\
    e = BoundColumnRef (ref_table_id ref) (ref_ordinal ref) (ref_type ref)) exprs.

(** ** Pushdown keeps plans well formed *)

Lemma infer_in_refs e t : infer_in column e = Some t -> Forall typed (CollectColumnRefs e).
Proof.
  revert t. induction e as [id ord ty|v|op l IHl r IHr at_|[] e IH]; intros t Ht; simpl in *; [|constructor| |].
  - unfold CollectColumnRefs. simpl. repeat constructor. unfold typed. simpl.
    destruct (column id ord) as [ty'|]; [|done]. case_decide; [|done]. by subst.
  - rewrite CollectColumnRefs_binary. destruct (infer_in column l) as [tl|]; [|done]. destruct (infer_in column r) as [tr|]; [|done].
    apply Forall_app. eauto.
  - destruct (infer_in column e) as [te|]; [|done]. eauto.
Qed.

Lemma wf_predicate_and ids a b t :
  wf_predicate ids (BinaryOpNode kAnd a b t) <-> wf_predicate ids a /\ wf_predicate ids b.
Proof.
  unfold wf_predicate. rewrite CollectColumnRefs_binary, Forall_app. simpl. unfold infer_binary. simpl.
  assert (match a with BoundColumnRef _ _ ty => match b with ConstNode v => bool_decide (type_of v = ty) | _ => same_typed a && same_typed b end
    | _ => same_typed a && same_typed b end = true -> infer_in column a = Some ExprBoolean -> same_typed a && same_typed b = true) as Hs1.
  { destruct a as [id ord ty| | |]; try done. simpl. destruct (column id ord); [|done]. case_decide; [|done]. by destruct ty. }
  split.
  - intros (Hty & [Hra Hrb] & Hex & [Hsa Hsb] & Hsame). destruct (infer_in column a) as [ta|]; [|done].
    destruct (infer_in column b) as [tb|]; [|done]. simpl in Hty. case_decide as Hb; [|done]. destruct Hb as [-> ->].
    rewrite andb_true_r in Hex. apply andb_true_iff in Hex as [? ?].
    specialize (Hs1 Hsame eq_refl). apply andb_true_iff in Hs1 as [? ?]. by split_and!.
  - intros [(Hta & Hra & Hea & Hsa & Hma) (Htb & Hrb & Heb & Hsb & Hmb)]. rewrite Hta, Htb. simpl.
    split_and!; try done; [by rewrite Hea, Heb|]. destruct a as [id ord ty| | |]; try by rewrite ?Hma, ?Hmb.
    simpl in Hta. destruct (column id ord); [|done]. case_decide; [|done]. by destruct ty.
Qed.

Lemma wf_conjunction ids c cs : Forall (wf_predicate ids) (c :: cs) -> wf_predicate ids (conjunction c cs).
Proof.
  unfold conjunction. revert c. induction cs as [|d cs IH]; intros c Hcs; [by rewrite Forall_singleton in Hcs|]. simpl.
  apply Forall_cons in Hcs as [Hc [Hd Hcs]%Forall_cons]. apply IH. constructor; [by apply wf_predicate_and|done].
Qed.

Lemma wf_extract ids e : wf_predicate ids e -> Forall (wf_predicate ids) (ExtractConjuncts e).
Proof.
  assert (forall e, ExtractConjuncts e = [e] -> wf_predicate ids e -> Forall (wf_predicate ids) (ExtractConjuncts e)) as Hone.
  { intros e' -> He. by rewrite Forall_singleton. }
  induction e as [i o t|v|op l IHl r IHr at_|op e IH]; intros He; [by apply Hone|by apply Hone| |by apply Hone].
  destruct (decide (op = kAnd)) as [->|Hop]; [|apply Hone; [by destruct op|done]].
  rewrite ExtractConjuncts_and. apply wf_predicate_and in He as [Ha Hb]. apply Forall_app. auto.
Qed.

Lemma wf_from_relational plan : wf_from plan -> relational plan.
Proof. induction plan as [b t cols req|i IH e|l IHl r IHr conds| |]; simpl; try done; [tauto|intros (? & ? & ? & _); auto]. Qed.

Lemma wf_subset ids ids' e : wf_predicate ids e -> Forall (fun ref => ref_table_id ref ∈ ids') (CollectColumnRefs e) -> wf_predicate ids' e.
Proof. intros (Hty & _ & Hrest) Hrefs. split; [done|by split]. Qed.

Lemma List_filter_Forall {A} (p : A -> bool) (P : A -> Prop) xs : Forall P xs -> Forall (fun x => P x /\ p x = true) (List.filter p xs).
Proof.
  intros HP. rewrite Forall_forall in *. intros x [Hx Hp]%list_elem_of_In%filter_In. split; [|done].
  apply HP. by apply list_elem_of_In.
Qed.

Lemma PlaceInto_ids plan cs plan' : wf_from plan -> PlaceInto plan cs = Ok plan' -> CollectBindingIds plan' = CollectBindingIds plan.
Proof.
  intros Hwf HP. destruct (relational_scoped plan (wf_from_relational plan Hwf)) as [Hs Hf].
  destruct (PlaceInto_spec db plan cs Hs (or_intror Hf)) as (plan'' & HP' & Hp). rewrite HP in HP'. injection HP' as <-.
  apply (pl_ids _ _ _ _ Hp).
Qed.

Lemma Rewrite_ids plan plan' : wf_from plan -> Rewrite plan = Ok plan' -> CollectBindingIds plan' = CollectBindingIds plan.
Proof.
  intros Hwf HR. destruct (relational_scoped plan (wf_from_relational plan Hwf)) as [Hs Hf].
  destruct (Rewrite_spec db plan Hs) as (plan'' & HR' & Hp). rewrite HR in HR'. injection HR' as <-. apply (pl_ids _ _ _ _ Hp).
Qed.

Lemma WrapInFilter_wf node cs plan' :
  wf_from node -> Forall (wf_predicate (CollectBindingIds node)) cs -> WrapInFilter node cs = Ok plan' -> wf_from plan'.
Proof.
  intros Hn Hcs HW. destruct (WrapInFilter_spec node cs) as (plan & HW' & ->). rewrite HW' in HW. injection HW as <-.
  destruct cs as [|c cs]; [done|]. split; [done|by apply wf_conjunction].
Qed.

Lemma PlaceInto_wf plan cs plan' :
  wf_from plan -> Forall (wf_predicate (CollectBindingIds plan)) cs -> PlaceInto plan cs = Ok plan' -> wf_from plan'.
Proof.
  revert cs plan'. induction plan as [b t cols req|i IH e|l IHl r IHr conds| |]; intros cs plan' Hwf Hcs HP; try done;
    (destruct cs as [|c cs]; [by injection HP as <-|]); cbn [PlaceInto] in HP.
  - by eapply WrapInFilter_wf.
  - rewrite RebuildConjunction_spec, bind_Ok in HP. injection HP as <-. destruct Hwf as [Hi He]. split; [done|].
    apply (wf_conjunction _ e (c :: cs)). by constructor.
  - rewrite join_buckets_spec in HP. destruct Hwf as (Hl & Hr & Hap & Hconds).
    apply bind_Ok_inv in HP as (l' & HPl & HP). apply bind_Ok_inv in HP as (r' & HPr & HP).
    pose proof (PlaceInto_ids l _ l' Hl HPl) as Hil. pose proof (PlaceInto_ids r _ r' Hr HPr) as Hir.
    apply WrapInFilter_wf in HP; [done| |].
    + cbn [wf_from]. rewrite Hil, Hir. split_and!; [| |done|done].
      * eapply IHl; [done| |exact HPl]. eapply Forall_impl; [apply (List_filter_Forall _ _ _ Hcs)|].
        intros d [Hd Ha%AllColumnsAvailable_spec]. by eapply wf_subset.
      * eapply IHr; [done| |exact HPr]. eapply Forall_impl; [apply (List_filter_Forall _ _ _ Hcs)|].
        intros d [Hd [_ Ha%AllColumnsAvailable_spec]%andb_true_iff]. by eapply wf_subset.
    + cbn [CollectBindingIds]. rewrite Hil, Hir. eapply Forall_impl; [apply (List_filter_Forall _ _ _ Hcs)|]. by intros d [Hd _].
Qed.

Lemma Rewrite_wf plan plan' : wf_from plan -> Rewrite plan = Ok plan' -> wf_from plan'.
Proof.
  revert plan'. induction plan as [b t cols req|i IH e|l IHl r IHr conds| |]; intros plan' Hwf HR; try done; cbn [Rewrite] in HR.
  - by injection HR as <-.
  - apply bind_Ok_inv in HR as (i' & HR & HP). destruct Hwf as [Hi He]. eapply PlaceInto_wf; [by apply IH| |exact HP].
    by rewrite (Rewrite_ids i i' Hi HR); apply wf_extract.
  - apply bind_Ok_inv in HR as (l' & HRl & HR). apply bind_Ok_inv in HR as (r' & HRr & HR). injection HR as <-.
    destruct Hwf as (Hl & Hr & Hap & Hconds). cbn [wf_from].
    rewrite (Rewrite_ids l l' Hl HRl), (Rewrite_ids r r' Hr HRr). by split_and!; auto.
Qed.

Lemma conjunct_refs (P : ColumnRef -> Prop) e :
  Forall P (CollectColumnRefs e) -> Forall (fun c => Forall P (CollectColumnRefs c)) (ExtractConjuncts e).
Proof.
  rewrite <- ExtractConjuncts_refs. generalize (ExtractConjuncts e) as cs. induction cs as [|c cs IH]; [by constructor|].
  cbn [map concat]. intros [Hc Hcs]%Forall_app. constructor; auto.
Qed.

Lemma List_filter_all {A} (p : A -> bool) xs : Forall (fun x => p x = true) xs ->
  List.filter p xs = xs /\ List.filter (fun x => negb (p x)) xs = [].
Proof. induction 1 as [|x xs Hx _ [IH1 IH2]]; [done|]. simpl. by rewrite Hx, IH1, IH2. Qed.

(** A condition on grouping columns goes below the aggregation as a whole. *)
Lemma PlaceInto_group i gb aggs cols e plan' :
  wf_group (LogicalAggregate i gb aggs cols) -> infer_in column e = Some ExprBoolean ->
  Forall (in_key gb) (CollectColumnRefs e) -> exact B e = true -> short e -> same_typed e = true ->
  PlaceInto (LogicalAggregate i gb aggs cols) (ExtractConjuncts e) = Ok plan' ->
  exists i', plan' = LogicalAggregate i' gb aggs cols /\ wf_group plan'.
Proof.
  intros (Hi & Hgb & Hids & Haggs) Hty Hkeys Hex Hsh Hsame HP.
  assert (wf_predicate (CollectBindingIds i) e) as He.
  { split_and!; try done. eapply Forall_impl; [exact Hkeys|]. intros ref (key & Hin & <- & _).
    rewrite Forall_forall in Hgb. by apply Hgb. }
  pose proof (wf_extract _ e He) as Hcs. pose proof (conjunct_refs _ e Hkeys) as Hrefs.
  destruct (ExtractConjuncts e) as [|c cs]; [injection HP as <-; by exists i|]. cbn [PlaceInto] in HP.
  rewrite aggregate_buckets_spec in HP.
  destruct (List_filter_all (fun c => ReferencesOnlyGroupByColumns c gb) (c :: cs)) as [Hall Hnone].
  { eapply Forall_impl; [exact Hrefs|]. intros d. apply ReferencesOnlyGroupByColumns_spec. }
  rewrite Hall, Hnone in HP. apply bind_Ok_inv in HP as (i' & HP & HW). injection HW as <-.
  exists i'. split; [done|]. cbn [wf_group]. rewrite (PlaceInto_ids i _ i' Hi HP). split_and!; try done. by eapply PlaceInto_wf.
Qed.

Lemma Rewrite_group plan plan' : wf_group plan -> Rewrite plan = Ok plan' ->
  exists i gb aggs cols, plan' = LogicalAggregate i gb aggs cols /\ gb = grouping plan /\ wf_group plan' /\
    columns column plan' = group_output plan.
Proof.
  revert plan'. induction plan as [b t cols req|i IH e|l IHl r IHr conds|i IH gb aggs cols|]; intros plan' Hwf HR; try done; cbn [Rewrite] in HR.
  - destruct Hwf as (Hi & _ & Hty & Hkeys & Hex & Hsh & Hsame). apply bind_Ok_inv in HR as (i' & HR & HP).
    destruct (IH i' Hi HR) as (i1 & gb & aggs & cols & -> & Hgb & Hg & Hout). cbn [grouping group_output]. rewrite <- Hgb in *.
    destruct (PlaceInto_group i1 gb aggs cols e plan' Hg Hty Hkeys Hex Hsh Hsame HP) as (i2 & -> & Hg2).
    by exists i2, gb, aggs, cols.
  - apply bind_Ok_inv in HR as (i' & HR & HP). injection HP as <-. destruct Hwf as (Hi & Hgb & Hids & Haggs).
    exists i', gb, aggs, cols. cbn [wf_group]. rewrite (Rewrite_ids i i' Hi HR). split_and!; try done. by eapply Rewrite_wf.
Qed.

Lemma wf_group_scoped plan : wf_group plan -> scoped plan /\ (grouping plan <> [] -> filterable plan).
Proof.
  induction plan as [b t cols req|i IH e|l IHl r IHr conds|i IH gb aggs cols|]; try done.
  - intros (Hi & Hgb & _). destruct (IH Hi) as [Hs Hf]. split; [split; [done|by apply Hf]|]. exact Hf.
  - intros (Hi & _ & Hids & _). destruct (relational_scoped i (wf_from_relational i Hi)) as [Hs Hf]. done.
Qed.

(** ** Pruning keeps the columns that are needed *)

(** The sizes the engine supports, of a plan whose scans read the columns that are needed. *)
Fixpoint fits (plan : LogicalPlanNode) : Prop :=
  match plan with
  | LogicalScan _ _ _ _ => narrow column plan
  | LogicalFilter input _ => fits input
  | LogicalJoin l r _ => fits l /\ fits r /\ narrow column plan /\ build_fits (plan_rows db r)
  | LogicalAggregate input _ _ _ => fits input /\ narrow column plan /\ Z.of_nat (length (plan_rows db input)) < 2 ^ 32
  | LogicalProjection input _ _ => fits input
  end.

Lemma fits_narrow plan : fits plan -> relational plan -> narrow column plan.
Proof. induction plan as [b t cols req|i IH e|l IHl r IHr conds|i IH gb aggs cols|i IH es cols]; simpl; try tauto. Qed.

Lemma Propagate_scan b t cols required :
  wf_scan b t cols -> Forall typed required ->
  scan_ok view column B catalog db b t cols (scan_ordinals b required) /\
  forall ref, ref ∈ required -> ref_table_id ref = b -> ref ∈ columns column (LogicalScan b t cols (scan_ordinals b required)).
Proof.
  intros (Hcols & table & Ht & Hb & Hst & Hw) Htyped. destruct (scan_ordinals_spec b required) as [_ Hords]. rewrite Forall_forall in Htyped.
  split.
  - split; [|by exists table]. apply Forall_forall. intros ord (ref & Href & Hid & <-)%Hords.
    specialize (Htyped ref Href). unfold typed in Htyped. rewrite Hid in Htyped. split.
    + rewrite Hb in Htyped. by case_decide.
    + destruct (Hcols _ _ Htyped) as (c & Hc & Hct). by exists (ref_type ref), c.
  - intros ref Href Hid. cbn [columns]. apply list_elem_of_fmap. exists (ref_ordinal ref). split; [|apply Hords; eauto].
    specialize (Htyped ref Href). unfold typed in Htyped. rewrite Hid in Htyped. rewrite Htyped. destruct ref. simpl in *. by subst.
Qed.

Lemma Forall_sub {A} (P : A -> Prop) (p : A -> bool) xs : Forall P xs -> Forall P (List.filter p xs).
Proof. intros HP. eapply Forall_impl; [by apply List_filter_Forall|]. by intros x [? _]. Qed.

(** The plan that [Propagate] returns reads every column that is needed of it. *)
Lemma Propagate_executable plan required :
  wf_from plan -> Forall typed required -> fits (Propagate plan required) ->
  executable view column B catalog db (Propagate plan required) /\
  forall ref, ref ∈ required -> ref_table_id ref ∈ CollectBindingIds plan -> ref ∈ columns column (Propagate plan required).
Proof.
  revert required. induction plan as [b t cols req|i IH e|l IHl r IHr conds| |]; intros required Hwf Htyped Hfits; try done.
  - destruct (Propagate_scan b t cols required Hwf Htyped) as [Hs Hc]. split; [done|].
    intros ref Href Hid%list_elem_of_singleton. by apply Hc.
  - destruct Hwf as [Hi (Hty & Hrefs & Hrest)]. destruct (IH (required ++ CollectColumnRefs e)) as [Hx Hc]; [done| |done|].
    { apply Forall_app. split; [done|by eapply infer_in_refs]. }
    split; [|intros ref Href Hid; apply Hc; [apply elem_of_app; by left|done]].
    split; [done|]. split; [done|]. split; [|done]. rewrite Forall_forall in *. intros ref Href. apply Hc; [apply elem_of_app; by right|by apply Hrefs].
  - destruct Hwf as (Hl & Hr & Hap & Hconds). cbn [Propagate] in *. rewrite foldl_collect, route_spec in *. cbv beta iota in *.
    set (all := required ++ concat (map (fun c => [c.1] ++ [c.2]) conds)) in *.
    set (for_left := List.filter (fun ref => bool_decide (ref_table_id ref ∈ CollectBindingIds l)) all) in *.
    set (for_right := List.filter (fun ref => negb (bool_decide (ref_table_id ref ∈ CollectBindingIds l)) &&
      bool_decide (ref_table_id ref ∈ CollectBindingIds r)) all) in *.
    destruct Hfits as (Hfl & Hfr & _ & Hbuild).
    assert (Forall typed all) as Hall.
    { apply Forall_app. split; [done|]. apply Forall_concat, Forall_map. eapply Forall_impl; [exact Hconds|].
      intros c [[[[_ Ha] [_ Hb]]|[[_ Hb] [_ Ha]]] _]; by repeat constructor. }
    destruct (IHl for_left Hl (Forall_sub _ _ _ Hall) Hfl) as [Hxl Hcl]. destruct (IHr for_right Hr (Forall_sub _ _ _ Hall) Hfr) as [Hxr Hcr].
    assert (forall ref, ref ∈ all -> ref_table_id ref ∈ CollectBindingIds l -> ref ∈ columns column (Propagate l for_left)) as Hleft.
    { intros ref Href Hid. apply Hcl; [|done]. apply list_elem_of_In, filter_In. split; [by apply list_elem_of_In|by apply bool_decide_eq_true]. }
    assert (forall ref, ref ∈ all -> ref_table_id ref ∈ CollectBindingIds r -> ref ∈ columns column (Propagate r for_right)) as Hright.
    { intros ref Href Hid. apply Hcr; [|done]. apply list_elem_of_In, filter_In. split; [by apply list_elem_of_In|].
      rewrite bool_decide_false, bool_decide_true by (done || by intros Hin; apply (Hap _ Hin)). done. }
    split.
    + cbn [executable]. rewrite !Propagate_ids. split_and!; try done.
      apply Forall_forall. intros c Hc. assert (c.1 ∈ all /\ c.2 ∈ all) as [Hc1 Hc2].
      { split; apply elem_of_app; right; apply list_elem_of_In, in_concat; exists [c.1; c.2];
          (split; [apply in_map_iff; exists c; split; [done|by apply list_elem_of_In]|simpl; auto]). }
      rewrite Forall_forall in Hconds. destruct (Hconds c Hc) as [[[[Ha _] [Hb _]]|[[Hb _] [Ha _]]] Hty]; split; try done; [left|right]; auto.
    + intros ref Href Hid. cbn [columns CollectBindingIds] in *. assert (ref ∈ all) as Hin by (apply elem_of_app; by left).
      apply elem_of_app in Hid as [Hid|Hid]; apply elem_of_app; auto.
Qed.

(** ** Aggregations and projections *)

Context (w0 : Store F) (Hw0 : scan_inv view w0).

Lemma aggregate_runs i gb aggs cols :
  executable view column B catalog db i -> narrow column i ->
  Forall (fun ref => ref ∈ columns column i) gb -> Forall (call_ok column i) aggs ->
  Z.of_nat (length (plan_rows db i)) < 2 ^ 32 ->
  delivers_rows view column (2 ^ 31) catalog (LogicalAggregate i gb aggs cols) (plan_rows db (LogicalAggregate i gb aggs cols)).
Proof.
  intros Hex Hn Hgb Haggs Hlen. pose proof (executable_placed _ _ _ _ _ i Hex) as Hp.
  destruct (relational_runs view w0 Hw0 column B catalog db i Hex Hn) as (op & HT & Hstr).
  destruct (group_positions_spec column i Hp Hn gb Hgb) as (ps & HG & Hps).
  destruct (aggregate_specs_spec column i Hp Hn aggs Haggs) as (specs & HA & Hspecs).
  exists (make_aggregation op ps (map ref_type gb) specs). split.
  - cbn [Translate]. by rewrite HG, bind_Ok, HA, bind_Ok, HT.
  - cbn [plan_rows]. rewrite <- (group_by_rows column i gb ps aggs specs cols _ Hps Hspecs).
    rewrite <- (out_types_numbered column i gb aggs specs cols Hspecs).
    apply (streams_aggregate _ _ Hw0 _ _ _ _ Hstr ps (map ref_type gb) specs).
    + by apply group_types.
    + by apply (specs_ok column i aggs).
    + by apply phys_rows_ok, (plan_rows_ok view column B catalog db).
    + by rewrite length_map.
Qed.

(** A select expression over the columns of an operator. *)
Definition selectable (C : Z) (input : LogicalPlanNode) (e : BoundExpression) : Prop :=
  exists gamma ty, infer_in gamma e = Some (ToExpressionType ty) /\
    Forall (fun ref => ref ∈ columns column input) (CollectColumnRefs e) /\ exact C e = true /\ short e.

Lemma rewrite_all_spec C input exprs :
  locates column input -> narrow column input -> Forall (selectable C input) exprs ->
  exists ps : list (BoundExpression * TypeId), rewrite_all exprs input = Ok ps.*1 /\
    Forall (fun p => infer (types column input) p.1 = Some (ToExpressionType p.2) /\ exact C p.1 = true /\ short p.1) ps /\
    Forall2 (fun e p => forall row, sql_eval p.1 (phys_row column input row) = env_eval e row) exprs ps.
Proof.
  intros Hl Hn Hsel. unfold rewrite_all.
  set (body := fun (e : BoundExpression) (rewritten : list BoundExpression) => _ : result (list BoundExpression)).
  destruct (for_each_inv (fun dn rewritten => exists ps : list (BoundExpression * TypeId), rewritten = ps.*1 /\
    Forall (fun p => infer (types column input) p.1 = Some (ToExpressionType p.2) /\ exact C p.1 = true /\ short p.1) ps /\
    Forall2 (fun e p => forall row, sql_eval p.1 (phys_row column input row) = env_eval e row) dn ps) body exprs [])
    as (rewritten & HE & ps & -> & Hps); [|by exists []|by exists ps].
  intros dn e todo rewritten -> (ps & -> & Hps & HF). unfold body.
  assert (selectable C input e) as (gamma & ty & Hty & Hrefs & Hex & Hsh) by (rewrite Forall_forall in Hsel; apply Hsel, elem_of_app; right; constructor).
  destruct (rewrite_expr_spec column gamma input e _ Hl Hn Hty Hrefs) as (e' & -> & Hi & _ & He & Hs & Hv). rewrite bind_Ok.
  eexists. split; [done|]. exists (ps ++ [(e', ty)]). split; [by rewrite fmap_app|]. split.
  - apply Forall_app. split; [done|]. rewrite Forall_singleton. simpl. by rewrite He; split_and!; [| |apply Hs].
  - apply Forall2_app; [done|]. by constructor.
Qed.

Lemma project_runs C input exprs cols rows :
  delivers_rows view column C catalog input rows -> locates column input -> narrow column input -> Forall (selectable C input) exprs ->
  exists op tys, Translate catalog (LogicalProjection input exprs cols) = Ok op /\
    streams (scan_inv view) (2 ^ 31) (op_tree op) tys (map (fun row => map (fun e => env_value e row) exprs) rows).
Proof.
  intros (op & HT & Hstr) Hl Hn Hsel. destruct (rewrite_all_spec C input exprs Hl Hn Hsel) as (ps & HR & Hps & HF).
  exists (make_projection op ps.*1), ps.*2. split; [cbn [Translate]; by rewrite HR, bind_Ok, HT|].
  pose proof (streams_project _ _ Hw0 _ _ _ _ Hstr ps [] Hps) as Hp. rewrite map_map in Hp.
  erewrite (map_ext (fun row => map (fun e => env_value e row) exprs)); [exact Hp|]. intros row. unfold project_row.
  clear -HF. induction HF as [|e p exprs ps He _ IH]; [done|]. simpl. rewrite IH. unfold env_value, eval_cell. by rewrite He.
Qed.

(** The virtual call. *)
Lemma any_delivers fuel op cs :
  delivers (scan_inv view) fuel (op_tree op) cs -> delivers (scan_inv view) fuel op cs.
Proof.
  destruct op as [shape tree]. simpl. revert tree. induction cs as [|c cs IH]; intros tree Hd w Hw; specialize (Hd w Hw).
  - destruct Hd as (s' & w' & HG & Hw'). exists (any_operator shape s'), w'. split; [|done].
    unfold GetNext, AnyOperator_op. by rewrite (io_bind_Ok _ _ _ _ _ HG).
  - destruct Hd as (chunk & s' & w' & HG & Hw' & Hch & Hd). exists chunk, (any_operator shape s'), w'.
    split_and!; [|done|done|by apply IH]. unfold GetNext, AnyOperator_op. by rewrite (io_bind_Ok _ _ _ _ _ HG).
Qed.

Lemma query_runs input exprs cols plan' :
  wf_query input exprs -> PushdownPredicates (LogicalProjection input exprs cols) = Ok plan' -> fits (PruneColumns plan') ->
  exists op tys, Translate catalog (PruneColumns plan') = Ok op /\
    streams (scan_inv view) (2 ^ 31) (op_tree op) tys (query_rows db (LogicalProjection input exprs cols)).
Proof.
  intros Hwf HP Hfits. unfold PushdownPredicates in HP. cbn [Rewrite] in HP. apply bind_Ok_inv in HP as (i & HR & HP). injection HP as <-.
  unfold PruneColumns in *. cbn [Propagate fits query_rows] in *. rewrite foldl_collect in *. cbn [app] in *.
  set (required := concat (map CollectColumnRefs exprs)) in *.
  assert (plan_rows db i = plan_rows db input) as <-.
  { assert (scoped input) as Hs by (destruct Hwf as [[Hf _]|[Hg _]]; [apply relational_scoped, wf_from_relational, Hf|apply wf_group_scoped, Hg]).
    destruct (Rewrite_spec db input Hs) as (i' & HR' & Hp). rewrite HR in HR'. injection HR' as <-.
    by rewrite (pl_rows _ _ _ _ Hp), filter_pass_nil. }
  rewrite <- (Propagate_rows db i required).
  destruct Hwf as [[Hf Hsel]|[Hg Hsel]].
  - pose proof (Rewrite_wf input i Hf HR) as Hi. pose proof (Rewrite_ids input i Hf HR) as Hids.
    assert (Forall typed required) as Htyped.
    { apply Forall_concat, Forall_map. eapply Forall_impl; [exact Hsel|]. intros e (ty & Hty & _). by eapply infer_in_refs. }
    destruct (Propagate_executable i required Hi Htyped Hfits) as [Hex Hcols].
    pose proof (executable_placed _ _ _ _ _ _ Hex) as Hp.
    pose proof (fits_narrow _ Hfits (executable_relational _ _ _ _ _ _ Hex)) as Hn.
    apply (project_runs B); [by apply (relational_runs view w0 Hw0)|by apply placed_locates|done|].
    rewrite Forall_forall in *. intros e He. destruct (Hsel e He) as (ty & Hty & Hrefs & Hexact & Hshort).
    exists column, ty. split_and!; try done. rewrite Forall_forall in *. intros ref Href. apply Hcols; [|rewrite Hids; by apply Hrefs].
    apply list_elem_of_In, in_concat. exists (CollectColumnRefs e). split; [apply in_map; by apply list_elem_of_In|by apply list_elem_of_In].
  - destruct (Rewrite_group input i Hg HR) as (i1 & gb & aggs & acols & -> & Hgb & (Hi1 & Hknown & _ & Hcalls) & Hout).
    cbn [Propagate] in *. set (inner := foldl _ gb aggs) in *. destruct Hfits as (Hfits & Hn & Hlen).
    assert (inner = gb ++ concat (map (fun call => match Plan.argument call with Some ref => [ref] | None => [] end) aggs)) as Hinner.
    { unfold inner. rewrite <- foldl_collect. clear. revert gb. induction aggs as [|call aggs IH]; intros gb; [done|]. simpl.
      destruct (Plan.argument call); rewrite IH; by rewrite ?app_nil_r. }
    assert (Forall typed inner) as Htyped.
    { rewrite Hinner. apply Forall_app. split; [eapply Forall_impl; [exact Hknown|by intros ref [_ ?]]|].
      apply Forall_concat, Forall_map. eapply Forall_impl; [exact Hcalls|]. unfold wf_call. intros call Hc.
      destruct (Plan.argument call); [|constructor]. rewrite Forall_singleton. apply Hc. }
    destruct (Propagate_executable i1 inner Hi1 Htyped Hfits) as [Hex Hcols].
    pose proof (fits_narrow _ Hfits (executable_relational _ _ _ _ _ _ Hex)) as Hni.
    apply (project_runs (2 ^ 31)); [|apply aggregate_locates|done|].
    + apply aggregate_runs; [done|done| | |done].
      * rewrite Forall_forall in *. intros ref Href. apply Hcols; [rewrite Hinner; apply elem_of_app; by left|by apply Hknown].
      * rewrite Forall_forall in *. intros call Hcall. specialize (Hcalls call Hcall). unfold wf_call in Hcalls. unfold call_ok.
        destruct (Plan.argument call) as [ref|] eqn:Harg; [|done]. destruct Hcalls as [[Hid _] Hv]. split; [|done]. apply Hcols; [|done].
        rewrite Hinner. apply elem_of_app. right. apply list_elem_of_In, in_concat. exists [ref]. split; [|by left].
        apply in_map_iff. exists call. rewrite Harg. split; [done|by apply list_elem_of_In].
    + eapply Forall_impl; [exact Hsel|]. intros e (ref & Href & ->). exists (fun _ _ => Some (ref_type ref)), (ref_type ref).
      split_and!; [simpl; by rewrite decide_True| |done|done]. unfold CollectColumnRefs. simpl. rewrite Forall_singleton.
      rewrite <- Hout in Href. destruct ref. exact Href.
Qed.

Lemma wf_query_pushes input exprs cols :
  wf_query input exprs -> exists plan', PushdownPredicates (LogicalProjection input exprs cols) = Ok plan'.
Proof.
  intros Hwf. assert (scoped input) as Hs
    by (destruct Hwf as [[Hf _]|[Hg _]]; [apply relational_scoped, wf_from_relational, Hf|apply wf_group_scoped, Hg]).
  destruct (Rewrite_spec db input Hs) as (i' & HR & _). unfold PushdownPredicates. cbn [Rewrite]. rewrite HR, bind_Ok. by eexists.
Qed.

Lemma Optimize_runs input exprs cols plan' :
  wf_query input exprs -> PushdownPredicates (LogicalProjection input exprs cols) = Ok plan' -> fits (PruneColumns plan') ->
  exists op, Optimize catalog (LogicalProjection input exprs cols) = Ok op /\
    exists cs enough, rows_of cs = query_rows db (LogicalProjection input exprs cols) /\
      forall fuel, (enough <= fuel)%nat -> delivers (scan_inv view) fuel op cs.
Proof.
  intros Hwf HP Hfits. destruct (query_runs input exprs cols plan' Hwf HP Hfits) as (op & tys & HT & Hstr).
  exists op. split; [unfold Optimize; by rewrite HP, bind_Ok|]. destruct Hstr as (cs & bound & _ & _ & Hrows & Hd).
  exists cs, bound. split; [done|]. intros fuel Hf. apply any_delivers. by apply Hd.
Qed.

End Optimization.

(** C6. The optimizer is correct: for a query of FROM, WHERE, GROUP BY, HAVING on the grouping
    columns and SELECT, [Optimize] returns an operator without throwing, and over any
    buffer pool state on a store that holds the tables, the operator delivers exactly the
    rows of the query as it was bound, in order, with enough fuel. Integer arithmetic must not
    overflow on the integers of the tables, whose magnitude is at most [B]; predicates
    compare columns with constants of their own type; the sizes stay below the engine's
    limits. *)
Theorem Optimize_correct {F} `{PosixFileLaws F} `{!ReliableFile F} `{MapOrder} (view : Z -> option (list byte))
    (catalog : Catalog F) (db : Z -> list Row) (column : Z -> Z -> option TypeId) (B : Z) (w : Store F) input exprs cols plan' :
  scan_inv view w -> wf_query view catalog db column B input exprs ->
  PushdownPredicates (LogicalProjection input exprs cols) = Ok plan' -> fits db column (PruneColumns plan') ->
  exists op, Optimize catalog (LogicalProjection input exprs cols) = Ok op /\
    exists cs enough, rows_of cs = query_rows db (LogicalProjection input exprs cols) /\
      forall fuel, (enough <= fuel)%nat -> delivers (scan_inv view) fuel op cs.
Proof. intros Hw. apply (Optimize_runs view catalog db column B w Hw). Qed.

(** ** A query with a join, a filter and groups *)

(** [SELECT x.a, COUNT( * ) FROM t x JOIN t y ON x.a = y.a WHERE y.a > 4 GROUP BY x.a]. *)
Definition demo_catalog : Catalog mem_file := mk_catalog (disk_ demo_store) (schema_section_ empty_catalog) {["t"%string := demo_table]}.
Definition demo_types (b ord : Z) : option TypeId :=
  if (b =? 0) || (b =? 1) then if decide (0 <= ord) then [kInteger] !! Z.to_nat ord else None else None.
Definition demo_scan (b : Z) : LogicalPlanNode := MakeLogicalScan b 0 [mk_output "a" ExprInteger].
Definition x_a : ColumnRef := mk_ref 0 0 kInteger.
Definition y_a : ColumnRef := mk_ref 1 0 kInteger.
Definition y_above_four : BoundExpression := MakeArithmeticOp kGreaterThan (MakeColumnRef 1 0 kInteger) (MakeIntConst 4) ExprBoolean.
Definition count_star : AggregateCall := mk_call Plan.kCountStar None.
Definition demo_input : LogicalPlanNode :=
  LogicalAggregate (LogicalFilter (LogicalJoin (demo_scan 0) (demo_scan 1) [(x_a, y_a)]) y_above_four) [x_a] [count_star]
    [mk_output "a" ExprInteger; mk_output "count" ExprInteger].
Definition demo_select : list BoundExpression :=
  [MakeColumnRef kAggregateOutputBindingId 0 kInteger; MakeColumnRef kAggregateOutputBindingId 1 kInteger].
Definition demo_pushed : LogicalPlanNode :=
  LogicalProjection (LogicalAggregate (LogicalJoin (demo_scan 0) (LogicalFilter (demo_scan 1) y_above_four) [(x_a, y_a)]) [x_a] [count_star]
    [mk_output "a" ExprInteger; mk_output "count" ExprInteger]) demo_select [].

Lemma demo_table_stored : table_stored (logical_page demo_store) demo_table demo_rows.
Proof.
  split; [|split].
  - repeat constructor; intros [|j] v Hj; simpl in Hj; try discriminate Hj. by injection Hj as <-.
  - repeat constructor; intros [|j] f Hj; discriminate Hj.
  - exists [(demo_group, demo_rows)]. split_and!; [done|done|constructor; [exact demo_stored|constructor]|].
    constructor; [|constructor]. intros [|j] Hj; simpl in Hj; [|lia]. split; [simpl; lia|done].
Qed.

Lemma demo_wf_scan b : (b =? 0) || (b =? 1) = true -> wf_scan (logical_page demo_store) demo_catalog (fun _ => demo_rows) demo_types 5 b 0 [mk_output "a" ExprInteger].
Proof.
  intros Hb. split.
  - intros ord ty. unfold demo_types. rewrite Hb. case_decide; [|done]. destruct (Z.to_nat ord) as [|n]; [|done]. intros [= <-].
    eexists. by split.
  - exists demo_table. split; [reflexivity|]. split; [|split; [exact demo_table_stored|]].
    2: { intros _. repeat constructor; intros [|j] v Hv; try done. injection Hv as <-. simpl. lia. }
    intros ord. unfold demo_types. by rewrite Hb.
Qed.

Lemma demo_wf : wf_query (logical_page demo_store) demo_catalog (fun _ => demo_rows) demo_types 5 demo_input demo_select.
Proof.
  right. split.
  - assert (known demo_types [0; 1] x_a) as Hx by (split; [by constructor|done]).
    cbn [wf_group demo_input]. split_and!; [| |by repeat constructor|by repeat constructor].
    + cbn [wf_from demo_scan MakeLogicalScan]. split_and!; try by apply demo_wf_scan.
      * by intros id ->%list_elem_of_singleton ?%list_elem_of_singleton.
      * constructor; [|constructor]. split; [left|done]. split; split; [by constructor|done|by constructor|done].
      * split_and!; try done. constructor; [|constructor]. apply elem_of_cons. right. by constructor.
    + constructor; [exact Hx|constructor].
  - repeat constructor; [exists (mk_ref kAggregateOutputBindingId 0 kInteger)|exists (mk_ref kAggregateOutputBindingId 1 kInteger)];
      (split; [|reflexivity]); simpl; [by constructor|apply elem_of_cons; right; by constructor].
Qed.

(** Rows without strings take no bytes. *)
Lemma no_string_bytes rows ref : Forall (fun row : Env => forall k s, row !! k <> Some (Some (VStr s))) rows -> ref_bytes rows ref = 0.
Proof.
  induction 1 as [|row rows Hrow _ IH]; [done|]. unfold ref_bytes in *. simpl. rewrite IH. unfold ref_cell, env_cell.
  destruct (row !! _) as [[[z|f|s]|]|] eqn:E; try done. by apply Hrow in E.
Qed.

Definition demo_read (b : Z) : LogicalPlanNode := LogicalScan b 0 [mk_output "a" ExprInteger] [0].
Definition demo_pruned : LogicalPlanNode :=
  LogicalAggregate (LogicalJoin (demo_read 0) (LogicalFilter (demo_read 1) y_above_four) [(x_a, y_a)]) [x_a] [count_star]
    [mk_output "a" ExprInteger; mk_output "count" ExprInteger].

Lemma demo_prunes : PruneColumns demo_pushed = LogicalProjection demo_pruned demo_select [].
Proof. vm_compute. reflexivity. Qed.

(** The tables hold no strings. *)
Lemma demo_row_cell k row s : row ∈ plan_rows (fun _ => demo_rows) (demo_read k) -> forall key, row !! key <> Some (Some (VStr s)).
Proof.
  intros Hrow key Hk. apply list_elem_of_fmap in Hrow as (x & -> & Hx). destruct key as [id ord]. apply env_row_lookup in Hk as (_ & _ & Hk).
  unfold demo_rows in Hx. apply elem_of_cons in Hx as [->| ->%list_elem_of_singleton];
    destruct (Z.to_nat ord) as [|n]; by destruct n || discriminate Hk.
Qed.

Lemma demo_fits : fits (fun _ => demo_rows) demo_types (PruneColumns demo_pushed).
Proof.
  rewrite demo_prunes. cbn [fits demo_pruned demo_read].
  assert (forall plan, length (columns demo_types plan) = 1%nat -> narrow demo_types plan) as Hn1 by (intros plan E; unfold narrow; rewrite E; lia).
  assert (forall plan, length (columns demo_types plan) = 2%nat -> narrow demo_types plan) as Hn2 by (intros plan E; unfold narrow; rewrite E; lia).
  split_and!; [by apply Hn1|by apply Hn1|by apply Hn2| |by apply Hn2|vm_compute; reflexivity].
  split; [vm_compute; split; [discriminate|reflexivity]|].
  intros ref. rewrite no_string_bytes; [lia|]. apply Forall_forall. intros row [_ Hrow]%list_elem_of_filter key s. by apply (demo_row_cell 1 row s).
Qed.

Lemma Optimize_correct_witness :
  exists op, Optimize demo_catalog (LogicalProjection demo_input demo_select []) = Ok op /\
    exists cs enough, rows_of cs = [[Some (VInt 5); Some (VInt 1)]] /\
      forall fuel, (enough <= fuel)%nat -> delivers (scan_inv (logical_page demo_store)) fuel op cs.
Proof.
  assert (scan_inv (logical_page demo_store) demo_store) as Hinv.
  { split; [apply new_pool_wf|]. split; [unfold budget; simpl; lia|]. split; [intros p bs _ Hl; exact Hl|discriminate]. }
  assert (query_rows (fun _ => demo_rows) (LogicalProjection demo_input demo_select []) = [[Some (VInt 5); Some (VInt 1)]]) as <-
    by (vm_compute; reflexivity).
  apply (Optimize_correct (logical_page demo_store) demo_catalog (fun _ => demo_rows) demo_types 5 demo_store demo_input demo_select []
    demo_pushed Hinv demo_wf); [reflexivity|exact demo_fits].
Defined.
