(* ===== verification/Mixed.v ===== *)
(** A comparison of a column with a constant of the other numeric type, directly above the
    scan of the column's table: what [src/optimizer/optimizer.cpp] and
    [src/execution/seq_scan_operator.cpp] make of it together. *)

From S2P Require Import Prelude Scalar Disk BufferPool Schema Catalog Chunk Rows Expr Eval Operators Layout Scan Plan Coercion PredicateUtils Pushdown Pruning Optimizer Execution Optimization.

(** Columns of the scanned table, above the scan, always have a position. *)
Lemma rewrite_over_scan b t cols required predicate e :
  Forall (fun ref => ref_table_id ref = b /\ ref_ordinal ref ∈ required) (CollectColumnRefs e) ->
  exists e', RewriteColumnRefsToPhysicalPositions e (LogicalFilter (LogicalScan b t cols required) predicate) = Ok e' /\
    RewriteColumnRefsToPhysicalPositions e (LogicalScan b t cols required) = Ok e'.
Proof.
  induction e as [i o ty|v|op l IHl r IHr at_|op e IH]; intros Hrefs; simpl.
  - unfold CollectColumnRefs in Hrefs. simpl in Hrefs. rewrite Forall_singleton in Hrefs. destruct Hrefs as [Hb Ho]. simpl in Hb, Ho.
    unfold find_position. simpl. rewrite Hb, Z.eqb_refl. simpl.
    destruct (list_find (fun ordinal => ordinal = o) required) as [[k x]|] eqn:Hf; [by eexists|].
    rewrite list_find_None, Forall_forall in Hf. by destruct (Hf o Ho).
  - by eexists.
  - rewrite CollectColumnRefs_binary in Hrefs. apply Forall_app in Hrefs as [Hl Hr].
    destruct (IHl Hl) as (l' & -> & ->), (IHr Hr) as (r' & -> & ->). by eexists.
  - destruct (IH Hrefs) as (e' & -> & ->). by eexists.
Qed.

Lemma rewrite_all_over_scan b t cols required predicate exprs :
  Forall (fun ref => ref_table_id ref = b /\ ref_ordinal ref ∈ required) (concat (map CollectColumnRefs exprs)) ->
  exists exprs', rewrite_all exprs (LogicalFilter (LogicalScan b t cols required) predicate) = Ok exprs'.
Proof.
  intros Hrefs. unfold rewrite_all. match goal with |- context [for_each _ ?f _] => set (step := f) end.
  generalize (@nil BoundExpression) as acc. revert Hrefs.
  induction exprs as [|e exprs IH]; intros Hrefs acc; [by eexists|]. simpl in *. apply Forall_app in Hrefs as [He Hrefs].
  destruct (rewrite_over_scan b t cols required predicate e He) as (e' & HR & _). assert (step e acc = Ok (acc ++ [e'])) as -> by (unfold step; by rewrite HR, bind_Ok). rewrite bind_Ok. by apply IH.
Qed.

(** The first [GetNext] of the scan throws when the first zone map is tested with a constant
    of another type. *)
Lemma mixed_scan_throws {F} `{PosixFile F} view table rows required c ty fuel (w : Store F) :
  table_stored view table rows -> rows <> [] -> map type (tbl_columns_ table) !! skip_ordinal c = Some ty ->
  ty <> constant_type (skip_constant c) ->
  GetNext fuel (new_scan table required (Some c)) w = (Throw BadVariantAccess, w).
Proof.
  intros (_ & _ & gs & Hgs & -> & Hst & _) Hne Hty Hmix. destruct gs as [|[rg rs] gs]; [done|].
  apply Forall_cons in Hst as [Hrg _]. pose proof (zone_map_test _ _ _ _ _ _ Hrg Hty) as Hz. rewrite decide_False in Hz by done.
  unfold GetNext, SeqScanOperator_op. cbn [table_ new_scan]. rewrite <- Hgs. cbn [fmap list_fmap fst length].
  cbn [AdvanceToUsableRowGroup]. cbn [table_ new_scan row_group_index_]. rewrite <- Hgs. cbn [fmap list_fmap fst lookup list_lookup length].
  unfold skips. cbn [zone_map_skip_ new_scan]. cbn [fst] in Hz. rewrite Hz. done.
Qed.

(** C37. The binder accepts the comparison of a FLOAT column with an integer literal (and of an
    INTEGER column with a decimal one), but the query cannot be run: [Optimize] gives the
    constant to the scan as a zone map condition, the scan compares it with the zone map
    of the column's type, and the first [GetNext] throws [std::bad_variant_access] whatever the
    rows are. *)
Theorem mixed_comparison_throws {F} `{PosixFile F} `{MapOrder} view (catalog : Catalog F) table rows b t cols op ord ty v exprs out :
  GetTableById catalog t = Some table -> table_stored view table rows -> rows <> [] ->
  map type (tbl_columns_ table) !! Z.to_nat ord = Some ty -> IsComparisonOperator op = true ->
  ty <> kVarchar -> type_of v <> kVarchar -> type_of v <> ty ->
  Forall (fun ref => ref_table_id ref = b) (concat (map CollectColumnRefs exprs)) ->
  let comparison := BinaryOpNode op (BoundColumnRef b ord ty) (ConstNode v) ExprBoolean in
  ResultTypeForBinaryOp op (ToExpressionType ty) (ToExpressionType (type_of v)) = Ok ExprBoolean /\
  exists root, Optimize catalog (LogicalProjection (LogicalFilter (MakeLogicalScan b t cols) comparison) exprs out) = Ok root /\
    forall fuel w, GetNext fuel root w = (Throw BadVariantAccess, w).
Proof.
  intros Ht Hst Hne Hty Hop Hcol Hconst Hmix Hrefs comparison. split.
  { destruct op; try discriminate Hop; destruct ty, v; done. }
  unfold Optimize, PushdownPredicates. cbn [Rewrite MakeLogicalScan]. unfold comparison.
  assert (ExtractConjuncts (BinaryOpNode op (BoundColumnRef b ord ty) (ConstNode v) ExprBoolean)
    = [BinaryOpNode op (BoundColumnRef b ord ty) (ConstNode v) ExprBoolean]) as -> by by destruct op.
  rewrite !bind_Ok. cbn [PlaceInto]. fold comparison. fold (MakeLogicalScan b t cols). destruct (WrapInFilter_spec (MakeLogicalScan b t cols) [comparison]) as (plan & -> & ->).
  rewrite !bind_Ok. unfold PruneColumns. unfold conjunction, MakeLogicalScan. cbn [Propagate foldl]. rewrite foldl_collect. cbn [app Translate]. fold comparison.
  set (required := scan_ordinals b (concat (map CollectColumnRefs exprs) ++ CollectColumnRefs comparison)).
  destruct (scan_ordinals_spec b (concat (map CollectColumnRefs exprs) ++ CollectColumnRefs comparison)) as [_ Hords].
  fold required in Hords. rewrite Forall_forall in Hrefs.
  destruct (rewrite_all_over_scan b t cols required comparison exprs) as [exprs' HE].
  { apply Forall_forall. intros ref Href. split; [by apply Hrefs|]. apply Hords. exists ref. split_and!; [apply elem_of_app; by left|by apply Hrefs|done]. }
  destruct (rewrite_over_scan b t cols required comparison comparison) as (e' & _ & HR).
  { apply Forall_singleton. split; [done|]. apply Hords. exists (mk_ref b ord ty). split_and!; [|done|done].
    apply elem_of_app. right. by constructor. }
  unfold find_table. rewrite HE, HR, Ht, !bind_Ok. eexists. split; [done|]. intros fuel w.
  assert (exists c, TryExtractZoneMapSkip comparison b = Some c /\ skip_ordinal c = Z.to_nat ord /\ constant_type (skip_constant c) = type_of v)
    as (c & -> & Hco & Hct) by (simpl; rewrite Z.eqb_refl; destruct v; [by eexists|by eexists|done]).
  pose proof (mixed_scan_throws view table rows (map Z.to_nat required) c ty fuel w Hst Hne ltac:(by rewrite Hco) ltac:(by rewrite Hct)) as HG.
  unfold GetNext, AnyOperator_op. cbn. unfold GetNext in *. cbn. unfold mbind, io_bind. by rewrite HG.
Qed.

(** [SELECT x.a FROM t x WHERE x.a > 0.0], on a table with the rows 5 and NULL. *)
Lemma mixed_comparison_throws_witness :
  exists root, Optimize demo_catalog (LogicalProjection (LogicalFilter (demo_scan 0)
      (BinaryOpNode kGreaterThan (BoundColumnRef 0 0 kInteger) (ConstNode (VFloat f32_zero)) ExprBoolean))
      [MakeColumnRef 0 0 kInteger] []) = Ok root /\
    forall fuel (w : Store mem_file), GetNext fuel root w = (Throw BadVariantAccess, w).
Proof.
  apply (mixed_comparison_throws (logical_page demo_store) demo_catalog demo_table demo_rows 0 0 [mk_output "a" ExprInteger] kGreaterThan 0
    kInteger (VFloat f32_zero) [MakeColumnRef 0 0 kInteger] []); try done.
  - exact demo_table_stored.
  - by repeat constructor.
Defined.
