(* ===== verification/Sql.v ===== *)
(** What a SELECT statement means: the rows it selects from a database, read off the syntax
    tree, without bindings, plans or operators. The result of a query is the cross
    product of the tables of its FROM clause, in the order in which they are written,
    restricted to the rows that satisfy the ON and WHERE conditions, grouped and
    projected. *)

From S2P Require Import Prelude Scalar Chunk Expr Accumulator Schema Catalog Ast Plan Resolution Binder Queries.

#[local] Open Scope Z_scope.

(** ** The FROM clause *)

(** The tables of an item, with their aliases, from left to right. *)
Fixpoint table_refs (item : TableRefNode) : list (string * option string) :=
  match item with
  | BaseTableRef table_name alias => [(table_name, alias)]
  | JoinRef l r _ =>
      match l with Some l => table_refs l | None => [] end ++ match r with Some r => table_refs r | None => [] end
  end.

(** The ON conditions of an item whose first table is the table [start], with the number of
    tables that are in sight of each. *)
Fixpoint on_clauses (start : nat) (item : TableRefNode) : list (nat * RawExpression) :=
  match item with
  | JoinRef (Some l) (Some r) condition =>
      on_clauses start l ++ on_clauses (start + length (table_refs l)) r ++
      match condition with Some e => [((start + length (table_refs item))%nat, e)] | None => [] end
  | _ => []
  end.

Fixpoint from_clauses (start : nat) (items : list TableRefNode) : list (nat * RawExpression) :=
  match items with
  | [] => []
  | item :: items => on_clauses start item ++ from_clauses (start + length (table_refs item)) items
  end.

Section Sql.
Context {F : Type} (catalog : Catalog F) (db : Z -> list Row).

(** The tables in sight, numbered from [start]. *)
Fixpoint sql_bindings (start : nat) (refs : list (string * option string)) : option ResolutionScope :=
  match refs with
  | [] => Some []
  | (table_name, alias) :: refs =>
      t ← GetTable catalog table_name;
      bs ← sql_bindings (S start) refs;
      Some (mk_binding (Z.of_nat start) (default table_name alias) t :: bs)
  end.

Definition sql_scope (items : list TableRefNode) : option ResolutionScope := sql_bindings 0 (concat (map table_refs items)).

(** Every combination of a row of the one list and a row of the other. *)
Definition product (ls rs : list Env) : list Env := concat (map (fun l => map (fun r => l ∪ r) rs) ls).

(** A table under its number. *)
Definition source (b : ResolvedTableBinding) : Z * Z := (binding_id b, tbl_id_ (binding_table b)).

Fixpoint cross (sources : list (Z * Z)) : list Env :=
  match sources with
  | [] => [∅]
  | (id, table) :: sources => product (map (env_row id) (db table)) (cross sources)
  end.

(** ** Expressions *)

(** The column that a name means. *)
Definition sql_column (scope : ResolutionScope) (name : ColumnRefNode) : option ColumnRef :=
  match candidates scope name with [ref] => Some ref | _ => None end.

Definition sql_literal (l : Literal) : option Value :=
  match l with
  | NullLiteral => None
  | Int64Literal z => Some (VInt z)
  | DoubleLiteral x => Some (VFloat (f32_of_f64 x))
  | StringLiteral s => Some (VStr s)
  end.

Section Expressions.
Context (scope : ResolutionScope).

(** Arithmetic is on FLOATs when one of the operands is one. *)
Fixpoint sql_type (e : RawExpression) : option ExpressionType :=
  match e with
  | RawColumnRef name => ref ← sql_column scope name; Some (ToExpressionType (ref_type ref))
  | RawConst l => v ← sql_literal l; Some (ToExpressionType (type_of v))
  | RawBinaryOp op l r =>
      if IsArithmeticOperator op then
        tl ← sql_type l; tr ← sql_type r;
        Some (if bool_decide (tl = ExprFloat \/ tr = ExprFloat) then ExprFloat else ExprInteger)
      else Some ExprBoolean
  | RawUnaryOp _ _ => Some ExprBoolean
  | RawFunctionCall _ _ _ => None
  end.

Fixpoint sql_value (row : Env) (e : RawExpression) : option SqlVal :=
  match e with
  | RawColumnRef name => ref ← sql_column scope name; Some (SqlValue (ref_cell row ref))
  | RawConst l => v ← sql_literal l; Some (SqlValue (Some v))
  | RawBinaryOp op l r =>
      a ← sql_value row l; b ← sql_value row r; t ← sql_type e; sql_binary op t a b
  | RawUnaryOp kNot e => match sql_value row e with Some (SqlBool b) => Some (SqlBool (negb <$> b)) | _ => None end
  | RawFunctionCall _ _ _ => None
  end.

(** A condition that is neither false nor null. *)
Definition holds (condition : RawExpression) (row : Env) : Prop := sql_value row condition = Some (SqlBool (Some true)).
#[global] Instance holds_dec condition row : Decision (holds condition row).
Proof. unfold holds. apply _. Defined.

Definition sql_cell (row : Env) (e : RawExpression) : option Value :=
  match sql_value row e with Some (SqlValue v) => v | _ => None end.

End Expressions.

(** ** Rows *)

Definition conditions (scope : ResolutionScope) (select : SelectNode) : list (nat * RawExpression) :=
  (from_clauses 0 (from_tables select) ++
   match where_clause select with Some e => [(length scope, e)] | None => [] end).

(** A condition is about the tables that are in sight of it. *)
Definition holds_in (scope : ResolutionScope) (row : Env) (condition : nat * RawExpression) : Prop :=
  holds (take condition.1 scope) condition.2 row.
#[global] Instance holds_in_dec scope row condition : Decision (holds_in scope row condition).
Proof. unfold holds_in. apply _. Defined.

(** FROM and WHERE. *)
Definition sql_from (scope : ResolutionScope) (select : SelectNode) : list Env :=
  filter (fun row => Forall (holds_in scope row) (conditions scope select)) (cross (map source scope)).

(** The columns of [*]. *)
Definition star_columns (scope : ResolutionScope) : list (ColumnRef * string) :=
  concat (map (fun b => map (fun col => (bound_column b col, name col)) (tbl_columns_ (binding_table b))) scope).

Definition item_cells (scope : ResolutionScope) (row : Env) (item : SelectItem) : Row :=
  if is_wildcard item then map (fun c => ref_cell row c.1) (star_columns scope)
  else match expression item with Some e => [sql_cell scope row e] | None => [] end.

Definition item_headers (scope : ResolutionScope) (item : SelectItem) : list string :=
  if is_wildcard item then (star_columns scope).*2
  else match expression item with
       | Some (RawColumnRef name) => [column_name name]
       | Some (RawFunctionCall name _ _) => [name]
       | Some _ => [""%string]
       | None => []
       end.

Definition sql_headers (scope : ResolutionScope) (select : SelectNode) : list string :=
  concat (map (item_headers scope) (select_list select)).

(** ** Groups *)

Definition is_call (item : SelectItem) : bool :=
  match expression item with Some (RawFunctionCall _ _ _) => negb (is_wildcard item) | _ => false end.

Definition sql_grouped (select : SelectNode) : bool :=
  existsb is_call (select_list select) || negb (bool_decide (group_by_exprs select = [])) ||
  bool_decide (is_Some (having_clause select)).

(** The columns of GROUP BY. *)
Definition group_columns (scope : ResolutionScope) (select : SelectNode) : list ColumnRef :=
  omap (fun e => match e with RawColumnRef name => sql_column scope name | _ => None end) (group_by_exprs select).

Definition function_kind (name : string) : option AggregateFunctionKind :=
  if (name =? "count")%string then Some kCount
  else if (name =? "sum")%string then Some kSum
  else if (name =? "avg")%string then Some kAvg
  else if (name =? "min")%string then Some kMin
  else if (name =? "max")%string then Some kMax
  else None.

(** The aggregate of a group; its name is in any case. *)
Definition sql_call (scope : ResolutionScope) (name : string) (args : list RawExpression) (star : bool) : option AggregateCall :=
  if (lower name =? "count")%string && star then Some (mk_call kCountStar None)
  else match args with
       | [RawColumnRef column] => ref ← sql_column scope column; kind ← function_kind (lower name); Some (mk_call kind (Some ref))
       | _ => None
       end.

(** A column of the select list is one of the grouping columns, of which a group has one value. *)
Definition group_cell (scope : ResolutionScope) (keys : list ColumnRef) (key : Row) (rows : list Env) (item : SelectItem) : option Value :=
  match expression item with
  | Some (RawFunctionCall name args star) => call ← sql_call scope name args star; call_value rows call
  | Some (RawColumnRef name) => ref ← sql_column scope name; ref_cell (key_env keys key) ref
  | _ => None
  end.

Definition passes_having (scope : ResolutionScope) (select : SelectNode) (keys : list ColumnRef) (key : Row) : Prop :=
  match having_clause select with Some e => holds scope e (key_env keys key) | None => True end.
#[global] Instance passes_having_dec scope select keys key : Decision (passes_having scope select keys key).
Proof. unfold passes_having. destruct (having_clause select); apply _. Defined.

(** GROUP BY, HAVING and the select list; a query with aggregates and without GROUP BY has one
    group. *)
Definition sql_groups (scope : ResolutionScope) (select : SelectNode) (rows : list Env) : list Row :=
  let keys := group_columns scope select in
  map (fun key => map (group_cell scope keys key (rows_with_key keys key rows)) (select_list select))
    (filter (passes_having scope select keys) (group_keys keys rows)).

(** The rows of a query. *)
Definition sql_rows (scope : ResolutionScope) (select : SelectNode) : list Row :=
  let rows := sql_from scope select in
  if sql_grouped select then sql_groups scope select rows
  else map (fun row => concat (map (item_cells scope row) (select_list select))) rows.

End Sql.
