(* ===== verification/Meaning.v ===== *)
(** What the binder makes of expressions and of FROM clauses: bound expressions have the values
    the syntax trees have in [Sql], and the joins of a FROM clause deliver the rows of
    the cross product that satisfy the conditions. *)

From S2P Require Import Prelude Scalar Chunk Rows Expr HashJoin Accumulator Schema Catalog Ast Plan Resolution Coercion Binder FromClause Typing PredicateUtils Queries Pushdown Streams Execution Optimization Sql.

(** ** Expressions *)

(** A column of the tables in sight. *)
Definition in_scope (scope : ResolutionScope) (ref : ColumnRef) : Prop :=
  (exists i, (i < length scope)%nat /\ ref_table_id ref = Z.of_nat i) /\
  scope_type scope (ref_table_id ref) (ref_ordinal ref) = Some (ref_type ref) /\ 0 <= ref_ordinal ref.

(** No comparison or arithmetic on truth values, which the evaluator cannot do. *)
Fixpoint operable (e : BoundExpression) : bool :=
  match e with
  | BinaryOpNode op l r _ =>
      operable l && operable r &&
      (Expr.IsLogicalOperator op || negb (bool_decide (ResultType l = ExprBoolean) || bool_decide (ResultType r = ExprBoolean)))
  | UnaryOpNode _ e => operable e
  | _ => true
  end.

Lemma sql_binary_type op t t' a b : IsArithmeticOperator op = false -> sql_binary op t a b = sql_binary op t' a b.
Proof. intros Hop. unfold sql_binary. by rewrite Hop. Qed.

Lemma value_type v : ResultType (ConstNode v) = ToExpressionType (type_of v).
Proof. by destruct v. Qed.

Section Expressions.
Context (scope : ResolutionScope) (Hscope : scope_wf scope).

Lemma Resolve_in_scope name ref : Resolve scope name = Ok ref -> sql_column scope name = Some ref /\ in_scope scope ref.
Proof.
  intros HR. pose proof (Resolve_spec scope name Hscope) as Hs. unfold sql_column.
  destruct (candidates scope name) as [|r [|? ?]] eqn:Hc.
  - destruct Hs as [? Hs]. congruence.
  - destruct Hs as [Hs _]. rewrite HR in Hs. injection Hs as ->. split; [done|].
    assert (r ∈ candidates scope name) as Hin by (rewrite Hc; by constructor).
    apply list_elem_of_omap in Hin as (b & [i Hi]%list_elem_of_lookup & Hb).
    destruct (candidate_typed scope name i b r Hscope Hi Hb) as (Hid & Hty & Hord). split; [|done].
    exists i. split; [by eapply lookup_lt_Some|done].
  - destruct Hs as [_ Hs]. congruence.
Qed.

Lemma BindConst_value l e : BindConst l = Ok e -> exists v, e = ConstNode v /\ sql_literal l = Some v.
Proof.
  destruct l as [|z|x|s]; simpl; [done| |intros [= <-]; by eexists|intros [= <-]; by eexists].
  destruct (Z.ltb_spec z (- 2 ^ 31)), (Z.ltb_spec (2 ^ 31 - 1) z); try done. intros [= <-].
  unfold MakeIntConst. rewrite i32_id by (unfold is_i32; lia). by eexists.
Qed.

Lemma arithmetic_type op tl tr t :
  IsArithmeticOperator op = true -> Coercion.ResultTypeForBinaryOp op tl tr = Ok t ->
  t = if bool_decide (tl = ExprFloat \/ tr = ExprFloat) then ExprFloat else ExprInteger.
Proof. destruct op, tl, tr; simpl; intros Hop [= <-]; done. Qed.

(** A bound expression has the value and the type of its syntax tree. *)
Lemma Bind_value raw e row :
  BindScalarExpression raw scope = Ok e ->
  sql_value scope row raw = env_eval e row /\ sql_type scope raw = Some (ResultType e).
Proof.
  revert e. induction raw as [name|l|op l IHl r IHr|[] a IHa|f args star]; intros e HB; simpl in HB; [| | | |done].
  - apply bind_Ok_inv in HB as (ref & [Hr _]%Resolve_in_scope & [= <-]). simpl. by rewrite Hr.
  - apply BindConst_value in HB as (v & -> & Hv). simpl. rewrite Hv. simpl. by rewrite <- value_type.
  - apply bind_Ok_inv in HB as (bl & Hl & HB). apply bind_Ok_inv in HB as (br & Hr & HB).
    apply bind_Ok_inv in HB as (t & Ht & HB). destruct (IHl _ Hl) as [Hvl Htl], (IHr _ Hr) as [Hvr Htr].
    cbn [sql_value sql_type]. rewrite Hvl, Hvr, Htl, Htr. simpl. rewrite logical_agrees in HB.
    destruct (IsArithmeticOperator op) eqn:Hop.
    + rewrite <- (arithmetic_type op _ _ t Hop Ht). assert (Expr.IsLogicalOperator op = false) as Hlog by by destruct op.
      rewrite Hlog in HB. injection HB as <-. split; [done|]. unfold MakeArithmeticOp. simpl. by destruct op.
    + assert (exists at_, e = BinaryOpNode op bl br at_) as [at_ ->] by (destruct (Expr.IsLogicalOperator op); injection HB as <-; by eexists).
      simpl. split; [|by destruct op]. destruct (env_eval bl row) as [a|]; [|done]. destruct (env_eval br row) as [b|]; [|done]. simpl.
      by apply sql_binary_type.
  - apply bind_Ok_inv in HB as (ba & Ha & HB). apply bind_Ok_inv in HB as (t & Ht & [= <-]).
    destruct (IHa _ Ha) as [Hva _]. unfold MakeNot. simpl. by rewrite Hva.
Qed.

Lemma Bind_in_scope raw e : BindScalarExpression raw scope = Ok e -> Forall (in_scope scope) (CollectColumnRefs e).
Proof.
  revert e. induction raw as [name|l|op l IHl r IHr|[] a IHa|f args star]; intros e HB; simpl in HB; [| | | |done].
  - apply bind_Ok_inv in HB as (ref & [_ Hr]%Resolve_in_scope & [= <-]). unfold CollectColumnRefs. simpl.
    rewrite Forall_singleton. by destruct ref.
  - apply BindConst_value in HB as (v & -> & _). constructor.
  - apply bind_Ok_inv in HB as (bl & Hl & HB). apply bind_Ok_inv in HB as (br & Hr & HB).
    apply bind_Ok_inv in HB as (t & Ht & HB).
    assert (exists at_, e = BinaryOpNode op bl br at_) as [at_ ->] by (destruct (Coercion.IsLogicalOperator op); injection HB as <-; by eexists).
    rewrite CollectColumnRefs_binary. apply Forall_app. auto.
  - apply bind_Ok_inv in HB as (ba & Ha & HB). apply bind_Ok_inv in HB as (t & Ht & [= <-]). exact (IHa _ Ha).
Qed.

Lemma Bind_operable column raw e :
  (forall ref, in_scope scope ref -> column (ref_table_id ref) (ref_ordinal ref) = Some (ref_type ref)) ->
  BindScalarExpression raw scope = Ok e -> operable e = true -> infer_in column e = Some (ResultType e).
Proof.
  intros Hcolumn. revert e. induction raw as [name|l|op l IHl r IHr|[] a IHa|f args star]; intros e HB; simpl in HB; [| | | |done].
  - apply bind_Ok_inv in HB as (ref & [_ Hr]%Resolve_in_scope & [= <-]). simpl. rewrite (Hcolumn _ Hr). by rewrite decide_True.
  - apply BindConst_value in HB as (v & -> & _). by rewrite value_type.
  - apply bind_Ok_inv in HB as (bl & Hl & HB). apply bind_Ok_inv in HB as (br & Hr & HB).
    apply bind_Ok_inv in HB as (t & Ht & HB). pose proof (binary_typed _ _ _ _ Ht) as Hbin. rewrite logical_agrees in Hbin, HB.
    assert (e = BinaryOpNode op bl br (if Expr.IsLogicalOperator op then ExprInteger else t)) as -> by (destruct (Expr.IsLogicalOperator op); by injection HB as <-).
    simpl. intros [[Ho Hp]%andb_true_iff Hq]%andb_true_iff. rewrite (IHl _ Hl Ho), (IHr _ Hr Hp). simpl. rewrite Hbin, Hq.
    f_equal. destruct op; simpl in *; try done; revert Ht; by destruct (ResultType bl), (ResultType br); intros [= <-].
  - apply bind_Ok_inv in HB as (ba & Ha & HB). apply bind_Ok_inv in HB as (t & Ht & [= <-]). simpl. intros Ho.
    rewrite (IHa _ Ha Ho). simpl. unfold ResultTypeForUnaryOp in Ht. by case_bool_decide; [rewrite decide_True|].
Qed.

End Expressions.

(** ** Joins *)

(** The scans and the conditions of a tree of joins, from left to right. *)
Fixpoint sources (plan : LogicalPlanNode) : list (Z * Z) :=
  match plan with
  | LogicalScan id table _ _ => [(id, table)]
  | LogicalJoin l r _ => sources l ++ sources r
  | _ => []
  end.

Fixpoint equalities (plan : LogicalPlanNode) : list (ColumnRef * ColumnRef) :=
  match plan with LogicalJoin l r conditions => equalities l ++ equalities r ++ conditions | _ => [] end.

Definition pair_within (ids : list Z) (c : ColumnRef * ColumnRef) : Prop := ref_table_id c.1 ∈ ids /\ ref_table_id c.2 ∈ ids.

Fixpoint join_tree (plan : LogicalPlanNode) : Prop :=
  match plan with
  | LogicalScan _ _ _ _ => True
  | LogicalJoin l r conditions => join_tree l /\ join_tree r /\ apart (CollectBindingIds l) (CollectBindingIds r) /\
      Forall (pair_within (CollectBindingIds l ++ CollectBindingIds r)) conditions
  | _ => False
  end.

Definition equal_pairs (conditions : list (ColumnRef * ColumnRef)) (row : Env) : Prop :=
  Forall (fun c => cells_equal row c = true) conditions.
#[global] Instance equal_pairs_dec conditions row : Decision (equal_pairs conditions row).
Proof. unfold equal_pairs. apply _. Defined.

Lemma sources_ids plan : join_tree plan -> (sources plan).*1 = CollectBindingIds plan.
Proof.
  induction plan as [b t cols req|i IH e|l IHl r IHr conds|i IH gb aggs cols|i IH es cols]; simpl; try done.
  intros (Hl & Hr & _). by rewrite fmap_app, IHl, IHr.
Qed.

Lemma equalities_within plan : join_tree plan -> Forall (pair_within (CollectBindingIds plan)) (equalities plan).
Proof.
  induction plan as [b t cols req|i IH e|l IHl r IHr conds|i IH gb aggs cols|i IH es cols]; simpl; try done.
  intros (Hl & Hr & _ & Hc). rewrite !Forall_app. split_and!; [| |done].
  - eapply Forall_impl; [by apply IHl|]. intros c [H1' H2']. split; apply elem_of_app; by left.
  - eapply Forall_impl; [by apply IHr|]. intros c [H1' H2']. split; apply elem_of_app; by right.
Qed.

Section Joins.
Context (db : Z -> list Row).

Lemma product_nil_l rs : product [∅] rs = rs.
Proof.
  unfold product. simpl. rewrite app_nil_r. transitivity (map id rs); [|by rewrite map_id].
  apply map_ext. intros r. by rewrite (left_id_L ∅ (∪)).
Qed.

Lemma product_cons l ls rs : product (l :: ls) rs = map (fun r => l ∪ r) rs ++ product ls rs.
Proof. done. Qed.

Lemma product_nil_r ls : product ls [∅] = ls.
Proof. induction ls as [|l ls IH]; [done|]. rewrite product_cons, IH. simpl. by rewrite (right_id_L ∅ (∪)). Qed.

Lemma product_app ls ls' rs : product (ls ++ ls') rs = product ls rs ++ product ls' rs.
Proof. unfold product. by rewrite map_app, concat_app. Qed.

Lemma product_assoc xs ys zs : product (product xs ys) zs = product xs (product ys zs).
Proof.
  induction xs as [|x xs IH]; [done|]. rewrite !product_cons, product_app, IH. f_equal.
  clear IH. induction ys as [|y ys IHy]; [done|]. cbn [map]. rewrite !product_cons, map_app, IHy, map_map. f_equal.
  apply map_ext. intros z. by rewrite (assoc_L (∪)).
Qed.

Lemma cross_app xs ys : cross db (xs ++ ys) = product (cross db xs) (cross db ys).
Proof.
  induction xs as [|[id table] xs IH]; cbn [cross app]; [by rewrite product_nil_l|]. by rewrite IH, product_assoc.
Qed.

Lemma elem_of_product row ls rs : row ∈ product ls rs <-> exists l r, l ∈ ls /\ r ∈ rs /\ row = l ∪ r.
Proof.
  unfold product. rewrite list_elem_of_In, in_concat. setoid_rewrite in_map_iff. split.
  - intros (x & (l & <- & Hl) & Hin). apply in_map_iff in Hin as (r & <- & Hr). exists l, r. by rewrite !list_elem_of_In.
  - intros (l & r & Hl & Hr & ->). exists (map (fun r => l ∪ r) rs). rewrite !list_elem_of_In in *. split; [by exists l|].
    apply in_map_iff. by exists r.
Qed.

Lemma cross_covered ss row : row ∈ cross db ss -> covered ss.*1 row.
Proof.
  revert row. induction ss as [|[id table] ss IH]; intros row; cbn [cross]; [by intros ->%list_elem_of_singleton ? ? ?|].
  intros (l & r & (x & -> & _)%list_elem_of_fmap & Hr & ->)%elem_of_product.
  apply (covered_union [id]); [apply env_row_covered|by apply IH].
Qed.

Lemma join_rows_product conds ls rs :
  join_rows conds ls rs = filter (equal_pairs conds) (product ls rs).
Proof.
  induction ls as [|l ls IH]; [done|]. rewrite join_rows_cons, product_cons, filter_app, IH. f_equal. unfold join_rows. simpl.
  rewrite app_nil_r. apply list_filter_iff. intros row. unfold equal_pairs. rewrite forallb_forall, Forall_forall. by setoid_rewrite <- list_elem_of_In.
Qed.

Lemma cells_equal_agree row row' c :
  ref_cell row c.1 = ref_cell row' c.1 -> ref_cell row c.2 = ref_cell row' c.2 -> cells_equal row c = cells_equal row' c.
Proof. intros E1 E2. unfold cells_equal. by rewrite E1, E2. Qed.

Lemma equal_pairs_agree (ids : list Z) conds row row' :
  Forall (pair_within ids) conds -> (forall ref, ref_table_id ref ∈ ids -> ref_cell row ref = ref_cell row' ref) ->
  equal_pairs conds row <-> equal_pairs conds row'.
Proof.
  intros Hc Hag. unfold equal_pairs. rewrite !Forall_forall. rewrite Forall_forall in Hc.
  assert (forall c, c ∈ conds -> cells_equal row c = cells_equal row' c) as E.
  { intros c Hin. destruct (Hc c Hin). by apply cells_equal_agree; apply Hag. }
  split; intros HF c Hin; [rewrite <- E by done|rewrite E by done]; by apply HF.
Qed.

(** A tree of joins delivers the rows of the cross product that satisfy its conditions. *)
Lemma join_tree_rows plan :
  join_tree plan -> plan_rows db plan = filter (equal_pairs (equalities plan)) (cross db (sources plan)).
Proof.
  induction plan as [b t cols req|i IH e|l IHl r IHr conds|i IH gb aggs cols|i IH es cols]; cbn [join_tree]; try done.
  - intros _. cbn [plan_rows sources cross equalities]. rewrite filter_all by (intros; constructor).
    by rewrite product_nil_r.
  - intros (Hl & Hr & Hap & Hc). cbn [plan_rows sources equalities]. rewrite (IHl Hl), (IHr Hr), cross_app.
    pose proof (equalities_within l Hl) as Hel. pose proof (equalities_within r Hr) as Her.
    transitivity (filter (fun row => equal_pairs (equalities l) row /\ equal_pairs (equalities r) row)
      (join_rows conds (cross db (sources l)) (cross db (sources r)))).
    + rewrite (filter_join _ (equal_pairs (equalities l)) (equal_pairs (equalities r)) (fun _ => True)); [symmetry; by apply filter_all|].
      intros x y Hx%cross_covered Hy%cross_covered. rewrite sources_ids in Hx, Hy by done.
      rewrite (equal_pairs_agree (CollectBindingIds l) (equalities l) (x ∪ y) x), (equal_pairs_agree (CollectBindingIds r) (equalities r) (x ∪ y) y);
        [tauto|done| |done|]; intros ref Hin.
      * apply (ref_cell_right _ _ _ _ Hx). intros Hin'. by apply (Hap _ Hin').
      * apply (ref_cell_left _ _ _ _ Hy). by apply Hap.
    + rewrite join_rows_product, list_filter_filter. apply list_filter_iff. intros row. unfold equal_pairs. rewrite !Forall_app. tauto.
Qed.

End Joins.
