(* ===== verification/FromMeaning.v ===== *)
(** What the binder makes of a FROM clause: a tree of joins of the tables it names, whose
    conditions are the equalities of its ON clauses and those WHERE equalities that it
    uses to connect comma-separated items. *)

From S2P Require Import Prelude Scalar Chunk Rows Expr HashJoin Accumulator Schema Catalog Ast Plan Resolution Coercion Binder FromClause Typing PredicateUtils Queries Pushdown Streams Execution Optimization Sql Meaning.

(** Items are trees. *)
Lemma TableRef_ind (P : TableRefNode -> Prop) :
  (forall name alias, P (BaseTableRef name alias)) ->
  (forall l r condition, (forall item, l = Some item -> P item) -> (forall item, r = Some item -> P item) -> P (JoinRef l r condition)) ->
  forall item, P item.
Proof.
  intros Hb Hj. fix IH 1. intros [name alias|[l|] [r|] condition]; [apply Hb|..]; apply Hj; intros item E; try discriminate E;
    injection E as <-; apply IH.
Qed.

(** ** Scopes *)

Lemma sql_bindings_app {F} (catalog : Catalog F) start xs ys as_ bs :
  sql_bindings catalog start xs = Some as_ -> sql_bindings catalog (start + length xs) ys = Some bs ->
  sql_bindings catalog start (xs ++ ys) = Some (as_ ++ bs).
Proof.
  revert start as_. induction xs as [|[name alias] xs IH]; intros start as_; simpl; [intros [= <-]; by rewrite Nat.add_0_r|].
  destruct (GetTable catalog name) as [t|]; [|done]. simpl. destruct (sql_bindings catalog (S start) xs) as [as'|] eqn:E; [|done]. simpl.
  intros [= <-] Hys. rewrite (IH (S start) as' E); [done|]. by rewrite Nat.add_succ_l, <- Nat.add_succ_r.
Qed.

Lemma sql_bindings_length {F} (catalog : Catalog F) start refs bs : sql_bindings catalog start refs = Some bs -> length bs = length refs.
Proof.
  revert start bs. induction refs as [|[name alias] refs IH]; intros start bs; simpl; [by intros [= <-]|].
  destruct (GetTable catalog name) as [t|]; [|done]. simpl. destruct (sql_bindings catalog (S start) refs) eqn:E; [|done]. simpl.
  intros [= <-]. simpl. f_equal. by eapply IH.
Qed.

Lemma scope_wf_prefix scope rest : scope_wf (scope ++ rest) -> scope_wf scope.
Proof.
  intros [Hb Hn]. split.
  - intros i b Hi. apply Hb. by apply lookup_app_l_Some.
  - rewrite map_app in Hn. by apply NoDup_app in Hn as (? & _).
Qed.

Lemma scope_wf_take n scope : scope_wf scope -> scope_wf (take n scope).
Proof. intros Hs. apply (scope_wf_prefix _ (drop n scope)). by rewrite take_drop. Qed.

Lemma in_scope_app scope rest ref : in_scope scope ref -> in_scope (scope ++ rest) ref.
Proof.
  intros ((i & Hi & Hid) & Hty & Hord). split; [exists i; rewrite length_app; split; [lia|done]|]. split; [|done].
  rewrite <- Hty. unfold scope_type. rewrite Hid, Nat2Z.id. f_equal. by apply lookup_app_l.
Qed.

Lemma in_scope_take n scope ref : in_scope (take n scope) ref -> in_scope scope ref.
Proof. intros Hr. rewrite <- (take_drop n scope). by apply in_scope_app. Qed.

(** The numbers of bindings that follow others. *)
Lemma new_ids scope new id :
  scope_wf (scope ++ new) -> id ∈ map binding_id new <-> exists j, (j < length new)%nat /\ id = Z.of_nat (length scope + j).
Proof.
  intros Hs. assert (forall j b, new !! j = Some b -> binding_id b = Z.of_nat (length scope + j)) as Hb.
  { intros j b Hj. apply (sw_bindings _ Hs (length scope + j) b). apply lookup_app_Some. right. split; [lia|]. by replace (length scope + j - length scope)%nat with j by lia. }
  rewrite list_elem_of_fmap. split.
  - intros (b & -> & [j Hj]%list_elem_of_lookup). exists j. split; [by eapply lookup_lt_Some|by apply Hb].
  - intros (j & Hj & ->). destruct (lookup_lt_is_Some_2 _ _ Hj) as [b Hb']. exists b. rewrite (Hb j b Hb'). split; [done|by eapply list_elem_of_lookup_2].
Qed.

Lemma in_scope_id scope ref : scope_wf scope -> in_scope scope ref -> ref_table_id ref ∈ map binding_id scope.
Proof. intros Hs ((i & Hi & Hid) & _). apply (new_ids [] scope _ Hs). by exists i. Qed.

(** ** Plans over a scope *)

Fixpoint bound_in (scope : ResolutionScope) (plan : LogicalPlanNode) : Prop :=
  match plan with
  | LogicalScan id table columns _ => exists b, b ∈ scope /\ source b = (id, table) /\ columns = table_output_columns (binding_table b)
  | LogicalJoin l r conditions => bound_in scope l /\ bound_in scope r /\ apart (CollectBindingIds l) (CollectBindingIds r) /\
      Forall (fun c => in_scope scope c.1 /\ in_scope scope c.2) conditions
  | _ => False
  end.

Lemma bound_in_app scope rest plan : bound_in scope plan -> bound_in (scope ++ rest) plan.
Proof.
  induction plan as [b t cols req|i IH e|l IHl r IHr conds|i IH gb aggs cols|i IH es cols]; simpl; try done.
  - intros (x & Hx & ?). exists x. split; [apply elem_of_app; by left|done].
  - intros (Hl & Hr & Hap & Hc). split_and!; [by apply IHl|by apply IHr|done|]. eapply Forall_impl; [exact Hc|].
    intros c [H1' H2']. split; by apply in_scope_app.
Qed.

(** A conjunct that is the equality of two columns. *)
Definition equality_of (scope : ResolutionScope) (raw : RawExpression) (pair : ColumnRef * ColumnRef) : Prop :=
  exists lhs rhs, column_equality raw = Some (lhs, rhs) /\ Resolve scope lhs = Ok pair.1 /\ Resolve scope rhs = Ok pair.2.

(** The conditions [pairs] are what the conditions [clauses] say. *)
Inductive clauses_are (scope : ResolutionScope) : list (nat * RawExpression) -> list (ColumnRef * ColumnRef) -> Prop :=
  | clauses_nil : clauses_are scope [] []
  | clauses_cons n e clauses ps pairs :
      (n <= length scope)%nat -> Forall2 (equality_of (take n scope)) (FlattenAnd e []) ps -> clauses_are scope clauses pairs ->
      clauses_are scope ((n, e) :: clauses) (ps ++ pairs).

Lemma clauses_are_app scope xs ys ps qs : clauses_are scope xs ps -> clauses_are scope ys qs -> clauses_are scope (xs ++ ys) (ps ++ qs).
Proof. intros Hx Hy. induction Hx as [|n e clauses ps pairs Hn Hps _ IH]; [done|]. simpl. rewrite <- app_assoc. by constructor. Qed.

Lemma clauses_are_extend scope rest xs ps : clauses_are scope xs ps -> clauses_are (scope ++ rest) xs ps.
Proof.
  induction 1 as [|n e clauses ps pairs Hn Hps _ IH]; constructor; [rewrite length_app; lia| |done]. by rewrite take_app_le.
Qed.

Lemma join_conditions_spec condition scope pairs :
  join_conditions condition scope = Ok pairs ->
  match condition with Some e => Forall2 (equality_of scope) (FlattenAnd e []) pairs | None => pairs = [] end.
Proof.
  destruct condition as [e|]; [|by intros [= <-]]. intros HJ. unfold join_conditions in HJ.
  refine (for_each_Ok (fun dn ps => Forall2 (equality_of scope) dn ps) _ _ [] _ _ (List.Forall2_nil _) HJ).
  intros dn raw ps ps' Hps HS _. destruct (column_equality raw) as [[lhs rhs]|] eqn:Hc; [|done].
  apply bind_Ok_inv in HS as (l & Hl & HS). apply bind_Ok_inv in HS as (r & Hr & [= <-]).
  apply Forall2_app; [done|]. constructor; [|constructor]. by exists lhs, rhs.
Qed.

Lemma equality_in_scope scope raw pair : scope_wf scope -> equality_of scope raw pair -> in_scope scope pair.1 /\ in_scope scope pair.2.
Proof. intros Hs (lhs & rhs & _ & Hl & Hr). split; by eapply Resolve_in_scope. Qed.

Lemma Forall2_right {A B} (R : A -> B -> Prop) (P : B -> Prop) xs ys : (forall x y, R x y -> P y) -> Forall2 R xs ys -> Forall P ys.
Proof. intros HP. induction 1; constructor; eauto. Qed.

Section From.
Context {F : Type} (catalog : Catalog F).
Hypothesis Htables : forall name t, GetTable catalog name = Some t -> table_ok t.

(** What [BindTableRef] builds, in front of which tables are registered. *)
Record part_bound (scope new : ResolutionScope) (item : TableRefNode) (part : FromBinding) : Prop := {
  pb_new : sql_bindings catalog (length scope) (table_refs item) = Some new;
  pb_scope : scope_wf (scope ++ new);
  pb_sources : sources (from_plan part) = map source new;
  pb_ids : binding_ids part = map binding_id new;
  pb_plan_ids : CollectBindingIds (from_plan part) = map binding_id new;
  pb_bound : bound_in (scope ++ new) (from_plan part);
  pb_clauses : clauses_are (scope ++ new) (on_clauses (length scope) item) (equalities (from_plan part));
}.

Lemma pb_length scope new item part : part_bound scope new item part -> length new = length (table_refs item).
Proof. intros Hp. by eapply sql_bindings_length, Hp. Qed.

Lemma base_bound scope name alias part scope' :
  scope_wf scope -> Z.of_nat (length scope) < 2 ^ 32 -> BindTableRef catalog (BaseTableRef name alias) scope = (Ok part, scope') ->
  exists new, scope' = scope ++ new /\ part_bound scope new (BaseTableRef name alias) part.
Proof.
  intros Hs Hlen HB. cbn [BindTableRef] in HB. pose proof (RegisterTable_spec catalog name alias scope Hs (Htables name) Hlen) as HR.
  unfold mbind at 1, io_bind at 1 in HB. destruct (RegisterTable name alias catalog scope) as [[id|e| |] s1]; try done.
  destruct HR as (t & Ht & -> & -> & Hs'). set (b := mk_binding (Z.of_nat (length scope)) (default name alias) t) in *.
  unfold mbind, io_bind, io_get, io_lift, BindingFor in HB. unfold ResolutionScope in *. rewrite Nat2Z.id, list_lookup_middle in HB by done.
  injection HB as <- <-. exists [b]. split; [done|]. split; try done.
  - cbn [table_refs sql_bindings]. rewrite Ht. done.
  - simpl. exists b. split; [apply elem_of_app; right; by constructor|done].
  - constructor.
Qed.

Lemma bound_ids scope new item part : part_bound scope new item part ->
  forall id, id ∈ CollectBindingIds (from_plan part) <-> exists j, (j < length new)%nat /\ id = Z.of_nat (length scope + j).
Proof. intros Hp id. rewrite (pb_plan_ids _ _ _ _ Hp). apply new_ids, Hp. Qed.

Lemma join_bound scope n1 n2 item1 item2 p1 p2 condition pairs :
  part_bound scope n1 item1 p1 -> part_bound (scope ++ n1) n2 item2 p2 ->
  join_conditions condition ((scope ++ n1) ++ n2) = Ok pairs ->
  part_bound scope (n1 ++ n2) (JoinRef (Some item1) (Some item2) condition)
    (mk_from (MakeLogicalJoin (from_plan p1) (from_plan p2) pairs) (binding_ids p1 ++ binding_ids p2)).
Proof.
  intros H1' H2' Hc%join_conditions_spec. pose proof (pb_scope _ _ _ _ H2') as Hs. pose proof (pb_length _ _ _ _ H1') as Hl1.
  pose proof (pb_length _ _ _ _ H2') as Hl2. split; rewrite ?app_assoc.
  - cbn [table_refs]. apply sql_bindings_app; [apply H1'|]. rewrite <- Hl1, <- length_app. apply H2'.
  - done.
  - cbn [sources from_plan MakeLogicalJoin]. by rewrite (pb_sources _ _ _ _ H1'), (pb_sources _ _ _ _ H2'), map_app.
  - cbn [binding_ids]. by rewrite (pb_ids _ _ _ _ H1'), (pb_ids _ _ _ _ H2'), map_app.
  - cbn [CollectBindingIds from_plan MakeLogicalJoin]. by rewrite (pb_plan_ids _ _ _ _ H1'), (pb_plan_ids _ _ _ _ H2'), map_app.
  - cbn [bound_in from_plan MakeLogicalJoin]. split_and!; [apply bound_in_app, H1'|apply H2'| |].
    + intros id (j & Hj & ->)%(bound_ids _ _ _ _ H1') (k & Hk & E)%(bound_ids _ _ _ _ H2'). rewrite length_app in E. lia.
    + destruct condition as [e|]; [|by subst]. eapply Forall2_right; [|exact Hc]. intros raw pair. by apply equality_in_scope.
  - cbn [on_clauses equalities from_plan MakeLogicalJoin table_refs]. rewrite <- Hl1, <- length_app, !length_app, <- Hl1, <- Hl2.
    apply clauses_are_app; [apply clauses_are_extend, H1'|]. rewrite <- length_app. apply clauses_are_app; [apply H2'|].
    destruct condition as [e|]; [|subst; constructor]. rewrite <- (app_nil_r pairs). constructor; [| |constructor].
    + rewrite !length_app. lia.
    + by rewrite take_ge by (rewrite !length_app; lia).
Qed.

Lemma BindTableRef_bound item scope part scope' :
  scope_wf scope -> Z.of_nat (length scope + length (table_refs item)) <= 2 ^ 32 -> BindTableRef catalog item scope = (Ok part, scope') ->
  exists new, scope' = scope ++ new /\ part_bound scope new item part.
Proof.
  revert scope part scope'. induction item as [name alias|l r condition IHl IHr] using TableRef_ind; intros scope part scope' Hs Hlen HB.
  - eapply base_bound; [done| |done]. simpl in Hlen. lia.
  - destruct l as [l|], r as [r|]; try done. cbn [BindTableRef] in HB. cbn [table_refs] in Hlen. rewrite length_app in Hlen.
    apply io_bind_Ok_inv in HB as (p1 & s1 & HB1 & HB). destruct (IHl l eq_refl _ _ _ Hs ltac:(lia) HB1) as (n1 & -> & Hp1).
    apply io_bind_Ok_inv in HB as (p2 & s2 & HB2 & HB). pose proof (pb_length _ _ _ _ Hp1) as Hl1.
    destruct (IHr r eq_refl _ _ _ (pb_scope _ _ _ _ Hp1) ltac:(rewrite length_app; lia) HB2) as (n2 & -> & Hp2).
    unfold mbind, io_bind, io_get, io_lift in HB. destruct (join_conditions condition _) as [pairs|e| |] eqn:Hc; try done.
    injection HB as <- <-. exists (n1 ++ n2). rewrite app_assoc. split; [done|]. by apply join_bound.
Qed.

(** The items of the clause, behind the tables [scope]. *)
Inductive parts_bound : ResolutionScope -> list TableRefNode -> list FromBinding -> ResolutionScope -> Prop :=
  | parts_nil scope : parts_bound scope [] [] scope
  | parts_cons scope new item part items parts final :
      part_bound scope new item part -> parts_bound (scope ++ new) items parts final -> parts_bound scope (item :: items) (part :: parts) final.

Definition table_count (items : list TableRefNode) : nat := length (concat (map table_refs items)).

Lemma parts_loop items acc parts scope final :
  scope_wf scope -> Z.of_nat (length scope + table_count items) <= 2 ^ 32 ->
  for_each items (fun item parts => part ← BindTableRef catalog item; mret (parts ++ [part])) acc scope = (Ok parts, final) ->
  exists parts', parts = acc ++ parts' /\ parts_bound scope items parts' final.
Proof.
  revert acc scope. induction items as [|item items IH]; intros acc scope Hs Hlen HL; cbn [for_each] in HL.
  - injection HL as <- <-. exists []. rewrite app_nil_r. split; [done|constructor].
  - unfold table_count in Hlen. cbn [map concat] in Hlen. rewrite length_app in Hlen. fold (table_count items) in Hlen.
    apply io_bind_Ok_inv in HL as (acc' & s1 & HB & HL). apply io_bind_Ok_inv in HB as (part & s1' & HB & HR). injection HR as <- <-.
    destruct (BindTableRef_bound item scope part s1' Hs ltac:(lia) HB) as (new & -> & Hp). pose proof (pb_length _ _ _ _ Hp) as Hl.
    destruct (IH _ _ (pb_scope _ _ _ _ Hp) ltac:(rewrite length_app; lia) HL) as (parts' & -> & Hps).
    exists (part :: parts'). rewrite <- app_assoc. split; [done|]. by econstructor.
Qed.

Lemma parts_final scope items parts final : parts_bound scope items parts final -> exists new, final = scope ++ new.
Proof. induction 1 as [scope|scope new item part items parts final _ _ [n ->]]; [exists []; by rewrite app_nil_r|]. exists (new ++ n). by rewrite app_assoc. Qed.

Lemma parts_wf scope items parts final : scope_wf scope -> parts_bound scope items parts final -> scope_wf final.
Proof. intros Hs. induction 1 as [|scope new item part items parts final Hp _ IH]; [done|]. apply IH, Hp. Qed.

Lemma parts_scope scope items parts final :
  parts_bound scope items parts final ->
  exists new, final = scope ++ new /\ sql_bindings catalog (length scope) (concat (map table_refs items)) = Some new.
Proof.
  induction 1 as [scope|scope new item part items parts final Hp _ (n & -> & Hn)]; [exists []; by rewrite app_nil_r|].
  exists (new ++ n). rewrite app_assoc. split; [done|]. cbn [map concat]. apply sql_bindings_app; [apply Hp|].
  by rewrite <- (pb_length _ _ _ _ Hp), <- length_app.
Qed.

(** The item that a table belongs to. *)
Fixpoint item_of (items : list TableRefNode) (n : nat) : nat :=
  match items with
  | [] => 0%nat
  | item :: items => if (n <? length (table_refs item))%nat then 0%nat else S (item_of items (n - length (table_refs item)))
  end.

Lemma part_index_spec scope items parts final n :
  parts_bound scope items parts final -> (length scope <= n < length final)%nat ->
  part_index_of parts (Z.of_nat n) = Ok (item_of items (n - length scope)).
Proof.
  intros Hp. revert n. induction Hp as [scope|scope new item part items parts final Hp Hps IH]; intros n Hn; [lia|].
  pose proof (pb_length _ _ _ _ Hp) as Hl. unfold part_index_of. cbn [list_find item_of]. rewrite <- Hl.
  assert (Z.of_nat n ∈ binding_ids part <-> (n < length scope + length new)%nat) as Hin.
  { rewrite (pb_ids _ _ _ _ Hp), (new_ids scope new) by apply Hp. split; [intros (j & Hj & E); lia|]. intros Hlt. exists (n - length scope)%nat. lia. }
  destruct (Nat.ltb_spec (n - length scope) (length new)) as [Hlt|Hge].
  - by rewrite decide_True by (apply Hin; lia).
  - rewrite decide_False by (rewrite Hin; lia). specialize (IH n ltac:(rewrite length_app; lia)). unfold part_index_of in IH.
    rewrite length_app in IH. replace (n - length scope - length new)%nat with (n - (length scope + length new))%nat by lia.
    destruct (list_find _ parts) as [[i p]|] eqn:Hf; [|done]. by injection IH as ->.
Qed.

(** ** Comma-separated items *)

(** The later of the two items that an equality connects. *)
Definition top (c : Connection) : nat := Nat.max (part_a c) (part_b c).

Lemma joins_top i c : joins i c = true -> top c = i.
Proof.
  unfold joins, top. intros [[Ha%Nat.ltb_lt Hb%Nat.eqb_eq]%andb_true_iff|[Hb%Nat.ltb_lt Ha%Nat.eqb_eq]%andb_true_iff]%orb_true_iff; lia.
Qed.

(** A tree of joins of all tables of a scope. *)
Record tree_bound (scope : ResolutionScope) (plan : LogicalPlanNode) : Prop := {
  tb_sources : sources plan = map source scope;
  tb_ids : CollectBindingIds plan = map binding_id scope;
  tb_bound : bound_in scope plan;
}.

Lemma join_rest_bound pre items parts final connections i combined plan :
  parts_bound pre items parts final -> scope_wf final ->
  Forall (fun c => in_scope final (equality c).1 /\ in_scope final (equality c).2) connections ->
  sources combined = map source pre -> CollectBindingIds combined = map binding_id pre -> bound_in final combined ->
  join_rest connections i parts combined = Ok plan ->
  tree_bound final plan /\ exists ps used, clauses_are final (from_clauses (length pre) items) ps /\
    equalities plan ≡ₚ equalities combined ++ ps ++ map equality used /\
    map top used = seq i (length parts) /\ Forall (fun c => c ∈ connections) used.
Proof.
  intros Hp Hs Hcs. revert i combined. induction Hp as [scope|scope new item part items parts final Hp Hps IH]; intros i combined Hsrc Hids Hb HJ.
  { injection HJ as <-. split; [done|]. exists [], []. simpl. rewrite app_nil_r. by split_and!; try constructor. }
  cbn [join_rest] in HJ. destruct (List.find (joins i) connections) as [c|] eqn:Hf; [|done].
  apply List.find_some in Hf as [Hc Htop%joins_top]. apply list_elem_of_In in Hc.
  destruct (parts_final _ _ _ _ Hps) as [rest Hrest]. pose proof (pb_length _ _ _ _ Hp) as Hl.
  destruct (IH Hs Hcs (S i) (MakeLogicalJoin combined (from_plan part) [equality c])) as (Htree & ps & used & Hps' & Heq & Ht & Hu); [| | |done|].
  - simpl. by rewrite Hsrc, (pb_sources _ _ _ _ Hp), map_app.
  - simpl. by rewrite Hids, (pb_plan_ids _ _ _ _ Hp), map_app.
  - simpl. split_and!; [done| | |].
    + rewrite Hrest. apply bound_in_app, Hp.
    + rewrite Hids. intros id Hin (j & Hj & ->)%(bound_ids _ _ _ _ Hp).
      apply (new_ids [] scope _ (scope_wf_prefix _ _ (pb_scope _ _ _ _ Hp))) in Hin as (k & Hk & E). simpl in E. lia.
    + rewrite Forall_singleton. rewrite Forall_forall in Hcs. by apply Hcs.
  - split; [done|]. exists (equalities (from_plan part) ++ ps), (c :: used). split_and!.
    + cbn [from_clauses]. apply clauses_are_app; [rewrite Hrest; apply clauses_are_extend, Hp|]. by rewrite <- Hl, <- length_app.
    + rewrite Heq. simpl. rewrite <- !app_assoc. do 2 apply Permutation_app_head. simpl. apply Permutation_middle.
    + simpl. by rewrite Htop, Ht.
    + by constructor.
Qed.

(** ** The whole clause *)

(** Whether a conjunct is an equality between columns of two items. *)
Definition crosses_items (scope : ResolutionScope) (items : list TableRefNode) (raw : RawExpression) : bool :=
  match column_equality raw with
  | Some (lhs, rhs) =>
      match sql_column scope lhs, sql_column scope rhs with
      | Some l, Some r => negb (item_of items (Z.to_nat (ref_table_id l)) =? item_of items (Z.to_nat (ref_table_id r)))%nat
      | _, _ => false
      end
  | None => false
  end.

Lemma connection_of_spec items parts scope raw c :
  scope_wf scope -> parts_bound [] items parts scope -> connection_of parts scope raw = Ok c ->
  crosses_items scope items raw = bool_decide (is_Some c) /\ (forall k, c = Some k -> equality_of scope raw (equality k)).
Proof.
  intros Hs Hp HC. unfold connection_of in HC. unfold crosses_items, equality_of.
  destruct (column_equality raw) as [[lhs rhs]|]; [|injection HC as <-; by split].
  apply bind_Ok_inv in HC as (l & Hl & HC). apply bind_Ok_inv in HC as (r & Hr & HC).
  destruct (Resolve_in_scope scope Hs _ _ Hl) as [-> ((i & Hi & Hil) & _)], (Resolve_in_scope scope Hs _ _ Hr) as [-> ((j & Hj & Hjr) & _)].
  rewrite Hil, Hjr, !Nat2Z.id. rewrite Hil, Hjr in HC. rewrite !(part_index_spec _ _ _ _ _ Hp) in HC by (simpl; lia).
  rewrite !bind_Ok in HC. rewrite !Nat.sub_0_r in HC. destruct (item_of items i =? item_of items j)%nat; injection HC as <-; simpl; (split; [done|]);
    intros k [= <-]. by exists lhs, rhs.
Qed.

Lemma classified_spec items parts scope conjuncts cs :
  scope_wf scope -> parts_bound [] items parts scope -> classified parts scope conjuncts = Ok cs ->
  rest_of cs = List.filter (fun raw => negb (crosses_items scope items raw)) conjuncts /\
  Forall2 (fun raw c => equality_of scope raw (equality c)) (List.filter (crosses_items scope items) conjuncts) (connections_in cs).
Proof.
  intros Hs Hp. revert cs. induction conjuncts as [|raw raws IH]; intros cs; simpl; [by intros [= <-]|].
  intros (c & Hc & HC)%bind_Ok_inv. apply bind_Ok_inv in HC as (rest & Hrest & [= <-]). destruct (IH rest Hrest) as [IH1 IH2].
  destruct (connection_of_spec items parts scope raw c Hs Hp Hc) as [-> Heq]. unfold rest_of, connections_in in *.
  destruct c as [k|]; simpl; [|by rewrite <- IH1]. split; [done|]. constructor; [by apply Heq|done].
Qed.

(** Within one item there are no equalities across items. *)
Lemma one_item_crosses item scope raw :
  scope_wf scope -> length scope = length (table_refs item) -> crosses_items scope [item] raw = false.
Proof.
  intros Hs Hl. unfold crosses_items. destruct (column_equality raw) as [[lhs rhs]|]; [|done].
  assert (forall name ref, sql_column scope name = Some ref -> item_of [item] (Z.to_nat (ref_table_id ref)) = 0%nat) as Hone.
  { intros name ref Hc. assert (Resolve scope name = Ok ref) as HR.
    { pose proof (Resolve_spec scope name Hs) as HR. unfold sql_column in Hc. destruct (candidates scope name) as [|r [|? ?]]; try done.
      injection Hc as <-. apply HR. }
    apply (Resolve_in_scope scope Hs) in HR as [_ ((i & Hi & ->) & _)]. simpl. rewrite Nat2Z.id.
    by destruct (Nat.ltb_spec i (length (table_refs item))); [|lia]. }
  destruct (sql_column scope lhs) as [l|] eqn:El; [|done]. destruct (sql_column scope rhs) as [r|] eqn:Er; [|done].
  by rewrite (Hone _ _ El), (Hone _ _ Er).
Qed.

(** What [BindFromClause] returns. *)
Record from_bound (items : list TableRefNode) (conjuncts : list RawExpression) (scope : ResolutionScope) (res : FromClauseResult)
    (ps used all : list (ColumnRef * ColumnRef)) : Prop := {
  fb_wf : scope_wf scope;
  fb_scope : sql_scope catalog items = Some scope;
  fb_tree : tree_bound scope (result_plan res);
  fb_clauses : clauses_are scope (from_clauses 0 items) ps;
  fb_equalities : equalities (result_plan res) ≡ₚ ps ++ used;
  fb_remaining : remaining_where_conjuncts res = List.filter (fun raw => negb (crosses_items scope items raw)) conjuncts;
  fb_crossing : Forall2 (equality_of scope) (List.filter (crosses_items scope items) conjuncts) all;
  fb_used : (length all <= length items - 1)%nat -> used ≡ₚ all;
}.

Lemma used_all connections used n :
  map top used = seq 1 n -> Forall (fun c => c ∈ connections) used -> (length connections <= n)%nat -> used ≡ₚ connections.
Proof.
  intros Ht Hu Hlen. rewrite Forall_forall in Hu. apply submseteq_length_Permutation.
  - apply NoDup_submseteq; [|done]. apply (NoDup_fmap_1 top). unfold fmap, list_fmap. fold (map top used). rewrite Ht. apply NoDup_seq.
  - apply (f_equal length) in Ht. rewrite length_map, length_seq in Ht. lia.
Qed.

Lemma BindFromClause_bound items conjuncts res scope :
  Z.of_nat (table_count items) <= 2 ^ 32 -> BindFromClause catalog items conjuncts [] = (Ok res, scope) ->
  exists ps used all, from_bound items conjuncts scope res ps used all.
Proof.
  intros Hlen HB. assert (exists parts, for_each items (fun item parts => part ← BindTableRef catalog item; mret (parts ++ [part])) [] [] = (Ok parts, scope)) as [parts Hparts].
  { unfold BindFromClause in HB. destruct items as [|item items]; [done|]. apply io_bind_Ok_inv in HB as (parts & s1 & HL & HB).
    exists parts. rewrite HL. destruct parts as [|? [|]]; [| |]; unfold mbind, io_bind, io_get, io_lift, mret, io_ret in HB; repeat case_match; simplify_eq; done. }
  assert (scope_wf []) as Hnil by (split; [done|constructor]).
  destruct (parts_loop items [] parts [] scope Hnil) as (parts' & -> & Hp); [exact Hlen|exact Hparts|]. cbn [app] in Hparts.
  pose proof (parts_wf _ _ _ _ Hnil Hp) as Hs. destruct (parts_scope _ _ _ _ Hp) as (new & E & Hscope). simpl in E. subst new.
  destruct parts' as [|p0 [|p1 parts]].
  - inversion Hp; subst. done.
  - inversion Hp as [|? new item ? items' ? ? Hp0 Hps]; subst. inversion Hps; subst. simpl in *.
    unfold BindFromClause in HB. unfold mbind, io_bind in HB, Hparts. rewrite Hparts in HB. injection HB as <-.
    assert (forall raw, crosses_items new [item] raw = false) as Hno by (intros raw; apply one_item_crosses; [done|by eapply pb_length]).
    exists (equalities (from_plan p0)), [], []. split; cbn [result_plan remaining_where_conjuncts]; try done.
    + split; apply Hp0.
    + cbn [from_clauses]. rewrite app_nil_r. apply Hp0.
    + by rewrite app_nil_r.
    + clear -Hno. induction conjuncts as [|raw raws IH]; [done|]. simpl. rewrite Hno. simpl. by f_equal.
    + replace (List.filter (crosses_items new [item]) conjuncts) with (@nil RawExpression); [constructor|].
      clear -Hno. induction conjuncts as [|raw raws IH]; [done|]. simpl. by rewrite Hno.
  - rewrite (BindFromClause_parts catalog items scope p0 p1 parts conjuncts Hparts) in HB. injection HB as HB.
    apply bind_Ok_inv in HB as (cs & Hcs & HB). apply bind_Ok_inv in HB as (plan & HJ & HB). injection HB as <-.
    destruct (classified_spec items _ scope conjuncts cs Hs Hp Hcs) as [Hrest Hall].
    inversion Hp as [|? new item ? items' ? ? Hp0 Hps]; subst. simpl in Hp0, Hps.
    destruct (parts_final _ _ _ _ Hps) as [rest Hfinal].
    destruct (join_rest_bound new items' (p1 :: parts) scope (connections_in cs) 1 (from_plan p0) plan Hps Hs)
      as (Htree & ps & used & Hps' & Heq & Ht & Hu); [|apply Hp0|apply Hp0| |exact HJ|].
    { eapply Forall2_right; [|exact Hall]. intros raw c. by apply equality_in_scope. }
    { rewrite Hfinal. apply bound_in_app, Hp0. }
    exists (equalities (from_plan p0) ++ ps), (map equality used), (map equality (connections_in cs)).
    split; cbn [result_plan remaining_where_conjuncts]; try done.
    + cbn [from_clauses]. apply clauses_are_app; [rewrite Hfinal; apply clauses_are_extend, Hp0|].
      by rewrite <- (pb_length _ _ _ _ Hp0).
    + by rewrite Heq, app_assoc.
    + apply Forall2_fmap_r. done.
    + rewrite length_map. intros Hle. apply Permutation_map. eapply used_all; [exact Ht|done|].
      assert (length items' = length (p1 :: parts)) as <-; [|simpl in Hle; lia].
      clear -Hps. induction Hps; [done|]. simpl. by f_equal.
Qed.

End From.

(** ** The rows of the clause *)

(** The types of the columns of a scope. *)
Definition scope_column (scope : ResolutionScope) (id ord : Z) : option TypeId :=
  if decide (0 <= ord) then scope_type scope id ord else None.

Lemma in_scope_column scope ref : in_scope scope ref -> scope_column scope (ref_table_id ref) (ref_ordinal ref) = Some (ref_type ref).
Proof. intros (_ & Hty & Hord). unfold scope_column. by rewrite decide_True. Qed.

(** What the engine can join: columns of one type, INTEGER or VARCHAR, one of each side. *)
Definition comparable (c : ColumnRef * ColumnRef) : bool := bool_decide (ref_type c.1 = ref_type c.2 /\ ref_type c.1 <> kFloat).
Definition joinable (ls rs : list Z) (c : ColumnRef * ColumnRef) : bool :=
  comparable c && (bool_decide (ref_table_id c.1 ∈ ls /\ ref_table_id c.2 ∈ rs) || bool_decide (ref_table_id c.2 ∈ ls /\ ref_table_id c.1 ∈ rs)).
Fixpoint joins_ok (plan : LogicalPlanNode) : bool :=
  match plan with
  | LogicalScan _ _ _ _ => true
  | LogicalJoin l r conditions => joins_ok l && joins_ok r && forallb (joinable (CollectBindingIds l) (CollectBindingIds r)) conditions
  | _ => false
  end.

Lemma joinable_spec ls rs c : joinable ls rs c = true ->
  (ref_table_id c.1 ∈ ls /\ ref_table_id c.2 ∈ rs \/ ref_table_id c.2 ∈ ls /\ ref_table_id c.1 ∈ rs) /\ comparable c = true.
Proof.
  unfold joinable. intros [Hc Hs]%andb_true_iff. split; [|done].
  apply orb_true_iff in Hs as [Hs|Hs]; apply bool_decide_eq_true_1 in Hs; auto.
Qed.

Lemma joins_ok_comparable plan : joins_ok plan = true -> Forall (fun c => comparable c = true) (equalities plan).
Proof.
  induction plan as [b t cols req|i IH e|l IHl r IHr conds|i IH gb aggs cols|i IH es cols]; simpl; try done.
  intros [[Hl Hr]%andb_true_iff Hc]%andb_true_iff. rewrite !Forall_app. split_and!; [by apply IHl|by apply IHr|].
  rewrite forallb_forall in Hc. apply Forall_forall. intros c Hin%list_elem_of_In. by apply (joinable_spec _ _ _ (Hc c Hin)).
Qed.

Lemma bound_join_tree scope plan : bound_in scope plan -> joins_ok plan = true -> join_tree plan.
Proof.
  induction plan as [b t cols req|i IH e|l IHl r IHr conds|i IH gb aggs cols|i IH es cols]; simpl; try done.
  intros (Hl & Hr & Hap & _) [[Hol Hor]%andb_true_iff Hc]%andb_true_iff. split_and!; [by apply IHl|by apply IHr|done|].
  rewrite forallb_forall in Hc. apply Forall_forall. intros c Hin%list_elem_of_In.
  destruct (joinable_spec _ _ _ (Hc c Hin)) as [[[? ?]|[? ?]] _]; split; apply elem_of_app; auto.
Qed.

Section Rows.
Context (db : Z -> list Row) (scope : ResolutionScope) (Hscope : scope_wf scope).

(** The tables hold values of the types of their columns. *)
Definition tables_typed : Prop :=
  forall b row j ty v, b ∈ scope -> row ∈ db (tbl_id_ (binding_table b)) -> map type (tbl_columns_ (binding_table b)) !! j = Some ty ->
    cell_at row j = Some v -> type_of v = ty.

Lemma cross_cell ss row id table :
  NoDup ss.*1 -> row ∈ cross db ss -> (id, table) ∈ ss ->
  exists x, x ∈ db table /\ forall ord, 0 <= ord -> env_cell row id ord = cell_at x (Z.to_nat ord).
Proof.
  revert row. induction ss as [|[i t] ss IH]; intros row Hnd Hrow Hin; [by apply not_elem_of_nil in Hin|].
  cbn [fmap list_fmap fst] in Hnd. apply NoDup_cons in Hnd as [Hi Hnd]. cbn [cross] in Hrow.
  apply elem_of_product in Hrow as (l & r & (x & -> & Hx)%list_elem_of_fmap & Hr & ->). pose proof (cross_covered _ _ _ Hr) as Hcov.
  apply elem_of_cons in Hin as [[= -> ->]|Hin].
  - exists x. split; [done|]. intros ord Hord. rewrite <- (env_row_cell i) by done.
    exact (ref_cell_left ss.*1 (env_row i x) r (mk_ref i ord kInteger) Hcov Hi).
  - destruct (IH r Hnd Hr Hin) as (y & Hy & Hcell). exists y. split; [done|]. intros ord Hord. rewrite <- Hcell by done.
    refine (ref_cell_right [i] (env_row i x) r (mk_ref id ord kInteger) (env_row_covered _ _) _).
    simpl. intros E%list_elem_of_singleton. apply Hi. rewrite <- E. apply list_elem_of_fmap. by exists (id, table).
Qed.

Lemma scope_ids_nodup : NoDup (map source scope).*1.
Proof.
  apply NoDup_alt. intros i j x Hi Hj. rewrite !list_lookup_fmap in Hi, Hj. unfold ResolutionScope in *.
  destruct (scope !! i) as [a|] eqn:Ea; [|done]. destruct (scope !! j) as [b|] eqn:Eb; [|done]. injection Hi as <-. injection Hj as Hj.
  destruct (sw_bindings _ Hscope i a Ea) as [Ha _], (sw_bindings _ Hscope j b Eb) as [Hb _]. lia.
Qed.

(** The cells of a row have the types of their columns. *)
Lemma cross_typed row ref v :
  tables_typed -> row ∈ cross db (map source scope) -> in_scope scope ref -> ref_cell row ref = Some v -> type_of v = ref_type ref.
Proof.
  intros Htyped Hrow ((i & Hi & Hid) & Hty & Hord) Hv. destruct (lookup_lt_is_Some_2 scope i Hi) as [b Hb].
  pose proof (sw_bindings _ Hscope i b Hb) as [Hbid _]. pose proof (list_elem_of_lookup_2 _ _ _ Hb) as Hin.
  destruct (cross_cell (map source scope) row (ref_table_id ref) (tbl_id_ (binding_table b)) scope_ids_nodup Hrow) as (x & Hx & Hcell).
  { apply list_elem_of_fmap. exists b. split; [|done]. unfold source. by rewrite Hbid, Hid. }
  unfold ref_cell in Hv. rewrite Hcell in Hv by done. apply (Htyped b x (Z.to_nat (ref_ordinal ref)) _ _ Hin Hx); [|done].
  unfold scope_type in Hty. rewrite Hid, Nat2Z.id in Hty. unfold ResolutionScope in *. rewrite Hb in Hty. simpl in Hty.
  rewrite list_lookup_fmap. by destruct (_ !! Z.to_nat (ref_ordinal ref)) as [c|]; [|done].
Qed.

(** An equality of columns holds where the join condition does. *)
Lemma equality_holds n raw pair row :
  tables_typed -> row ∈ cross db (map source scope) -> equality_of (take n scope) raw pair -> comparable pair = true ->
  holds (take n scope) raw row <-> cells_equal row pair = true.
Proof.
  intros Htyped Hrow (lhs & rhs & Hraw & Hl & Hr) [Hty Hfl]%bool_decide_eq_true_1.
  assert (raw = RawBinaryOp kEqual (RawColumnRef lhs) (RawColumnRef rhs)) as ->.
  { destruct raw as [| |[] [] []| |]; simpl in Hraw; try done. by injection Hraw as -> ->. }
  destruct (Resolve_in_scope _ (scope_wf_take n _ Hscope) _ _ Hl) as [Hcl Hinl%in_scope_take],
    (Resolve_in_scope _ (scope_wf_take n _ Hscope) _ _ Hr) as [Hcr Hinr%in_scope_take].
  unfold holds, cells_equal. cbn [sql_value sql_type IsArithmeticOperator]. rewrite Hcl, Hcr. cbn [mbind option_bind].
  pose proof (cross_typed row pair.1) as Htl. pose proof (cross_typed row pair.2) as Htr.
  destruct (ref_cell row pair.1) as [x|]; [|by destruct (ref_cell row pair.2)]. destruct (ref_cell row pair.2) as [y|]; [|done].
  specialize (Htl x Htyped Hrow Hinl eq_refl). specialize (Htr y Htyped Hrow Hinr eq_refl). rewrite Hty in *.
  destruct x as [a|a|a], y as [b|b|b]; simpl in Htl, Htr; rewrite <- Htr in *; try discriminate Htl; try done; unfold sql_binary; simpl.
  - rewrite bool_decide_eq_true. unfold compare_int, ApplyComparison. destruct (Z.eqb_spec a b) as [->|Hne]; split; try done; congruence.
  - rewrite bool_decide_eq_true. unfold compare_string, ApplyComparison. destruct (String.eqb_spec a b) as [->|Hne]; split; try done; congruence.
Qed.

(** The conjuncts of a condition. *)
Lemma FlattenAnd_acc e out : FlattenAnd e out = out ++ FlattenAnd e [].
Proof.
  revert out. induction e as [name|l|op l IHl r IHr|op a IHa|f args star]; intros out; try done.
  destruct op; try done. cbn [FlattenAnd]. by rewrite IHr, (IHl out), (IHr (FlattenAnd l [])), app_assoc.
Qed.

Lemma holds_and s l r row : holds s (RawBinaryOp kAnd l r) row <-> holds s l row /\ holds s r row.
Proof.
  unfold holds. cbn [sql_value sql_type IsArithmeticOperator].
  destruct (sql_value s row l) as [[[v|]|[[]|]]|], (sql_value s row r) as [[[w|]|[[]|]]|]; simpl;
    (split; [intros E; try discriminate E; done|intros [E1 E2]; try discriminate E1; try discriminate E2; done]).
Qed.

Lemma FlattenAnd_holds s e row : Forall (fun c => holds s c row) (FlattenAnd e []) <-> holds s e row.
Proof.
  induction e as [name|l|op l IHl r IHr|op a IHa|f args star]; try (simpl; by rewrite Forall_singleton).
  destruct op; try (simpl; by rewrite Forall_singleton). cbn [FlattenAnd].
  by rewrite FlattenAnd_acc, Forall_app, IHl, IHr, holds_and.
Qed.

Lemma equalities_hold n raws pairs row :
  tables_typed -> row ∈ cross db (map source scope) -> Forall2 (equality_of (take n scope)) raws pairs ->
  Forall (fun c => comparable c = true) pairs ->
  Forall (fun raw => holds (take n scope) raw row) raws <-> equal_pairs pairs row.
Proof.
  intros Htyped Hrow HF. induction HF as [|raw pair raws pairs Hraw _ IH]; intros Hc; [by split; constructor|]. apply Forall_cons in Hc as [Hc Hcs].
  unfold equal_pairs in *. rewrite !Forall_cons, (IH Hcs), (equality_holds n raw pair row) by done. tauto.
Qed.

Lemma clauses_hold clauses pairs row :
  tables_typed -> row ∈ cross db (map source scope) -> clauses_are scope clauses pairs -> Forall (fun c => comparable c = true) pairs ->
  Forall (holds_in scope row) clauses <-> equal_pairs pairs row.
Proof.
  intros Htyped Hrow Hcl. induction Hcl as [|n e clauses ps pairs Hn Hps _ IH]; intros Hc; [by split; constructor|]. apply Forall_app in Hc as [Hc Hcs].
  unfold equal_pairs in *. rewrite Forall_app, Forall_cons, (IH Hcs), <- (equalities_hold n (FlattenAnd e []) ps row) by done.
  unfold holds_in. simpl. by rewrite FlattenAnd_holds.
Qed.

Lemma Forall_filter_split {A} (P : A -> Prop) (p : A -> bool) xs :
  Forall P xs <-> Forall P (List.filter p xs) /\ Forall P (List.filter (fun x => negb (p x)) xs).
Proof.
  induction xs as [|x xs IH]; simpl; [by rewrite !Forall_nil|]. rewrite Forall_cons, IH. destruct (p x); simpl; rewrite Forall_cons; tauto.
Qed.

(** The conjuncts of WHERE. *)
Definition where_conjuncts (select : SelectNode) : list RawExpression :=
  match where_clause select with None => [] | Some e => FlattenAnd e [] end.

(** The equalities across items are no more than what it takes to connect the items. *)
Definition equalities_used (select : SelectNode) : bool :=
  (length (List.filter (crosses_items scope (from_tables select)) (where_conjuncts select)) <=? length (from_tables select) - 1)%nat.

Lemma from_rows {F} (catalog : Catalog F) select res ps used all :
  tables_typed -> from_bound catalog (from_tables select) (where_conjuncts select) scope res ps used all ->
  joins_ok (result_plan res) = true -> equalities_used select = true ->
  filter (fun row => Forall (fun raw => holds scope raw row) (remaining_where_conjuncts res)) (plan_rows db (result_plan res)) =
    sql_from db scope select.
Proof.
  intros Htyped Hfb Hok Hlim%Nat.leb_le. pose proof (fb_tree _ _ _ _ _ _ _ _ Hfb) as [Hsrc Hids Hbound].
  pose proof (joins_ok_comparable _ Hok) as Hcmp. rewrite (fb_equalities _ _ _ _ _ _ _ _ Hfb), Forall_app in Hcmp. destruct Hcmp as [Hcp Hcu].
  pose proof (fb_crossing _ _ _ _ _ _ _ _ Hfb) as Hcross. pose proof (Forall2_length _ _ _ Hcross) as Hlen.
  pose proof (fb_used _ _ _ _ _ _ _ _ Hfb ltac:(lia)) as Hused. rewrite Hused in Hcu.
  rewrite (join_tree_rows db _ (bound_join_tree _ _ Hbound Hok)), Hsrc, list_filter_filter. unfold sql_from.
  apply filter_ext_in. intros row Hrow. unfold conditions. rewrite Forall_app, (clauses_hold _ ps) by (done || apply Hfb).
  assert (equal_pairs (equalities (result_plan res)) row <-> equal_pairs ps row /\ equal_pairs all row) as ->.
  { unfold equal_pairs. by rewrite (fb_equalities _ _ _ _ _ _ _ _ Hfb), Hused, Forall_app. }
  rewrite (fb_remaining _ _ _ _ _ _ _ _ Hfb). assert (take (length scope) scope = scope) as Hfull by apply firstn_all.
  assert (equal_pairs all row /\ Forall (fun raw => holds scope raw row) (List.filter (fun raw => negb (crosses_items scope (from_tables select) raw)) (where_conjuncts select)) <->
    Forall (fun raw => holds scope raw row) (where_conjuncts select)) as Hw.
  { rewrite (Forall_filter_split (fun raw => holds scope raw row) (crosses_items scope (from_tables select)) (where_conjuncts select)).
    pose proof (equalities_hold (length scope) (List.filter (crosses_items scope (from_tables select)) (where_conjuncts select)) all row Htyped Hrow) as He.
    rewrite Hfull in He. rewrite <- (He Hcross Hcu). tauto. }
  assert (Forall (fun raw => holds scope raw row) (where_conjuncts select) <->
    Forall (holds_in scope row) match where_clause select with Some e => [(length scope, e)] | None => [] end) as <-; [|tauto].
  unfold where_conjuncts. destruct (where_clause select) as [e|]; [|by rewrite !Forall_nil].
  rewrite FlattenAnd_holds, Forall_singleton. unfold holds_in. simpl. by rewrite Hfull.
Qed.

End Rows.

(** ** Well-formed plans *)

Section WellFormed.
Context {F : Type} `{MapOrder} (view : Z -> option (list byte)) (catalog : Catalog F) (db : Z -> list Row).
Context (scope : ResolutionScope) (B : Z).

(** The store holds the tables in scope, whose integers have a magnitude of at most [B]. *)
Definition tables_stored : Prop := forall b, b ∈ scope ->
  GetTableById catalog (tbl_id_ (binding_table b)) = Some (binding_table b) /\
  table_stored view (binding_table b) (db (tbl_id_ (binding_table b))) /\ rows_within B (db (tbl_id_ (binding_table b))).

Context (Hscope : scope_wf scope) (Htables : tables_stored).

Lemma bound_wf_from plan : bound_in scope plan -> joins_ok plan = true -> wf_from view catalog db (scope_column scope) B plan.
Proof.
  induction plan as [id t cols req|i IH e|l IHl r IHr conds|i IH gb aggs cols|i IH es cols]; simpl; try done.
  - intros (b & Hb & [= <- <-] & ->) _. destruct (Htables b Hb) as [Ht Hst].
    assert (forall ord, scope_type scope (binding_id b) ord = map type (tbl_columns_ (binding_table b)) !! Z.to_nat ord) as Hty.
    { intros ord. apply list_elem_of_lookup in Hb as [i Hi]. destruct (sw_bindings _ Hscope i b Hi) as [-> _].
      unfold scope_type. rewrite Nat2Z.id. unfold ResolutionScope in *. rewrite Hi. simpl. rewrite list_lookup_fmap.
      by destruct (_ !! Z.to_nat ord). }
    split.
    + intros ord ty Hc. unfold scope_column in Hc. case_decide; [|done]. rewrite Hty, list_lookup_fmap in Hc. unfold table_output_columns.
      rewrite list_lookup_fmap. destruct (_ !! Z.to_nat ord) as [c|]; [|done]. injection Hc as <-. by eexists.
    + exists (binding_table b). split; [done|]. split; [|done]. intros ord. unfold scope_column. by rewrite Hty.
  - intros (Hl & Hr & Hap & Hin) [[Hol Hor]%andb_true_iff Hc]%andb_true_iff. split_and!; [by apply IHl|by apply IHr|done|].
    rewrite forallb_forall in Hc. rewrite Forall_forall in *. intros c Hcin. destruct (Hin c Hcin) as [Hc1%in_scope_column Hc2%in_scope_column].
    destruct (joinable_spec _ _ _ (Hc c (proj1 (list_elem_of_In _ _) Hcin))) as [Hside [Hty _]%bool_decide_eq_true_1]. split; [|done].
    destruct Hside as [[? ?]|[? ?]]; [left|right]; by split.
Qed.

End WellFormed.
