(* ===== verification/SelectBinding.v ===== *)
(** The binder against the meaning of SELECT: the plan of a query has the rows that [Sql]
    gives the statement, and it is a plan that the optimizer is correct for. *)

From S2P Require Import Prelude Scalar Chunk Rows Expr HashJoin Accumulator Schema Catalog Ast Plan Resolution Coercion Binder FromClause Typing PredicateUtils Queries Pushdown Streams Positions Execution Grouping Optimization Sql Meaning FromMeaning.

(** ** What the engine supports of a bound query *)

#[global] Instance short_dec e : Decision (short e).
Proof. induction e; simpl; apply _. Defined.

(** A predicate: no comparison of truth values, no integer arithmetic that can overflow on integers of magnitude [B],
    string constants below 2 MB, columns compared with constants of their own type. *)
Definition predicate_ok (B : Z) (e : BoundExpression) : bool := operable e && exact B e && bool_decide (short e) && same_typed e.

(** A column of the result; it is not a truth value. *)
Definition output_ok (B : Z) (e : BoundExpression) : bool :=
  operable e && exact B e && bool_decide (short e) && negb (bool_decide (ResultType e = ExprBoolean)).

Definition where_ok (B : Z) (plan : LogicalPlanNode) : bool :=
  match plan with LogicalFilter input e => joins_ok input && predicate_ok B e | _ => joins_ok plan end.

(** HAVING is on the columns of GROUP BY. *)
Definition groups_ok (B : Z) (plan : LogicalPlanNode) : bool :=
  match plan with
  | LogicalAggregate input _ _ _ => where_ok B input
  | LogicalFilter (LogicalAggregate input gb _ _) e =>
      where_ok B input && negb (bool_decide (gb = [])) && ReferencesOnlyGroupByColumns e gb && predicate_ok B e
  | _ => false
  end.

Definition plan_ok (B : Z) (plan : LogicalPlanNode) : bool :=
  match plan with LogicalProjection input exprs _ => (where_ok B input && forallb (output_ok B) exprs) || groups_ok B input | _ => false end.

(** ** WHERE *)

Section Binding.
Context (scope : ResolutionScope) (Hscope : scope_wf scope).

Definition and_chain (c : RawExpression) (cs : list RawExpression) : RawExpression := foldl (RawBinaryOp kAnd) c cs.

Lemma bind_where_spec conjuncts predicate :
  bind_where conjuncts scope = Ok predicate ->
  match conjuncts with
  | [] => predicate = None
  | c :: cs => exists e, predicate = Some e /\ BindScalarExpression (and_chain c cs) scope = Ok e /\ ResultType e = ExprBoolean
  end.
Proof.
  intros HB. unfold bind_where in HB.
  refine (for_each_Ok (fun dn p => match dn with [] => p = None | c :: cs => exists e, p = Some e /\
    BindScalarExpression (and_chain c cs) scope = Ok e /\ ResultType e = ExprBoolean end) _ conjuncts None predicate _ eq_refl HB).
  intros dn raw p p' Hp HS _. apply bind_Ok_inv in HS as (b & Hb & [= <-]). unfold BindPredicate in Hb. apply bind_Ok_inv in Hb as (b' & Hb' & Hb).
  case_bool_decide as Hty; [|done]. injection Hb as ->. destruct dn as [|c cs]; cbn [app].
  - subst p. by exists b.
  - destruct Hp as (e & -> & He & Het). eexists. split; [done|]. split; [|done]. unfold and_chain. rewrite foldl_app. simpl.
    fold (and_chain c cs). by rewrite He, bind_Ok, Hb', bind_Ok, Het, Hty.
Qed.

Lemma and_chain_holds c cs row : holds scope (and_chain c cs) row <-> Forall (fun raw => holds scope raw row) (c :: cs).
Proof.
  unfold and_chain. revert c. induction cs as [|d cs IH]; intros c; simpl; [by rewrite Forall_singleton|].
  rewrite IH, !Forall_cons, holds_and. tauto.
Qed.

(** A bound predicate. *)
Lemma Bind_predicate B raw e : BindScalarExpression raw scope = Ok e -> ResultType e = ExprBoolean -> predicate_ok B e = true ->
  infer_in (scope_column scope) e = Some ExprBoolean /\ exact B e = true /\ short e /\ same_typed e = true.
Proof.
  intros HB <- [[[Ho He]%andb_true_iff Hs%bool_decide_eq_true_1]%andb_true_iff Hst]%andb_true_iff. split_and!; try done.
  by apply (Bind_operable scope Hscope _ raw); [apply in_scope_column|..].
Qed.

Lemma Bind_ids raw e : BindScalarExpression raw scope = Ok e -> Forall (fun ref => ref_table_id ref ∈ map binding_id scope) (CollectColumnRefs e).
Proof. intros HB. eapply Forall_impl; [by eapply (Bind_in_scope scope Hscope)|]. intros ref. by apply in_scope_id. Qed.

Lemma env_passes_holds raw e row : BindScalarExpression raw scope = Ok e -> env_passes e row <-> holds scope raw row.
Proof. intros HB. destruct (Bind_value scope Hscope raw e row HB) as [Hv _]. unfold env_passes, holds. by rewrite Hv. Qed.

Definition filtered (plan : LogicalPlanNode) (predicate : option BoundExpression) : LogicalPlanNode :=
  match predicate with None => plan | Some p => MakeLogicalFilter plan p end.

Lemma filtered_joins B plan predicate : where_ok B (filtered plan predicate) = true -> bound_in scope plan -> joins_ok plan = true.
Proof. destruct predicate; simpl; [by intros [? _]%andb_true_iff|]. by destruct plan. Qed.

Lemma filtered_ids plan predicate : CollectBindingIds (filtered plan predicate) = CollectBindingIds plan.
Proof. by destruct predicate. Qed.

Lemma filtered_rows db plan conjuncts predicate :
  bind_where conjuncts scope = Ok predicate ->
  plan_rows db (filtered plan predicate) = filter (fun row => Forall (fun raw => holds scope raw row) conjuncts) (plan_rows db plan).
Proof.
  intros HB%bind_where_spec. destruct conjuncts as [|c cs].
  - subst. simpl. symmetry. apply filter_all. constructor.
  - destruct HB as (e & -> & He & _). simpl. apply list_filter_iff. intros row.
    by rewrite (env_passes_holds _ _ _ He), and_chain_holds.
Qed.

(** ** The select list *)

(** What an item becomes in a query without groups. *)
Definition items_bind (items : list SelectItem) (es : list BoundExpression) (cs : list OutputColumn) : Prop :=
  Forall (fun e => (exists raw, BindScalarExpression raw scope = Ok e) \/ exists ref, in_scope scope ref /\ e = column_ref_expr ref) es /\
  map display_name cs = concat (map (item_headers scope) items) /\ length cs = length es /\
  forall row, map (fun e => env_value e row) es = concat (map (item_cells scope row) items).

Lemma items_bind_app xs ys es es' cs cs' : items_bind xs es cs -> items_bind ys es' cs' -> items_bind (xs ++ ys) (es ++ es') (cs ++ cs').
Proof.
  intros (Hb & Hn & Hl & Hv) (Hb' & Hn' & Hl' & Hv'). split; [by apply Forall_app_2|]. split; [by rewrite !map_app, concat_app, Hn, Hn'|].
  split; [by rewrite !length_app, Hl, Hl'|]. intros row. by rewrite !map_app, concat_app, Hv, Hv'.
Qed.

Lemma star_spec bs st :
  foldl (fun st binding => project_binding binding st) st bs =
    (st.1 ++ map (fun c => column_ref_expr c.1) (star_columns bs),
     st.2 ++ map (fun c => mk_output c.2 (ToExpressionType (ref_type c.1))) (star_columns bs)).
Proof.
  revert st. induction bs as [|b bs IH]; intros st; simpl; [rewrite !app_nil_r; by destruct st|]. rewrite IH. unfold star_columns. simpl.
  assert (project_binding b st = (st.1 ++ map (fun c => column_ref_expr (bound_column b c)) (tbl_columns_ (binding_table b)),
    st.2 ++ map (fun c => mk_output (name c) (ToExpressionType (type c))) (tbl_columns_ (binding_table b)))) as ->.
  { unfold project_binding. generalize (tbl_columns_ (binding_table b)) as cols. intros cols. revert st.
    induction cols as [|c cols IHc]; intros st; simpl; [rewrite !app_nil_r; by destruct st|]. rewrite IHc. simpl. by rewrite <- !app_assoc. }
  simpl. by rewrite !map_app, !map_map, !app_assoc.
Qed.

Lemma star_in_scope ref n : (ref, n) ∈ star_columns scope -> in_scope scope ref.
Proof.
  unfold star_columns. rewrite list_elem_of_In, in_concat. intros (cs & (b & <- & Hb)%in_map_iff & (col & [= <- <-] & Hcol)%in_map_iff).
  apply list_elem_of_In, list_elem_of_lookup in Hb as [i Hi]. apply list_elem_of_In, list_elem_of_lookup in Hcol as [j Hj].
  destruct (sw_bindings _ Hscope i b Hi) as [Hid [_ Hord]]. pose proof (Hord j col Hj) as Ho. unfold in_scope, bound_column. simpl.
  split; [exists i; split; [by eapply lookup_lt_Some|done]|]. split; [|lia]. unfold scope_type. rewrite Hid, Ho, !Nat2Z.id.
  unfold ResolutionScope in *. rewrite Hi. simpl. by rewrite Hj.
Qed.

Lemma project_item_spec item st st' :
  project_item scope item st = Ok st' -> exists es cs, st' = (st.1 ++ es, st.2 ++ cs) /\ items_bind [item] es cs.
Proof.
  unfold project_item, items_bind. cbn [map concat]. setoid_rewrite app_nil_r. unfold item_headers, item_cells. destruct (is_wildcard item).
  - intros [= <-]. rewrite star_spec. eexists _, _. split; [done|]. split_and!.
    + apply Forall_map, Forall_forall. intros [ref n] Hin. right. exists ref. split; [by eapply star_in_scope|done].
    + by rewrite map_map.
    + by rewrite !length_map.
    + intros row. by rewrite map_map.
  - intros (e & He & HB)%bind_Ok_inv. apply bind_Ok_inv in HB as (b & Hb & [= <-]). unfold item_expression in He.
    destruct (expression item) as [e'|]; [|done]. injection He as ->. eexists _, _. split; [done|]. split_and!; [| |done|].
    + constructor; [|constructor]. left. by exists e.
    + simpl. by destruct e.
    + intros row. simpl. unfold sql_cell. destruct (Bind_value scope Hscope e b row Hb) as [-> _]. done.
Qed.

Lemma project_items_spec items exprs columns :
  for_each items (project_item scope) ([], []) = Ok (exprs, columns) -> items_bind items exprs columns.
Proof.
  intros HB. refine (for_each_Ok (fun dn st => items_bind dn st.1 st.2) _ items ([], []) (exprs, columns) _ _ HB).
  - intros dn item st st' Hst HS _. apply project_item_spec in HS as (es & cs & -> & Hi). by apply items_bind_app.
  - by split_and!.
Qed.

(** A column of the result. *)
Lemma output_selected B e :
  (exists raw, BindScalarExpression raw scope = Ok e) \/ (exists ref, in_scope scope ref /\ e = column_ref_expr ref) -> output_ok B e = true ->
  exists ty, wf_selected (scope_column scope) B (map binding_id scope) e ty.
Proof.
  intros Hb [[[Ho He]%andb_true_iff Hs%bool_decide_eq_true_1]%andb_true_iff Hty%negb_true_iff]%andb_true_iff. apply bool_decide_eq_false_1 in Hty.
  assert (exists ty, ResultType e = ToExpressionType ty) as [ty Ht].
  { destruct (ResultType e); [by exists kInteger|by exists kFloat|by exists kVarchar|done]. }
  exists ty. destruct Hb as [[raw Hb]|(ref & Hr & ->)].
  - split_and!; [|by eapply Bind_ids|done..]. rewrite <- Ht. by apply (Bind_operable scope Hscope _ raw); [apply in_scope_column|..].
  - pose proof (in_scope_column _ _ Hr) as Hc. unfold column_ref_expr, MakeColumnRef in *. simpl in Ht. split_and!; try done.
    + simpl. rewrite Hc, decide_True by done. by rewrite Ht.
    + unfold CollectColumnRefs. simpl. rewrite Forall_singleton. by apply in_scope_id.
Qed.

End Binding.
