(* ===== verification/GroupBinding.v ===== *)
(** GROUP BY, aggregates and HAVING: what the binder makes of them. *)

From S2P Require Import Prelude Scalar Chunk Rows Expr HashJoin Accumulator Aggregate Schema Catalog Ast Plan Resolution Coercion Binder FromClause Typing PredicateUtils Queries Pushdown Streams Positions Execution Grouping Optimization Sql Meaning FromMeaning SelectBinding.

(** ** The calls of a select list *)

Definition call_of (item : SelectItem) : option (string * list RawExpression * bool) :=
  if is_wildcard item then None
  else match expression item with Some (RawFunctionCall name args star) => Some (name, args, star) | _ => None end.

Lemma is_call_spec item : is_call item = bool_decide (is_Some (call_of item)).
Proof. unfold is_call, call_of. destruct (is_wildcard item); destruct (expression item) as [[]|]; done. Qed.

(** The calls among items numbered from [i]. *)
Fixpoint calls_from (i : nat) (items : list SelectItem) : list AggregateItem :=
  match items with
  | [] => []
  | item :: items =>
      match call_of item with
      | Some (name, args, star) => mk_item i name args star :: calls_from (S i) items
      | None => calls_from (S i) items
      end
  end.

Lemma calls_from_app i xs ys : calls_from i (xs ++ ys) = calls_from i xs ++ calls_from (i + length xs) ys.
Proof.
  revert i. induction xs as [|x xs IH]; intros i; simpl; [by rewrite Nat.add_0_r|]. rewrite IH, Nat.add_succ_r.
  by destruct (call_of x) as [[[? ?] ?]|].
Qed.

Lemma calls_from_index i items ai : ai ∈ calls_from i items -> (i <= item_index ai)%nat.
Proof.
  revert i. induction items as [|item items IH]; intros i; simpl; [by intros ?%elem_of_nil|].
  destruct (call_of item) as [[[name args] star]|]; [intros [->|Hin]%elem_of_cons; [done|]|intros Hin]; apply IH in Hin; lia.
Qed.

Lemma is_aggregate_item_spec i items j item :
  items !! j = Some item -> is_aggregate_item (calls_from i items) (i + j) = bool_decide (is_Some (call_of item)).
Proof.
  unfold is_aggregate_item. revert i j. induction items as [|x items IH]; intros i [|j]; try done; simpl.
  - intros [= ->]. rewrite Nat.add_0_r. destruct (call_of item) as [[[name args] star]|]; simpl; [by rewrite Nat.eqb_refl|].
    apply not_true_is_false. intros (ai & Hin%list_elem_of_In%calls_from_index & E%Nat.eqb_eq)%existsb_exists. lia.
  - intros Hj. rewrite <- (IH (S i) j Hj), Nat.add_succ_r. destruct (call_of x) as [[[name args] star]|]; simpl; [|done].
    by destruct (Nat.eqb_spec i (S (i + j))); [lia|].
Qed.

Lemma call_index i items j item name args star :
  items !! j = Some item -> call_of item = Some (name, args, star) ->
  calls_from i items !! length (calls_from i (take j items)) = Some (mk_item (i + j) name args star).
Proof.
  intros Hj Hc. assert (calls_from i items = calls_from i (take j items) ++ calls_from (i + j) (item :: drop (S j) items)) as ->.
  { rewrite <- (take_drop_middle items j item Hj) at 1. rewrite calls_from_app, length_take, Nat.min_l; [done|].
    apply lookup_lt_Some in Hj. lia. }
  cbn [calls_from]. rewrite Hc. by apply list_lookup_middle.
Qed.

Lemma collect_aggregate_items_spec items ais : collect_aggregate_items items = Ok ais -> ais = calls_from 0 items.
Proof.
  intros HC. unfold collect_aggregate_items in HC.
  apply (for_range_Ok (fun n found => found = calls_from 0 (take n items))) in HC; [by rewrite Nat.add_0_l, firstn_all in HC| |done].
  intros i found found' Hi -> HS. apply bind_Ok_inv in HS as (item & Hitem%vec_get_Ok & HS).
  rewrite (take_S_r _ _ _ Hitem), calls_from_app, length_take, Nat.min_l by (apply lookup_lt_Some in Hitem; lia). cbn [calls_from Nat.add].
  unfold call_of. destruct (is_wildcard item); [injection HS as <-; by rewrite app_nil_r|]. unfold item_expression in HS.
  apply bind_Ok_inv in HS as (e & He & HS). destruct (expression item) as [e'|]; [|done]. injection He as ->.
  destruct e; injection HS as <-; by rewrite ?app_nil_r.
Qed.

Lemma calls_none items : existsb is_call items = negb (bool_decide (calls_from 0 items = [])).
Proof.
  generalize 0%nat as i. induction items as [|item items IH]; intros i; simpl; [done|]. rewrite is_call_spec.
  destruct (call_of item) as [[[name args] star]|]; simpl; [done|apply IH].
Qed.

Lemma calls_length i items : (length (calls_from i items) <= length items)%nat.
Proof.
  revert i. induction items as [|item items IH]; intros i; simpl; [lia|]. specialize (IH (S i)).
  destruct (call_of item) as [[[? ?] ?]|]; simpl; lia.
Qed.

Section Groups.
Context (scope : ResolutionScope) (Hscope : scope_wf scope).

(** ** The parts of an aggregation *)

Lemma bind_group_by_spec exprs refs names :
  bind_group_by exprs scope = Ok (refs, names) ->
  Forall2 (fun e ref => exists name, e = RawColumnRef name /\ Resolve scope name = Ok ref) exprs refs.
Proof.
  intros HB. refine (for_each_Ok (fun dn st => Forall2 (fun e ref => exists name, e = RawColumnRef name /\ Resolve scope name = Ok ref) dn st.1)
    _ exprs ([], []) (refs, names) _ _ HB); [|constructor].
  intros dn e st st' Hst HS _. destruct e as [name| | | |]; try done. apply bind_Ok_inv in HS as (ref & Hr & [= <-]). simpl.
  apply Forall2_app; [done|]. constructor; [|constructor]. by exists name.
Qed.

Lemma group_columns_spec select refs names :
  bind_group_by (group_by_exprs select) scope = Ok (refs, names) -> group_columns scope select = refs /\ Forall (in_scope scope) refs.
Proof.
  intros HF%bind_group_by_spec. unfold group_columns. induction HF as [|e ref es refs (name & -> & Hr) _ [IH1 IH2]]; [by split|].
  destruct (Resolve_in_scope scope Hscope _ _ Hr) as [Hc Hin]. unfold omap in *. simpl. rewrite Hc, IH1. split; [done|by constructor].
Qed.

Lemma aggregate_kind_spec name ty kind :
  aggregate_kind name ty = Ok kind -> function_kind name = Some kind /\ kind <> kCountStar /\ (kind = kSum \/ kind = kAvg -> ty <> kVarchar).
Proof.
  unfold aggregate_kind, function_kind. destruct (name =? "count")%string; [intros [= <-]; split_and!; try done; by intros [|]|].
  destruct (name =? "sum")%string; [case_bool_decide; intros [= <-]; by split_and!|].
  destruct (name =? "avg")%string; [case_bool_decide; intros [= <-]; by split_and!|].
  destruct (name =? "min")%string; [intros [= <-]; split_and!; try done; by intros [|]|].
  destruct (name =? "max")%string; [intros [= <-]; split_and!; try done; by intros [|]|done].
Qed.

Lemma BindAggregateCall_spec name args star call :
  BindAggregateCall name args star scope = Ok call ->
  sql_call scope name args star = Some call /\ wf_call (scope_column scope) (map binding_id scope) call.
Proof.
  unfold BindAggregateCall, sql_call, wf_call. destruct ((lower name =? "count")%string && star); [by intros [= <-]|].
  destruct args as [|[column| | | |] [|? ?]]; try done. intros (ref & Hr & HB)%bind_Ok_inv. apply bind_Ok_inv in HB as (kind & Hk & [= <-]).
  destruct (Resolve_in_scope scope Hscope _ _ Hr) as [-> Hin]. destruct (aggregate_kind_spec _ _ _ Hk) as (Hf & _ & Hty). simpl. rewrite Hf.
  split; [done|]. split; [|done]. split; [by apply in_scope_id|by apply in_scope_column].
Qed.

Lemma bind_aggregates_spec ais columns aggs columns' :
  bind_aggregates ais scope columns = Ok (aggs, columns') ->
  Forall2 (fun ai agg => BindAggregateCall (item_name ai) (item_args ai) (item_star ai) scope = Ok agg) ais aggs.
Proof.
  intros HB. refine (for_each_Ok (fun dn st => Forall2 (fun ai agg => BindAggregateCall (item_name ai) (item_args ai) (item_star ai) scope = Ok agg) dn st.1)
    _ ais ([], columns) (aggs, columns') _ _ HB); [|constructor].
  intros dn ai st st' Hst HS _. apply bind_Ok_inv in HS as (agg & Hagg & HS). apply bind_Ok_inv in HS as (ty & _ & [= <-]). simpl.
  apply Forall2_app; [done|]. by repeat constructor.
Qed.

(** An item that is not a call names grouping columns only. *)
Lemma check_grouped_spec items gb j item name :
  check_grouped items (calls_from 0 items) gb scope = Ok tt -> items !! j = Some item -> call_of item = None ->
  expression item = Some (RawColumnRef name) -> exists ref, Resolve scope name = Ok ref /\ ContainsColumn gb ref = true.
Proof.
  intros HC Hj Hcall He. unfold check_grouped in HC.
  assert (forall i, (i < length items)%nat -> forall item, items !! i = Some item -> call_of item = None ->
    expression item = Some (RawColumnRef name) -> exists ref, Resolve scope name = Ok ref /\ ContainsColumn gb ref = true) as Hall.
  { refine (for_range_Ok (fun n _ => forall i, (i < n)%nat -> forall item, items !! i = Some item -> call_of item = None ->
      expression item = Some (RawColumnRef name) -> exists ref, Resolve scope name = Ok ref /\ ContainsColumn gb ref = true) _ 0 (length items) tt tt _ _ HC);
      [|intros i Hi; lia].
    intros n [] [] _ IH HS i Hi x Hx Hcx Hex. destruct (decide (i = n)) as [->|Hne]; [|by apply (IH i ltac:(lia) x)].
    rewrite (is_aggregate_item_spec 0 items n x Hx : is_aggregate_item (calls_from 0 items) n = _), Hcx in HS. simpl in HS.
    rewrite (proj2 (vec_get_Ok _ _ _) Hx), bind_Ok in HS. unfold item_expression in HS. rewrite Hex, bind_Ok in HS. simpl in HS.
    apply bind_Ok_inv in HS as (b & Hb & HS). apply bind_Ok_inv in Hb as (ref & Hr & [= <-]). exists ref. split; [done|].
    unfold column_ref_expr, MakeColumnRef in HS. simpl in HS. destruct ref. simpl in *. by destruct (ContainsColumn _ _). }
  apply (Hall j (lookup_lt_Some _ _ _ Hj) item Hj Hcall He).
Qed.

Lemma position_of_spec gb ref : ContainsColumn gb ref = true ->
  exists key, gb !! position_of gb ref = Some key /\ same_column key ref = true /\ (position_of gb ref < length gb)%nat.
Proof.
  unfold ContainsColumn, position_of. intros (key & Hin%list_elem_of_In & Hs)%existsb_exists.
  destruct (list_find (fun key => same_column key ref = true) gb) as [[i x]|] eqn:Hf.
  - apply list_find_Some in Hf as (Hi & Hx & _). exists x. split_and!; [done|done|by eapply lookup_lt_Some].
  - apply list_find_None in Hf. rewrite Forall_forall in Hf. by destruct (Hf key Hin).
Qed.

(** ** Cells of a group *)

Lemma group_output_cell gb aggs rows key j v ty :
  (key ++ map (call_value (rows_with_key gb key rows)) aggs) !! j = Some v ->
  ref_cell (group_env gb aggs rows key) (mk_ref kAggregateOutputBindingId (Z.of_nat j) ty) = v.
Proof.
  intros Hj. unfold ref_cell, env_cell, group_env. cbn. erewrite lookup_union_Some_l; [done|]. apply env_row_lookup.
  split_and!; [done|lia|by rewrite Nat2Z.id].
Qed.

Lemma key_env_position gb key ref v :
  length key = length gb -> ContainsColumn gb ref = true -> key !! position_of gb ref = Some v -> ref_cell (key_env gb key) ref = v.
Proof.
  revert key. induction gb as [|g gb IH]; intros [|k key] Hlen; try done. unfold ContainsColumn, position_of in *. cbn [existsb list_find].
  injection Hlen as Hlen. change (key_env (g :: gb) (k :: key)) with (<[(ref_table_id g, ref_ordinal g) := k]> (key_env gb key)).
  unfold ref_cell, env_cell in *.
  destruct (decide (same_column g ref = true)) as [Hs|Hs].
  - intros _ [= <-]. unfold same_column in Hs. apply andb_true_iff in Hs as [<-%Z.eqb_eq <-%Z.eqb_eq]. by rewrite lookup_insert_eq.
  - apply not_true_is_false in Hs. rewrite Hs. simpl. intros Hc Hv. rewrite lookup_insert_ne.
    + apply (IH key Hlen Hc). by destruct (list_find _ gb) as [[i x]|].
    + intros [= E1 E2]. unfold same_column in Hs. by rewrite E1, E2, !Z.eqb_refl in Hs.
Qed.

(** ** The select list over groups *)

(** An item, its expression and its column: a reference to an output column of the
    aggregation, which has the item's value in every group. *)
Definition group_item_binds (gb : list ColumnRef) (aggs : list AggregateCall) (item : SelectItem) (e : BoundExpression) (c : OutputColumn) : Prop :=
  item_headers scope item = [display_name c] /\
  exists j ref, ref = mk_ref kAggregateOutputBindingId (Z.of_nat j) (ref_type ref) /\ e = column_ref_expr ref /\
    (map ref_type gb ++ map (fun call => Accumulator.output_type (call_spec None call)) aggs) !! j = Some (ref_type ref) /\
    forall key rows, length key = length gb ->
      (key ++ map (call_value rows) aggs) !! j = Some (group_cell scope gb key rows item).

(** The output type the binder gives a call is the accumulator's. *)
Lemma AggregateOutputTypeId_spec call ty :
  wf_call (scope_column scope) (map binding_id scope) call ->
  AggregateOutputTypeId (Plan.function call) (ref_type <$> Plan.argument call) = Ok ty -> Accumulator.output_type (call_spec None call) = ty.
Proof.
  unfold wf_call, AggregateOutputTypeId, call_spec, Accumulator.output_type. destruct call as [f [ref|]]; simpl.
  - intros _. by destruct f; intros [= <-].
  - intros ->. by intros [= <-].
Qed.

Section Project.
Context (select : SelectNode) (gb : list ColumnRef) (aggs : list AggregateCall).
#[local] Abbreviation items := (select_list select).
Hypothesis Hplain : existsb is_wildcard items = false.
Hypothesis Hgb : Forall (in_scope scope) gb.
Hypothesis Haggs : Forall2 (fun ai agg => BindAggregateCall (item_name ai) (item_args ai) (item_star ai) scope = Ok agg) (calls_from 0 items) aggs.
Hypothesis Hgrouped : check_grouped items (calls_from 0 items) gb scope = Ok tt.
Hypothesis Hsmall : Z.of_nat (length gb + length aggs) < 2 ^ 32.

Lemma item_not_wildcard j item : items !! j = Some item -> is_wildcard item = false.
Proof.
  intros Hj. apply not_true_is_false. intros Hw. assert (existsb is_wildcard items = true) as Ht; [|by rewrite Hplain in Ht].
  apply existsb_exists. exists item. split; [|done]. apply list_elem_of_In. by eapply list_elem_of_lookup_2.
Qed.

(** A call. *)
Lemma project_call j item name args star st st' :
  items !! j = Some item -> call_of item = Some (name, args, star) -> st.2 = length (calls_from 0 (take j items)) ->
  project_aggregate_item select (calls_from 0 items) gb aggs scope j st = Ok st' ->
  exists e c, st' = (st.1.1 ++ [e], st.1.2 ++ [c], S st.2) /\ group_item_binds gb aggs item e c.
Proof.
  intros Hj Hc Hn HS. unfold project_aggregate_item in HS. destruct st as [[exprs columns] next]. cbn [fst snd] in *.
  rewrite (is_aggregate_item_spec 0 items j item Hj : is_aggregate_item _ j = _), Hc in HS. cbn in HS.
  apply bind_Ok_inv in HS as (agg & Hagg%vec_get_Ok & HS). apply bind_Ok_inv in HS as (ty & Hty & HS).
  apply bind_Ok_inv in HS as (ai & Hai%vec_get_Ok & [= <-]). rewrite Hn, (call_index 0 items j item name args star Hj Hc) in Hai. injection Hai as <-.
  pose proof Hagg as HB. rewrite Hn in HB.
  pose proof (Forall2_lookup_lr _ _ _ _ _ _ Haggs (call_index 0 items j item name args star Hj Hc) HB) as HB'. clear HB. rename HB' into HB.
  cbn [item_name item_args item_star] in HB. destruct (BindAggregateCall_spec name args star agg HB) as [Hcall Hwf].
  pose proof (item_not_wildcard j item Hj) as Hw. unfold call_of in Hc. rewrite Hw in Hc.
  destruct (expression item) as [[| | | |name' args' star']|] eqn:He; try done. injection Hc as -> -> ->.
  pose proof (lookup_lt_Some _ _ _ Hagg) as Hlt. rewrite u32_id by (unfold is_u32; lia).
  eexists _, _. split; [done|]. split; [unfold item_headers; by rewrite Hw, He|].
  exists (length gb + next)%nat, (mk_ref kAggregateOutputBindingId (Z.of_nat (length gb + next)) ty). split_and!; [done..| |].
  - rewrite lookup_app_r, length_map, Nat.add_sub', list_lookup_fmap, Hagg by (rewrite length_map; lia). simpl. f_equal.
    by apply AggregateOutputTypeId_spec.
  - intros key rows Hkey. rewrite lookup_app_r, Hkey, Nat.add_sub', list_lookup_fmap, Hagg by lia. simpl. f_equal.
    unfold group_cell. rewrite He, Hcall. done.
Qed.

(** A grouping column. *)
Lemma project_column j item st st' :
  items !! j = Some item -> call_of item = None ->
  project_aggregate_item select (calls_from 0 items) gb aggs scope j st = Ok st' ->
  exists e c, st' = (st.1.1 ++ [e], st.1.2 ++ [c], st.2) /\ group_item_binds gb aggs item e c.
Proof.
  intros Hj Hc HS. unfold project_aggregate_item in HS. destruct st as [[exprs columns] next]. cbn [fst snd] in *.
  rewrite (is_aggregate_item_spec 0 items j item Hj : is_aggregate_item _ j = _), Hc in HS. cbn in HS.
  rewrite (proj2 (vec_get_Ok _ _ _) Hj), bind_Ok in HS. pose proof (item_not_wildcard j item Hj) as Hw.
  apply bind_Ok_inv in HS as (e & He & HS). unfold item_expression in He. destruct (expression item) as [e'|] eqn:Hexpr; [|done]. injection He as ->.
  destruct e as [name| | | |]; try done. apply bind_Ok_inv in HS as (ref & Hr & [= <-]).
  destruct (check_grouped_spec items gb j item name Hgrouped Hj Hc Hexpr) as (ref' & Hr' & Hcontains). rewrite Hr in Hr'. injection Hr' as <-.
  destruct (position_of_spec gb ref Hcontains) as (key & Hkey & Hsame & Hlt). rewrite u32_id by (unfold is_u32; lia).
  destruct (Resolve_in_scope scope Hscope _ _ Hr) as [Hcol (_ & Hty & _)].
  eexists _, _. split; [done|]. split; [unfold item_headers; by rewrite Hw, Hexpr|].
  exists (position_of gb ref), (mk_ref kAggregateOutputBindingId (Z.of_nat (position_of gb ref)) (ref_type ref)). split_and!; [done..| |].
  - rewrite lookup_app_l, list_lookup_fmap, Hkey by (rewrite length_map; lia). simpl. f_equal.
    pose proof (Forall_lookup_1 _ _ _ _ Hgb Hkey) as (_ & Hkty & _). unfold same_column in Hsame.
    apply andb_true_iff in Hsame as [E1%Z.eqb_eq E2%Z.eqb_eq]. rewrite E1, E2 in Hkty. congruence.
  - intros k rows Hk. destruct (lookup_lt_is_Some_2 k (position_of gb ref)) as [v Hv]; [lia|]. rewrite lookup_app_l, Hv by lia. f_equal.
    unfold group_cell. rewrite Hexpr, Hcol. simpl. symmetry. by apply key_env_position.
Qed.

Lemma project_groups_spec exprs columns next :
  for_range 0 (length items) (project_aggregate_item select (calls_from 0 items) gb aggs scope) ([], [], 0%nat) = Ok (exprs, columns, next) ->
  length columns = length exprs /\ Forall2 (fun item ec => group_item_binds gb aggs item ec.1 ec.2) items (zip exprs columns).
Proof.
  intros HB. apply (for_range_Ok (fun n st => st.2 = length (calls_from 0 (take n items)) /\ length st.1.2 = length st.1.1 /\
    Forall2 (fun item ec => group_item_binds gb aggs item ec.1 ec.2) (take n items) (zip st.1.1 st.1.2))) in HB;
    [rewrite Nat.add_0_l, firstn_all in HB; by destruct HB| |by split_and!].
  intros j st st' Hj (Hn & Hl & HF) HS. destruct (lookup_lt_is_Some_2 items j) as [item Hitem]; [lia|].
  rewrite (take_S_r _ _ _ Hitem), calls_from_app, length_app, length_take, Nat.min_l by lia. cbn [calls_from Nat.add].
  assert (exists e c next', st' = (st.1.1 ++ [e], st.1.2 ++ [c], next') /\ group_item_binds gb aggs item e c /\
    next' = (st.2 + match call_of item with Some _ => 1 | None => 0 end)%nat) as (e & c & next' & -> & Hb & ->).
  { destruct (call_of item) as [[[name args] star]|] eqn:Hc.
    - destruct (project_call j item name args star st st' Hitem Hc Hn HS) as (e & c & -> & Hb). exists e, c, (S st.2). split_and!; [done..|lia].
    - destruct (project_column j item st st' Hitem Hc HS) as (e & c & -> & Hb). exists e, c, st.2. split_and!; [done..|lia]. }
  cbn [fst snd]. split_and!.
  - rewrite Hn. by destruct (call_of item) as [[[? ?] ?]|].
  - rewrite !length_app. simpl. lia.
  - rewrite zip_with_app by done. apply Forall2_app; [done|]. constructor; [exact Hb|constructor].
Qed.

End Project.

End Groups.
