(* ===== verification/SelectMeaning.v ===== *)
(** SELECT end to end in the binder: the plan that [BindSelect] returns for a statement has the
    rows and the headers of [Sql], and the optimizer's theorem applies to it. *)

From S2P Require Import Prelude Scalar Chunk Rows Expr Operators HashJoin Accumulator Aggregate Disk Schema Catalog Ast Plan Resolution Coercion Binder FromClause Typing PredicateUtils Queries Pushdown Streams Positions Execution Grouping Optimization Sql Meaning FromMeaning SelectBinding GroupBinding.

(** ** Groups *)

Section Groups.
Context (scope : ResolutionScope) (Hscope : scope_wf scope) (Hfew : Z.of_nat (length scope) < 2 ^ 32).

Lemma in_scope_not_output ref : in_scope scope ref -> ref_table_id ref <> kAggregateOutputBindingId.
Proof. intros ((i & Hi & ->) & _). unfold kAggregateOutputBindingId. lia. Qed.

(** What [bind_aggregation] builds. *)
Record aggregation_bound (select : SelectNode) (plan plan' : LogicalPlanNode) (gb : list ColumnRef) (aggs : list AggregateCall) : Prop := {
  ab_plain : existsb is_wildcard (select_list select) = false;
  ab_keys : group_columns scope select = gb;
  ab_scope : Forall (in_scope scope) gb;
  ab_length : length gb = length (group_by_exprs select);
  ab_calls : Forall2 (fun ai agg => BindAggregateCall (item_name ai) (item_args ai) (item_star ai) scope = Ok agg) (calls_from 0 (select_list select)) aggs;
  ab_grouped : check_grouped (select_list select) (calls_from 0 (select_list select)) gb scope = Ok tt;
  ab_plan : exists cols, match having_clause select with
    | None => plan' = LogicalAggregate plan gb aggs cols
    | Some having => exists p, BindScalarExpression having scope = Ok p /\ ResultType p = ExprBoolean /\ plan' = LogicalFilter (LogicalAggregate plan gb aggs cols) p
    end;
}.

Lemma bind_aggregation_bound select plan plan' gb aggs :
  bind_aggregation select (calls_from 0 (select_list select)) scope plan = Ok (plan', gb, aggs) -> aggregation_bound select plan plan' gb aggs.
Proof.
  unfold bind_aggregation. destruct (existsb is_wildcard (select_list select)) eqn:Hw; [by rewrite orb_true_r|].
  case_bool_decide; [done|]. cbn [orb]. intros ([gb' names] & Hgb & HB)%bind_Ok_inv. apply bind_Ok_inv in HB as ([aggs' cols] & Haggs & HB).
  apply bind_Ok_inv in HB as ([] & Hcheck & HB). destruct (group_columns_spec scope Hscope select gb' names Hgb) as [Hkeys Hin].
  pose proof (Forall2_length _ _ _ (bind_group_by_spec scope _ _ _ Hgb)) as Hlen. apply bind_aggregates_spec in Haggs.
  destruct (having_clause select) as [having|] eqn:Hh.
  - apply bind_Ok_inv in HB as (p & Hp & [= <- <- <-]). unfold BindPredicate in Hp. apply bind_Ok_inv in Hp as (p' & Hp' & Hp).
    case_bool_decide; [|done]. injection Hp as ->. split; try done. exists cols. rewrite Hh. by exists p.
  - injection HB as <- <- <-. split; try done. exists cols. by rewrite Hh.
Qed.

Lemma in_key_in_scope gb ref : Forall (in_scope scope) gb -> in_key gb ref -> ref_table_id ref <> kAggregateOutputBindingId.
Proof. intros Hgb (key & Hin & <- & _). rewrite Forall_forall in Hgb. by apply in_scope_not_output, Hgb. Qed.

(** HAVING over the groups. *)
Lemma having_group having p gb aggs rows key :
  BindScalarExpression having scope = Ok p -> Forall (in_scope scope) gb -> ReferencesOnlyGroupByColumns p gb = true ->
  env_passes p (group_env gb aggs rows key) <-> holds scope having (key_env gb key).
Proof.
  intros HB Hgb Hrefs%ReferencesOnlyGroupByColumns_spec. rewrite <- (env_passes_holds scope Hscope _ _ _ HB). unfold env_passes.
  rewrite (env_eval_agree p _ (key_env gb key)); [done|]. eapply Forall_impl; [exact Hrefs|]. intros ref Hr. apply group_env_cell.
  by eapply in_key_in_scope.
Qed.

Lemma groups_rows B db select plan plan' gb aggs :
  aggregation_bound select plan plan' gb aggs -> groups_ok B plan' = true ->
  plan_rows db plan' = map (group_env gb aggs (plan_rows db plan)) (filter (passes_having scope select gb) (group_keys gb (plan_rows db plan))).
Proof.
  intros Hab Hok. destruct (ab_plan _ _ _ _ _ Hab) as [cols Hp]. destruct (having_clause select) as [having|] eqn:Hh.
  - destruct Hp as (p & HB & _ & ->). cbn [groups_ok] in Hok. apply andb_true_iff in Hok as [[[_ _]%andb_true_iff Hrefs]%andb_true_iff _].
    cbn [plan_rows]. rewrite filter_map. f_equal. apply list_filter_iff. intros key. unfold passes_having. rewrite Hh. apply having_group; [done|by eapply ab_scope|done].
  - subst plan'. cbn [plan_rows]. f_equal. symmetry. apply filter_all. intros key _. unfold passes_having. by rewrite Hh.
Qed.

(** The select list over a group. *)
Lemma group_cells select gb aggs exprs columns rows key :
  Forall2 (fun item ec => group_item_binds scope gb aggs item ec.1 ec.2) (select_list select) (zip exprs columns) -> length columns = length exprs ->
  length key = length gb ->
  map (fun e => env_value e (group_env gb aggs rows key)) exprs = map (group_cell scope gb key (rows_with_key gb key rows)) (select_list select).
Proof.
  intros HF Hlen Hkey. revert exprs columns HF Hlen. generalize (select_list select) as items.
  induction items as [|item items IH]; intros [|e exprs] [|c columns] HF Hlen; try done; try by inversion HF.
  cbn [zip_with] in HF. apply Forall2_cons_1 in HF as [Hi HF]. injection Hlen as Hlen. simpl. rewrite (IH exprs columns HF Hlen). f_equal.
  destruct Hi as (_ & j & ref & Href & He & _ & Hv). cbn [fst snd] in *. rewrite He.
  specialize (Hv key (rows_with_key gb key rows) Hkey).
  assert (env_value (column_ref_expr ref) (group_env gb aggs rows key) = ref_cell (group_env gb aggs rows key) ref) as -> by done.
  rewrite Href. by apply group_output_cell.
Qed.

Lemma group_headers select gb aggs exprs columns :
  Forall2 (fun item ec => group_item_binds scope gb aggs item ec.1 ec.2) (select_list select) (zip exprs columns) -> length columns = length exprs ->
  map display_name columns = sql_headers scope select.
Proof.
  intros HF Hlen. unfold sql_headers. revert exprs columns HF Hlen. generalize (select_list select) as items.
  induction items as [|item items IH]; intros [|e exprs] [|c columns] HF Hlen; try done; try by inversion HF.
  cbn [zip_with] in HF. apply Forall2_cons_1 in HF as [[Hh _] HF]. injection Hlen as Hlen. simpl. rewrite (IH exprs columns HF Hlen).
  by rewrite Hh.
Qed.

(** ** Well-formed groups *)

Section WellFormed.
Context {F : Type} `{MapOrder} (view : Z -> option (list byte)) (catalog : Catalog F) (db : Z -> list Row) (B : Z).

Lemma groups_wf select plan plan' gb aggs exprs columns :
  aggregation_bound select plan plan' gb aggs -> groups_ok B plan' = true ->
  Forall2 (fun item ec => group_item_binds scope gb aggs item ec.1 ec.2) (select_list select) (zip exprs columns) -> length columns = length exprs ->
  CollectBindingIds plan = map binding_id scope -> (where_ok B plan = true -> wf_from view catalog db (scope_column scope) B plan) ->
  wf_query view catalog db (scope_column scope) B plan' exprs.
Proof.
  intros Hab Hok HF Hlen Hids Hfrom. pose proof (ab_scope _ _ _ _ _ Hab) as Hgb. destruct (ab_plan _ _ _ _ _ Hab) as [cols Hp]. right.
  assert (where_ok B plan = true -> wf_group view catalog db (scope_column scope) B (LogicalAggregate plan gb aggs cols)) as Hagg.
  { intros Hw. cbn [wf_group]. rewrite Hids. split_and!; [by apply Hfrom| | |].
    - eapply Forall_impl; [exact Hgb|]. intros ref Hr. split; [by apply in_scope_id|by apply in_scope_column].
    - eapply Forall_impl; [exact Hgb|]. apply in_scope_not_output.
    - eapply Forall2_right; [|exact (ab_calls _ _ _ _ _ Hab)]. intros ai agg HB. by apply (BindAggregateCall_spec scope Hscope _ _ _ _ HB). }
  assert (Forall (fun e => exists ref, ref ∈ Positions.columns (scope_column scope) (LogicalAggregate plan gb aggs cols) /\
    e = BoundColumnRef (ref_table_id ref) (ref_ordinal ref) (ref_type ref)) exprs) as Hexprs.
  { apply Forall_lookup. intros k e He. destruct (lookup_lt_is_Some_2 columns k) as [c Hc]; [rewrite Hlen; by eapply lookup_lt_Some|].
    assert (zip exprs columns !! k = Some (e, c)) as Hz by (apply lookup_zip_with_Some; by exists e, c).
    destruct (lookup_lt_is_Some_2 (select_list select) k) as [item Hitem]; [rewrite (Forall2_length _ _ _ HF); by eapply lookup_lt_Some|].
    destruct (Forall2_lookup_lr _ _ _ _ _ _ HF Hitem Hz) as (_ & j & ref & Href & E & Hty & _). simpl in E. exists ref. split; [|done].
    cbn [Positions.columns]. unfold numbered. apply list_elem_of_lookup. exists j. rewrite list_lookup_imap, Hty. simpl. by rewrite <- Href. }
  destruct (having_clause select) as [having|].
  - destruct Hp as (p & HB & Hty & ->). cbn [groups_ok] in Hok.
    apply andb_true_iff in Hok as [[[Hw Hne%negb_true_iff]%andb_true_iff Hrefs]%andb_true_iff Hpred]. apply bool_decide_eq_false_1 in Hne.
    destruct (Bind_predicate scope Hscope B _ _ HB Hty Hpred) as (Hinf & Hex & Hsh & Hst). split; [|done]. 
    split; [exact (Hagg Hw)|]. cbn [grouping]. split_and!; try done. by apply ReferencesOnlyGroupByColumns_spec.
  - subst plan'. split; [by apply Hagg|done].
Qed.

End WellFormed.

End Groups.

(** ** The statement *)

Section Select.
Context {F : Type} `{MapOrder} (catalog : Catalog F) (B : Z).
Hypothesis Htables : forall name t, GetTable catalog name = Some t -> table_ok t.

(** Statements of a size the 32-bit numbers of bindings and output columns can count. *)
Definition select_small (select : SelectNode) : Prop :=
  Z.of_nat (table_count (from_tables select)) < 2 ^ 32 /\
  Z.of_nat (length (group_by_exprs select) + length (select_list select)) < 2 ^ 32.

(** A plan of the statement. *)
Record select_bound (select : SelectNode) (plan : LogicalPlanNode) (scope : ResolutionScope) : Prop := {
  sb_scope : sql_scope catalog (from_tables select) = Some scope;
  sb_wf : scope_wf scope;
  sb_plan : exists input exprs cols, plan = LogicalProjection input exprs cols /\ length cols = length exprs /\
    map display_name cols = sql_headers scope select /\
    (plan_ok B plan = true -> forall view db, tables_stored view catalog db scope B -> wf_query view catalog db (scope_column scope) B input exprs);
  sb_rows : plan_ok B plan = true -> equalities_used scope select = true ->
    forall db, tables_typed db scope -> query_rows db plan = sql_rows db scope select;
}.

(** FROM and WHERE. *)
Record source_bound (select : SelectNode) (scope : ResolutionScope) (plan : LogicalPlanNode) : Prop := {
  so_scope : sql_scope catalog (from_tables select) = Some scope;
  so_wf : scope_wf scope;
  so_ids : CollectBindingIds plan = map binding_id scope;
  so_groups : groups_ok B plan = false;
  so_rows : where_ok B plan = true -> equalities_used scope select = true -> forall db, tables_typed db scope -> plan_rows db plan = sql_from db scope select;
  so_from : where_ok B plan = true -> forall view db, tables_stored view catalog db scope B -> wf_from view catalog db (scope_column scope) B plan;
}.

Lemma filtered_where_ok (plan : LogicalPlanNode) p : where_ok B (filtered plan (Some p)) = joins_ok plan && predicate_ok B p.
Proof. done. Qed.

Lemma source_bound_filtered select scope res ps used all predicate :
  from_bound catalog (from_tables select) (where_conjuncts select) scope res ps used all ->
  bind_where (remaining_where_conjuncts res) scope = Ok predicate -> source_bound select scope (filtered (result_plan res) predicate).
Proof.
  intros Hfb HB. pose proof (fb_wf _ _ _ _ _ _ _ _ Hfb) as Hs. pose proof (fb_tree _ _ _ _ _ _ _ _ Hfb) as [_ Hids Hbound].
  split; [apply Hfb|done|by rewrite filtered_ids| | |].
  - destruct predicate; [simpl; by destruct (result_plan res)|]. simpl. by destruct (result_plan res).
  - intros Hok Hused db Htyped. rewrite (filtered_rows scope Hs db _ _ _ HB). eapply from_rows; [done..| |done].
    by eapply filtered_joins.
  - intros Hok view db Hst. pose proof (filtered_joins scope _ _ _ Hok Hbound) as Hj.
    pose proof (bound_wf_from view catalog db scope B Hs Hst _ Hbound Hj) as Hwf.
    pose proof (bind_where_spec scope _ _ HB) as Hw. destruct (remaining_where_conjuncts res) as [|c cs]; [by subst|].
    destruct Hw as (e & -> & He & Hty). cbn [filtered where_ok MakeLogicalFilter] in Hok. apply andb_true_iff in Hok as [_ Hp].
    destruct (Bind_predicate scope Hs B _ _ He Hty Hp) as (Hinf & Hex & Hsh & Hst'). split; [done|]. rewrite Hids. split_and!; try done.
    by eapply Bind_ids.
Qed.

Lemma plain_bound select scope plan plan' :
  source_bound select scope plan -> sql_grouped select = false -> select_small select ->
  ('(exprs, columns) ← for_each (select_list select) (project_item scope) ([], []); mret (MakeLogicalProjection plan exprs columns)) = Ok plan' ->
  select_bound select plan' scope.
Proof.
  intros Hso Hg _ HB. apply bind_Ok_inv in HB as ([exprs cols] & HP & [= <-]). pose proof (so_wf _ _ _ Hso) as Hs.
  apply (project_items_spec scope Hs) in HP as (Hbound & Hn & Hl & Hv). unfold MakeLogicalProjection.
  assert (plan_ok B (LogicalProjection plan exprs cols) = true -> where_ok B plan = true /\ Forall (fun e => output_ok B e = true) exprs) as Hok.
  { cbn [plan_ok]. rewrite (so_groups _ _ _ Hso), orb_false_r. intros [Hw He]%andb_true_iff. split; [done|].
    rewrite forallb_forall in He. apply Forall_forall. intros e Hin%list_elem_of_In. by apply He. }
  split; [apply Hso|done| |].
  - exists plan, exprs, cols. split_and!; [done..|]. intros [Hw He]%Hok view db Hst. left. split; [by apply (so_from _ _ _ Hso)|].
    rewrite (so_ids _ _ _ Hso). rewrite Forall_forall in *. intros e Hin. by apply (output_selected scope Hs B); [apply Hbound|apply He].
  - intros [Hw _]%Hok Hused db Htyped. cbn [query_rows]. unfold sql_rows. rewrite Hg, (so_rows _ _ _ Hso Hw Hused db Htyped).
    apply map_ext. intros row. apply Hv.
Qed.

Lemma scope_few select scope : sql_scope catalog (from_tables select) = Some scope -> select_small select -> Z.of_nat (length scope) < 2 ^ 32.
Proof. intros Hl%sql_bindings_length [Hs _]. unfold table_count in Hs. by rewrite Hl. Qed.

Lemma grouped_bound select scope plan plan' :
  source_bound select scope plan -> sql_grouped select = true -> select_small select ->
  ('(plan, gb, aggs) ← bind_aggregation select (calls_from 0 (select_list select)) scope plan;
   '(exprs, columns, _) ← for_range 0 (length (select_list select))
     (project_aggregate_item select (calls_from 0 (select_list select)) gb aggs scope) ([], [], 0%nat);
   mret (MakeLogicalProjection plan exprs columns)) = Ok plan' ->
  select_bound select plan' scope.
Proof.
  intros Hso Hg Hsmall HB. pose proof (so_wf _ _ _ Hso) as Hs. pose proof (scope_few select scope (so_scope _ _ _ Hso) Hsmall) as Hfew.
  apply bind_Ok_inv in HB as ([[input gb] aggs] & Hagg & HB). apply (bind_aggregation_bound scope Hs) in Hagg as Hab.
  apply bind_Ok_inv in HB as ([[exprs cols] next] & HP & [= <-]). unfold MakeLogicalProjection.
  destruct (project_groups_spec scope Hs select gb aggs (ab_plain _ _ _ _ _ _ Hab) (ab_scope _ _ _ _ _ _ Hab) (ab_calls _ _ _ _ _ _ Hab)
    (ab_grouped _ _ _ _ _ _ Hab)) with (2 := HP) as [Hl HF].
  { rewrite (ab_length _ _ _ _ _ _ Hab). pose proof (calls_length 0 (select_list select)) as Hc.
    rewrite (Forall2_length _ _ _ (ab_calls _ _ _ _ _ _ Hab)) in Hc. destruct Hsmall. lia. }
  assert (where_ok B input = false) as Hnw.
  { destruct (ab_plan _ _ _ _ _ _ Hab) as [acols Hp]. destruct (having_clause select); [destruct Hp as (p & _ & _ & ->)|subst]; done. }
  assert (plan_ok B (LogicalProjection input exprs cols) = true -> groups_ok B input = true) as Hok by (cbn [plan_ok]; by rewrite Hnw).
  assert (groups_ok B input = true -> where_ok B plan = true) as Hwhere.
  { destruct (ab_plan _ _ _ _ _ _ Hab) as [acols Hp]. destruct (having_clause select); [destruct Hp as (p & _ & _ & ->)|by subst].
    cbn [groups_ok]. by intros [[[? _]%andb_true_iff _]%andb_true_iff _]%andb_true_iff. }
  split; [apply Hso|done| |].
  - exists input, exprs, cols. split_and!; [done..|by eapply group_headers|]. intros Hok'%Hok view db Hst.
    eapply groups_wf; [done..|by apply (so_ids _ _ _ Hso)|]. intros Hw. by apply (so_from _ _ _ Hso).
  - intros Hok'%Hok Hused db Htyped. cbn [query_rows]. unfold sql_rows, sql_groups. rewrite Hg, (ab_keys _ _ _ _ _ _ Hab).
    rewrite (groups_rows scope Hs Hfew B db _ _ _ _ _ Hab Hok'), (so_rows _ _ _ Hso (Hwhere Hok') Hused db Htyped), map_map.
    apply map_ext_in. intros key Hin%list_elem_of_In. apply list_elem_of_filter in Hin as [_ Hin].
    eapply group_cells; [done..|]. pose proof (group_keys_length gb (sql_from db scope select)) as Hk. rewrite Forall_forall in Hk. by apply Hk.
Qed.

Lemma BindSelect_bound select plan :
  select_small select -> BindSelect catalog select = Ok plan -> exists scope, select_bound select plan scope.
Proof.
  intros Hsmall HB. unfold BindSelect in HB. destruct (_ || _); [done|]. fold (where_conjuncts select) in HB.
  destruct (BindFromClause catalog (from_tables select) (where_conjuncts select) []) as [from scope] eqn:HF.
  apply bind_Ok_inv in HB as (res & -> & HB). apply bind_Ok_inv in HB as (predicate & HW & HB).
  destruct (BindFromClause_bound catalog Htables (from_tables select) (where_conjuncts select) res scope) as (ps & used & all & Hfb);
    [destruct Hsmall; lia|done|]. exists scope. pose proof (source_bound_filtered select scope res ps used all predicate Hfb HW) as Hso.
  fold (filtered (result_plan res) predicate) in HB. unfold bind_select_list in HB. apply bind_Ok_inv in HB as (ais & Hais & HB).
  apply collect_aggregate_items_spec in Hais as ->.
  assert (is_aggregate_query select (calls_from 0 (select_list select)) = sql_grouped select) as Hq
    by (unfold is_aggregate_query, sql_grouped; by rewrite calls_none).
  rewrite Hq in HB. destruct (sql_grouped select) eqn:Hg; [by eapply grouped_bound|by eapply plain_bound].
Qed.

End Select.

(** C3. A SELECT statement means what it says. The plan that the binder returns has the headers of
    the statement, and its rows are those of the statement's meaning [sql_rows]: the cross
    product of the tables of the FROM clause restricted to the rows that satisfy every
    ON and WHERE condition, then grouped, restricted by HAVING and projected. The engine's
    limits are conditions on the plan ([plan_ok]) and, because the binder drops
    equalities that comma-separated items do not need, on the WHERE clause. *)
Theorem BindSelect_correct {F} `{MapOrder} (catalog : Catalog F) B select plan :
  (forall name t, GetTable catalog name = Some t -> table_ok t) -> select_small select -> BindSelect catalog select = Ok plan ->
  exists scope, sql_scope catalog (from_tables select) = Some scope /\
    (exists columns, OutputSchema plan = Ok columns /\ map display_name columns = sql_headers scope select) /\
    (plan_ok B plan = true -> equalities_used scope select = true -> forall db, tables_typed db scope -> query_rows db plan = sql_rows db scope select).
Proof.
  intros Htables Hsmall HB. destruct (BindSelect_bound catalog B Htables select plan Hsmall HB) as (scope & Hb).
  exists scope. split; [apply Hb|]. split; [|apply Hb]. destruct (sb_plan _ _ _ _ _ Hb) as (input & exprs & cols & -> & _ & Hh & _).
  exists cols. by split.
Qed.

(** ** A query with a join, a filter and groups *)

Definition join_table : TableObject := new_table 0 "t" [mk_column "a" kInteger 0].
Definition join_catalog : Catalog mem_file := mk_catalog fresh_disk empty_schema {["t"%string := join_table]}.
Definition join_table_rows : list Row := [[Some (VInt 5)]; [None]; [Some (VInt 3)]].
Definition a_of (table : string) : RawExpression := RawMakeColumnRef (Some table) "a".
(** [SELECT x.a, COUNT( * ) FROM t x JOIN t y ON x.a = y.a WHERE y.a * 3 - 1 > 10 GROUP BY x.a]. *)
Definition join_select : SelectNode :=
  mk_select [mk_select_item false (Some (a_of "x")); mk_select_item false (Some (RawMakeFunctionCall "COUNT" [] true))]
    [JoinRef (Some (BaseTableRef "t" (Some "x"))) (Some (BaseTableRef "t" (Some "y"))) (Some (RawMakeBinaryOp kEqual (a_of "x") (a_of "y")))]
    (Some (RawMakeBinaryOp kGreaterThan (RawMakeBinaryOp kSubtract (RawMakeBinaryOp kMultiply (a_of "y") (RawMakeIntConst 3)) (RawMakeIntConst 1)) (RawMakeIntConst 10))) [a_of "x"] None false false false false false.
Definition join_scope : ResolutionScope := [mk_binding 0 "x" join_table; mk_binding 1 "y" join_table].

Lemma BindSelect_correct_witness :
  exists plan, BindSelect join_catalog join_select = Ok plan /\
    query_rows (fun _ => join_table_rows) plan = [[Some (VInt 5); Some (VInt 1)]].
Proof.
  assert (exists plan, BindSelect join_catalog join_select = Ok plan /\ plan_ok 5 plan = true) as (plan & HB & Hok)
    by (eexists; split; [vm_compute; reflexivity|reflexivity]).
  exists plan. split; [exact HB|].
  destruct (BindSelect_correct join_catalog 5 join_select plan) as (scope & Hscope & _ & Hrows); [|split; done|exact HB|].
  - unfold GetTable, join_catalog. cbn [tables_by_name_]. intros name t [_ <-]%lookup_singleton_Some. split; [done|]. intros i c Hc. by destruct i as [|[|i]]; [injection Hc as <-|..].
  - assert (sql_scope join_catalog (from_tables join_select) = Some join_scope) as E by reflexivity. rewrite E in Hscope. injection Hscope as <-.
    rewrite (Hrows Hok eq_refl); [vm_compute; reflexivity|].
    intros b row j ty v Hb Hrow Hty Hv. assert (binding_table b = join_table) as Ht.
    { apply elem_of_cons in Hb as [->|Hb%list_elem_of_singleton]; [done|by subst b]. }
    rewrite Ht in Hty. destruct j as [|[|j]]; try done. injection Hty as <-.
    unfold join_table_rows in Hrow. rewrite !elem_of_cons, elem_of_nil in Hrow.
    destruct Hrow as [->|[->|[->|[]]]]; cbn in Hv; congruence || by injection Hv as <-.
Defined.
