(* ===== verification/ReadOnly.v ===== *)
(** Queries only read: whatever a tree of operators is, and however a call of [GetNext] ends,
    the file is the same afterwards and no frame of the pool has become dirty. *)

From S2P Require Import Prelude ByteIO Footer Disk Replacer BufferPool Schema Chunk Operators HashJoin Aggregate Layout Pages Scan Optimizer.

(** ** Code that keeps a relation *)

(** Whatever its outcome, [m] leaves a state related to the one it was run in. *)
Definition keeping {W A} (R : W -> W -> Prop) (m : io W A) : Prop := forall w r w', m w = (r, w') -> R w w'.

Create HintDb keeping discriminated.

Section Keeping.
Context {W : Type} (R : W -> W -> Prop) `{!PreOrder R}.

Lemma keeping_ret {A} (a : A) : keeping R (mret a).
Proof. intros w r w' [= <- <-]. reflexivity. Qed.

Lemma keeping_lift {A} (r : result A) : keeping R (io_lift r).
Proof. intros w r' w' [= <- <-]. reflexivity. Qed.

Lemma keeping_throw {A} e : keeping R (io_throw e : io W A).
Proof. intros w r w' [= <- <-]. reflexivity. Qed.

Lemma keeping_get : keeping R io_get.
Proof. intros w r w' [= <- <-]. reflexivity. Qed.

Lemma keeping_bind {A B} (m : io W A) (k : A -> io W B) :
  keeping R m -> (forall a, keeping R (k a)) -> keeping R (m ≫= k).
Proof.
  intros Hm Hk w r w' HB. unfold mbind, io_bind in HB. destruct (m w) as [[a|e| |] w1] eqn:E; [|by simplify_eq; eapply Hm..].
  etransitivity; [by eapply Hm|by eapply Hk].
Qed.

Lemma keeping_for_range {St} lo n (body : nat -> St -> io W St) st :
  (forall i st, keeping R (body i st)) -> keeping R (for_range lo n body st).
Proof. intros Hb. revert lo st. induction n as [|n IH]; intros lo st; [apply keeping_ret|]. apply keeping_bind; [apply Hb|intros; apply IH]. Qed.

Lemma keeping_for_each {X St} (xs : list X) (body : X -> St -> io W St) st :
  (forall x st, keeping R (body x st)) -> keeping R (for_each xs body st).
Proof. intros Hb. revert st. induction xs as [|x xs IH]; intros st; [apply keeping_ret|]. apply keeping_bind; [apply Hb|intros; apply IH]. Qed.

End Keeping.

(** Follows the code: loops and sequences become their bodies. *)
Ltac keep :=
  repeat first
    [ solve [eauto with keeping]
    | apply keeping_ret; apply _ | apply keeping_lift; apply _ | apply keeping_throw; apply _ | apply keeping_get; apply _
    | apply keeping_bind; [apply _| |intros ?]
    | apply keeping_for_range; [apply _|intros ? ?]
    | apply keeping_for_each; [apply _|intros ? ?]
    | case_match ].

(** ** The store *)

Definition clean (p : BufferPool) : Prop := Forall (fun m => is_dirty m = false) (frames_ p).

Section Reads.
Context {F : Type} `{PosixFile F}.

(** What reading does to a store whose pool has no dirty frame. *)
Definition reads (s s' : Store F) : Prop := clean (pool_ s) -> clean (pool_ s') /\ disk_ s' = disk_ s.

#[global] Instance reads_preorder : PreOrder reads.
Proof.
  split; [done|]. intros s1 s2 s3 H12 H23 Hc. destruct (H12 Hc) as [Hc2 Hd2]. destruct (H23 Hc2) as [Hc3 Hd3]. split; [done|congruence].
Qed.

Lemma clean_new n : clean (new_pool n).
Proof. unfold clean, new_pool. simpl. by apply Forall_replicate. Qed.

Lemma clean_get p f m : clean p -> vec_get (frames_ p) f = Ok m -> is_dirty m = false.
Proof. intros Hc Hm%vec_get_Ok. by eapply Forall_lookup_1 in Hc. Qed.

Lemma clean_put p f m p' r : clean p -> is_dirty m = false -> put_frame f m p = (r, p') -> clean p'.
Proof.
  intros Hc Hm. unfold put_frame, vec_set. case_decide; intros [= <- <-]; [|done]. by apply Forall_insert.
Qed.

Lemma ReadPages_disk p n (d d' : DiskManager F) r : ReadPages p n d = (r, d') -> d' = d.
Proof. unfold ReadPages, read_all, io_throw. intros HR. by repeat case_match; simplify_eq. Qed.

Lemma touch_clean f p r p' : touch f p = (r, p') -> clean p -> clean p'.
Proof. intros [Hf _]%touch_pool. unfold clean. by rewrite Hf. Qed.

Lemma release_frame_reads f : keeping reads (release_frame f : io (Store F) unit).
Proof.
  intros s r s' HR Hc. unfold release_frame, write_back, mbind, io_bind, mret, io_ret, on_pool, io_zoom, frame_at, page_table_erase in HR.
  destruct (vec_get (frames_ (pool_ s)) f) as [m|e| |] eqn:Hm; [|by simplify_eq..].
  rewrite (clean_get _ _ _ Hc Hm) in HR. destruct (in_use m); by simplify_eq/=.
Qed.

Lemma fill_frame_reads f p : keeping reads (fill_frame f p).
Proof.
  intros s r s' HF Hc. unfold fill_frame, mbind, io_bind, mret, io_ret, on_pool, on_disk, io_zoom, pool_write, page_table_put in HF.
  destruct (ReadPages p 1 (disk_ s)) as [rd d] eqn:ER. apply ReadPages_disk in ER as ->.
  destruct rd as [data|e| |]; [|by simplify_eq..]. case_decide; [|by simplify_eq]. simpl in HF.
  match type of HF with context [put_frame f ?m ?p'] => destruct (put_frame f m p') as [rp pp] eqn:Hp end.
  apply clean_put in Hp; [|done..]. destruct rp; [|by simplify_eq..]. simpl in HF.
  match type of HF with context [touch f ?p'] => destruct (touch f p') as [rt pt] eqn:Ht end.
  apply touch_clean in Ht; [|done]. destruct rt; by simplify_eq/=.
Qed.

Lemma FetchPage_reads p : keeping reads (FetchPage p).
Proof.
  intros s r s' HF Hc. unfold FetchPage in HF. destruct (page_table_ (pool_ s) !! p) as [f|].
  - unfold mbind, io_bind, mret, io_ret, on_pool, io_zoom, frame_at in HF.
    destruct (vec_get (frames_ (pool_ s)) f) as [m|e| |] eqn:Hm; [|by simplify_eq..].
    match type of HF with context [put_frame f ?m ?p'] => destruct (put_frame f m p') as [rp pp] eqn:Hp end.
    apply clean_put in Hp; [|done|exact (clean_get _ _ _ Hc Hm)]. destruct rp; [|by simplify_eq..].
    destruct (touch f pp) as [rt pt] eqn:Ht. apply touch_clean in Ht; [|done]. destruct rt; by simplify_eq/=.
  - revert HF Hc. apply (keeping_bind reads (on_pool FindFreeFrame)).
    + intros s1 r1 s1' HFF Hc. pose proof (FindFreeFrame_pool _ _ _ HFF) as [Hf _]. unfold clean. rewrite Hf. split; [done|].
      unfold on_pool, io_zoom in HFF. destruct (FindFreeFrame (pool_ s1)); by simplify_eq/=.
    + intros [f|]; [|apply (keeping_throw reads)]. apply (keeping_bind reads); [apply release_frame_reads|intros _; apply fill_frame_reads].
Qed.

Lemma UnpinPage_reads p : keeping reads (on_pool (UnpinPage p false) : io (Store F) unit).
Proof.
  intros s r s' HU Hc. unfold on_pool, io_zoom, UnpinPage, mbind, io_bind, frame_at, mret, io_ret in HU.
  destruct (page_table_ (pool_ s) !! p) as [f|]; [|by simplify_eq/=].
  destruct (vec_get (frames_ (pool_ s)) f) as [m|e| |] eqn:Hm; [|by simplify_eq/=..].
  case_decide; [by simplify_eq/=|].
  match type of HU with context [put_frame f ?m ?p'] => destruct (put_frame f m p') as [rp pp] eqn:Hp end.
  apply clean_put in Hp; [|done|simpl; by rewrite (clean_get _ _ _ Hc Hm)]. destruct rp; [|by simplify_eq/=..].
  case_decide; [|by simplify_eq/=].
  match type of HU with context [with_replacer ?o ?p'] => destruct (with_replacer o p') as [rw pw] eqn:Hw end.
  apply with_replacer_pool in Hw as [Hf _]. unfold clean in *. simplify_eq/=. by rewrite Hf.
Qed.

Lemma pool_read_reads ptr n : keeping reads (on_pool (pool_read ptr n) : io (Store F) (list byte)).
Proof. intros s r s' HR Hc. unfold on_pool, io_zoom, pool_read in HR. case_decide; simplify_eq; done. Qed.

#[local] Hint Resolve FetchPage_reads UnpinPage_reads pool_read_reads : keeping.

(** The destructor of a clean pool writes nothing. *)
Lemma pool_destroy_clean s : clean (pool_ s) -> pool_destroy s = (Ok tt, s).
Proof.
  intros Hc. unfold pool_destroy.
  destruct (for_range_io_inv (fun _ _ w => w = s) (fun i (_ : unit) =>
    m ← on_pool (frame_at i); if in_use m && is_dirty m then write_back i m else mret tt) 0 (length (frames_ (pool_ s))) tt s)
    as ([] & w & HR & ->); [|done|done].
  intros i [] w Hi ->. destruct (lookup_lt_is_Some_2 (frames_ (pool_ s)) i) as [m Hm]; [lia|]. apply vec_get_Ok in Hm.
  exists tt, s. split; [|done]. unfold mbind, io_bind, on_pool, io_zoom, frame_at. rewrite Hm, (clean_get _ _ _ Hc Hm), andb_false_r. by destruct s.
Qed.

(** ** The operators *)

Lemma with_page_reads {A} p (body : nat -> io (Store F) A) : (forall ptr, keeping reads (body ptr)) -> keeping reads (with_page p body).
Proof. intros Hb. unfold with_page. keep. Qed.

Lemma copy_page_reads p : keeping reads (copy_page p).
Proof. apply with_page_reads. intros. apply pool_read_reads. Qed.

Lemma FetchWholeRegion_reads range : keeping reads (FetchWholeRegion range).
Proof. unfold FetchWholeRegion. pose proof copy_page_reads. keep. Qed.

#[local] Hint Resolve copy_page_reads FetchWholeRegion_reads : keeping.

Lemma fetch_data_pages_reads fuel first last p scratch : keeping reads (fetch_data_pages fuel first last p scratch).
Proof. revert p scratch. induction fuel as [|fuel IH]; intros p scratch; simpl; keep. Qed.

#[local] Hint Resolve fetch_data_pages_reads : keeping.

Lemma AppendColumn_reads table v chunk rg o a n : keeping reads (AppendColumn table v chunk rg o a n).
Proof.
  unfold AppendColumn. apply keeping_bind; [apply _|keep|]. intros column.
  destruct (type column); unfold AppendFixedWidth, AppendVarchar;
    repeat first [apply with_page_reads; intros | progress keep].
Qed.

(** [GetNext] of an operator keeps the store. *)
Definition quiet_operator {S} (op : Operator (Store F) S) : Prop := forall fuel s, keeping reads (@GetNext _ _ op fuel s).

Lemma scan_reads : quiet_operator SeqScanOperator_op.
Proof. intros fuel op. unfold GetNext, SeqScanOperator_op, scan_vector. pose proof AppendColumn_reads. keep. Qed.

Lemma drain_reads {S St} `{Op : Operator (Store F) S} fuel n consume (child : S) (st : St) :
  quiet_operator Op -> keeping reads (drain_child fuel n consume child st).
Proof. intros Hop. revert child st. induction n as [|n IH]; intros child st; simpl; unfold quiet_operator in Hop; keep. Qed.

Lemma tree_reads shape : quiet_operator (tree_op shape).
Proof.
  induction shape as [|child IH|child IH|build IHb probe IHp|child IH]; intros fuel op; unfold quiet_operator in *.
  - apply scan_reads.
  - unfold GetNext at 1. simpl. unfold FilterOperator_op. keep.
  - unfold GetNext at 1. simpl. unfold ProjectionOperator_op. keep.
  - unfold GetNext at 1. simpl. unfold HashJoinOperator_op, BuildPhase, ProbeNext.
    pose proof (fun f n c => drain_reads f n (St := BuildTable) c (Op := tree_op build)). keep.
  - unfold GetNext at 1. simpl. unfold AggregationOperator_op, Drain.
    pose proof (fun f n c => drain_reads f n (St := AggState) c (Op := tree_op child)). keep.
Qed.

Lemma any_reads : quiet_operator AnyOperator_op.
Proof. intros fuel [shape op]. unfold GetNext, AnyOperator_op. simpl. pose proof (tree_reads shape fuel op). keep. Qed.

End Reads.
