(* ===== verification/Text.v ===== *)
(** Strings: concatenation, joining, characters to skip, and the rules of loops that print.
    Shared by the parts that read and write text ([Format], [Driver], [Repl]). *)

From S2P Require Import Prelude.

#[local] Open Scope string_scope.
#[local] Open Scope Z_scope.

Definition strlen (s : string) : nat := String.length s.

(** [std::string(n, c)]. *)
Fixpoint repeat_char (n : nat) (c : ascii) : string :=
  match n with O => "" | S n => String c (repeat_char n c) end.

Definition cat (texts : list string) : string := foldr String.append "" texts.

Definition tab : string := String "009"%char "".
Definition newline : string := String "010"%char "".

(** ** [std::string] *)

(** [find_first_not_of] and [find_last_not_of] of a set of characters; [None] is [npos]. *)
Fixpoint find_first_not_of (set : ascii -> bool) (s : string) : option nat :=
  match s with
  | "" => None
  | String c s => if set c then S <$> find_first_not_of set s else Some 0%nat
  end.

Fixpoint find_last_not_of (set : ascii -> bool) (s : string) : option nat :=
  match s with
  | "" => None
  | String c s =>
      match find_last_not_of set s with
      | Some i => Some (S i)
      | None => if set c then None else Some 0%nat
      end
  end.

(** [substr(pos)] and [substr(pos, n)], for a position in range. *)
Fixpoint substr_from (pos : nat) (s : string) : string :=
  match pos, s with
  | O, _ => s
  | S pos, String _ s => substr_from pos s
  | S _, "" => ""
  end.

Fixpoint prefix_chars (n : nat) (s : string) : string :=
  match n, s with
  | S n, String c s => String c (prefix_chars n s)
  | _, _ => ""
  end.

Definition substr (pos n : nat) (s : string) : string := prefix_chars n (substr_from pos s).

(** ** Concatenation *)

Lemma append_cons x (a b : string) : String x a ++ b = String x (a ++ b).
Proof. done. Qed.

Lemma append_assoc (a b c : string) : (a ++ b) ++ c = a ++ (b ++ c).
Proof. induction a as [|x a IH]; [done|]. by rewrite !append_cons, IH. Qed.

Lemma append_nil (a : string) : a ++ "" = a.
Proof. induction a as [|x a IH]; [done|]. by rewrite append_cons, IH. Qed.

Lemma strlen_append (a b : string) : strlen (a ++ b) = (strlen a + strlen b)%nat.
Proof. unfold strlen. induction a as [|x a IH]; [done|]. rewrite append_cons. simpl. by rewrite IH. Qed.

Lemma strlen_repeat n c : strlen (repeat_char n c) = n.
Proof. unfold strlen. induction n as [|n IH]; simpl; [done|by rewrite IH]. Qed.

Lemma cat_app xs ys : cat (xs ++ ys) = cat xs ++ cat ys.
Proof. induction xs as [|x xs IH]; simpl; [done|by rewrite IH, append_assoc]. Qed.

Lemma strlen_cat xs : strlen (cat xs) = sum_list (map strlen xs).
Proof. induction xs as [|x xs IH]; simpl; [done|by rewrite strlen_append, IH]. Qed.

Lemma foldl_print {A} (f : A -> string) xs out : foldl (fun out x => out ++ f x) out xs = out ++ cat (map f xs).
Proof. revert out. induction xs as [|x xs IH]; intros out; simpl; [by rewrite append_nil|by rewrite IH, append_assoc]. Qed.

Create Rewrite HintDb text.
#[export] Hint Rewrite append_assoc append_nil strlen_append strlen_repeat : text.

(** ** Loops that print *)

Lemma print_range (f : nat -> string -> result string) (text : nat -> string) lo n out :
  (forall i out, (lo <= i < lo + n)%nat -> f i out = Ok (out ++ text i)) ->
  for_range lo n f out = Ok (out ++ cat (map text (seq lo n))).
Proof.
  revert lo out. induction n as [|n IH]; intros lo out Hf; simpl; [by rewrite append_nil|].
  rewrite Hf, bind_Ok by lia. rewrite IH by (intros i o Hi; apply Hf; lia). by rewrite append_assoc.
Qed.

Lemma print_each {A} (f : A -> string -> result string) (text : A -> string) xs out :
  (forall x out, x ∈ xs -> f x out = Ok (out ++ text x)) ->
  for_each xs f out = Ok (out ++ cat (map text xs)).
Proof.
  revert out. induction xs as [|x xs IH]; intros out Hf; simpl; [by rewrite append_nil|].
  rewrite Hf, bind_Ok by constructor. rewrite IH by (intros y o Hy; apply Hf; by constructor). by rewrite append_assoc.
Qed.

(** A loop over the indices of a list that prints its elements. *)
Lemma print_indices {A} (f : nat -> string -> result string) (text : nat -> A -> string) (xs : list A) out :
  (forall i x out, xs !! i = Some x -> f i out = Ok (out ++ text i x)) ->
  for_range 0 (length xs) f out = Ok (out ++ cat (imap text xs)).
Proof.
  intros Hf. rewrite (print_range f (fun i => match xs !! i with Some x => text i x | None => "" end)).
  - do 3 f_equal. apply list_eq. intros i. rewrite list_lookup_imap. destruct (xs !! i) as [x|] eqn:Hx; simpl.
    + rewrite map_seq_lookup by (by eapply lookup_lt_Some). by rewrite Hx.
    + apply lookup_ge_None. rewrite length_map, length_seq. by apply lookup_ge_None.
  - intros i o Hi. destruct (lookup_lt_is_Some_2 xs i) as [x Hx]; [lia|]. rewrite Hx. by apply Hf.
Qed.
