(* ===== verification/Format.v ===== *)
(** Model of [src/cli/output_formatter.cpp]: what is printed for a value, a chunk and a
    table. A [std::ostream] is the text written to it so far. *)

From S2P Require Import Prelude Text Scalar Bitmap Columns Chunk Rows.
From Stdlib Require Import SpecFloat.
From stdpp Require Import pretty.

#[local] Open Scope string_scope.
#[local] Open Scope Z_scope.

(** ** [std::to_string] and streaming a number *)

Definition to_string (z : Z) : string := pretty z.

(** [num / den] rounded to an integer, ties to even. *)
Definition round_half_even (num den : Z) : Z :=
  let q := num / den in
  let r := num mod den in
  if 2 * r <? den then q else if den <? 2 * r then q + 1 else if Z.even q then q else q + 1.

(** [num / den * 10 ^ k] as a quotient of integers. *)
Definition scale10 (num den k : Z) : Z * Z := if 0 <=? k then (num * 10 ^ k, den) else (num, den * 10 ^ (- k)).

(** The exponents of ten of the [float]s, from the greatest. *)
Definition exponents : list Z := map (fun i => 38 - Z.of_nat i) (seq 0 84).

(** The greatest [x] with [10 ^ x <= num / den]. *)
Definition decimal_exponent (num den : Z) : Z :=
  match list_find (fun x => snd (scale10 1 1 x) * num >= fst (scale10 1 1 x) * den) exponents with
  | Some (_, x) => x
  | None => -46
  end.

(** Six significant digits and the exponent of the first: [%e] with precision 5. *)
Definition six_digits (num den : Z) : Z * Z :=
  let x := decimal_exponent num den in
  let '(n, d) := scale10 num den (5 - x) in
  let digits := round_half_even n d in
  if digits =? 10 ^ 6 then (10 ^ 5, x + 1) else (digits, x).

(** A nonnegative number in exactly [n] digits. *)
Fixpoint digits_of (n : nat) (z : Z) : list Z :=
  match n with O => [] | S n => digits_of n (z / 10) ++ [z mod 10] end.

Definition digit (d : Z) : ascii := pretty_N_char (Z.to_N d).
Definition text_of (digits : list Z) : string := foldr (fun d s => String (digit d) s) "" digits.

(** [%g] removes the zeros that end the fraction. *)
Fixpoint strip_zeros (digits : list Z) : list Z :=
  match digits with
  | [] => []
  | d :: ds => match strip_zeros ds with [] => if d =? 0 then [] else [d] | ds' => d :: ds' end
  end.

Definition with_fraction (whole fraction : list Z) : string :=
  match strip_zeros fraction with
  | [] => text_of whole
  | fraction => text_of whole ++ "." ++ text_of fraction
  end.

(** The layout of [%g] with precision 6: fixed for exponents from -4 to 5, else scientific. *)
Definition layout (digits : list Z) (x : Z) : string :=
  if (-4 <=? x) && (x <? 6) then
    if 0 <=? x then with_fraction (take (Z.to_nat (x + 1)) digits) (drop (Z.to_nat (x + 1)) digits)
    else with_fraction [0] (replicate (Z.to_nat (- x - 1)) 0 ++ digits)
  else
    with_fraction (take 1 digits) (drop 1 digits) ++ "e" ++ (if x <? 0 then "-" else "+") ++ text_of (digits_of 2 (Z.abs x)).

(** [std::ostringstream() << std::setprecision(6) << value] of a [float]. *)
Definition stream_float (value : f32) : string :=
  (if f32_sign value then "-" else "") ++
  match decode_mag false (f32_mag value) with
  | S754_zero _ => "0"
  | S754_infinity _ => "inf"
  | S754_nan => "nan"
  | S754_finite _ m e =>
      let '(num, den) := if 0 <=? e then (Zpos m * 2 ^ e, 1) else (Zpos m, 2 ^ (- e)) in
      let '(digits, x) := six_digits num den in
      layout (digits_of 6 digits) x
  end.

Example stream_float_ex : map stream_float [f32_of_int 1; F32 0x3e19999a; F32 0x49742400; F32 0x4974240f; F32 0x7f7fffff; F32 0x00000001;
    F32 0xc2f6e979; F32 0x38d1b717; F32 0x3727c5ac; F32 0x80000000; F32 0xff800000; F32 0x7fc00000; F32 0x497423f8] =
  ["1"; "0.15"; "1e+06"; "1e+06"; "3.40282e+38"; "1.4013e-45"; "-123.456"; "0.0001"; "1e-05"; "-0"; "-inf"; "nan"; "1e+06"].
Proof. vm_compute. reflexivity. Qed.

(** ** [OutputFormatter] *)

(** The [std::visit] of a value that is not null. *)
Definition value_text (v : Value) : string :=
  match v with VInt z => to_string z | VFloat f => stream_float f | VStr s => s end.

Definition FormatValue (column : ColumnStorage) (row : nat) : result string :=
  null ← col_IsNull column row;
  if null : bool then mret "NULL" else (value ← col_GetValue column row; mret (value_text value)).

(** The cells of one row of [WriteChunk], and the row. *)
Definition write_cells (chunk : DataChunk) (row : nat) (out : string) : result string :=
  for_range 0 (chunk_NumColumns chunk) (fun col out =>
    let out := if (0 <? col)%nat then out ++ tab else out in
    column ← chunk_Column chunk col;
    text ← FormatValue column row;
    mret (out ++ text)) out.

Definition WriteChunk (chunk : DataChunk) (out : string) : result string :=
  for_range 0 (chunk_rows_ chunk) (fun row out =>
    selected ← IsRowSelected chunk row;
    if negb selected then mret out
    else (out ← write_cells chunk row out; mret (out ++ newline))) out.

(** The two loops that compute [widths]. *)
Definition header_widths (headers : list string) : result (list nat) :=
  for_range 0 (length headers) (fun c widths => header ← vec_get headers c; vec_set widths c (strlen header)) (replicate (length headers) 0%nat).

Definition row_widths (row : list string) (widths : list nat) : result (list nat) :=
  for_range 0 (Nat.min (length row) (length widths)) (fun c widths =>
    cell ← vec_get row c;
    width ← vec_get widths c;
    vec_set widths c (Nat.max width (strlen cell))) widths.

Definition column_widths (headers : list string) (rows : list (list string)) : result (list nat) :=
  widths ← header_widths headers;
  for_each rows row_widths widths.

Definition print_border (widths : list nat) (out : string) : string :=
  foldl (fun out width => out ++ "+" ++ repeat_char (width + 2) "-"%char) out widths ++ "+" ++ newline.

(** [std::string(n, ' ')] throws [std::length_error] for the [n] that an unsigned
    subtraction below zero gives; it does not occur, so it is left undefined. *)
Definition spaces (width size : nat) : result string := if (size <=? width)%nat then mret (repeat_char (width - size) " "%char) else Undefined.

Definition print_row (widths : list nat) (cells : list string) (out : string) : result string :=
  out ← for_range 0 (length cells) (fun c out =>
    cell ← vec_get cells c;
    width ← vec_get widths c;
    padding ← spaces width (strlen cell);
    mret (out ++ "| " ++ cell ++ padding ++ " ")) out;
  mret (out ++ "|" ++ newline).

Definition WriteTable (headers : list string) (rows : list (list string)) (out : string) : result string :=
  widths ← column_widths headers rows;
  let out := print_border widths out in
  out ← print_row widths headers out;
  let out := print_border widths out in
  out ← for_each rows (print_row widths) out;
  mret (print_border widths out).

(** ** What is printed *)

(** A NULL cell prints as [NULL], like the string of these letters. *)
Definition cell_text (cell : option Value) : string := match cell with None => "NULL" | Some v => value_text v end.

(** A line of [WriteChunk], and a printed row of [WriteTable]. *)
Definition tab_line (cells : list string) : string :=
  cat (imap (fun j cell => (if (0 <? j)%nat then tab else "") ++ cell) cells).
Definition padded (width : nat) (cell : string) : string := "| " ++ cell ++ repeat_char (width - strlen cell) " "%char ++ " ".
Definition table_line (widths : list nat) (cells : list string) : string := cat (zip_with padded widths cells) ++ "|" ++ newline.
Definition border_line (widths : list nat) : string :=
  cat (map (fun width => "+" ++ repeat_char (width + 2) "-"%char) widths) ++ "+" ++ newline.

(** The width of a column: of its longest cell, the header included. *)
Definition width_at (texts : list (list string)) (c : nat) : nat :=
  foldr (fun row n => Nat.max (strlen (default "" (row !! c))) n) 0%nat texts.
Definition widths_of (headers : list string) (rows : list (list string)) : list nat :=
  map (width_at (headers :: rows)) (seq 0 (length headers)).
Definition table_lines (headers : list string) (rows : list (list string)) : list string :=
  let widths := widths_of headers rows in
  ([border_line widths; table_line widths headers; border_line widths] ++ map (table_line widths) rows ++ [border_line widths])%list.

(** ** Chunks *)

Lemma FormatValue_spec c ty rs i v b :
  col_repr c ty rs -> rs !! i = Some (v, b) -> FormatValue c i = Ok (cell_text (cell_of (v, b))).
Proof.
  intros Hc Hi. destruct (col_repr_lookup c ty rs i v b Hc Hi) as (_ & Hv & Hn & _). unfold FormatValue.
  rewrite Hn, bind_Ok. destruct b; cbn [negb]; [by rewrite Hv|done].
Qed.

Lemma write_cells_spec chunk cols sel i out :
  chunk_repr chunk cols sel -> (i < length sel)%nat ->
  write_cells chunk i out = Ok (out ++ tab_line (map cell_text (cell_row cols i))).
Proof.
  intros Hch Hi. unfold write_cells, tab_line. pose proof (cr_cols _ _ _ Hch) as Hcols.
  replace (chunk_NumColumns chunk) with (length (map cell_text (cell_row cols i)))
    by (unfold chunk_NumColumns, cell_row, raw_row; rewrite !length_map; symmetry; by eapply Forall2_length).
  apply print_indices. intros j text o Hj. rewrite list_lookup_fmap in Hj. apply fmap_Some in Hj as (cell & Hj & ->).
  unfold cell_row, raw_row in Hj. rewrite !list_lookup_fmap in Hj. destruct (cols !! j) as [[ty rs]|] eqn:Hc; [|done]. injection Hj as <-.
  destruct (columns_repr_lookup_r _ _ _ _ _ _ Hcols Hc) as (c & Hcj & Hrep & Hl).
  destruct (lookup_lt_is_Some_2 rs i) as [[v b] Hr]; [lia|]. unfold chunk_Column. rewrite (proj2 (vec_get_Ok _ _ _) Hcj), bind_Ok.
  rewrite (FormatValue_spec c ty rs i v b Hrep Hr), bind_Ok. simpl. rewrite Hr. simpl.
  destruct (0 <? j)%nat; by rewrite ?append_assoc.
Qed.

Lemma cat_filter (P : nat -> Prop) `{!forall i, Decision (P i)} (text : nat -> string) rows :
  cat (map (fun i => if decide (P i) then text i else "") rows) = cat (map text (filter P rows)).
Proof. induction rows as [|i rows IH]; [done|]. simpl. rewrite filter_cons, IH. by case_decide. Qed.

(** One line per selected row of the chunk, in order: its values separated by tabs. *)
Lemma WriteChunk_spec chunk cols sel out :
  chunk_repr chunk cols sel ->
  WriteChunk chunk out = Ok (out ++ cat (map (fun row => tab_line (map cell_text row) ++ newline) (live_rows cols sel))).
Proof.
  intros Hch. unfold WriteChunk. rewrite (cr_rows _ _ _ Hch).
  rewrite (print_range _ (fun i => if decide (sel !! i = Some true) then tab_line (map cell_text (cell_row cols i)) ++ newline else "")).
  - rewrite cat_filter. unfold live_rows. by rewrite map_map.
  - intros i o Hi. destruct (lookup_lt_is_Some_2 sel i) as [b Hb]; [lia|].
    rewrite (IsRowSelected_repr _ _ _ _ _ Hch Hb), bind_Ok. destruct b; cbn [negb].
    + rewrite decide_True by done. rewrite (write_cells_spec _ _ _ _ _ Hch), bind_Ok by lia. by rewrite append_assoc.
    + rewrite decide_False by congruence. by rewrite append_nil.
Qed.

(** ** Tables *)

Lemma header_widths_spec headers : header_widths headers = Ok (map strlen headers).
Proof.
  unfold header_widths. destruct (for_range_inv (fun c widths => widths = (map strlen (take c headers) ++ replicate (length headers - c) 0%nat)%list)
    (fun c widths => header ← vec_get headers c; vec_set widths c (strlen header)) 0 (length headers) (replicate (length headers) 0%nat))
    as (widths & -> & ->).
  - intros c widths Hc ->. destruct (lookup_lt_is_Some_2 headers c) as [header Hh]; [lia|].
    rewrite (proj2 (vec_get_Ok _ _ _) Hh), bind_Ok.
    assert (length (map strlen (take c headers)) = c) as Hl by (rewrite length_map, length_take; lia).
    rewrite vec_set_lt by (rewrite length_app, Hl, length_replicate; lia). eexists. split; [done|].
    rewrite insert_app_r_alt, Hl, Nat.sub_diag by lia. rewrite (take_S_r _ _ _ Hh), map_app, <- app_assoc. f_equal.
    by replace (length headers - c)%nat with (S (length headers - S c)) by lia.
  - simpl. by rewrite Nat.sub_0_r.
  - by rewrite take_ge, Nat.sub_diag, app_nil_r by lia.
Qed.

(** The widths after one more row, and after all of them. *)
Definition widen (row : list string) (widths : list nat) : list nat :=
  imap (fun c width => Nat.max width (strlen (default "" (row !! c)))) widths.

Lemma row_widths_spec row widths : row_widths row widths = Ok (widen row widths).
Proof.
  unfold row_widths. set (n := Nat.min (length row) (length widths)).
  destruct (for_range_inv (fun c ws => ws = widen (take c row) widths)
    (fun c widths => cell ← vec_get row c; width ← vec_get widths c; vec_set widths c (Nat.max width (strlen cell))) 0 n widths)
    as (ws & -> & ->).
  - intros c ws Hc ->. destruct (lookup_lt_is_Some_2 row c) as [cell Hcell]; [lia|].
    destruct (lookup_lt_is_Some_2 widths c) as [width Hw]; [lia|].
    assert (widen (take c row) widths !! c = Some width) as Hg.
    { unfold widen. rewrite list_lookup_imap, Hw. simpl. rewrite lookup_take_ge by lia. simpl. f_equal. lia. }
    rewrite (proj2 (vec_get_Ok _ _ _) Hcell), bind_Ok, (proj2 (vec_get_Ok _ _ _) Hg), bind_Ok.
    rewrite vec_set_lt by (by eapply lookup_lt_Some). eexists. split; [done|]. apply list_eq. intros j.
    unfold widen. rewrite list_lookup_imap. destruct (decide (c = j)) as [<-|Hj].
    + rewrite list_lookup_insert_eq by (by eapply lookup_lt_Some). rewrite Hw. simpl. rewrite lookup_take_lt, Hcell by lia. done.
    + rewrite list_lookup_insert_ne, list_lookup_imap by done. destruct (widths !! j) as [w|]; [|done]. simpl. do 3 f_equal.
      destruct (decide (j < c)%nat); [by rewrite !lookup_take_lt by lia|by rewrite !lookup_take_ge by lia].
  - unfold widen. symmetry. apply list_eq. intros j. rewrite list_lookup_imap. destruct (widths !! j); simpl; [|done]. f_equal. lia.
  - f_equal. apply list_eq. intros j. unfold widen. rewrite !list_lookup_imap. destruct (widths !! j) as [w|] eqn:Hw; [|done]. simpl.
    apply lookup_lt_Some in Hw. do 3 f_equal. destruct (decide (j < n)%nat); [by rewrite lookup_take_lt by lia|].
    rewrite lookup_take_ge by lia. symmetry. simpl. rewrite (proj2 (lookup_ge_None row j)); [done|lia].
Qed.

Lemma column_widths_spec headers rows : column_widths headers rows = Ok (widths_of headers rows).
Proof.
  unfold column_widths. rewrite header_widths_spec, bind_Ok.
  destruct (for_each_inv (fun dn ws => ws = widths_of headers dn) row_widths rows (map strlen headers)) as (ws & -> & ->); [| |done].
  - intros dn row todo ws _ ->. exists (widen row (widths_of headers dn)). split; [apply row_widths_spec|].
    unfold widen, widths_of. apply list_eq. intros j. rewrite list_lookup_imap, !list_lookup_fmap.
    destruct (seq 0 (length headers) !! j) as [c|] eqn:Hc; [|done]. apply lookup_seq in Hc as [-> _]. simpl. f_equal.
    change (headers :: dn ++ [row])%list with ((headers :: dn) ++ [row])%list. unfold width_at. rewrite foldr_app. simpl.
    generalize (strlen (default "" (row !! j))) as n. intros n.
    assert (forall texts : list (list string), foldr (fun row n => Nat.max (strlen (default "" (row !! j))) n) n texts =
      Nat.max (foldr (fun row n => Nat.max (strlen (default "" (row !! j))) n) 0%nat texts) n) as Hf
      by (induction texts as [|x texts IH]; simpl; [done|rewrite IH; lia]).
    rewrite Nat.max_0_r, (Hf dn). lia.
  - unfold widths_of. apply list_eq. intros j. rewrite !list_lookup_fmap. destruct (headers !! j) as [h|] eqn:Hj.
    + rewrite lookup_seq_lt by (by eapply lookup_lt_Some). simpl. rewrite Hj. simpl. f_equal. lia.
    + rewrite (proj2 (lookup_ge_None _ _)); [done|]. rewrite length_seq. by apply lookup_ge_None.
Qed.

Lemma width_at_fits texts row c : row ∈ texts -> (strlen (default "" (row !! c)) <= width_at texts c)%nat.
Proof. induction 1 as [row texts|row x texts _ IH]; simpl; lia. Qed.

Lemma widths_of_lookup headers rows c : (c < length headers)%nat -> widths_of headers rows !! c = Some (width_at (headers :: rows) c).
Proof. intros Hc. unfold widths_of. by rewrite map_seq_lookup. Qed.

Lemma print_row_spec headers rows cells out :
  cells ∈ headers :: rows -> (length cells <= length headers)%nat ->
  print_row (widths_of headers rows) cells out = Ok (out ++ table_line (widths_of headers rows) cells).
Proof.
  intros Hin Hlen. unfold print_row, table_line. set (widths := widths_of headers rows).
  assert (forall c, (c < length headers)%nat -> widths !! c = Some (width_at (headers :: rows) c)) as Hw by (intros c; apply widths_of_lookup).
  rewrite (print_indices _ (fun c cell => padded (default 0%nat (widths !! c)) cell)).
  - rewrite bind_Ok. rewrite append_assoc. unfold mret, result_ret. do 3 f_equal. f_equal. apply list_eq. intros c.
    rewrite list_lookup_imap, lookup_zip_with. destruct (cells !! c) as [cell|] eqn:Hc; simpl; [|by destruct (widths !! c)].
    by rewrite Hw by (apply lookup_lt_Some in Hc; lia).
  - intros c cell o Hc. rewrite (proj2 (vec_get_Ok _ _ _) Hc), bind_Ok. pose proof (lookup_lt_Some _ _ _ Hc).
    rewrite (proj2 (vec_get_Ok _ _ _) (Hw c ltac:(lia))), bind_Ok. pose proof (width_at_fits _ _ c Hin) as Hfit. rewrite Hc in Hfit. change (default "" (Some cell)) with cell in Hfit.
    unfold spaces. rewrite (proj2 (Nat.leb_le _ _) Hfit), bind_Ok, (Hw c) by lia. done.
Qed.

Lemma print_border_spec widths out : print_border widths out = out ++ border_line widths.
Proof. unfold print_border, border_line. by rewrite foldl_print, append_assoc. Qed.

Lemma table_line_length widths cells :
  Forall2 (fun width cell => (strlen cell <= width)%nat) widths cells -> strlen (table_line widths cells) = strlen (border_line widths).
Proof.
  unfold table_line, border_line. rewrite !strlen_append, !strlen_cat. intros HF. f_equal.
  induction HF as [|width cell widths cells Hc _ IH]; [done|]. simpl. rewrite IH. f_equal.
  unfold padded. autorewrite with text. change (strlen "| ") with 2%nat. change (strlen " ") with 1%nat. change (strlen "+") with 1%nat. lia.
Qed.

Lemma WriteTable_spec headers rows out :
  Forall (fun row => length row = length headers) rows -> WriteTable headers rows out = Ok (out ++ cat (table_lines headers rows)).
Proof.
  intros Hrows. rewrite Forall_forall in Hrows. set (widths := widths_of headers rows).
  unfold WriteTable. rewrite column_widths_spec, bind_Ok. cbn zeta. rewrite print_border_spec.
  rewrite print_row_spec, bind_Ok by (done || constructor). rewrite print_border_spec.
  rewrite (print_each _ (table_line widths)), bind_Ok.
  - rewrite print_border_spec. unfold table_lines. fold widths. rewrite !cat_app. simpl. by rewrite append_nil, !append_assoc.
  - intros row o Hrow. apply print_row_spec; [by constructor|]. by rewrite Hrows.
Qed.

(** C17. [WriteTable] draws the table: a border, the header, a border, the rows and a border.
    When every row has a cell per header no index is out of range and no padding is
    negative, and all lines have the same length, so that the columns are aligned. *)
Theorem WriteTable_correct headers rows out :
  Forall (fun row => length row = length headers) rows ->
  WriteTable headers rows out = Ok (out ++ cat (table_lines headers rows)) /\
  forall line line', line ∈ table_lines headers rows -> line' ∈ table_lines headers rows -> strlen line = strlen line'.
Proof.
  intros Hrows. split; [by apply WriteTable_spec|]. rewrite Forall_forall in Hrows. set (widths := widths_of headers rows).
  assert (forall line, line ∈ table_lines headers rows -> strlen line = strlen (border_line widths)) as Hl; [|intros l l' Hl1 Hl2; by rewrite (Hl l), (Hl l')].
  assert (forall cells, cells ∈ headers :: rows -> length cells = length headers -> strlen (table_line widths cells) = strlen (border_line widths)) as Hc.
  { intros cells Hin Hlen. apply table_line_length. apply Forall2_same_length_lookup_2; [unfold widths, widths_of; by rewrite length_map, length_seq|].
    intros c width cell Hw Hcell. unfold widths in Hw. pose proof (lookup_lt_Some _ _ _ Hcell). rewrite widths_of_lookup in Hw by lia.
    injection Hw as <-. pose proof (width_at_fits _ _ c Hin) as Hfit. by rewrite Hcell in Hfit. }
  intros line Hline. unfold table_lines in Hline. fold widths in Hline. rewrite elem_of_app, elem_of_app, !elem_of_cons, !elem_of_nil in Hline.
  destruct Hline as [[-> | [-> | [-> | []]]]|[(row & -> & Hrow)%list_elem_of_fmap|[-> | []]]]; try done.
  - apply Hc; [constructor|done].
  - apply Hc; [by constructor|]. by apply Hrows.
Qed.

(** ** Digits *)

Lemma round_half_even_spec num den : 0 < den -> 2 * Z.abs (num - round_half_even num den * den) <= den.
Proof.
  intros Hd. unfold round_half_even. pose proof (Z.div_mod num den ltac:(lia)) as Hq. pose proof (Z.mod_pos_bound num den Hd).
  destruct (Z.ltb_spec (2 * (num mod den)) den); [nia|]. destruct (Z.ltb_spec den (2 * (num mod den))); [nia|].
  destruct (Z.even (num / den)); nia.
Qed.

Lemma scale10_pos num den k : 0 < num -> 0 < den -> 0 < (scale10 num den k).1 /\ 0 < (scale10 num den k).2.
Proof. intros Hn Hd. unfold scale10. destruct (Z.leb_spec 0 k); simpl; split; try nia; apply Z.mul_pos_pos; try done; apply Z.pow_pos_nonneg; lia. Qed.

(** One more power of ten multiplies the numerator or divides the denominator. *)
Lemma scale10_succ num den k :
  let s := scale10 num den k in let s' := scale10 num den (k + 1) in
  (s'.1 = 10 * s.1 /\ s'.2 = s.2) \/ (s'.1 = s.1 /\ s.2 = 10 * s'.2).
Proof.
  simpl. unfold scale10. destruct (Z.leb_spec 0 k), (Z.leb_spec 0 (k + 1)); simpl; try lia.
  - left. rewrite Z.pow_add_r by lia. lia.
  - right. replace k with (-1) by lia. simpl. lia.
  - right. replace (- k) with (- (k + 1) + 1) by lia. rewrite Z.pow_add_r by lia. lia.
Qed.

(** [10 ^ x <= num / den], as the search tests it. *)
Definition at_least (num den x : Z) : Prop := (scale10 1 1 x).1 * den <= (scale10 1 1 x).2 * num.

Lemma scaled_at_least num den x k :
  0 < num -> 0 < den -> at_least num den (x - k) <-> (scale10 1 1 x).1 * (scale10 num den k).2 <= (scale10 1 1 x).2 * (scale10 num den k).1.
Proof.
  intros Hn Hd. unfold at_least, scale10.
  assert (forall a b, 0 <= a -> 0 <= b -> 10 ^ (a + b) = 10 ^ a * 10 ^ b) as Hadd by (intros; by apply Z.pow_add_r).
  assert (forall a, 0 <= a -> 0 < 10 ^ a) as Hpos by (intros; by apply Z.pow_pos_nonneg).
  destruct (Z.leb_spec 0 (x - k)), (Z.leb_spec 0 x), (Z.leb_spec 0 k); cbn [fst snd]; rewrite ?Z.mul_1_l, ?Z.mul_1_r; try lia.
  - pose proof (Hadd (x - k) k) as E. replace (x - k + k) with x in E by lia. pose proof (Hpos (x - k)). pose proof (Hpos k). rewrite E by lia. split; nia.
  - pose proof (Hadd x (- k)) as E. replace (x + - k) with (x - k) in E by lia. pose proof (Hpos x). pose proof (Hpos (- k)). rewrite E by lia. split; nia.
  - pose proof (Hadd (x - k) (- x)) as E. replace (x - k + - x) with (- k) in E by lia. pose proof (Hpos (x - k)). pose proof (Hpos (- x)). rewrite E by lia. split; nia.
  - pose proof (Hadd (- (x - k)) x) as E. replace (- (x - k) + x) with k in E by lia. pose proof (Hpos (- (x - k))). pose proof (Hpos x). rewrite E by lia. split; nia.
  - pose proof (Hadd (- x) k) as E. replace (- x + k) with (- (x - k)) in E by lia. pose proof (Hpos (- x)). pose proof (Hpos k). rewrite E by lia. split; nia.
  - pose proof (Hadd (- (x - k)) (- k)) as E. replace (- (x - k) + - k) with (- x) in E by lia. pose proof (Hpos (- (x - k))). pose proof (Hpos (- k)). rewrite E by lia. split; nia.
Qed.

Lemma decimal_exponent_spec num den :
  0 < num -> 0 < den -> at_least num den (-45) -> ~ at_least num den 39 ->
  at_least num den (decimal_exponent num den) /\ ~ at_least num den (decimal_exponent num den + 1).
Proof.
  intros Hn Hd Hlow Hhigh. unfold decimal_exponent.
  assert (forall i x, exponents !! i = Some x -> x = 38 - Z.of_nat i /\ (i < 84)%nat) as Hex.
  { intros i x Hi. unfold exponents in Hi. apply list_lookup_fmap_Some in Hi as (j & -> & Hj). apply lookup_seq in Hj as [-> ?]. lia. }
  destruct (list_find _ exponents) as [[i x]|] eqn:Hf.
  - apply list_find_Some in Hf as (Hi & Hx & Hlt). destruct (Hex i x Hi) as [-> Hi84]. split; [unfold at_least; lia|].
    destruct i as [|i]; [done|]. destruct (lookup_lt_is_Some_2 exponents i) as [y Hy]; [by vm_compute in Hi84 |- *; lia|].
    pose proof (Hlt i y Hy ltac:(lia)) as Hno. destruct (Hex i y Hy) as [-> _].
    replace (38 - Z.of_nat (S i) + 1) with (38 - Z.of_nat i) by lia. unfold at_least. lia.
  - exfalso. rewrite list_find_None, Forall_forall in Hf. apply (Hf (-45)); [|unfold at_least in Hlow; lia].
    apply list_elem_of_lookup. by exists 83%nat.
Qed.

(** [stream_float] prints six correctly rounded significant digits of every finite number in the
    range of [float]: the first digit is not zero and the error is at most half a unit of
    the sixth digit, ties and carries into a new digit included. *)
Theorem six_digits_correct num den :
  0 < num -> 0 < den -> at_least num den (-45) -> ~ at_least num den 39 ->
  let '(digits, x) := six_digits num den in
  let '(n, d) := scale10 num den (5 - x) in
  10 ^ 5 <= digits < 10 ^ 6 /\ 2 * Z.abs (n - digits * d) <= d.
Proof.
  intros Hn Hd Hlow Hhigh. destruct (decimal_exponent_spec num den Hn Hd Hlow Hhigh) as [Hx Hx1].
  unfold six_digits. set (x := decimal_exponent num den) in *.
  pose proof (scaled_at_least num den 5 (5 - x) Hn Hd) as H5. pose proof (scaled_at_least num den 6 (5 - x) Hn Hd) as H6.
  replace (5 - (5 - x)) with x in H5 by lia. replace (6 - (5 - x)) with (x + 1) in H6 by lia.
  pose proof (scale10_pos num den (5 - x) Hn Hd) as [_ Hdp].
  pose proof (scale10_succ num den (5 - (x + 1))) as Hs. replace (5 - (x + 1) + 1) with (5 - x) in Hs by lia.
  destruct (scale10 num den (5 - x)) as [n d] eqn:Es. cbn [fst snd] in *.
  change (scale10 1 1 5) with (100000, 1) in H5. change (scale10 1 1 6) with (1000000, 1) in H6. cbn [fst snd] in *.
  pose proof (round_half_even_spec n d Hdp) as Hr. set (q := round_half_even n d) in *.
  apply H5 in Hx. rewrite H6 in Hx1.
  assert (100000 <= q <= 1000000) as Hq by (split; nia).
  destruct (Z.eqb_spec q (10 ^ 6)) as [Hc|Hc].
  - destruct (scale10 num den (5 - (x + 1))) as [n' d']. cbn [fst snd] in *. split; [lia|].
    rewrite Hc in Hr. destruct Hs as [[-> ->]|[-> ->]]; lia.
  - rewrite Es. split; [lia|done].
Qed.

Lemma WriteTable_correct_witness :
  WriteTable ["id"; "name"] [["1"; "alice"]; ["22"; "bo"]] "" = Ok (cat (map (fun line => line ++ newline)
    ["+----+-------+"; "| id | name  |"; "+----+-------+"; "| 1  | alice |"; "| 22 | bo    |"; "+----+-------+"])).
Proof.
  destruct (WriteTable_correct ["id"; "name"] [["1"; "alice"]; ["22"; "bo"]] "" ltac:(by repeat constructor)) as [HW _].
  exact HW.
Defined.
