(* ===== verification/Strtod.v ===== *)
(** [std::stod] of the standard library, which the parser applies to decimal literals:
    [strtod] in the "C" locale, with its conversions to binary64 and its range errors. *)

From S2P Require Import Prelude Scalar.
From Stdlib Require Import SpecFloat.

#[local] Open Scope string_scope.
#[local] Open Scope Z_scope.

(** ** Correct rounding of a quotient of integers *)

(** [num / den] in binary64, rounded to nearest even ([SFdiv] on integers of any size). *)
Definition round_ratio (s : bool) (num den : Z) : f64 :=
  if num =? 0 then S754_zero s
  else let '(q, e, l) := SFdiv_core_binary 53 1024 num 0 den 0 in binary_round_aux 53 1024 s q e l.

(** The value is exactly [num / den]. *)
Definition is_exact (x : f64) (num den : Z) : bool :=
  match x with
  | S754_zero _ => num =? 0
  | S754_finite _ m e => if 0 <=? e then Zpos m * 2 ^ e * den =? num else Zpos m * den =? num * 2 ^ (- e)
  | _ => false
  end.

(** Less than the smallest normal number also after rounding to 53 bits. *)
Definition is_tiny (num den : Z) : bool := num * 2 ^ 1022 * 2 ^ 54 <? den * (2 ^ 54 - 1).

(** [ERANGE]: the value overflows, or underflows and is inexact. *)
Definition range_error (x : f64) (num den : Z) : bool :=
  match x with S754_infinity _ => true | _ => is_tiny num den && negb (is_exact x num den) end.

(** ** The text *)

Definition code (c : ascii) : Z := Z.of_N (N_of_ascii c).
Definition digit_value (base : Z) (c : ascii) : option Z :=
  let v :=
    if (48 <=? code c) && (code c <=? 57) then code c - 48
    else if (97 <=? code c) && (code c <=? 102) then code c - 87
    else if (65 <=? code c) && (code c <=? 70) then code c - 55
    else 99 in
  if v <? base then Some v else None.

Definition is_space (c : ascii) : bool := (code c =? 32) || ((9 <=? code c) && (code c <=? 13)).
Definition to_lower (c : ascii) : ascii := if (65 <=? code c) && (code c <=? 90) then ascii_of_N (Z.to_N (code c + 32)) else c.

Fixpoint skip_spaces (l : list ascii) : list ascii :=
  match l with c :: l' => if is_space c then skip_spaces l' else l | [] => [] end.

(** The digits at the front: their value after [acc], how many there are, and the rest. *)
Fixpoint scan_digits (base acc : Z) (n : nat) (l : list ascii) : Z * nat * list ascii :=
  match l with
  | c :: l' =>
      match digit_value base c with
      | Some d => scan_digits base (acc * base + d) (S n) l'
      | None => (acc, n, l)
      end
  | [] => (acc, n, [])
  end.

Definition scan_sign (l : list ascii) : bool * list ascii :=
  match l with
  | "-"%char :: l' => (true, l')
  | "+"%char :: l' => (false, l')
  | _ => (false, l)
  end.

(** The exponent after [e] (or [p]): 0 when no digit follows. *)
Definition scan_exponent (marker : ascii) (l : list ascii) : Z :=
  match l with
  | c :: l' =>
      if bool_decide (to_lower c = marker) then
        let '(negative, l') := scan_sign l' in
        let '(e, _, _) := scan_digits 10 0 0 l' in
        if negative then - e else e
      else 0
  | [] => 0
  end.

(** Digits with an optional point: the value without the point, the digits after it, and
    whether there is a digit. *)
Definition scan_mantissa (base : Z) (l : list ascii) : Z * nat * bool * list ascii :=
  let '(whole, n, l) := scan_digits base 0 0 l in
  let '(m, k, rest) :=
    match l with
    | "."%char :: l' => let '(m, k, rest) := scan_digits base whole 0 l' in (m, k, rest)
    | _ => (whole, 0%nat, l)
    end in
  (m, k, (0 <? n + k)%nat, rest).

(** [a * b ^ e] as a quotient. *)
Definition scaled (a b e : Z) (den : Z) : Z * Z := if 0 <=? e then (a * b ^ e, den) else (a, den * b ^ (- e)).

Fixpoint prefix_of (word : list ascii) (l : list ascii) : bool :=
  match word, l with
  | [], _ => true
  | w :: word, c :: l => bool_decide (to_lower c = w) && prefix_of word l
  | _, [] => false
  end.

Definition rounded (s : bool) (num den : Z) : f64 * bool := let x := round_ratio s num den in (x, range_error x num den).

Definition strtod_decimal (s : bool) (l : list ascii) : option (f64 * bool) :=
  let '(m, k, found, rest) := scan_mantissa 10 l in
  if negb found then None
  else let '(num, den) := scaled m 10 (scan_exponent "e"%char rest - Z.of_nat k) 1 in Some (rounded s num den).

Definition strtod_hex (s : bool) (l : list ascii) : option (f64 * bool) :=
  let '(m, k, found, rest) := scan_mantissa 16 l in
  if negb found then None
  else let '(num, den) := scaled m 2 (scan_exponent "p"%char rest - 4 * Z.of_nat k) 1 in Some (rounded s num den).

(** The value and whether [errno] is [ERANGE]; [None] when nothing can be converted. *)
Definition strtod (text : string) : option (f64 * bool) :=
  let '(s, l) := scan_sign (skip_spaces (list_ascii_of_string text)) in
  if prefix_of (list_ascii_of_string "inf") l then Some (S754_infinity s, false)
  else if prefix_of (list_ascii_of_string "nan") l then Some (S754_nan, false)
  else if prefix_of (list_ascii_of_string "0x") l then
    match strtod_hex s (drop 2 l) with Some r => Some r | None => Some (S754_zero s, false) end
  else strtod_decimal s l.

Definition stod (text : string) : result f64 :=
  match strtod text with
  | None => Throw (InvalidArgument "stod")
  | Some (x, false) => mret x
  | Some (_, true) => Throw (OutOfRange "stod")
  end.

Example stod_ex : map stod ["1.5"; ".25"; "5."; "1e3"; "3000000000"; "-2.5E-1"; "0x1p4"; "x"; "1e400"; "1e-400"; "4.9e-324"; "12abc"] =
  [Ok (f64_div (f64_of_int 3) (f64_of_int 2)); Ok (f64_div (f64_of_int 1) (f64_of_int 4)); Ok (f64_of_int 5); Ok (f64_of_int 1000);
   Ok (f64_of_int 3000000000); Ok (f64_div (f64_of_int (-1)) (f64_of_int 4)); Ok (f64_of_int 16); Throw (InvalidArgument "stod");
   Throw (OutOfRange "stod"); Throw (OutOfRange "stod"); Throw (OutOfRange "stod"); Ok (f64_of_int 12)].
Proof. vm_compute. reflexivity. Qed.
