(* ===== verification/Parser.v ===== *)
(** Model of [src/binder/parser.cpp]: the syntax tree of a statement from the parse tree of
    libpg_query. The library is not part of the repository: its parser and the messages
    of its generated header are an interface ([PgQuery]) with an accessor per field the
    sources read. A pointer to a message is an option, and following a null pointer, or
    a member of a union that is not the active one, is undefined. *)

From S2P Require Import Prelude Scalar Expr Ast Strtod.

#[local] Open Scope string_scope.
#[local] Open Scope Z_scope.

(** ** libpg_query *)

(** The enumerators the sources name; the others behave alike. *)
Inductive NodeCase : Type :=
  | NODE_A_CONST | NODE_COLUMN_REF | NODE_A_EXPR | NODE_BOOL_EXPR | NODE_FUNC_CALL | NODE_RANGE_VAR | NODE_JOIN_EXPR
  | NODE_STRING | NODE_A_STAR | NODE_RES_TARGET | NODE_SELECT_STMT | NODE_LIST | NODE_COLUMN_DEF | NODE_INSERT_STMT
  | NODE_CREATE_STMT | NODE_OTHER.
#[global] Instance NodeCase_eq_dec : EqDecision NodeCase.
Proof. solve_decision. Defined.

Inductive ValCase : Type := VAL_IVAL | VAL_FVAL | VAL_SVAL | VAL_OTHER.
Inductive BoolExprType : Type := NOT_EXPR | AND_EXPR | OR_EXPR.
#[global] Instance BoolExprType_eq_dec : EqDecision BoolExprType.
Proof. solve_decision. Defined.

Class PgQuery : Type := {
  Protobuf : Type;
  PgNode : Type;
  PgAConst : Type;
  PgColumnRef : Type;
  PgAExpr : Type;
  PgBoolExpr : Type;
  PgFuncCall : Type;
  PgRangeVar : Type;
  PgJoinExpr : Type;
  PgResTarget : Type;
  PgSelectStmt : Type;
  PgInsertStmt : Type;
  PgCreateStmt : Type;
  PgColumnDef : Type;
  PgTypeName : Type;
  (** [pg_query_parse_protobuf]: an error message or the packed tree, and the unpacked
      statements, a null pointer when unpacking fails. *)
  parse_protobuf : string -> string + Protobuf;
  unpack : Protobuf -> option (list (option PgNode));
  (** [PgQuery__Node]: the case and the members of the union. *)
  node_case : PgNode -> NodeCase;
  node_string : PgNode -> option string;
  node_a_const : PgNode -> option PgAConst;
  node_column_ref : PgNode -> option PgColumnRef;
  node_a_expr : PgNode -> option PgAExpr;
  node_bool_expr : PgNode -> option PgBoolExpr;
  node_func_call : PgNode -> option PgFuncCall;
  node_range_var : PgNode -> option PgRangeVar;
  node_join_expr : PgNode -> option PgJoinExpr;
  node_res_target : PgNode -> option PgResTarget;
  node_select_stmt : PgNode -> option PgSelectStmt;
  node_insert_stmt : PgNode -> option PgInsertStmt;
  node_create_stmt : PgNode -> option PgCreateStmt;
  node_column_def : PgNode -> option PgColumnDef;
  node_list : PgNode -> option (list PgNode);
  isnull : PgAConst -> bool;
  val_case : PgAConst -> ValCase;
  ival : PgAConst -> option Z;
  fval : PgAConst -> option string;
  sval : PgAConst -> option string;
  ref_fields : PgColumnRef -> list PgNode;
  expr_name : PgAExpr -> list PgNode;
  lexpr : PgAExpr -> option PgNode;
  rexpr : PgAExpr -> option PgNode;
  boolop : PgBoolExpr -> BoolExprType;
  bool_args : PgBoolExpr -> list PgNode;
  funcname : PgFuncCall -> list PgNode;
  func_args : PgFuncCall -> list PgNode;
  agg_star : PgFuncCall -> bool;
  relname : PgRangeVar -> string;
  range_alias : PgRangeVar -> option string;
  join_is_inner : PgJoinExpr -> bool;
  larg : PgJoinExpr -> option PgNode;
  rarg : PgJoinExpr -> option PgNode;
  quals : PgJoinExpr -> option PgNode;
  target_name : PgResTarget -> string;
  target_val : PgResTarget -> option PgNode;
  target_list : PgSelectStmt -> list PgNode;
  from_clause : PgSelectStmt -> list PgNode;
  pg_where_clause : PgSelectStmt -> option PgNode;
  group_clause : PgSelectStmt -> list PgNode;
  pg_having_clause : PgSelectStmt -> option PgNode;
  distinct_clause : PgSelectStmt -> list PgNode;
  sort_clause : PgSelectStmt -> list PgNode;
  limit_count : PgSelectStmt -> option PgNode;
  limit_offset : PgSelectStmt -> option PgNode;
  has_with : PgSelectStmt -> bool;
  is_set_operation : PgSelectStmt -> bool;
  values_lists : PgSelectStmt -> list PgNode;
  insert_relation : PgInsertStmt -> option PgRangeVar;
  insert_cols : PgInsertStmt -> list PgNode;
  insert_select : PgInsertStmt -> option PgNode;
  create_relation : PgCreateStmt -> option PgRangeVar;
  table_elts : PgCreateStmt -> list PgNode;
  colname : PgColumnDef -> string;
  type_name : PgColumnDef -> option PgTypeName;
  type_names : PgTypeName -> list PgNode;
}.

(** [*p]. *)
Definition deref {A} (p : option A) : result A := match p with Some a => Ok a | None => Undefined end.

(** ** Expressions *)

Definition ToOperator (op_name : string) : result BinaryOperator :=
  if bool_decide (op_name = "=") then mret kEqual
  else if bool_decide (op_name = "<>") || bool_decide (op_name = "!=") then mret kNotEqual
  else if bool_decide (op_name = "<") then mret kLessThan
  else if bool_decide (op_name = "<=") then mret kLessThanOrEqual
  else if bool_decide (op_name = ">") then mret kGreaterThan
  else if bool_decide (op_name = ">=") then mret kGreaterThanOrEqual
  else if bool_decide (op_name = "+") then mret kAdd
  else if bool_decide (op_name = "-") then mret kSubtract
  else if bool_decide (op_name = "*") then mret kMultiply
  else if bool_decide (op_name = "/") then mret kDivide
  else Throw (ParseException ("Unsupported operator: " ++ op_name)).

Section Parser.
Context `{PgQuery}.

Definition ConvertAConst (value : PgAConst) : result RawExpression :=
  if isnull value then mret RawMakeNullConst
  else
    match val_case value with
    | VAL_IVAL => i ← deref (ival value); mret (RawMakeIntConst i)
    | VAL_FVAL => text ← deref (fval value); x ← stod text; mret (RawMakeFloatConst x)
    | VAL_SVAL => s ← deref (sval value); mret (RawMakeStringConst s)
    | VAL_OTHER => Throw (ParseException "Unsupported constant shape in A_Const")
    end.

Definition is_string_node (node : PgNode) : bool := bool_decide (node_case node = NODE_STRING).

Definition ConvertColumnRef (ref : PgColumnRef) : result RawExpression :=
  let unsupported := Throw (ParseException "Unsupported column reference shape (e.g. qualified '*' is not supported)") in
  match ref_fields ref with
  | [field] =>
      if is_string_node field then s ← deref (node_string field); mret (RawMakeColumnRef None s) else unsupported
  | [qualifier; field] =>
      if is_string_node qualifier && is_string_node field then
        t ← deref (node_string qualifier);
        s ← deref (node_string field);
        mret (RawMakeColumnRef (Some t) s)
      else unsupported
  | _ => unsupported
  end.

(** The functions that call [ConvertExpr]; the order in which the operands of one node are
    converted is not specified, the model takes them from the left. *)
Section Recursive.
Context (ConvertExpr : PgNode -> result RawExpression).

Definition ConvertAExpr (expr : PgAExpr) : result RawExpression :=
  match expr_name expr with
  | [name] =>
      op_name ← deref (node_string name);
      op ← ToOperator op_name;
      l ← deref (lexpr expr);
      l ← ConvertExpr l;
      r ← deref (rexpr expr);
      r ← ConvertExpr r;
      mret (RawMakeBinaryOp op l r)
  | _ => Throw (ParseException "Unsupported operator name shape")
  end.

Definition ConvertBoolExpr (expr : PgBoolExpr) : result RawExpression :=
  if bool_decide (boolop expr = NOT_EXPR) then
    match bool_args expr with
    | [arg] => operand ← ConvertExpr arg; mret (RawMakeUnaryOp kNot operand)
    | _ => Throw (ParseException "NOT expects exactly one operand")
    end
  else
    let is_and := bool_decide (boolop expr = AND_EXPR) in
    match bool_args expr with
    | first :: (_ :: _) as rest =>
        result ← ConvertExpr first;
        for_each rest (fun arg result => r ← ConvertExpr arg; mret (RawMakeBinaryOp (if is_and then kAnd else kOr) result r)) result
    | _ => Throw (ParseException "AND/OR expects at least two operands")
    end.

Definition convert_all (nodes : list PgNode) : result (list RawExpression) :=
  for_each nodes (fun node exprs => e ← ConvertExpr node; mret (exprs ++ [e])%list) [].

Definition ConvertFuncCall (call : PgFuncCall) : result RawExpression :=
  match funcname call with
  | [name] =>
      args ← convert_all (func_args call);
      s ← deref (node_string name);
      mret (RawMakeFunctionCall s args (agg_star call))
  | _ => Throw (ParseException "Qualified function names are not supported")
  end.

(** An expression that may be absent: a null pointer stays null. *)
Definition convert_opt (p : option PgNode) : result (option RawExpression) :=
  match p with None => mret None | Some node => e ← ConvertExpr node; mret (Some e) end.
End Recursive.

Fixpoint ConvertExpr (fuel : nat) (node : PgNode) : result RawExpression :=
  match fuel with
  | O => OutOfFuel
  | S fuel =>
      match node_case node with
      | NODE_A_CONST => value ← deref (node_a_const node); ConvertAConst value
      | NODE_COLUMN_REF => ref ← deref (node_column_ref node); ConvertColumnRef ref
      | NODE_A_EXPR => expr ← deref (node_a_expr node); ConvertAExpr (ConvertExpr fuel) expr
      | NODE_BOOL_EXPR => expr ← deref (node_bool_expr node); ConvertBoolExpr (ConvertExpr fuel) expr
      | NODE_FUNC_CALL => call ← deref (node_func_call node); ConvertFuncCall (ConvertExpr fuel) call
      | _ => Throw (ParseException "Unsupported expression node type")
      end
  end.

(** ** FROM items *)

Definition ConvertRangeVar (rv : PgRangeVar) : TableRefNode := MakeBaseTableRef (relname rv) (range_alias rv).

Definition inner_join_message : string :=
  "Only INNER JOIN is supported -- no locked decision addresses outer-join NULL-padding semantics, and Hash Join's design has no mechanism for it".

Definition ConvertJoinExpr (ConvertFromItem : PgNode -> result TableRefNode) (ConvertExpr : PgNode -> result RawExpression)
    (join : PgJoinExpr) : result TableRefNode :=
  if negb (join_is_inner join) then Throw (ParseException inner_join_message)
  else
    l ← deref (larg join);
    left ← ConvertFromItem l;
    r ← deref (rarg join);
    right ← ConvertFromItem r;
    on_condition ← convert_opt ConvertExpr (quals join);
    mret (MakeJoinRef (Some left) (Some right) on_condition).

Fixpoint ConvertFromItem (fuel : nat) (node : PgNode) : result TableRefNode :=
  match fuel with
  | O => OutOfFuel
  | S fuel =>
      match node_case node with
      | NODE_RANGE_VAR => rv ← deref (node_range_var node); mret (ConvertRangeVar rv)
      | NODE_JOIN_EXPR => join ← deref (node_join_expr node); ConvertJoinExpr (ConvertFromItem fuel) (ConvertExpr fuel) join
      | _ => Throw (ParseException "Unsupported FROM-clause item")
      end
  end.

(** ** Statements *)

Definition IsStarColumnRef (node : PgNode) : result bool :=
  if bool_decide (node_case node = NODE_COLUMN_REF) then
    ref ← deref (node_column_ref node);
    match ref_fields ref with [field] => mret (bool_decide (node_case field = NODE_A_STAR)) | _ => mret false end
  else mret false.

Definition ConvertTargetItem (fuel : nat) (node : PgNode) : result SelectItem :=
  if negb (bool_decide (node_case node = NODE_RES_TARGET)) then Throw (ParseException "Expected ResTarget in select list")
  else
    target ← deref (node_res_target node);
    val ← deref (target_val target);
    star ← IsStarColumnRef val;
    if star : bool then mret (mk_select_item true None)
    else (e ← ConvertExpr fuel val; mret (mk_select_item false (Some e))).

Definition ConvertSelectStmt (fuel : nat) (stmt : PgSelectStmt) : result SelectNode :=
  select_list ← for_each (target_list stmt) (fun node items => item ← ConvertTargetItem fuel node; mret (items ++ [item])%list) [];
  from_tables ← for_each (from_clause stmt) (fun node items => item ← ConvertFromItem fuel node; mret (items ++ [item])%list) [];
  where_clause ← convert_opt (ConvertExpr fuel) (pg_where_clause stmt);
  group_by ← convert_all (ConvertExpr fuel) (group_clause stmt);
  having_clause ← convert_opt (ConvertExpr fuel) (pg_having_clause stmt);
  mret (mk_select select_list from_tables where_clause group_by having_clause
    (0 <? length (distinct_clause stmt))%nat (0 <? length (sort_clause stmt))%nat
    (bool_decide (is_Some (limit_count stmt)) || bool_decide (is_Some (limit_offset stmt)))
    (has_with stmt) (is_set_operation stmt)).

(** One row of VALUES. *)
Definition convert_row (fuel : nat) (row : PgNode) : result (list RawExpression) :=
  if negb (bool_decide (node_case row = NODE_LIST)) then Throw (ParseException "Malformed VALUES row")
  else (items ← deref (node_list row); convert_all (ConvertExpr fuel) items).

Definition insert_column (node : PgNode) : result string :=
  if negb (bool_decide (node_case node = NODE_RES_TARGET)) then Throw (ParseException "Unsupported INSERT column-list entry")
  else (target ← deref (node_res_target node); mret (target_name target)).

Definition ConvertInsertStmt (fuel : nat) (stmt : PgInsertStmt) : result InsertNode :=
  relation ← deref (insert_relation stmt);
  columns ← for_each (insert_cols stmt) (fun node columns => name ← insert_column node; mret (columns ++ [name])%list) [];
  match insert_select stmt with
  | None => Throw (ParseException "INSERT must supply a VALUES list")
  | Some node =>
      if negb (bool_decide (node_case node = NODE_SELECT_STMT)) then Throw (ParseException "INSERT must supply a VALUES list")
      else
        values ← deref (node_select_stmt node);
        rows ← for_each (values_lists values) (fun row rows => r ← convert_row fuel row; mret (rows ++ [r])%list) [];
        mret (mk_insert_node (relname relation) columns rows)
  end.

Definition convert_column (elt : PgNode) : result RawColumnDef :=
  if negb (bool_decide (node_case elt = NODE_COLUMN_DEF))
  then Throw (ParseException "Only plain column definitions are supported in CREATE TABLE")
  else
    col ← deref (node_column_def elt);
    match type_name col with
    | None => Throw (ParseException "Column definition is missing a type name")
    | Some ty =>
        match last (type_names ty) with
        | None => Throw (ParseException "Column definition is missing a type name")
        | Some name => raw_type ← deref (node_string name); mret (mk_raw_column (colname col) raw_type)
        end
    end.

Definition ConvertCreateStmt (stmt : PgCreateStmt) : result CreateTableNode :=
  relation ← deref (create_relation stmt);
  columns ← for_each (table_elts stmt) (fun elt columns => column ← convert_column elt; mret (columns ++ [column])%list) [];
  mret (mk_create_node (relname relation) columns).

(** [std::string::c_str] as a C string: it ends at the first null character. *)
Fixpoint c_str (s : string) : string :=
  match s with String c s => if bool_decide (c = "000"%char) then "" else String c (c_str s) | "" => "" end.

Definition ParseSingleStatement (fuel : nat) (sql : string) : result ParsedStatement :=
  match parse_protobuf (c_str sql) with
  | inl message => Throw (ParseException message)
  | inr tree =>
      match unpack tree with
      | None => Throw (ParseException "Failed to unpack parse tree")
      | Some [stmt] =>
          stmt ← deref stmt;
          match node_case stmt with
          | NODE_SELECT_STMT => s ← deref (node_select_stmt stmt); SelectStatement <$> ConvertSelectStmt fuel s
          | NODE_INSERT_STMT => s ← deref (node_insert_stmt stmt); InsertStatement <$> ConvertInsertStmt fuel s
          | NODE_CREATE_STMT => s ← deref (node_create_stmt stmt); CreateTableStatement <$> ConvertCreateStmt s
          | _ => Throw (ParseException "Unsupported statement type")
          end
      | Some _ => Throw (ParseException "Expected exactly one SQL statement")
      end
  end.

End Parser.
