(* ===== verification/ParseTree.v ===== *)
(** The trees of libpg_query: the class of parsers whose trees are finite, and an instance for
    examples, whose messages are one inductive type and whose parser knows the texts of a
    table. *)

From S2P Require Import Prelude Scalar Expr Ast Strtod Parser.

#[local] Open Scope string_scope.
#[local] Open Scope Z_scope.

(** ** Parse trees are finite *)

Section Children.
Context `{PgQuery}.

(** The nodes below a node that the conversion visits. *)
Definition expr_children (node : PgNode) : list PgNode :=
  match node_case node with
  | NODE_A_EXPR =>
      match node_a_expr node with Some e => option_list (lexpr e) ++ option_list (rexpr e) | None => [] end
  | NODE_BOOL_EXPR => match node_bool_expr node with Some e => bool_args e | None => [] end
  | NODE_FUNC_CALL => match node_func_call node with Some c => func_args c | None => [] end
  | _ => []
  end%list.

Definition from_children (node : PgNode) : list PgNode :=
  match node_case node with
  | NODE_JOIN_EXPR =>
      match node_join_expr node with
      | Some j => option_list (larg j) ++ option_list (rarg j) ++ option_list (quals j)
      | None => []
      end
  | _ => []
  end%list.

End Children.

(** An unpacked message is a finite tree: its nodes have a height. *)
Class PgTree `{PgQuery} : Type := {
  height : PgNode -> nat;
  height_expr node child : child ∈ expr_children node -> (height child < height node)%nat;
  height_from node child : child ∈ from_children node -> (height child < height node)%nat;
}.

(** ** An instance *)

(** One constructor per message that the sources read. *)
Inductive pg : Type :=
  | PNull
  | PInt (value : Z)
  | PFloat (text : string)
  | PText (value : string)
  | PName (name : string)
  | PStar
  | PColumn (fields : list pg)
  | PExpr (op : string) (left right : option pg)
  | PBool (op : BoolExprType) (args : list pg)
  | PCall (name : string) (args : list pg) (star : bool)
  | PTable (name : string) (alias : option string)
  | PJoin (inner : bool) (left right condition : option pg)
  | PTarget (name : string) (val : option pg)
  | PSelect (targets from : list pg) (condition : option pg) (group : list pg) (having : option pg) (order : list pg)
  | PInsert (table : string) (columns : list pg) (select : option pg)
  | PValues (rows : list pg)
  | PList (items : list pg)
  | PCreate (table : string) (columns : list pg)
  | PColumnDef (name : string) (types : list pg)
  | PDrop.

Definition pg_case (n : pg) : NodeCase :=
  match n with
  | PNull | PInt _ | PFloat _ | PText _ => NODE_A_CONST
  | PName _ => NODE_STRING | PStar => NODE_A_STAR | PColumn _ => NODE_COLUMN_REF | PExpr _ _ _ => NODE_A_EXPR | PBool _ _ => NODE_BOOL_EXPR
  | PCall _ _ _ => NODE_FUNC_CALL | PTable _ _ => NODE_RANGE_VAR | PJoin _ _ _ _ => NODE_JOIN_EXPR | PTarget _ _ => NODE_RES_TARGET
  | PSelect _ _ _ _ _ _ | PValues _ => NODE_SELECT_STMT | PInsert _ _ _ => NODE_INSERT_STMT | PCreate _ _ => NODE_CREATE_STMT
  | PColumnDef _ _ => NODE_COLUMN_DEF | PList _ => NODE_LIST | PDrop => NODE_OTHER
  end.

(** The messages of a node are the node itself. *)
Definition fixture (parse : string -> string + pg) : PgQuery := {|
  Protobuf := pg; PgNode := pg; PgAConst := pg; PgColumnRef := pg; PgAExpr := pg; PgBoolExpr := pg; PgFuncCall := pg; PgRangeVar := pg;
  PgJoinExpr := pg; PgResTarget := pg; PgSelectStmt := pg; PgInsertStmt := pg; PgCreateStmt := pg; PgColumnDef := pg; PgTypeName := list pg;
  parse_protobuf := parse; unpack n := Some [Some n]; node_case := pg_case;
  node_string n := match n with PName s => Some s | _ => None end;
  node_a_const := Some; node_column_ref := Some; node_a_expr := Some; node_bool_expr := Some; node_func_call := Some; node_range_var := Some;
  node_join_expr := Some; node_res_target := Some; node_select_stmt := Some; node_insert_stmt := Some; node_create_stmt := Some;
  node_column_def := Some; node_list n := match n with PList items => Some items | _ => None end;
  isnull n := match n with PNull => true | _ => false end;
  val_case n := match n with PInt _ => VAL_IVAL | PFloat _ => VAL_FVAL | PText _ => VAL_SVAL | _ => VAL_OTHER end;
  ival n := match n with PInt z => Some z | _ => None end;
  fval n := match n with PFloat s => Some s | _ => None end;
  sval n := match n with PText s => Some s | _ => None end;
  ref_fields n := match n with PColumn fields => fields | _ => [] end;
  expr_name n := match n with PExpr op _ _ => [PName op] | _ => [] end;
  lexpr n := match n with PExpr _ l _ => l | _ => None end;
  rexpr n := match n with PExpr _ _ r => r | _ => None end;
  boolop n := match n with PBool op _ => op | _ => AND_EXPR end;
  bool_args n := match n with PBool _ args => args | _ => [] end;
  funcname n := match n with PCall name _ _ => [PName name] | _ => [] end;
  func_args n := match n with PCall _ args _ => args | _ => [] end;
  agg_star n := match n with PCall _ _ star => star | _ => false end;
  relname n := match n with PTable name _ => name | _ => "" end;
  range_alias n := match n with PTable _ alias => alias | _ => None end;
  join_is_inner n := match n with PJoin inner _ _ _ => inner | _ => false end;
  larg n := match n with PJoin _ l _ _ => l | _ => None end;
  rarg n := match n with PJoin _ _ r _ => r | _ => None end;
  quals n := match n with PJoin _ _ _ c => c | _ => None end;
  target_name n := match n with PTarget name _ => name | _ => "" end;
  target_val n := match n with PTarget _ val => val | _ => None end;
  target_list n := match n with PSelect targets _ _ _ _ _ => targets | _ => [] end;
  from_clause n := match n with PSelect _ from _ _ _ _ => from | _ => [] end;
  pg_where_clause n := match n with PSelect _ _ c _ _ _ => c | _ => None end;
  group_clause n := match n with PSelect _ _ _ group _ _ => group | _ => [] end;
  pg_having_clause n := match n with PSelect _ _ _ _ having _ => having | _ => None end;
  distinct_clause _ := []; sort_clause n := match n with PSelect _ _ _ _ _ order => order | _ => [] end;
  limit_count _ := None; limit_offset _ := None; has_with _ := false; is_set_operation _ := false;
  values_lists n := match n with PValues rows => rows | _ => [] end;
  insert_relation n := match n with PInsert table _ _ => Some (PTable table None) | _ => None end;
  insert_cols n := match n with PInsert _ columns _ => columns | _ => [] end;
  insert_select n := match n with PInsert _ _ select => select | _ => None end;
  create_relation n := match n with PCreate table _ => Some (PTable table None) | _ => None end;
  table_elts n := match n with PCreate _ columns => columns | _ => [] end;
  colname n := match n with PColumnDef name _ => name | _ => "" end;
  type_name n := match n with PColumnDef _ types => Some types | _ => None end;
  type_names types := types;
|}.

Fixpoint pg_height (n : pg) : nat :=
  let opt p := match p with Some n => pg_height n | None => 0%nat end in
  match n with
  | PExpr _ l r => S (opt l + opt r)
  | PBool _ args => S (list_max (map pg_height args))
  | PCall _ args _ => S (list_max (map pg_height args))
  | PJoin _ l r c => S (opt l + opt r + opt c)
  | _ => 0
  end.

Lemma list_max_elem {A} (f : A -> nat) xs x : x ∈ xs -> (f x <= list_max (map f xs))%nat.
Proof.
  intros Hx. pose proof (proj1 (list_max_le (map f xs) _) (le_n _)) as HF. rewrite List.Forall_forall in HF.
  apply HF, in_map. by apply list_elem_of_In.
Qed.

Lemma pg_expr_children parse (n child : pg) : child ∈ @expr_children (fixture parse) n -> (pg_height child < pg_height n)%nat.
Proof.
  destruct n as [| | | | | | |op l r|op args|name args star|name alias|inner l r c|name val|targets from c group having order|table columns values|rows|items|table columns|name types|];
    simpl; try by intros ?%elem_of_nil.
  - destruct l, r; simpl; intros Hc; repeat (apply elem_of_cons in Hc as [->|Hc]; [lia|]); by apply elem_of_nil in Hc.
  - intros Hc. pose proof (list_max_elem pg_height args child Hc). lia.
  - intros Hc. pose proof (list_max_elem pg_height args child Hc). lia.
Qed.

Lemma pg_from_children parse (n child : pg) : child ∈ @from_children (fixture parse) n -> (pg_height child < pg_height n)%nat.
Proof.
  destruct n as [| | | | | | |op l r|op args|name args star|name alias|inner l r c|name val|targets from c group having order|table columns values|rows|items|table columns|name types|];
    simpl; try by intros ?%elem_of_nil.
  destruct l, r, c; simpl; intros Hc; repeat (apply elem_of_cons in Hc as [->|Hc]; [lia|]); by apply elem_of_nil in Hc.
Qed.

Definition fixture_tree (parse : string -> string + pg) : @PgTree (fixture parse) :=
  @Build_PgTree (fixture parse) pg_height (pg_expr_children parse) (pg_from_children parse).

(** ** Shorthand *)

Definition p_column (name : string) : pg := PColumn [PName name].
Definition p_of (table name : string) : pg := PColumn [PName table; PName name].
Definition p_op (op : string) (l r : pg) : pg := PExpr op (Some l) (Some r).
Definition p_item (e : pg) : pg := PTarget "" (Some e).
Definition p_star : pg := p_item (PColumn [PStar]).
Definition p_table (name : string) : pg := PTable name None.
Definition p_create (table : string) (columns : list (string * string)) : pg :=
  PCreate table (map (fun c => PColumnDef c.1 [PName "pg_catalog"; PName c.2]) columns).
Definition p_insert (table : string) (columns : list string) (rows : list (list pg)) : pg :=
  PInsert table (map (fun c => PTarget c None) columns) (Some (PValues (map PList rows))).
Definition p_select (items from : list pg) (condition : option pg) : pg := PSelect items from condition [] None [].

(** A parser that knows the texts of a table, and takes others for errors. *)
Fixpoint parse_table (table : list (string * pg)) (sql : string) : string + pg :=
  match table with
  | [] => inl ("syntax error at or near " ++ sql)
  | (text, tree) :: table => if bool_decide (sql = text) then inr tree else parse_table table sql
  end.

(** ** A few texts *)

Definition range_node : pg :=
  PBool AND_EXPR [p_op "<" (PInt 1) (p_column "a"); p_op "<=" (p_column "a") (PInt 9); PBool NOT_EXPR [p_op "=" (p_column "a") (PInt 5)]].
Definition negated : pg := PExpr "-" None (Some (p_column "a")).
Definition negated_select : pg := p_select [p_item negated] [p_table "t"] None.
Definition copied_select : pg := p_select [p_item (p_column "a")] [p_table "u"] None.
Definition copying_insert : pg := PInsert "t" [] (Some copied_select).

Definition demo_parse : string -> string + pg := parse_table
  [("SELECT a FROM t WHERE 1 < a AND a <= 9 AND NOT a = 5", p_select [p_item (p_column "a")] [p_table "t"] (Some range_node));
   ("CREATE TABLE t (a INTEGER)", p_create "t" [("a", "int4")]);
   ("INSERT INTO t VALUES (7), (-8)", p_insert "t" [] [[PInt 7]; [PInt (-8)]]);
   ("SELECT a FROM t", p_select [p_item (p_column "a")] [p_table "t"] None);
   ("SELECT -a FROM t", negated_select);
   ("INSERT INTO t SELECT a FROM u", copying_insert)].

#[global] Instance demo_pg : PgQuery := fixture demo_parse.
#[global] Instance demo_tree : @PgTree demo_pg := fixture_tree demo_parse.
