(* ===== verification/ParserSpec.v ===== *)
(** What [Parser] converts: the relation between expressions of the parse tree and syntax
    trees, totality of the conversion, and the statements it takes for others. *)

From S2P Require Import Prelude Scalar Expr Ast Strtod Parser ParseTree.

#[local] Open Scope string_scope.
#[local] Open Scope Z_scope.

(** ** What an expression node stands for *)

Section Spec.
Context `{PgTree}.

Inductive spelled : string -> BinaryOperator -> Prop :=
  | spelled_eq : spelled "=" kEqual
  | spelled_ne : spelled "<>" kNotEqual
  | spelled_ne' : spelled "!=" kNotEqual
  | spelled_lt : spelled "<" kLessThan
  | spelled_le : spelled "<=" kLessThanOrEqual
  | spelled_gt : spelled ">" kGreaterThan
  | spelled_ge : spelled ">=" kGreaterThanOrEqual
  | spelled_add : spelled "+" kAdd
  | spelled_sub : spelled "-" kSubtract
  | spelled_mul : spelled "*" kMultiply
  | spelled_div : spelled "/" kDivide.

(** [AND] and [OR] of several operands associate to the left. *)
Definition bool_chain (is_and : bool) (first : RawExpression) (rest : list RawExpression) : RawExpression :=
  foldl (RawMakeBinaryOp (if is_and then kAnd else kOr)) first rest.

Inductive encodes : PgNode -> RawExpression -> Prop :=
  | enc_null n c : node_case n = NODE_A_CONST -> node_a_const n = Some c -> isnull c = true -> encodes n RawMakeNullConst
  | enc_int n c i : node_case n = NODE_A_CONST -> node_a_const n = Some c -> isnull c = false ->
      val_case c = VAL_IVAL -> ival c = Some i -> encodes n (RawMakeIntConst i)
  | enc_float n c text x : node_case n = NODE_A_CONST -> node_a_const n = Some c -> isnull c = false ->
      val_case c = VAL_FVAL -> fval c = Some text -> stod text = Ok x -> encodes n (RawMakeFloatConst x)
  | enc_string n c s : node_case n = NODE_A_CONST -> node_a_const n = Some c -> isnull c = false ->
      val_case c = VAL_SVAL -> sval c = Some s -> encodes n (RawMakeStringConst s)
  | enc_column n r f s : node_case n = NODE_COLUMN_REF -> node_column_ref n = Some r -> ref_fields r = [f] ->
      node_case f = NODE_STRING -> node_string f = Some s -> encodes n (RawMakeColumnRef None s)
  | enc_qualified n r q t f s : node_case n = NODE_COLUMN_REF -> node_column_ref n = Some r -> ref_fields r = [q; f] ->
      node_case q = NODE_STRING -> node_case f = NODE_STRING -> node_string q = Some t -> node_string f = Some s ->
      encodes n (RawMakeColumnRef (Some t) s)
  | enc_binary n e name text op l r el er : node_case n = NODE_A_EXPR -> node_a_expr n = Some e -> expr_name e = [name] ->
      node_string name = Some text -> spelled text op -> lexpr e = Some l -> rexpr e = Some r ->
      encodes l el -> encodes r er -> encodes n (RawMakeBinaryOp op el er)
  | enc_not n e arg ea : node_case n = NODE_BOOL_EXPR -> node_bool_expr n = Some e -> boolop e = NOT_EXPR ->
      bool_args e = [arg] -> encodes arg ea -> encodes n (RawMakeUnaryOp kNot ea)
  | enc_chain n e first rest e0 es : node_case n = NODE_BOOL_EXPR -> node_bool_expr n = Some e -> boolop e <> NOT_EXPR ->
      bool_args e = first :: rest -> rest <> [] -> encodes first e0 -> Forall2 encodes rest es ->
      encodes n (bool_chain (bool_decide (boolop e = AND_EXPR)) e0 es)
  | enc_call n c name s args : node_case n = NODE_FUNC_CALL -> node_func_call n = Some c -> funcname c = [name] ->
      node_string name = Some s -> Forall2 encodes (func_args c) args -> encodes n (RawMakeFunctionCall s args (agg_star c)).

Lemma ToOperator_spec text op : ToOperator text = Ok op <-> spelled text op.
Proof.
  unfold ToOperator, mret, result_ret. split; [|by destruct 1]. intros E. repeat case_bool_decide; simplify_eq/=; constructor.
Qed.

Lemma deref_Ok {A} (p : option A) a : deref p = Ok a <-> p = Some a.
Proof. destruct p; simpl; split; congruence. Qed.

Lemma deref_fuel {A} (p : option A) : deref p <> OutOfFuel.
Proof. by destruct p. Qed.

(** ** The conversion is sound *)

Lemma convert_chain fuel is_and rest e0 e :
  (forall n e, ConvertExpr fuel n = Ok e -> encodes n e) ->
  for_each rest (fun arg result => r ← ConvertExpr fuel arg; mret (RawMakeBinaryOp (if is_and : bool then kAnd else kOr) result r)) e0 = Ok e ->
  exists es, Forall2 encodes rest es /\ e = bool_chain is_and e0 es.
Proof.
  intros IH. revert e0. induction rest as [|arg rest IHr]; intros e0; simpl; [intros [= <-]; by exists []|].
  intros (e1 & He1 & Hrest)%bind_Ok_inv. apply bind_Ok_inv in He1 as (r & Hr & [= <-]).
  apply IHr in Hrest as (es & HF & ->). exists (r :: es). split; [constructor; [by apply IH|done]|done].
Qed.

Lemma ConvertAConst_sound n c e :
  node_case n = NODE_A_CONST -> node_a_const n = Some c -> ConvertAConst c = Ok e -> encodes n e.
Proof.
  intros Hn Hc. unfold ConvertAConst. destruct (isnull c) eqn:Hnull; [intros [= <-]; by eapply enc_null|].
  destruct (val_case c) eqn:Hv; [| | |done].
  - intros (i & Hi%deref_Ok & [= <-])%bind_Ok_inv. by eapply enc_int.
  - intros (text & Ht%deref_Ok & Hx)%bind_Ok_inv. apply bind_Ok_inv in Hx as (x & Hx & [= <-]). by eapply enc_float.
  - intros (s & Hs%deref_Ok & [= <-])%bind_Ok_inv. by eapply enc_string.
Qed.

Lemma ConvertColumnRef_sound n r e :
  node_case n = NODE_COLUMN_REF -> node_column_ref n = Some r -> ConvertColumnRef r = Ok e -> encodes n e.
Proof.
  intros Hn Hr. unfold ConvertColumnRef, is_string_node. destruct (ref_fields r) as [|f [|g [|]]] eqn:Hf; [done| | |done].
  - case_bool_decide; [|done]. intros (s & Hs%deref_Ok & [= <-])%bind_Ok_inv. by eapply enc_column.
  - repeat case_bool_decide; try done. cbn [andb]. intros (t & Ht%deref_Ok & Hx)%bind_Ok_inv.
    apply bind_Ok_inv in Hx as (s & Hs%deref_Ok & [= <-]). by eapply enc_qualified.
Qed.

Lemma ConvertExpr_sound fuel n e : ConvertExpr fuel n = Ok e -> encodes n e.
Proof.
  revert n e. induction fuel as [|fuel IH]; intros n e; [done|]. simpl. destruct (node_case n) eqn:Hn; try done.
  - intros (c & Hc%deref_Ok & HC)%bind_Ok_inv. by eapply ConvertAConst_sound.
  - intros (r & Hr%deref_Ok & HC)%bind_Ok_inv. by eapply ConvertColumnRef_sound.
  - intros (x & Hx%deref_Ok & HC)%bind_Ok_inv. unfold ConvertAExpr in HC. destruct (expr_name x) as [|name [|]] eqn:Hname; try done.
    apply bind_Ok_inv in HC as (text & Ht%deref_Ok & HC). apply bind_Ok_inv in HC as (op & Hop%ToOperator_spec & HC).
    apply bind_Ok_inv in HC as (l & Hl%deref_Ok & HC). apply bind_Ok_inv in HC as (el & Hel%IH & HC).
    apply bind_Ok_inv in HC as (r & Hr%deref_Ok & HC). apply bind_Ok_inv in HC as (er & Her%IH & [= <-]). by eapply enc_binary.
  - intros (x & Hx%deref_Ok & HC)%bind_Ok_inv. unfold ConvertBoolExpr in HC. case_bool_decide as Hop.
    + destruct (bool_args x) as [|arg [|]] eqn:Ha; try done. apply bind_Ok_inv in HC as (ea & Hea%IH & [= <-]). by eapply enc_not.
    + destruct (bool_args x) as [|first [|second rest]] eqn:Ha; try done. apply bind_Ok_inv in HC as (e0 & He0%IH & HC).
      apply (convert_chain fuel _ _ _ _ IH) in HC as (es & HF & ->). by eapply enc_chain.
  - intros (x & Hx%deref_Ok & HC)%bind_Ok_inv. unfold ConvertFuncCall in HC. destruct (funcname x) as [|name [|]] eqn:Hname; try done.
    apply bind_Ok_inv in HC as (args & HC1 & HC). apply bind_Ok_inv in HC as (s & Hs%deref_Ok & [= <-]).
    unfold convert_all in HC1. apply collect_Ok in HC1 as (ys & -> & HF). eapply enc_call; try done.
    eapply Forall2_impl; [exact HF|]. intros a b Hab. by apply IH.
Qed.

(** ** It is complete, and total on finite trees *)

Lemma height_child n child : child ∈ expr_children n -> (height child < height n)%nat.
Proof. apply height_expr. Qed.

Lemma Forall2_convert fuel (ns : list PgNode) es :
  (forall n e, n ∈ ns -> encodes n e -> ConvertExpr fuel n = Ok e) -> Forall2 encodes ns es ->
  Forall2 (fun n e => ConvertExpr fuel n = Ok e) ns es.
Proof.
  intros Hc HF. apply Forall2_same_length_lookup_2; [by eapply Forall2_length|]. intros i n e Hn He.
  apply Hc; [by eapply list_elem_of_lookup_2|by eapply Forall2_lookup_lr].
Qed.

Lemma chain_convert fuel is_and rest es e0 :
  Forall2 (fun n e => ConvertExpr fuel n = Ok e) rest es ->
  for_each rest (fun arg result => r ← ConvertExpr fuel arg; mret (RawMakeBinaryOp (if is_and : bool then kAnd else kOr) result r)) e0 =
    Ok (bool_chain is_and e0 es).
Proof. intros HF. revert e0. induction HF as [|n e rest es Hn _ IH]; intros e0; [done|]. simpl. by rewrite Hn, !bind_Ok, IH. Qed.

Lemma ConvertExpr_complete fuel n e : (height n < fuel)%nat -> encodes n e -> ConvertExpr fuel n = Ok e.
Proof.
  revert n e. induction fuel as [|fuel IH]; intros n e Hh He; [lia|].
  assert (forall child e, child ∈ expr_children n -> encodes child e -> ConvertExpr fuel child = Ok e) as Hchild.
  { intros child e' Hin. apply IH. pose proof (height_child _ _ Hin). lia. }
  unfold expr_children in Hchild. simpl. destruct He as [? c Hn Hc Hnull|? c i Hn Hc Hnull Hcase Hv|? c t x Hn Hc Hnull Hcase Hv Hx|? c s Hn Hc Hnull Hcase Hv
    |? r f s Hn Hr Hf Hfn Hs|? r q t f s Hn Hr Hf Hqn Hfn Hq Hs
    |? x name text op l r el er Hn Hx Hname Htext Hop Hl Hr Hel Her|? x arg ea Hn Hx Hop Ha Hea|? x first rest e0 es Hn Hx Hop Ha Hrest He0 Hes
    |? x name s args Hn Hx Hname Hs Hargs]; rewrite Hn in *.
  - rewrite Hc. simpl. unfold ConvertAConst. by rewrite Hnull.
  - rewrite Hc. simpl. unfold ConvertAConst. by rewrite Hnull, Hcase, Hv.
  - rewrite Hc. simpl. unfold ConvertAConst. rewrite Hnull, Hcase, Hv. simpl. by rewrite Hx.
  - rewrite Hc. simpl. unfold ConvertAConst. by rewrite Hnull, Hcase, Hv.
  - rewrite Hr. simpl. unfold ConvertColumnRef, is_string_node. rewrite Hf, bool_decide_true by done. by rewrite Hs.
  - rewrite Hr. simpl. unfold ConvertColumnRef, is_string_node. rewrite Hf, !bool_decide_true by done. simpl. by rewrite Hq, Hs.
  - rewrite Hx in *. simpl. unfold ConvertAExpr. rewrite Hname, Htext, Hl, Hr in *. simpl in *. rewrite (proj2 (ToOperator_spec _ _) Hop), bind_Ok.
    rewrite (Hchild l el), bind_Ok by (done || by constructor). rewrite (Hchild r er), bind_Ok by (done || (constructor; by constructor)). done.
  - rewrite Hx in *. simpl. unfold ConvertBoolExpr. rewrite Ha in *. rewrite bool_decide_true by done.
    by rewrite (Hchild arg ea) by (done || by constructor).
  - rewrite Hx in *. simpl. unfold ConvertBoolExpr. rewrite Ha in *. rewrite bool_decide_false by done.
    destruct rest as [|second rest]; [done|]. rewrite (Hchild first e0), bind_Ok by (done || by constructor).
    apply chain_convert, Forall2_convert; [|done]. intros m e' Hm. apply Hchild. by constructor.
  - rewrite Hx in *. simpl. unfold ConvertFuncCall. rewrite Hname. unfold convert_all.
    assert (for_each (func_args x) (fun node exprs => e ← ConvertExpr fuel node; mret (exprs ++ [e])%list) [] = Ok args) as ->.
    { apply collect_Ok. exists args. split; [done|]. apply Forall2_convert; [|done]. exact Hchild. }
    by rewrite bind_Ok, Hs.
Qed.

Lemma stod_fuel text : stod text <> OutOfFuel.
Proof. unfold stod. by destruct (strtod text) as [[? []]|]. Qed.

Lemma collect_fuel {X Y} (f : X -> result Y) xs acc :
  (forall x, x ∈ xs -> f x <> OutOfFuel) -> for_each xs (fun x acc => y ← f x; mret (acc ++ [y])%list) acc <> OutOfFuel.
Proof. intros Hf. apply for_each_fuel. intros x zs Hx. apply bind_fuel; [by apply Hf|done]. Qed.

Lemma ConvertAConst_fuel c : ConvertAConst c <> OutOfFuel.
Proof.
  unfold ConvertAConst. destruct (isnull c); [done|]. destruct (val_case c); [| | |done]; (apply bind_fuel; [apply deref_fuel|]); [done| |done].
  intros text _. apply bind_fuel; [apply stod_fuel|done].
Qed.

Lemma ConvertColumnRef_fuel r : ConvertColumnRef r <> OutOfFuel.
Proof.
  unfold ConvertColumnRef. destruct (ref_fields r) as [|f [|g [|]]]; try done; destruct (is_string_node f); try done.
  - apply bind_fuel; [apply deref_fuel|done].
  - destruct (is_string_node g); [|done]. simpl. apply bind_fuel; [apply deref_fuel|]. intros t _. apply bind_fuel; [apply deref_fuel|done].
Qed.

Lemma ConvertExpr_total fuel n : (height n < fuel)%nat -> ConvertExpr fuel n <> OutOfFuel.
Proof.
  revert n. induction fuel as [|fuel IH]; intros n Hh; [lia|].
  assert (forall child, child ∈ expr_children n -> ConvertExpr fuel child <> OutOfFuel) as Hchild.
  { intros child Hin. apply IH. pose proof (height_child _ _ Hin). lia. }
  unfold expr_children in Hchild. simpl. destruct (node_case n) eqn:Hn; try done; (apply bind_fuel; [apply deref_fuel|]); intros x Hx%deref_Ok.
  - apply ConvertAConst_fuel.
  - apply ConvertColumnRef_fuel.
  - rewrite Hx in Hchild. unfold ConvertAExpr. destruct (expr_name x) as [|name [|]]; try done.
    apply bind_fuel; [apply deref_fuel|]. intros text _. apply bind_fuel; [unfold ToOperator; by repeat case_bool_decide|]. intros op _.
    apply bind_fuel; [apply deref_fuel|]. intros l Hl%deref_Ok. rewrite Hl in Hchild. apply bind_fuel; [apply Hchild; by constructor|]. intros el _.
    apply bind_fuel; [apply deref_fuel|]. intros r Hr%deref_Ok. rewrite Hr in Hchild.
    apply bind_fuel; [apply Hchild; constructor; by constructor|done].
  - rewrite Hx in Hchild. unfold ConvertBoolExpr. case_bool_decide.
    + destruct (bool_args x) as [|arg [|]]; try done. apply bind_fuel; [apply Hchild; by constructor|done].
    + destruct (bool_args x) as [|first [|second rest]]; try done. apply bind_fuel; [apply Hchild; by constructor|]. intros e0 _.
      apply for_each_fuel. intros arg e Harg. apply bind_fuel; [apply Hchild; by constructor|done].
  - rewrite Hx in Hchild. unfold ConvertFuncCall. destruct (funcname x) as [|name [|]]; try done.
    apply bind_fuel; [by apply collect_fuel|]. intros args _. apply bind_fuel; [apply deref_fuel|done].
Qed.

Lemma convert_opt_fuel fuel p :
  (forall n, p = Some n -> (height n < fuel)%nat) -> convert_opt (ConvertExpr fuel) p <> OutOfFuel.
Proof. intros Hp. destruct p as [n|]; [|done]. simpl. apply bind_fuel; [apply ConvertExpr_total; by apply Hp|done]. Qed.

Lemma ConvertFromItem_total fuel n : (height n < fuel)%nat -> ConvertFromItem fuel n <> OutOfFuel.
Proof.
  revert n. induction fuel as [|fuel IH]; intros n Hh; [lia|].
  assert (forall child, child ∈ from_children n -> (height child < fuel)%nat) as Hchild.
  { intros child Hin. pose proof (height_from _ _ Hin). lia. }
  unfold from_children in Hchild. simpl. destruct (node_case n) eqn:Hn; try done; (apply bind_fuel; [apply deref_fuel|]); intros x Hx%deref_Ok; [done|].
  rewrite Hx in Hchild. unfold ConvertJoinExpr. destruct (join_is_inner x); [|done]. simpl.
  apply bind_fuel; [apply deref_fuel|]. intros l Hl%deref_Ok. rewrite Hl in Hchild. apply bind_fuel; [apply IH, Hchild; by constructor|]. intros tl _.
  apply bind_fuel; [apply deref_fuel|]. intros r Hr%deref_Ok. rewrite Hr in Hchild.
  apply bind_fuel; [apply IH, Hchild; constructor; by constructor|]. intros tr _.
  apply bind_fuel; [|done]. apply convert_opt_fuel. intros q Hq. rewrite Hq in Hchild. apply Hchild. simpl. do 2 constructor. by constructor.
Qed.

(** A height that bounds those of a list of nodes. *)
Definition tallest (nodes : list PgNode) : nat := list_max (map height nodes).

Lemma tallest_elem nodes n : n ∈ nodes -> (height n <= tallest nodes)%nat.
Proof.
  intros Hn. pose proof (proj1 (list_max_le (map height nodes) _) (le_n (tallest nodes))) as HF. rewrite List.Forall_forall in HF.
  apply HF, in_map. by apply list_elem_of_In.
Qed.

(** ** Statements *)

(** The nodes of a statement that are converted as expressions or FROM items. *)
Definition select_nodes (stmt : PgSelectStmt) : list PgNode :=
  (omap (fun node => node_res_target node ≫= target_val) (target_list stmt) ++ from_clause stmt ++
   option_list (pg_where_clause stmt) ++ group_clause stmt ++ option_list (pg_having_clause stmt))%list.
Definition insert_nodes (stmt : PgInsertStmt) : list PgNode :=
  match insert_select stmt ≫= node_select_stmt with
  | None => []
  | Some values => concat (map (fun row => default [] (node_list row)) (values_lists values))
  end.
Definition statement_nodes (stmt : PgNode) : list PgNode :=
  match node_case stmt with
  | NODE_SELECT_STMT => match node_select_stmt stmt with Some s => select_nodes s | None => [] end
  | NODE_INSERT_STMT => match node_insert_stmt stmt with Some s => insert_nodes s | None => [] end
  | _ => []
  end.

(** The fuel that a text needs. *)
Definition parse_fuel (sql : string) : nat :=
  match parse_protobuf (c_str sql) with
  | inr tree => match unpack tree with Some [Some stmt] => S (tallest (statement_nodes stmt)) | _ => 0%nat end
  | inl _ => 0%nat
  end.

Lemma ConvertSelectStmt_fuel fuel stmt : (tallest (select_nodes stmt) < fuel)%nat -> ConvertSelectStmt fuel stmt <> OutOfFuel.
Proof.
  intros Hf. assert (forall n, n ∈ select_nodes stmt -> (height n < fuel)%nat) as Hn by (intros n Hin; pose proof (tallest_elem _ _ Hin); lia).
  unfold select_nodes in Hn. setoid_rewrite elem_of_app in Hn. setoid_rewrite elem_of_app in Hn. setoid_rewrite elem_of_app in Hn.
  setoid_rewrite elem_of_app in Hn. setoid_rewrite list_elem_of_omap in Hn.
  assert (forall (p : option PgNode) n, p = Some n -> n ∈ option_list p) as Hopt by (intros p n ->; apply list_elem_of_singleton; done).
  unfold ConvertSelectStmt. apply bind_fuel.
  { apply collect_fuel. intros node Hin. unfold ConvertTargetItem. case_bool_decide; [|done]. simpl.
    apply bind_fuel; [apply deref_fuel|]. intros t Ht%deref_Ok. apply bind_fuel; [apply deref_fuel|]. intros v Hv%deref_Ok.
    apply bind_fuel.
    - unfold IsStarColumnRef. case_bool_decide; [|done]. apply bind_fuel; [apply deref_fuel|]. intros r _. by destruct (ref_fields r) as [|? []].
    - intros [] _; [done|]. apply bind_fuel; [|done]. apply ConvertExpr_total, Hn. left. exists node. by rewrite Ht. }
  intros items _. apply bind_fuel; [apply collect_fuel; intros node Hin; apply ConvertFromItem_total, Hn; auto|]. intros tables _.
  apply bind_fuel; [apply convert_opt_fuel; intros n Hw; apply Hn; eauto 6|]. intros clause _.
  apply bind_fuel; [apply collect_fuel; intros node Hin; apply ConvertExpr_total, Hn; auto|]. intros group _.
  apply bind_fuel; [apply convert_opt_fuel; intros n Hw; apply Hn; eauto 8|done].
Qed.

Lemma ConvertInsertStmt_fuel fuel stmt : (tallest (insert_nodes stmt) < fuel)%nat -> ConvertInsertStmt fuel stmt <> OutOfFuel.
Proof.
  intros Hf. assert (forall n, n ∈ insert_nodes stmt -> (height n < fuel)%nat) as Hn by (intros n Hin; pose proof (tallest_elem _ _ Hin); lia).
  unfold insert_nodes in Hn. unfold ConvertInsertStmt. apply bind_fuel; [apply deref_fuel|]. intros relation _. apply bind_fuel.
  { apply collect_fuel. intros node _. unfold insert_column. case_bool_decide; [|done]. simpl. by destruct (node_res_target node). }
  intros columns _. destruct (insert_select stmt) as [node|]; [|done]. case_bool_decide; [|done]. simpl in *.
  apply bind_fuel; [apply deref_fuel|]. intros values Hv%deref_Ok. rewrite Hv in Hn. apply bind_fuel; [|done].
  apply collect_fuel. intros row Hrow. unfold convert_row. case_bool_decide; [|done]. simpl.
  apply bind_fuel; [apply deref_fuel|]. intros items Hi%deref_Ok. apply collect_fuel. intros item Hitem. apply ConvertExpr_total, Hn.
  apply list_elem_of_In, in_concat. exists items. split; [|by apply list_elem_of_In]. apply in_map_iff. exists row. rewrite Hi.
  split; [done|by apply list_elem_of_In].
Qed.

Lemma ConvertCreateStmt_fuel stmt : ConvertCreateStmt stmt <> OutOfFuel.
Proof.
  unfold ConvertCreateStmt. apply bind_fuel; [apply deref_fuel|]. intros relation _. apply bind_fuel; [|done].
  apply collect_fuel. intros elt _. unfold convert_column. case_bool_decide; [|done]. simpl. apply bind_fuel; [apply deref_fuel|]. intros col _.
  destruct (type_name col) as [ty|]; [|done]. destruct (last (type_names ty)) as [name|]; [|done]. apply bind_fuel; [apply deref_fuel|done].
Qed.

Lemma fmap_fuel {A B} (f : A -> B) (m : result A) : m <> OutOfFuel -> f <$> m <> OutOfFuel.
Proof. by destruct m. Qed.
End Spec.

(** The conversion of an expression terminates on every finite parse tree and returns a syntax
    tree exactly for the nodes that [encodes] describes, operands and argument lists of any
    length and nesting included; nothing else is accepted. *)
Theorem ConvertExpr_correct `{PgTree} fuel n :
  (height n < fuel)%nat ->
  ConvertExpr fuel n <> OutOfFuel /\ forall e, ConvertExpr fuel n = Ok e <-> encodes n e.
Proof.
  intros Hf. split; [by apply ConvertExpr_total|]. intros e. split; [apply ConvertExpr_sound|by apply ConvertExpr_complete].
Qed.

(** Parsing a statement terminates: with the fuel its parse tree needs the result is a
    statement, an exception or the use of a null pointer, for every text. *)
Lemma ParseSingleStatement_ends `{PgTree} fuel sql : (parse_fuel sql <= fuel)%nat -> ParseSingleStatement fuel sql <> OutOfFuel.
Proof.
  unfold parse_fuel, ParseSingleStatement. destruct (parse_protobuf (c_str sql)) as [message|tree]; [done|].
  destruct (unpack tree) as [[|stmt [|]]|]; try done. intros Hf. apply bind_fuel; [apply deref_fuel|]. intros n Hn%deref_Ok. subst.
  unfold statement_nodes in Hf. destruct (node_case n) eqn:Hcase; try done; (apply bind_fuel; [apply deref_fuel|]); intros s Hs%deref_Ok;
    rewrite ?Hs in Hf; apply fmap_fuel.
  - apply ConvertSelectStmt_fuel. lia.
  - apply ConvertInsertStmt_fuel. lia.
  - apply ConvertCreateStmt_fuel.
Qed.

(** ** Statements that are not understood *)

(** The tree of a text that is one statement. *)
Definition parses_to `{PgQuery} (sql : string) (stmt : PgNode) : Prop :=
  exists tree, parse_protobuf (c_str sql) = inr tree /\ unpack tree = Some [Some stmt].

(** A prefix operator, as in [- a]: libpg_query leaves the left operand null. *)
Definition prefix_operator `{PgQuery} (node : PgNode) (op_name : string) : Prop :=
  exists e name, node_case node = NODE_A_EXPR /\ node_a_expr node = Some e /\ expr_name e = [name] /\
    node_string name = Some op_name /\ lexpr e = None.

(** C39. A SELECT whose first item is a prefix operator that [ToOperator] knows ([SELECT -a FROM t])
    is undefined behaviour: the null pointer of the missing left operand is followed. *)
Theorem prefix_operator_undefined `{PgQuery} fuel sql stmt s target t v rest op_name op :
  parses_to sql stmt -> node_case stmt = NODE_SELECT_STMT -> node_select_stmt stmt = Some s ->
  target_list s = target :: rest -> node_case target = NODE_RES_TARGET -> node_res_target target = Some t ->
  target_val t = Some v -> prefix_operator v op_name -> ToOperator op_name = Ok op ->
  ParseSingleStatement (S fuel) sql = Undefined.
Proof.
  intros (tree & Hp & Hu) Hcase Hs Htl Htc Ht Hv (e & name & Hvc & He & Hname & Hop & Hl) Hok.
  assert (ConvertTargetItem (S fuel) target = Undefined) as HT.
  { unfold ConvertTargetItem. rewrite Htc, bool_decide_true by done. rewrite Ht. simpl. rewrite Hv. simpl.
    unfold IsStarColumnRef. rewrite Hvc. simpl. rewrite He. simpl. unfold ConvertAExpr. rewrite Hname, Hop. simpl. by rewrite Hok, Hl. }
  unfold ParseSingleStatement. rewrite Hp, Hu. simpl. rewrite Hcase, Hs. simpl. unfold ConvertSelectStmt. rewrite Htl. cbn [for_each].
  by rewrite HT.
Qed.

(** C40. [INSERT INTO t SELECT ...], without a list of columns, is not refused: the SELECT is taken
    for a VALUES list without rows, whatever it selects, and the statement inserts nothing. *)
Theorem insert_select_dropped `{PgQuery} fuel sql stmt s relation node values :
  parses_to sql stmt -> node_case stmt = NODE_INSERT_STMT -> node_insert_stmt stmt = Some s ->
  insert_relation s = Some relation -> insert_cols s = [] ->
  insert_select s = Some node -> node_case node = NODE_SELECT_STMT -> node_select_stmt node = Some values -> values_lists values = [] ->
  ParseSingleStatement fuel sql = Ok (InsertStatement (mk_insert_node (relname relation) [] [])).
Proof.
  intros (tree & Hp & Hu) Hcase Hs Hrel Hcols Hsel Hc Hv Hnone. unfold ParseSingleStatement. rewrite Hp, Hu. simpl. rewrite Hcase, Hs. simpl.
  unfold ConvertInsertStmt. rewrite Hrel, Hcols, Hsel. simpl. rewrite Hc. simpl. rewrite Hv. simpl. by rewrite Hnone.
Qed.

(** ** Examples *)

Lemma ConvertExpr_correct_witness :
  encodes range_node (RawMakeBinaryOp kAnd (RawMakeBinaryOp kAnd
    (RawMakeBinaryOp kLessThan (RawMakeIntConst 1) (RawMakeColumnRef None "a"))
    (RawMakeBinaryOp kLessThanOrEqual (RawMakeColumnRef None "a") (RawMakeIntConst 9)))
    (RawMakeUnaryOp kNot (RawMakeBinaryOp kEqual (RawMakeColumnRef None "a") (RawMakeIntConst 5)))).
Proof. apply (proj2 (@ConvertExpr_correct demo_pg demo_tree 10 range_node ltac:(simpl; lia))). reflexivity. Defined.

Lemma prefix_operator_undefined_witness : ParseSingleStatement 3 "SELECT -a FROM t" = Undefined.
Proof.
  apply (@prefix_operator_undefined demo_pg 2 "SELECT -a FROM t" negated_select negated_select (p_item negated) (p_item negated) negated [] "-" kSubtract);
    try reflexivity.
  - exists negated_select. split; reflexivity.
  - exists negated, (PName "-"). split_and!; reflexivity.
Defined.

Lemma insert_select_dropped_witness :
  ParseSingleStatement 0 "INSERT INTO t SELECT a FROM u" = Ok (InsertStatement (mk_insert_node "t" [] [])).
Proof.
  apply (@insert_select_dropped demo_pg 0 "INSERT INTO t SELECT a FROM u" copying_insert copying_insert (p_table "t") copied_select copied_select);
    try reflexivity.
  exists copying_insert. split; reflexivity.
Defined.
