(* ===== verification/StatementSpec.v ===== *)
(** What [ParseSingleStatement] returns: the relation between the statements of libpg_query's
    tree and syntax trees, over the one between expressions of [ParserSpec]. *)

From S2P Require Import Prelude Scalar Expr Ast Strtod Parser ParseTree ParserSpec.

#[local] Open Scope string_scope.
#[local] Open Scope Z_scope.

(** ** What the nodes of a statement stand for *)

Section Encoding.
Context `{PgQuery}.

Definition encodes_opt : option PgNode -> option RawExpression -> Prop := option_Forall2 encodes.

Inductive encodes_from : PgNode -> TableRefNode -> Prop :=
  | enc_table n rv : node_case n = NODE_RANGE_VAR -> node_range_var n = Some rv -> encodes_from n (BaseTableRef (relname rv) (range_alias rv))
  | enc_join n j l r el er condition : node_case n = NODE_JOIN_EXPR -> node_join_expr n = Some j -> join_is_inner j = true ->
      larg j = Some l -> rarg j = Some r -> encodes_from l el -> encodes_from r er -> encodes_opt (quals j) condition ->
      encodes_from n (JoinRef (Some el) (Some er) condition).

(** The star of [SELECT *]. *)
Definition star_node (n : PgNode) : Prop :=
  node_case n = NODE_COLUMN_REF /\ exists r f, node_column_ref n = Some r /\ ref_fields r = [f] /\ node_case f = NODE_A_STAR.

Inductive encodes_item : PgNode -> SelectItem -> Prop :=
  | enc_star n t v : node_case n = NODE_RES_TARGET -> node_res_target n = Some t -> target_val t = Some v -> star_node v ->
      encodes_item n (mk_select_item true None)
  | enc_item n t v e : node_case n = NODE_RES_TARGET -> node_res_target n = Some t -> target_val t = Some v -> encodes v e ->
      encodes_item n (mk_select_item false (Some e)).

(** The clauses that are not supported are only flags of the syntax tree. *)
Record encodes_select (stmt : PgSelectStmt) (select : SelectNode) : Prop := {
  es_list : Forall2 encodes_item (target_list stmt) (select_list select);
  es_from : Forall2 encodes_from (from_clause stmt) (from_tables select);
  es_where : encodes_opt (pg_where_clause stmt) (where_clause select);
  es_group : Forall2 encodes (group_clause stmt) (group_by_exprs select);
  es_having : encodes_opt (pg_having_clause stmt) (having_clause select);
  es_distinct : has_distinct select = (0 <? length (distinct_clause stmt))%nat;
  es_order : has_order_by select = (0 <? length (sort_clause stmt))%nat;
  es_limit : has_limit select = bool_decide (is_Some (limit_count stmt)) || bool_decide (is_Some (limit_offset stmt));
  es_with : has_with_clause select = has_with stmt;
  es_set : has_set_operation select = is_set_operation stmt;
}.

Definition encodes_row (row : PgNode) (values : list RawExpression) : Prop :=
  node_case row = NODE_LIST /\ exists items, node_list row = Some items /\ Forall2 encodes items values.

Definition encodes_name (n : PgNode) (name : string) : Prop :=
  node_case n = NODE_RES_TARGET /\ exists t, node_res_target n = Some t /\ name = target_name t.

(** The rows are the VALUES lists of the statement's SELECT, whatever else that SELECT has. *)
Definition encodes_insert (stmt : PgInsertStmt) (insert : InsertNode) : Prop :=
  exists relation node values, insert_relation stmt = Some relation /\ insert_table_name insert = relname relation /\
    Forall2 encodes_name (insert_cols stmt) (insert_columns insert) /\
    insert_select stmt = Some node /\ node_case node = NODE_SELECT_STMT /\ node_select_stmt node = Some values /\
    Forall2 encodes_row (values_lists values) (value_rows insert).

(** The type of a column is the last part of its qualified name. *)
Definition encodes_column (elt : PgNode) (column : RawColumnDef) : Prop :=
  node_case elt = NODE_COLUMN_DEF /\ exists col ty name text, node_column_def elt = Some col /\ type_name col = Some ty /\
    last (type_names ty) = Some name /\ node_string name = Some text /\ column = mk_raw_column (colname col) text.

Definition encodes_create (stmt : PgCreateStmt) (create : CreateTableNode) : Prop :=
  exists relation, create_relation stmt = Some relation /\ create_table_name create = relname relation /\
    Forall2 encodes_column (table_elts stmt) (create_columns create).

Definition encodes_statement (stmt : PgNode) (parsed : ParsedStatement) : Prop :=
  match parsed with
  | SelectStatement select => node_case stmt = NODE_SELECT_STMT /\ exists s, node_select_stmt stmt = Some s /\ encodes_select s select
  | InsertStatement insert => node_case stmt = NODE_INSERT_STMT /\ exists s, node_insert_stmt stmt = Some s /\ encodes_insert s insert
  | CreateTableStatement create => node_case stmt = NODE_CREATE_STMT /\ exists s, node_create_stmt stmt = Some s /\ encodes_create s create
  end.
End Encoding.

(** ** The conversions *)

Section Conversion.
Context `{PgTree}.

Lemma bind_Ok_iff {A B} (m : result A) (k : A -> result B) b : m ≫= k = Ok b <-> exists a, m = Ok a /\ k a = Ok b.
Proof. split; [apply bind_Ok_inv|]. by intros (a & -> & Hk). Qed.

Lemma collect_iff {X Y} (f : X -> result Y) (R : X -> Y -> Prop) xs ys :
  (forall x y, x ∈ xs -> f x = Ok y <-> R x y) ->
  for_each xs (fun x acc => y ← f x; mret (acc ++ [y])%list) [] = Ok ys <-> Forall2 R xs ys.
Proof.
  intros HfR. rewrite collect_Ok. split.
  - intros (zs & -> & HF). apply Forall2_same_length_lookup. split; [by eapply Forall2_length|]. intros i x y Hx Hy.
    apply HfR; [by eapply list_elem_of_lookup_2|]. by eapply (Forall2_lookup_lr _ _ _ _ _ _ HF).
  - intros HF. exists ys. split; [done|]. apply Forall2_same_length_lookup. split; [by eapply Forall2_length|]. intros i x y Hx Hy.
    apply HfR; [by eapply list_elem_of_lookup_2|]. by eapply (Forall2_lookup_lr _ _ _ _ _ _ HF).
Qed.

(** Nodes that are low enough for the fuel. *)
Context (fuel : nat).
Definition low (n : PgNode) : Prop := (height n < fuel)%nat.

Lemma ConvertExpr_spec n e : low n -> ConvertExpr fuel n = Ok e <-> encodes n e.
Proof. intros Hn. split; [apply ConvertExpr_sound|by apply ConvertExpr_complete]. Qed.

Lemma convert_opt_spec p e : (forall n, p = Some n -> low n) -> convert_opt (ConvertExpr fuel) p = Ok e <-> encodes_opt p e.
Proof.
  intros Hp. destruct p as [n|]; simpl.
  - rewrite bind_Ok_iff. setoid_rewrite ConvertExpr_spec; [|by apply Hp]. split.
    + intros (a & Ha & [= <-]). by constructor.
    + intros He. inversion He as [? a Ha|]. by exists a.
  - split; [intros [= <-]; constructor|]. intros He. by inversion He.
Qed.

Lemma convert_all_spec nodes es : Forall low nodes -> convert_all (ConvertExpr fuel) nodes = Ok es <-> Forall2 encodes nodes es.
Proof. intros Hl. apply collect_iff. intros n e Hn. apply ConvertExpr_spec. rewrite Forall_forall in Hl. auto. Qed.
End Conversion.

Section Statements.
Context `{PgTree}.

Lemma ConvertFromItem_spec fuel n t : low fuel n -> ConvertFromItem fuel n = Ok t <-> encodes_from n t.
Proof.
  revert n t. induction fuel as [|fuel IH]; intros n t Hh; unfold low in *; [lia|].
  assert (forall child, child ∈ from_children n -> low fuel child) as Hchild.
  { intros child Hin. pose proof (height_from _ _ Hin). unfold low. lia. }
  unfold from_children in Hchild. cbn [ConvertFromItem]. split.
  - destruct (node_case n) eqn:Hn; try done.
    + intros (rv & Hrv%deref_Ok & [= <-])%bind_Ok_inv. by apply enc_table.
    + intros (j & Hj%deref_Ok & HC)%bind_Ok_inv. rewrite Hj in Hchild. unfold ConvertJoinExpr in HC.
      destruct (join_is_inner j) eqn:Hi; [|done]. cbn [negb] in HC. apply bind_Ok_inv in HC as (l & Hl%deref_Ok & HC). rewrite Hl in Hchild.
      apply bind_Ok_inv in HC as (el & Hel & HC). apply bind_Ok_inv in HC as (r & Hr%deref_Ok & HC). rewrite Hr in Hchild.
      apply bind_Ok_inv in HC as (er & Her & HC). apply bind_Ok_inv in HC as (condition & Hc & [= <-]).
      apply IH in Hel; [|apply Hchild; by constructor]. apply IH in Her; [|apply Hchild; constructor; by constructor].
      eapply enc_join; try done. apply convert_opt_spec in Hc; [done|].
      intros q Hq. rewrite Hq in Hchild. apply Hchild. simpl. do 2 constructor. by constructor.
  - intros He. destruct He as [n rv Hn Hrv|n j l r el er condition Hn Hj Hi Hl Hr Hel Her Hc]; rewrite Hn.
    + by rewrite Hrv.
    + rewrite Hn, Hj, Hl, Hr in Hchild. rewrite Hj. cbn [deref]. rewrite bind_Ok. unfold ConvertJoinExpr. rewrite Hi, Hl, Hr.
      cbn [negb deref]. rewrite bind_Ok, (proj2 (IH l el ltac:(apply Hchild; by constructor)) Hel), !bind_Ok.
      rewrite (proj2 (IH r er ltac:(apply Hchild; constructor; by constructor)) Her), bind_Ok.
      apply (convert_opt_spec fuel) in Hc; [by rewrite Hc|].
      intros q Hq. rewrite Hq in Hchild. apply Hchild. simpl. do 2 constructor. by constructor.
Qed.

Lemma IsStarColumnRef_spec n : IsStarColumnRef n = Ok true <-> star_node n.
Proof.
  unfold IsStarColumnRef, star_node. case_bool_decide as Hn; [|by split; [|intros []]]. rewrite bind_Ok_iff. split.
  - intros (r & Hr%deref_Ok & HS). split; [done|]. destruct (ref_fields r) as [|f [|]] eqn:Hf; try done. injection HS as HS.
    apply bool_decide_eq_true in HS. by exists r, f.
  - intros (_ & r & f & Hr & Hf & Hs). exists r. split; [by apply deref_Ok|]. rewrite Hf. by rewrite bool_decide_true.
Qed.

(** An expression is no star. *)
Lemma encodes_no_star n e : encodes n e -> IsStarColumnRef n = Ok false.
Proof.
  unfold IsStarColumnRef. intros He. destruct He as [| | | |? r f s _ Hr Hf Hfn _|? r q t f s _ Hr Hf _ _ _ _| | | |];
    case_bool_decide; try done; try congruence; rewrite Hr; cbn [deref]; rewrite bind_Ok, Hf; [|done].
  by rewrite bool_decide_false by congruence.
Qed.

Lemma ConvertTargetItem_spec fuel n item :
  (forall v, node_res_target n ≫= target_val = Some v -> low fuel v) -> ConvertTargetItem fuel n = Ok item <-> encodes_item n item.
Proof.
  intros Hlow. unfold ConvertTargetItem. split.
  - case_bool_decide as Hn; [|done]. cbn [negb]. intros (t & Ht%deref_Ok & HC)%bind_Ok_inv. apply bind_Ok_inv in HC as (v & Hv%deref_Ok & HC).
    apply bind_Ok_inv in HC as ([] & Hs & HC).
    + injection HC as <-. apply IsStarColumnRef_spec in Hs. by eapply enc_star.
    + apply bind_Ok_inv in HC as (e & He & [= <-]). apply ConvertExpr_spec in He; [by eapply enc_item|]. apply Hlow. by rewrite Ht.
  - intros He. destruct He as [n t v Hn Ht Hv Hs|n t v e Hn Ht Hv He]; rewrite bool_decide_true by done; cbn [negb]; rewrite Ht in *;
      cbn [deref]; rewrite bind_Ok, Hv; cbn [deref]; rewrite bind_Ok.
    + by rewrite (proj2 (IsStarColumnRef_spec v) Hs).
    + rewrite (encodes_no_star _ _ He), bind_Ok. by rewrite (proj2 (ConvertExpr_spec fuel v e ltac:(by apply Hlow)) He).
Qed.

(** An item of a select list that is low enough. *)
Definition low_item (fuel : nat) (n : PgNode) : Prop := forall v, node_res_target n ≫= target_val = Some v -> low fuel v.

Lemma ConvertSelectStmt_spec fuel stmt query :
  Forall (low fuel) (select_nodes stmt) -> ConvertSelectStmt fuel stmt = Ok query <-> encodes_select stmt query.
Proof.
  unfold select_nodes. rewrite !Forall_app. intros (Hl & Hf & Hw & Hg & Hh).
  assert (forall p n, Forall (low fuel) (option_list p) -> p = Some n -> low fuel n) as Hopt by (intros p n Hp ->; by inversion Hp).
  assert (forall items, for_each (target_list stmt) (fun node items => item ← ConvertTargetItem fuel node; mret (items ++ [item])%list) [] = Ok items <->
    Forall2 encodes_item (target_list stmt) items) as Hlist.
  { intros items. apply collect_iff. intros n item Hn. apply ConvertTargetItem_spec. intros v Hv. rewrite Forall_forall in Hl.
    apply Hl, list_elem_of_omap. by exists n. }
  assert (forall items, for_each (from_clause stmt) (fun node items => item ← ConvertFromItem fuel node; mret (items ++ [item])%list) [] = Ok items <->
    Forall2 encodes_from (from_clause stmt) items) as Hfrom.
  { intros items. apply collect_iff. intros n item Hn. apply ConvertFromItem_spec. rewrite Forall_forall in Hf. auto. }
  assert (forall e, convert_opt (ConvertExpr fuel) (pg_where_clause stmt) = Ok e <-> encodes_opt (pg_where_clause stmt) e) as Hwhere
    by (intros e; apply convert_opt_spec; eauto).
  assert (forall e, convert_opt (ConvertExpr fuel) (pg_having_clause stmt) = Ok e <-> encodes_opt (pg_having_clause stmt) e) as Hhaving
    by (intros e; apply convert_opt_spec; eauto).
  unfold ConvertSelectStmt. rewrite bind_Ok_iff. setoid_rewrite Hlist. setoid_rewrite bind_Ok_iff. setoid_rewrite Hfrom.
  setoid_rewrite bind_Ok_iff. setoid_rewrite Hwhere. setoid_rewrite bind_Ok_iff. setoid_rewrite (convert_all_spec fuel _ _ Hg).
  setoid_rewrite bind_Ok_iff. setoid_rewrite Hhaving. split.
  - intros (items & Hi & tables & Ht & clause & Hc & group & Hgr & having & Hha & [= <-]). by split.
  - intros [? ? ? ? ? Hd Ho Hli Hwi Hs]. do 2 eexists; [done|]. do 2 eexists; [done|]. do 2 eexists; [done|]. do 2 eexists; [done|].
    do 2 eexists; [done|]. rewrite <- Hd, <- Ho, <- Hli, <- Hwi, <- Hs. by destruct query.
Qed.

Lemma convert_row_spec fuel row values :
  Forall (low fuel) (default [] (node_list row)) -> convert_row fuel row = Ok values <-> encodes_row row values.
Proof.
  intros Hl. unfold convert_row, encodes_row. case_bool_decide as Hn; cbn [negb]; [|by split; [|intros []]].
  rewrite bind_Ok_iff. setoid_rewrite deref_Ok. split.
  - intros (items & Hi & Hc). split; [done|]. exists items. split; [done|]. rewrite Hi in Hl. by apply (convert_all_spec fuel).
  - intros (_ & items & Hi & Hc). exists items. split; [done|]. rewrite Hi in Hl. by apply (convert_all_spec fuel).
Qed.

Lemma insert_column_spec n name : insert_column n = Ok name <-> encodes_name n name.
Proof.
  unfold insert_column, encodes_name. case_bool_decide as Hn; cbn [negb]; [|by split; [|intros []]]. rewrite bind_Ok_iff. setoid_rewrite deref_Ok.
  split; [intros (t & Ht & [= <-])|intros (_ & t & Ht & ->)]; eauto.
Qed.

Lemma ConvertInsertStmt_spec fuel stmt insert :
  Forall (low fuel) (insert_nodes stmt) -> ConvertInsertStmt fuel stmt = Ok insert <-> encodes_insert stmt insert.
Proof.
  unfold insert_nodes. intros Hl. unfold ConvertInsertStmt. rewrite bind_Ok_iff. setoid_rewrite deref_Ok. setoid_rewrite bind_Ok_iff.
  setoid_rewrite (collect_iff insert_column encodes_name); [|by intros; apply insert_column_spec]. split.
  - intros (relation & Hr & names & Hn & HC). destruct (insert_select stmt) as [node|] eqn:Hs; [|done]. case_bool_decide as Hc; [|done]. cbn [negb] in HC.
    apply bind_Ok_inv in HC as (values & Hv%deref_Ok & HC). apply bind_Ok_inv in HC as (rows & Hrows & [= <-]).
    exists relation, node, values. split_and!; try done. simpl in Hl. rewrite Hv in Hl.
    apply (collect_iff (convert_row fuel) encodes_row) in Hrows; [done|]. intros row vs Hrow. apply convert_row_spec.
    apply Forall_concat in Hl. rewrite List.Forall_map in Hl.
    rewrite Forall_forall in Hl. by apply Hl.
  - intros (relation & node & values & Hr & Hname & Hcols & Hs & Hc & Hv & Hrows). exists relation. split; [done|].
    exists (insert_columns insert). split; [done|]. rewrite Hs in *. rewrite bool_decide_true by done. cbn [negb]. simpl in Hl. rewrite Hv in *.
    cbn [deref]. rewrite bind_Ok, bind_Ok_iff. exists (value_rows insert). split; [|rewrite <- Hname; by destruct insert].
    apply (collect_iff (convert_row fuel) encodes_row); [|done]. intros row vs Hrow. apply convert_row_spec.
    apply Forall_concat in Hl. rewrite List.Forall_map in Hl. rewrite Forall_forall in Hl. by apply Hl.
Qed.

Lemma convert_column_spec elt column : convert_column elt = Ok column <-> encodes_column elt column.
Proof.
  unfold convert_column, encodes_column. case_bool_decide as Hn; cbn [negb]; [|by split; [|intros []]]. rewrite bind_Ok_iff. setoid_rewrite deref_Ok.
  split.
  - intros (col & Hc & HC). split; [done|]. destruct (type_name col) as [ty|] eqn:Ht; [|done]. destruct (last (type_names ty)) as [name|] eqn:Hl; [|done].
    apply bind_Ok_inv in HC as (text & Hx%deref_Ok & [= <-]). by exists col, ty, name, text.
  - intros (_ & col & ty & name & text & Hc & Ht & Hl & Hx & ->). exists col. split; [done|]. by rewrite Ht, Hl, Hx.
Qed.

Lemma ConvertCreateStmt_spec stmt create : ConvertCreateStmt stmt = Ok create <-> encodes_create stmt create.
Proof.
  unfold ConvertCreateStmt, encodes_create. rewrite bind_Ok_iff. setoid_rewrite deref_Ok. setoid_rewrite bind_Ok_iff.
  setoid_rewrite (collect_iff convert_column encodes_column); [|by intros; apply convert_column_spec]. split.
  - intros (relation & Hr & columns & Hc & [= <-]). by exists relation.
  - intros (relation & Hr & Hn & Hc). exists relation. split; [done|]. exists (create_columns create). split; [done|].
    rewrite <- Hn. by destruct create.
Qed.
End Statements.

(** ** Statements of a text *)

(** A text that libpg_query takes for one statement. *)
Definition encodes_text `{PgQuery} (sql : string) (parsed : ParsedStatement) : Prop :=
  exists stmt, parses_to sql stmt /\ encodes_statement stmt parsed.

Lemma statement_iff {X Y} (p : option X) (convert : X -> result Y) (C : Y -> ParsedStatement) (R : X -> Y -> Prop) parsed :
  (forall x y, p = Some x -> convert x = Ok y <-> R x y) ->
  (x ← deref p; C <$> convert x) = Ok parsed <-> exists x y, p = Some x /\ R x y /\ parsed = C y.
Proof.
  intros HR. destruct p as [x|]; [|split; [done|by intros (? & ? & ? & _)]]. specialize (HR x). cbn [deref]. rewrite bind_Ok. split.
  - destruct (convert x) as [y| | |] eqn:E; try done. intros [= <-]. exists x, y. split_and!; [done|by apply HR|done].
  - intros (x' & y & [= <-] & Hy & ->). by rewrite (proj2 (HR y eq_refl) Hy).
Qed.

(** C15. The parser, over libpg_query: for every text, [ParseSingleStatement] ends and returns a
    statement exactly when libpg_query reads the text as one SELECT, INSERT or CREATE TABLE
    statement that [encodes_statement] describes, clause by clause, and then returns the
    statement that it describes; any other text ends in an exception or, where
    libpg_query leaves a pointer null that the sources follow, in undefined behaviour. *)
Theorem ParseSingleStatement_correct `{PgTree} fuel sql :
  (parse_fuel sql <= fuel)%nat ->
  ParseSingleStatement fuel sql <> OutOfFuel /\ forall parsed, ParseSingleStatement fuel sql = Ok parsed <-> encodes_text sql parsed.
Proof.
  intros Hf. split; [by apply ParseSingleStatement_ends|]. intros parsed.
  unfold parse_fuel, ParseSingleStatement, encodes_text, parses_to in *. destruct (parse_protobuf (c_str sql)) as [message|tree].
  { split; [done|]. by intros (stmt & (tree & ? & _) & _). }
  destruct (unpack tree) as [[|stmt [|]]|] eqn:Hu; try (split; [done|]; intros (stmt' & (tree' & [= <-] & Hu') & _); congruence).
  destruct stmt as [stmt|].
  2: { split; [done|]. intros (stmt' & (tree' & [= <-] & Hu') & _). congruence. }
  cbn [deref]. rewrite bind_Ok. transitivity (encodes_statement stmt parsed).
  2: { split; [intros He; exists stmt; split; [by exists tree|done]|]. intros (stmt' & (tree' & [= <-] & Hu') & He). rewrite Hu in Hu'. by injection Hu' as <-. }
  assert (Forall (low fuel) (statement_nodes stmt)) as Hlow
    by (apply Forall_forall; intros n Hn; pose proof (tallest_elem _ _ Hn); unfold low; lia).
  unfold statement_nodes in Hlow. clear Hf Hu. unfold encodes_statement.
  destruct (node_case stmt) eqn:Hc; try (split; [done|]; destruct parsed; by intros [? _]).
  - rewrite (statement_iff _ _ _ encodes_select); [|intros s query Hs; rewrite Hs in Hlow; by apply ConvertSelectStmt_spec].
    destruct parsed; naive_solver.
  - rewrite (statement_iff _ _ _ encodes_insert); [|intros s insert Hs; rewrite Hs in Hlow; by apply ConvertInsertStmt_spec].
    destruct parsed; naive_solver.
  - rewrite (statement_iff _ _ _ encodes_create); [|intros s create _; apply ConvertCreateStmt_spec]. destruct parsed; naive_solver.
Qed.

(** ** A statement with every clause *)

(** [SELECT x.a, COUNT( * ) FROM t x JOIN u ON x.a = u.b WHERE NOT x.a < 5 GROUP BY x.a]. *)
Definition full_text : string := "SELECT x.a, COUNT(*) FROM t x JOIN u ON x.a = u.b WHERE NOT x.a < 5 GROUP BY x.a".
Definition full_tree : pg :=
  PSelect [p_item (p_of "x" "a"); p_item (PCall "count" [] true)]
    [PJoin true (Some (PTable "t" (Some "x"))) (Some (p_table "u")) (Some (p_op "=" (p_of "x" "a") (p_of "u" "b")))]
    (Some (PBool NOT_EXPR [p_op "<" (p_of "x" "a") (PInt 5)])) [p_of "x" "a"] None [].
Definition full_select : SelectNode :=
  mk_select [mk_select_item false (Some (RawMakeColumnRef (Some "x") "a")); mk_select_item false (Some (RawMakeFunctionCall "count" [] true))]
    [JoinRef (Some (BaseTableRef "t" (Some "x"))) (Some (BaseTableRef "u" None))
       (Some (RawMakeBinaryOp kEqual (RawMakeColumnRef (Some "x") "a") (RawMakeColumnRef (Some "u") "b")))]
    (Some (RawMakeUnaryOp kNot (RawMakeBinaryOp kLessThan (RawMakeColumnRef (Some "x") "a") (RawMakeIntConst 5))))
    [RawMakeColumnRef (Some "x") "a"] None false false false false false.
Definition full_parse : string -> string + pg := parse_table [(full_text, full_tree)].

Lemma ParseSingleStatement_correct_witness : @encodes_text (fixture full_parse) full_text (SelectStatement full_select).
Proof.
  apply (proj2 (@ParseSingleStatement_correct (fixture full_parse) (fixture_tree full_parse) 9 full_text ltac:(apply Nat.leb_le; vm_compute; reflexivity))).
  vm_compute. reflexivity.
Defined.
