(* ===== verification/Driver.v ===== *)
(** Model of [src/cli/driver.cpp]: statements executed against the catalog and the buffer
    pool, and what is printed about them. The driver's three references are one
    [Session]; the buffer pool works on the disk manager inside the catalog. *)

From S2P Require Import Prelude Text Scalar Disk BufferPool Schema Catalog Chunk Operators Insert Ast Plan Binder Optimizer Parser Format.
From Stdlib Require Import SpecFloat.

#[local] Open Scope string_scope.
#[local] Open Scope Z_scope.

(** [oss << std::fixed << std::setprecision(3) << seconds]. *)
Definition FormatElapsedSeconds (seconds : f64) : string :=
  match seconds with
  | S754_zero s => (if s then "-" else "") ++ "0.000"
  | S754_infinity s => (if s then "-" else "") ++ "inf"
  | S754_nan => "nan"
  | S754_finite s m e =>
      let '(num, den) := if 0 <=? e then (Zpos m * 2 ^ e, 1) else (Zpos m, 2 ^ (- e)) in
      let thousandths := round_half_even (num * 1000) den in
      (if s then "-" else "") ++ to_string (thousandths / 1000) ++ "." ++ text_of (digits_of 3 (thousandths mod 1000))
  end.

Example FormatElapsedSeconds_ex : map FormatElapsedSeconds [f64_div (f64_of_int 1) (f64_of_int 3); f64_of_int 12; f64_div (f64_of_int 1) (f64_of_int 16)] =
  ["0.333"; "12.000"; "0.062"].
Proof. vm_compute. reflexivity. Qed.

Definition TypeIdName (type : TypeId) : string :=
  match type with kInteger => "INTEGER" | kFloat => "FLOAT" | kVarchar => "VARCHAR" end.

Definition PrintHeader (schema : list OutputColumn) (out : string) : result string :=
  out ← for_range 0 (length schema) (fun i out =>
    let out := if (0 <? i)%nat then out ++ tab else out in
    column ← vec_get schema i;
    mret (out ++ display_name column)) out;
  mret (out ++ newline).

Definition TotalRowCount (table : TableObject) : Z := total_row_count_ table.

(** [*p] of a pointer the catalog returned. *)
Definition table_of (p : option TableObject) : result TableObject := match p with Some t => Ok t | None => Undefined end.

Section Driver.
Context {F : Type} `{PosixFile F} `{MapOrder} `{PgQuery}.

Record Session : Type := mk_session { catalog_ : Catalog F; buffer_pool_ : BufferPool; out_ : string }.

Definition session_store (s : Session) : Store F := mk_store (disk_manager_ (catalog_ s)) (buffer_pool_ s).
Definition with_store (st : Store F) (s : Session) : Session :=
  mk_session (mk_catalog (disk_ st) (schema_section_ (catalog_ s)) (tables_by_name_ (catalog_ s))) (pool_ st) (out_ s).

Definition on_store {A} (m : io (Store F) A) : io Session A := io_zoom session_store with_store m.
Definition on_catalog {A} (m : io (Catalog F) A) : io Session A :=
  io_zoom catalog_ (fun c s => mk_session c (buffer_pool_ s) (out_ s)) m.

Definition write (text : string) : io Session unit := fun s => (Ok tt, mk_session (catalog_ s) (buffer_pool_ s) (out_ s ++ text)).
(** A function that writes to the stream. *)
Definition write_with (print : string -> result string) : io Session unit := fun s =>
  match print (out_ s) with
  | Ok out => (Ok tt, mk_session (catalog_ s) (buffer_pool_ s) out)
  | Throw e => (Throw e, s)
  | Undefined => (Undefined, s)
  | OutOfFuel => (OutOfFuel, s)
  end.

(** ** SELECT *)

Definition row_cells (chunk : DataChunk) (r : nat) : result (list string) :=
  for_range 0 (chunk_NumColumns chunk) (fun c cells =>
    column ← chunk_Column chunk c;
    text ← FormatValue column r;
    mret (cells ++ [text])%list) [].

(** One chunk of the terminal loop: the state is [rows] and [total_rows]. *)
Definition collect_chunk (chunk : DataChunk) (st : list (list string) * Z) : result (list (list string) * Z) :=
  for_range 0 (chunk_rows_ chunk) (fun r st =>
    selected ← IsRowSelected chunk r;
    if negb selected then mret st
    else (cells ← row_cells chunk r; mret ((st.1 ++ [cells])%list, u64 (st.2 + 1)))) st.

Fixpoint collect_rows (fuel steps : nat) (root : AnyOperator) (st : list (list string) * Z) : io Session (list (list string) * Z) :=
  match steps with
  | O => io_lift OutOfFuel
  | S steps =>
      '(chunk, root) ← on_store (GetNext fuel root);
      match chunk with
      | None => mret st
      | Some chunk => st ← io_lift (collect_chunk chunk st); collect_rows fuel steps root st
      end
  end.

(** The loop without a terminal: chunks are written as they come. *)
Fixpoint write_chunks (fuel steps : nat) (root : AnyOperator) (total_rows : Z) : io Session Z :=
  match steps with
  | O => io_lift OutOfFuel
  | S steps =>
      '(chunk, root) ← on_store (GetNext fuel root);
      match chunk with
      | None => mret total_rows
      | Some chunk =>
          n ← io_lift (CountSelectedRows chunk);
          _ ← write_with (WriteChunk chunk);
          write_chunks fuel steps root (u64 (total_rows + n))
      end
  end.

Definition rows_returned (total_rows : Z) (elapsed : f64) : string :=
  "(" ++ to_string total_rows ++ (if total_rows =? 1 then " row" else " rows") ++ " returned in " ++ FormatElapsedSeconds elapsed ++ "s)" ++ newline.

(** [terminal] is [StdoutIsTerminal()], [elapsed] the time [steady_clock] measured. *)
Definition RunSelect (fuel : nat) (terminal : bool) (elapsed : f64) (plan : LogicalPlanNode) : io Session unit :=
  schema ← io_lift (OutputSchema plan);
  s ← io_get;
  root ← io_lift (Optimize (catalog_ s) plan);
  total_rows ←
    (if terminal then
       let headers := map display_name schema in
       '(rows, total_rows) ← collect_rows fuel fuel root ([], 0);
       _ ← (if bool_decide (rows = []) then write ("Empty set." ++ newline) else write_with (WriteTable headers rows));
       mret total_rows
     else
       _ ← write_with (PrintHeader schema);
       write_chunks fuel fuel root 0);
  write (rows_returned total_rows elapsed).

(** ** INSERT and CREATE TABLE *)

Definition rows_inserted (n : nat) (elapsed : f64) : string :=
  to_string (Z.of_nat n) ++ " row(s) inserted (" ++ FormatElapsedSeconds elapsed ++ "s)" ++ newline.

Definition RunInsert (elapsed : f64) (insert : BoundInsert) : io Session unit :=
  _ ← on_catalog (Insert.RunInsert (bound_table_id insert) (bound_rows insert));
  write (rows_inserted (length (bound_rows insert)) elapsed).

Definition RunCreateTable (table_id : Z) : io Session unit := write ("Table created (id=" ++ to_string table_id ++ ")." ++ newline).

(** ** Meta commands *)

Definition RunListTables : io Session unit :=
  s ← io_get;
  let names := TableNames (catalog_ s) in
  match names with
  | [] => write ("No tables." ++ newline)
  | _ =>
      rows ← io_lift (for_each names (fun name rows =>
        table ← table_of (GetTable (catalog_ s) name);
        mret (rows ++ [[name; to_string (Z.of_nat (NumColumns table)); to_string (TotalRowCount table)]])%list) []);
      write_with (WriteTable ["table"; "columns"; "rows"] rows)
  end.

Definition RunDescribeTable (table_name : string) : io Session unit :=
  s ← io_get;
  match GetTable (catalog_ s) table_name with
  | None => write ("Error: unknown table '" ++ table_name ++ "'" ++ newline)
  | Some table =>
      rows ← io_lift (for_range 0 (NumColumns table) (fun i rows =>
        col ← Column table i;
        mret (rows ++ [[name col; TypeIdName (type col); to_string (ordinal col)]])%list) []);
      write_with (WriteTable ["column"; "type"; "ordinal"] rows)
  end.

Definition is_blank (c : ascii) : bool := bool_decide (c = " "%char) || bool_decide (c = "009"%char).

Definition TryHandleMetaCommand (input : string) : io Session bool :=
  if bool_decide (input = "\dt") || bool_decide (input = "\d") then (_ ← RunListTables; mret true)
  else if bool_decide (prefix_chars 3 input = "\d ") then
    let table_name := substr_from 3 input in
    let table_name := match find_last_not_of is_blank table_name with Some end_ => substr 0 (end_ + 1) table_name | None => table_name end in
    _ ← RunDescribeTable table_name;
    mret true
  else mret false.

(** ** Statements *)

(** [what()] of an exception; the text of [std::bad_variant_access] is the library's. *)
Context (bad_variant_access_what : string).
Definition what (e : exn) : string :=
  match e with
  | RuntimeError w | InvalidArgument w | OutOfRange w | ParseException w | ResolutionException w | TypeCoercionException w | BindException w => w
  | BadVariantAccess => bad_variant_access_what
  end.

(** [catch (const std::exception& e)]. *)
Definition report (m : io Session unit) : io Session unit := fun s =>
  match m s with
  | (Throw e, s') => write ("Error: " ++ what e ++ newline) s'
  | r => r
  end.

Definition ExecuteStatement (fuel : nat) (terminal : bool) (elapsed : f64) (sql : string) : io Session unit :=
  handled ← TryHandleMetaCommand sql;
  if handled : bool then mret tt
  else report (
    parsed ← io_lift (ParseSingleStatement fuel sql);
    bound ← on_catalog (Bind parsed);
    match bound with
    | BoundSelect plan => RunSelect fuel terminal elapsed plan
    | BoundInsertion insert => RunInsert elapsed insert
    | TableCreated table_id => RunCreateTable table_id
    end).

(** What is left of the file when the objects of a session are destroyed: first the pool, then
    the catalog. *)
Definition close_session (s : Session) : F := catalog_destroy (catalog_ (snd (on_store pool_destroy s))).

End Driver.
Arguments Session F : clear implicits.
