(* ===== verification/Fuel.v ===== *)
(** Fuel is only a device of the model: a computation that ends with some fuel gives the same
    result, and the same state, with any more. *)

From S2P Require Import Prelude Disk BufferPool Schema Catalog Chunk Operators HashJoin Aggregate Scan Insert Binder Optimizer Ast Parser Format Driver.

(** ** The order *)

(** [m'] does what [m] does, unless [m] ran out of fuel. *)
Definition result_le {A} (r r' : result A) : Prop := r = OutOfFuel \/ r = r'.
Definition io_le {W A} (m m' : io W A) : Prop := forall w, fst (m w) = OutOfFuel \/ m w = m' w.

Create HintDb fuel discriminated.

Lemma result_le_refl {A} (r : result A) : result_le r r.
Proof. by right. Qed.

Lemma result_le_bind {A B} (r r' : result A) (k k' : A -> result B) :
  result_le r r' -> (forall a, result_le (k a) (k' a)) -> result_le (r ≫= k) (r' ≫= k').
Proof. intros [->| ->] Hk; [by left|]. destruct r' as [a|e| |]; [apply Hk|by right..]. Qed.

Lemma result_le_fmap {A B} (f : A -> B) (r r' : result A) : result_le r r' -> result_le (f <$> r) (f <$> r').
Proof. intros [->| ->]; [by left|by right]. Qed.

Lemma result_le_for_each {X St} (xs : list X) (body body' : X -> St -> result St) st :
  (forall x st, result_le (body x st) (body' x st)) -> result_le (for_each xs body st) (for_each xs body' st).
Proof. intros Hb. revert st. induction xs as [|x xs IH]; intros st; [by right|]. apply result_le_bind; [apply Hb|exact IH]. Qed.

Lemma io_le_refl {W A} (m : io W A) : io_le m m.
Proof. intros w. by right. Qed.

Lemma io_le_lift {W A} (r r' : result A) : result_le r r' -> io_le (W := W) (io_lift r) (io_lift r').
Proof. intros [->| ->] w; [by left|by right]. Qed.

Lemma io_le_out {W A} (m : io W A) : io_le (io_lift OutOfFuel) m.
Proof. intros w. by left. Qed.

Lemma io_le_bind {W A B} (m m' : io W A) (k k' : A -> io W B) :
  io_le m m' -> (forall a, io_le (k a) (k' a)) -> io_le (m ≫= k) (m' ≫= k').
Proof.
  intros Hm Hk w. unfold mbind, io_bind. destruct (Hm w) as [E|<-].
  - left. destruct (m w) as [r w']. simpl in E. by subst.
  - destruct (m w) as [[a|e| |] w']; [apply Hk|by right..].
Qed.

Lemma io_le_zoom {W V A} (get : W -> V) (set : V -> W -> W) (m m' : io V A) : io_le m m' -> io_le (io_zoom get set m) (io_zoom get set m').
Proof. intros Hm w. unfold io_zoom. destruct (Hm (get w)) as [E|<-]; [left|by right]. by destruct (m (get w)). Qed.

(** Follows the code on both sides. *)
Ltac more :=
  repeat first
    [ solve [eauto with fuel]
    | apply result_le_refl | apply io_le_refl | apply io_le_out | left; reflexivity
    | apply io_le_bind; [|intros ?]
    | apply io_le_lift
    | apply io_le_zoom
    | apply result_le_bind; [|intros ?]
    | apply result_le_fmap
    | apply result_le_for_each; intros ? ?
    | case_match ].

(** ** The parser *)

Section Parsing.
Context `{PgQuery}.

Lemma ConvertExpr_more fuel fuel' node : (fuel <= fuel')%nat -> result_le (ConvertExpr fuel node) (ConvertExpr fuel' node).
Proof.
  revert fuel' node. induction fuel as [|fuel IH]; intros [|fuel'] node Hle; [by left|by left|lia|].
  assert (forall node, result_le (ConvertExpr fuel node) (ConvertExpr fuel' node)) as Hmore by (intros; apply IH; lia). clear IH.
  simpl. unfold ConvertAExpr, ConvertBoolExpr, ConvertFuncCall, convert_all. more.
Qed.

Lemma ConvertFromItem_more fuel fuel' node : (fuel <= fuel')%nat -> result_le (ConvertFromItem fuel node) (ConvertFromItem fuel' node).
Proof.
  revert fuel' node. induction fuel as [|fuel IH]; intros [|fuel'] node Hle; [by left|by left|lia|].
  assert (forall node, result_le (ConvertFromItem fuel node) (ConvertFromItem fuel' node)) as Hmore by (intros; apply IH; lia). clear IH.
  pose proof (fun node => ConvertExpr_more fuel fuel' node ltac:(lia)). simpl. unfold ConvertJoinExpr, convert_opt. more.
Qed.

Lemma ParseSingleStatement_more fuel fuel' sql :
  (fuel <= fuel')%nat -> result_le (ParseSingleStatement fuel sql) (ParseSingleStatement fuel' sql).
Proof.
  intros Hle. pose proof (fun node => ConvertExpr_more fuel fuel' node Hle). pose proof (fun node => ConvertFromItem_more fuel fuel' node Hle).
  unfold ParseSingleStatement, ConvertSelectStmt, ConvertInsertStmt, ConvertTargetItem, convert_row, convert_all, convert_opt. more.
Qed.

End Parsing.

(** ** The operators *)

Section Running.
Context {F : Type} `{PosixFile F}.

Definition more_chunks {S} (op : Operator (Store F) S) : Prop :=
  forall fuel fuel' s, (fuel <= fuel')%nat -> io_le (@GetNext _ _ op fuel s) (@GetNext _ _ op fuel' s).

Lemma drain_more {S St} `{Op : Operator (Store F) S} fuel fuel' n n' consume (child : S) (st : St) :
  more_chunks Op -> (fuel <= fuel')%nat -> (n <= n')%nat ->
  io_le (drain_child fuel n consume child st) (drain_child fuel' n' consume child st).
Proof.
  intros Hop Hf. revert n' child st. induction n as [|n IH]; intros [|n'] child st Hn; simpl; [more|more|lia|].
  pose proof (fun s => Hop fuel fuel' s Hf). assert (forall child st, io_le (drain_child fuel n consume child st) (drain_child fuel' n' consume child st)) as Hmore
    by (intros; apply IH; lia). more.
Qed.

Lemma tree_more shape : more_chunks (tree_op shape).
Proof.
  induction shape as [|child IH|child IH|build IHb probe IHp|child IH]; intros fuel fuel' op Hf.
  - apply io_le_refl.
  - pose proof (fun s => IH fuel fuel' s Hf). unfold GetNext at 1 2. simpl. unfold FilterOperator_op. more.
  - pose proof (fun s => IH fuel fuel' s Hf). unfold GetNext at 1 2. simpl. unfold ProjectionOperator_op. more.
  - pose proof (fun s => IHp fuel fuel' s Hf). unfold GetNext at 1 2. simpl. unfold HashJoinOperator_op, BuildPhase, ProbeNext.
    pose proof (fun c child st => drain_more fuel fuel' fuel fuel' c child st (St := BuildTable) (Op := tree_op build) IHb Hf Hf). more.
  - unfold GetNext at 1 2. simpl. unfold AggregationOperator_op, Drain.
    pose proof (fun c ch st => drain_more fuel fuel' fuel fuel' c ch st (St := AggState) (Op := tree_op child) IH Hf Hf). more.
Qed.

Lemma any_more : more_chunks AnyOperator_op.
Proof. intros fuel fuel' [shape op] Hf. unfold GetNext, AnyOperator_op. simpl. pose proof (tree_more shape fuel fuel' op Hf). more. Qed.

(** ** Statements *)

Context `{MapOrder} `{PgQuery}.

Lemma collect_rows_more fuel fuel' n n' root st :
  (fuel <= fuel')%nat -> (n <= n')%nat -> io_le (collect_rows fuel n root st : io (Session F) _) (collect_rows fuel' n' root st).
Proof.
  intros Hf. revert n' root st. induction n as [|n IH]; intros [|n'] root st Hn; simpl; [more|more|lia|].
  pose proof (fun s => any_more fuel fuel' s Hf). assert (forall root st, io_le (collect_rows fuel n root st : io (Session F) _) (collect_rows fuel' n' root st)) as Hmore
    by (intros; apply IH; lia). unfold on_store. more.
Qed.

Lemma write_chunks_more fuel fuel' n n' root total :
  (fuel <= fuel')%nat -> (n <= n')%nat -> io_le (write_chunks fuel n root total : io (Session F) _) (write_chunks fuel' n' root total).
Proof.
  intros Hf. revert n' root total. induction n as [|n IH]; intros [|n'] root total Hn; simpl; [more|more|lia|].
  pose proof (fun s => any_more fuel fuel' s Hf). assert (forall root total, io_le (write_chunks fuel n root total : io (Session F) _) (write_chunks fuel' n' root total)) as Hmore
    by (intros; apply IH; lia). unfold on_store. more.
Qed.

Lemma RunSelect_more fuel fuel' terminal elapsed plan :
  (fuel <= fuel')%nat -> io_le (RunSelect fuel terminal elapsed plan : io (Session F) unit) (RunSelect fuel' terminal elapsed plan).
Proof.
  intros Hf. pose proof (fun root st => collect_rows_more fuel fuel' fuel fuel' root st Hf Hf).
  pose proof (fun root total => write_chunks_more fuel fuel' fuel fuel' root total Hf Hf). unfold RunSelect. more.
Qed.

Lemma report_more what (m m' : io (Session F) unit) : io_le m m' -> io_le (report what m) (report what m').
Proof. intros Hm s. unfold report. destruct (Hm s) as [E|<-]; [left|by right]. destruct (m s) as [r s']. simpl in E. by subst. Qed.

Lemma ExecuteStatement_more what fuel fuel' terminal elapsed sql :
  (fuel <= fuel')%nat ->
  io_le (ExecuteStatement what fuel terminal elapsed sql : io (Session F) unit) (ExecuteStatement what fuel' terminal elapsed sql).
Proof.
  intros Hf. pose proof (ParseSingleStatement_more fuel fuel' sql Hf). pose proof (fun plan => RunSelect_more fuel fuel' terminal elapsed plan Hf).
  unfold ExecuteStatement. apply io_le_bind; [more|]. intros [|]; [more|]. apply report_more. more.
Qed.

End Running.
