(* ===== verification/Session.v ===== *)
(** The program as its user sees it: a session represents a database (the rows of each table)
    and every statement has the effect and prints the text that the database calls
    for; the database survives a restart. *)

From S2P Require Import Prelude Text Scalar ByteIO Columns Footer Disk Replacer BufferPool Schema Catalog Chunk Rows Expr Operators HashJoin Layout Pages Scan Insert Ast Plan Resolution Binder InsertBinding Queries Pushdown Pruning Streams Optimizer Execution Optimization Sql FromMeaning SelectBinding SelectMeaning ReadOnly Parser Format Driver Fuel ParseTree ParserSpec.

#[local] Open Scope string_scope.
#[local] Open Scope Z_scope.

(** ** The file under the pool *)

Section Growth.
Context {F : Type} `{PosixFileLaws F} `{!ReliableFile F} `{MapOrderLaws}.

(** Writing the metadata behind the pages changes no page. *)
Lemma PersistMetadata_grows (c c' : Catalog F) u :
  catalog_disk_ok c -> PersistMetadata c = (Ok u, c') -> grows (disk_manager_ c) (disk_manager_ c').
Proof.
  intros Hok HP. pose proof (PersistMetadata_disk c u c' Hok HP) as Hwf'. destruct Hok as [Hwf Hsz].
  apply PersistMetadata_inv in HP as (HW & _ & _).
  destruct (WriteMetadataBlob_Ok _ _ _ _ Hwf (combine_nonempty _ _) Hsz HW) as (_ & Hh & _).
  assert (next_page (disk_manager_ c') = next_page (disk_manager_ c)) as Hn by (unfold next_page; by rewrite Hh).
  split; [done|lia| |intros; lia]. intros p bs. unfold alloc_view. rewrite Hn. case_decide as Hv; [|done]. intros [= <-].
  destruct Hv as [Hp Hex]. unfold page_exists in *.
  assert (4096 <= page_start p)%nat as Hs by (unfold page_start, kPageSizeBytes; lia).
  assert (region (disk_bytes (disk_manager_ c')) (page_start p) kPage = disk_page (disk_manager_ c) p) as Hr
    by (by eapply metadata_keeps_pages; [..|exact HW| |]).
  rewrite decide_True; [unfold disk_page at 1; by rewrite Hr|]. apply (f_equal length) in Hr.
  unfold disk_page, region in Hr. rewrite !length_take, !length_drop in Hr. unfold kPage, kPageSizeBytes in *. lia.
Qed.

(** The pool's pages stay what they are when the file grows behind them. *)
Lemma scan_inv_grows (d d' : DiskManager F) pool :
  scan_inv (alloc_view d) (mk_store d pool) -> grows d d' -> scan_inv (alloc_view d') (mk_store d' pool).
Proof.
  intros (Hwf & Hb & Hview & Hcached) Hg.
  assert (forall p f, page_table_ pool !! p = Some f -> alloc_view d' p = Some (frame_bytes pool f)) as Hpage.
  { intros p f Hp. destruct (Hcached p f Hp) as [bs Hbs]. pose proof (Hview p bs) as Hl.
    destruct (sw_mapped _ Hwf p f Hp) as (m & _ & _ & _ & Hu & _). specialize (Hl Hu Hbs). unfold logical_page in Hl. simpl in Hl.
    rewrite Hp in Hl. injection Hl as Hl. by rewrite Hl; apply (gr_pages _ _ Hg). }
  split_and!; [|done| |intros p f Hp; rewrite (Hpage p f Hp); by eexists].
  - split; try apply Hwf. intros p f Hp.
    destruct (sw_mapped _ Hwf p f Hp) as (m & ? & ? & ? & ? & ? & ? & ? & _). pose proof (Hpage p f Hp) as Hv. unfold alloc_view in Hv.
    case_decide as Hx; [|done]. injection Hv as Hv. exists m. split_and!; try done. apply Hx.
  - intros p bs _ Hv. unfold logical_page. simpl. destruct (page_table_ pool !! p) as [f|] eqn:Hp; [by rewrite (Hpage p f Hp) in Hv|].
    unfold alloc_view in Hv. case_decide as Hx; [|done]. destruct Hx as [_ Hx]. by rewrite decide_True.
Qed.

Lemma table_stored_grows (d d' : DiskManager F) t rows :
  grows d d' -> table_stored (alloc_view d) t rows -> table_stored (alloc_view d') t rows.
Proof.
  intros Hg (Hok & Hnan & gs & Hgs & Hrows & Hst & Hread). split; [done|]. split; [done|]. exists gs. split_and!; [done..| |done].
  eapply Forall_impl; [exact Hst|]. intros g. by apply row_group_stored_grows.
Qed.

(** A table after an INSERT. *)
Lemma table_stored_insert (c c' : Catalog F) t old rows :
  table_stored (alloc_view (disk_manager_ c)) t old -> inserted c t (row_groups rows) c' ->
  Forall row_ok (cells rows) -> Forall no_nan (cells rows) ->
  Forall (fun g => forall j, (j < length (table_types t))%nat -> readable (table_types t) (cells g) j) (row_groups rows) ->
  exists t', tables_by_name_ c' = <[table_name_ t := t']> (tables_by_name_ c) /\ tbl_columns_ t' = tbl_columns_ t /\
    column_ordinal_map_ t' = column_ordinal_map_ t /\ table_stored (alloc_view (disk_manager_ c')) t' (old ++ cells rows)%list.
Proof.
  intros (Hok & Hnan & gs & Hgs & -> & Hst & Hread) (rgs & _ & Htab & Hg & _ & Hnew & _) Hok' Hnan' Hread'.
  pose proof (Forall2_length _ _ _ Hnew) as Hlen. exists (add_groups t rgs). split_and!; [done..|].
  split; [by apply Forall_app_2|]. split; [by apply Forall_app_2|].
  exists (gs ++ zip rgs (map cells (row_groups rows)))%list. split_and!.
  - simpl. by rewrite fmap_app, Hgs, fst_zip by lia.
  - rewrite fmap_app, concat_app, snd_zip by lia. f_equal. rewrite <- (proj1 (row_groups_spec rows)) at 1. unfold cells. by rewrite concat_map.
  - apply Forall_app_2.
    + eapply Forall_impl; [exact Hst|]. intros g. by apply row_group_stored_grows.
    + apply Forall_lookup. intros i [rg g] Hi. apply lookup_zip_with_Some in Hi as (? & ? & [= -> ->] & Hrg & Hrw).
      by eapply (Forall2_lookup_lr _ _ _ _ _ _ Hnew Hrg Hrw).
  - apply Forall_app_2; [done|]. apply Forall_lookup. intros i [rg g] Hi. apply lookup_zip_with_Some in Hi as (? & ? & [= -> ->] & _ & Hrw).
    rewrite list_lookup_fmap in Hrw. apply fmap_Some in Hrw as (g0 & Hg0 & ->). exact (Forall_lookup_1 _ _ _ _ Hread' Hg0).
Qed.

End Growth.

(** ** What a query prints *)

Definition row_line (row : Row) : string := tab_line (map cell_text row) ++ newline.

Definition select_text (terminal : bool) (elapsed : f64) (headers : list string) (rows : list Row) : string :=
  (if terminal then
     if decide (rows = []) then "Empty set." ++ newline
     else cat (table_lines headers (map (map cell_text) rows))
   else tab_line headers ++ newline ++ cat (map row_line rows)) ++
  rows_returned (Z.of_nat (length rows)) elapsed.

Lemma PrintHeader_spec schema out : PrintHeader schema out = Ok (out ++ tab_line (map display_name schema) ++ newline).
Proof.
  unfold PrintHeader, tab_line. erewrite <- (length_map display_name schema), (print_indices _ (fun j cell => (if (0 <? j)%nat then tab else "") ++ cell)).
  - rewrite bind_Ok. by rewrite append_assoc.
  - intros j text o Hj. rewrite list_lookup_fmap in Hj. apply fmap_Some in Hj as (column & Hj & ->).
    rewrite (proj2 (vec_get_Ok _ _ _) Hj), bind_Ok. destruct (0 <? j)%nat; by rewrite ?append_assoc.
Qed.

Lemma row_cells_spec chunk cols sel i :
  chunk_repr chunk cols sel -> (i < length sel)%nat -> row_cells chunk i = Ok (map cell_text (cell_row cols i)).
Proof.
  intros Hch Hi. unfold row_cells. pose proof (cr_cols _ _ _ Hch) as Hcols.
  assert (chunk_NumColumns chunk = length cols) as -> by (unfold chunk_NumColumns; by eapply Forall2_length).
  destruct (for_range_inv (fun n cells => cells = take n (map cell_text (cell_row cols i)))
    (fun c cells => column ← chunk_Column chunk c; text ← FormatValue column i; mret (cells ++ [text])%list) 0 (length cols) [])
    as (cells & -> & ->); [|done|].
  - intros j cells Hj ->. destruct (lookup_lt_is_Some_2 cols j) as [[ty rs] Hc]; [lia|].
    destruct (columns_repr_lookup_r _ _ _ _ _ _ Hcols Hc) as (c & Hcj & Hrep & Hl).
    destruct (lookup_lt_is_Some_2 rs i) as [[v b] Hr]; [lia|]. unfold chunk_Column.
    rewrite (proj2 (vec_get_Ok _ _ _) Hcj), bind_Ok, (FormatValue_spec c ty rs i v b Hrep Hr), bind_Ok.
    eexists. split; [done|]. symmetry. apply take_S_r. unfold cell_row, raw_row. rewrite !list_lookup_fmap, Hc. simpl. by rewrite Hr.
  - rewrite Nat.add_0_l, take_ge; [done|]. unfold cell_row, raw_row. by rewrite !length_map.
Qed.

Lemma collect_chunk_spec chunk c rows total :
  chunk_repr chunk c.1 c.2 -> 0 <= total -> total + Z.of_nat (length (live_rows c.1 c.2)) < 2 ^ 64 ->
  collect_chunk chunk (rows, total) =
    Ok ((rows ++ map (map cell_text) (live_rows c.1 c.2))%list, total + Z.of_nat (length (live_rows c.1 c.2))).
Proof.
  intros Hch Ht Hmax. unfold collect_chunk.
  match goal with |- for_range _ _ ?body _ = _ =>
    destruct (for_live_rows (fun seen st => st = ((rows ++ map (map cell_text) seen)%list, total + Z.of_nat (length seen)))
      body chunk c [] [] (live_rows c.1 c.2) (rows, total) Hch) as (st & -> & ->); [by rewrite app_nil_r, Z.add_0_r|by rewrite app_nil_r| |done] end.
  intros i b seen st post Hb -> Htot. rewrite (IsRowSelected_repr _ _ _ _ _ Hch Hb), bind_Ok. destruct b; cbn [negb].
  - rewrite (row_cells_spec _ _ _ _ Hch) by by eapply lookup_lt_Some. rewrite bind_Ok. eexists. split; [done|]. cbn [fst snd].
    apply (f_equal length) in Htot. rewrite !length_app in Htot. cbn [length] in Htot.
    rewrite map_app, app_assoc, length_app, u64_id by (unfold is_u64; lia). f_equal. simpl. lia.
  - eexists. split; [done|]. by rewrite app_nil_r.
Qed.

Section Queries.
Context {F : Type} `{PosixFileLaws F} `{!ReliableFile F} `{MapOrderLaws} `{PgQuery}.

(** The session [s] with another store and more output. *)
Definition at_store (w : Store F) (out : string) (s : Session F) : Session F :=
  mk_session (mk_catalog (disk_ w) (schema_section_ (catalog_ s)) (tables_by_name_ (catalog_ s))) (pool_ w) out.

Lemma at_store_id s : at_store (session_store s) (out_ s) s = s.
Proof. by destruct s as [[] ? ?]. Qed.

Lemma at_store_out s out : at_store (session_store s) out s = mk_session (catalog_ s) (buffer_pool_ s) out.
Proof. by destruct s as [[] ? ?]. Qed.

Lemma on_store_run {A} (m : io (Store F) A) w out s r w' : m w = (r, w') -> on_store m (at_store w out s) = (r, at_store w' out s).
Proof. intros Hm. unfold on_store, io_zoom, at_store, session_store. simpl. destruct w. simpl. by rewrite Hm. Qed.

Context (inv : Store F -> Prop) (fuel : nat).

Lemma write_chunks_spec cs : forall steps root total w out s,
  delivers inv fuel root cs -> inv w -> (length cs < steps)%nat -> 0 <= total ->
  total + Z.of_nat (length (rows_of cs)) < 2 ^ 64 ->
  exists w', write_chunks fuel steps root total (at_store w out s) =
    (Ok (total + Z.of_nat (length (rows_of cs))), at_store w' (out ++ cat (map row_line (rows_of cs))) s) /\ inv w'.
Proof.
  induction cs as [|c cs IH]; intros [|steps] root total w out s Hd Hw Hsteps Ht Hmax; try (simpl in Hsteps; lia).
  - destruct (Hd w Hw) as (root' & w' & HG & Hw'). exists w'. split; [|done]. cbn [write_chunks]. unfold mbind, io_bind.
    rewrite (on_store_run _ _ _ _ _ _ HG). simpl. by rewrite Z.add_0_r, append_nil.
  - destruct (Hd w Hw) as (chunk & root' & w1 & HG & Hw1 & Hch & Hd').
    rewrite rows_of_cons, length_app, Nat2Z.inj_add in Hmax.
    destruct (IH steps root' (total + Z.of_nat (length (live_rows c.1 c.2))) w1 (out ++ cat (map row_line (live_rows c.1 c.2))) s)
      as (w' & HR & Hw'); [done|done|simpl in Hsteps; lia|lia|lia|].
    exists w'. split; [|done]. cbn [write_chunks]. unfold mbind, io_bind. rewrite (on_store_run _ _ _ _ _ _ HG).
    unfold io_lift. rewrite (CountSelectedRows_repr _ _ _ Hch). unfold write_with. cbn [out_ at_store].
    rewrite (WriteChunk_spec _ _ _ _ Hch). fold row_line.
    assert (length (selected c.2) = length (live_rows c.1 c.2)) as -> by (unfold live_rows; by rewrite length_map).
    rewrite u64_id by (unfold is_u64; lia).
    rewrite rows_of_cons, map_app, cat_app, <- append_assoc, length_app, Nat2Z.inj_add, Z.add_assoc. exact HR.
Qed.

Lemma collect_rows_spec cs : forall steps root rows total w out s,
  delivers inv fuel root cs -> inv w -> (length cs < steps)%nat -> 0 <= total ->
  total + Z.of_nat (length (rows_of cs)) < 2 ^ 64 ->
  exists w', collect_rows fuel steps root (rows, total) (at_store w out s) =
    (Ok ((rows ++ map (map cell_text) (rows_of cs))%list, total + Z.of_nat (length (rows_of cs))), at_store w' out s) /\ inv w'.
Proof.
  induction cs as [|c cs IH]; intros [|steps] root rows total w out s Hd Hw Hsteps Ht Hmax; try (simpl in Hsteps; lia).
  - destruct (Hd w Hw) as (root' & w' & HG & Hw'). exists w'. split; [|done]. cbn [collect_rows]. unfold mbind, io_bind.
    rewrite (on_store_run _ _ _ _ _ _ HG). simpl. by rewrite Z.add_0_r, app_nil_r.
  - destruct (Hd w Hw) as (chunk & root' & w1 & HG & Hw1 & Hch & Hd').
    rewrite rows_of_cons, length_app, Nat2Z.inj_add in Hmax.
    destruct (IH steps root' (rows ++ map (map cell_text) (live_rows c.1 c.2))%list (total + Z.of_nat (length (live_rows c.1 c.2))) w1 out s)
      as (w' & HR & Hw'); [done|done|simpl in Hsteps; lia|lia|lia|].
    exists w'. split; [|done]. cbn [collect_rows]. unfold mbind, io_bind. rewrite (on_store_run _ _ _ _ _ _ HG).
    unfold io_lift. rewrite (collect_chunk_spec _ _ _ _ Hch) by lia. rewrite HR.
    by rewrite rows_of_cons, map_app, app_assoc, length_app, Nat2Z.inj_add, Z.add_assoc.
Qed.

(** [RunSelect] of a plan whose operator delivers [cs]. *)
Lemma RunSelect_spec terminal elapsed plan schema root cs s :
  OutputSchema plan = Ok schema -> Optimize (catalog_ s) plan = Ok root -> delivers inv fuel root cs -> inv (session_store s) ->
  (length cs < fuel)%nat -> Z.of_nat (length (rows_of cs)) < 2 ^ 64 -> Forall (fun row => length row = length schema) (rows_of cs) ->
  exists w', RunSelect fuel terminal elapsed plan s =
    (Ok tt, at_store w' (out_ s ++ select_text terminal elapsed (map display_name schema) (rows_of cs)) s) /\ inv w'.
Proof.
  intros Hschema Hroot Hd Hw Hfuel Hmax Hlen. unfold RunSelect, mbind at 1, io_bind at 1, io_lift. rewrite Hschema.
  unfold mbind at 1, io_bind at 1, io_get, mbind at 1, io_bind at 1, io_lift. rewrite Hroot. unfold select_text.
  destruct terminal.
  - destruct (collect_rows_spec cs fuel root [] 0 (session_store s) (out_ s) s) as (w' & HR & Hw'); [done|done|done|lia|lia|].
    rewrite at_store_id in HR. exists w'. split; [|done]. cbn zeta. unfold mbind, io_bind. rewrite HR. simpl.
    destruct (decide (rows_of cs = [])) as [->|Hne].
    + simpl. unfold write, mret, io_ret. simpl. by rewrite append_assoc.
    + rewrite bool_decide_false by (intros E%fmap_nil_inv; done). unfold write_with. cbn [out_ at_store].
      rewrite WriteTable_spec.
      2: { apply Forall_map. rewrite length_map. eapply Forall_impl; [exact Hlen|]. intros row Hrow. by rewrite length_map. }
      unfold write, mret, io_ret. simpl. by rewrite append_assoc.
  - destruct (write_chunks_spec cs fuel root 0 (session_store s) (out_ s ++ tab_line (map display_name schema) ++ newline) s)
      as (w' & HR & Hw'); [done|done|done|lia|lia|].
    exists w'. split; [|done]. unfold mbind, io_bind, write_with. rewrite PrintHeader_spec. cbv iota beta.
    rewrite <- at_store_out, HR, Z.add_0_l. unfold write. simpl. by rewrite !append_assoc.
Qed.

End Queries.

(** ** Queries only read *)

Section SelectReads.
Context {F : Type} `{PosixFile F} `{MapOrder} `{PgQuery}.

(** Only the output and clean frames of the pool differ. *)
Definition only_reads (s s' : Session F) : Prop := clean (buffer_pool_ s) -> clean (buffer_pool_ s') /\ catalog_ s' = catalog_ s.

#[global] Instance only_reads_preorder : PreOrder only_reads.
Proof.
  split; [done|]. intros s1 s2 s3 H12 H23 Hc. destruct (H12 Hc) as [Hc2 Hd2]. destruct (H23 Hc2) as [Hc3 Hd3]. split; [done|congruence].
Qed.

Lemma on_store_reads {A} (m : io (Store F) A) : keeping reads m -> keeping only_reads (on_store m).
Proof.
  intros Hm s r s' HR Hc. unfold on_store, io_zoom in HR. destruct (m (session_store s)) as [r' w'] eqn:E. injection HR as <- <-.
  destruct (Hm _ _ _ E Hc) as [Hc' Hd]. split; [done|]. simpl. rewrite Hd. by destruct s as [[] ? ?].
Qed.

Lemma write_reads text : keeping only_reads (write text).
Proof. by intros s r s' [= <- <-]. Qed.

Lemma write_with_reads print : keeping only_reads (write_with print).
Proof. intros s r s' HR. unfold write_with in HR. destruct (print (out_ s)); by simplify_eq. Qed.

Lemma GetNext_reads fuel (root : AnyOperator) : keeping only_reads (on_store (GetNext fuel root)).
Proof. apply on_store_reads, any_reads. Qed.

#[local] Hint Resolve write_reads write_with_reads GetNext_reads : keeping.

Lemma collect_rows_reads fuel steps root st : keeping only_reads (collect_rows fuel steps root st).
Proof. revert root st. induction steps as [|steps IH]; intros root st; simpl; keep. Qed.

Lemma write_chunks_reads fuel steps root total : keeping only_reads (write_chunks fuel steps root total).
Proof. revert root total. induction steps as [|steps IH]; intros root total; simpl; keep. Qed.

#[local] Hint Resolve collect_rows_reads write_chunks_reads : keeping.

Lemma RunSelect_reads fuel terminal elapsed plan : keeping only_reads (RunSelect fuel terminal elapsed plan).
Proof. unfold RunSelect. keep. Qed.

End SelectReads.

(** C16. A query only reads: whatever its plan, and however it ends (an exception in the middle of
    the rows, or undefined behaviour, included), the catalog and the file are what they
    were, and every frame of the buffer pool is still clean, so that nothing is written later. *)
Theorem select_reads_only {F} `{PosixFile F} `{MapOrder} `{PgQuery} fuel terminal elapsed plan (s s' : Session F) r :
  clean (buffer_pool_ s) -> RunSelect fuel terminal elapsed plan s = (r, s') ->
  clean (buffer_pool_ s') /\ catalog_ s' = catalog_ s.
Proof. intros Hc HR. exact (RunSelect_reads fuel terminal elapsed plan s r s' HR Hc). Qed.

(** ** Databases and statements *)

(** The rows of each table, by name. *)
Definition Database : Type := gmap string (list Row).

Inductive Event : Type :=
  | Created (name : string)
  | Inserted (name : string) (rows : list (list Value))
  | Selected (scope : ResolutionScope) (select : SelectNode)
  | Listed
  | Described (name : string)
  | Refused (e : exn).

Definition effect (db : Database) (ev : Event) : Database :=
  match ev with
  | Created name => <[name := []]> db
  | Inserted name rows => <[name := (default [] (db !! name) ++ cells rows)%list]> db
  | _ => db
  end.

(** The argument of [\d]. *)
Definition described_name (sql : string) : string :=
  let text := substr_from 3 sql in match find_last_not_of is_blank text with Some end_ => substr 0 (end_ + 1) text | None => text end.

Definition lists_tables (sql : string) : bool := bool_decide (sql = "\dt") || bool_decide (sql = "\d").
Definition describes_table (sql : string) : bool := bool_decide (prefix_chars 3 sql = "\d ").

Section Session.
Context {F : Type} `{PosixFileLaws F} `{!ReliableFile F} `{MapOrderLaws} `{PgQuery}.
Context (bad_variant_access_what : string) (terminal : bool) (elapsed : f64).

(** The outcome of the parser, which is the same with any fuel that is enough ([Fuel]). *)
Definition parses (sql : string) (r : result ParsedStatement) : Prop := exists fuel, ParseSingleStatement fuel sql = r.

(** The tables of the plans are numbered. *)
Definition rows_by_id (c : Catalog F) (db : Database) (id : Z) : list Row :=
  match GetTableById c id with Some t => default [] (db !! table_name_ t) | None => [] end.

(** A query within the engine's limits: it binds to a plan that the engine supports (see
    [SelectBinding]), whose arithmetic cannot overflow on the integers of its tables (of
    magnitude at most [B]; 2^31 bounds them all) and whose intermediate results have sizes
    that it supports. *)
Record answerable (c : Catalog F) (db : Database) (select : SelectNode) (scope : ResolutionScope) : Prop := {
  an_small : select_small select;
  an_scope : sql_scope c (from_tables select) = Some scope;
  an_used : equalities_used scope select = true;
  an_plan : exists plan B, BindSelect c select = Ok plan /\ plan_ok B plan = true /\
    (forall b, b ∈ scope -> rows_within B (rows_by_id c db (tbl_id_ (binding_table b)))) /\
    forall pushed, PushdownPredicates plan = Ok pushed -> fits (rows_by_id c db) (scope_column scope) (PruneColumns pushed);
  an_rows : Z.of_nat (length (sql_rows (rows_by_id c db) scope select)) < 2 ^ 64;
}.

(** The limits of an INSERT: of the executor, and of what can be scanned later. *)
Record insertable (c : Catalog F) (t : TableObject) (rows : list (list Value)) : Prop := {
  ib_types : table_types t <> [];
  ib_sizes : sizes_ok t rows;
  ib_pages : next_page (disk_manager_ c) + groups_pages (table_types t) (row_groups rows) < 2 ^ 32;
  ib_rows : Forall row_ok (cells rows);
  ib_no_nan : Forall no_nan (cells rows);
  ib_readable : Forall (fun g => forall j, (j < length (table_types t))%nat -> readable (table_types t) (cells g) j) (row_groups rows);
}.

(** The statements whose effect is specified, in a session [s] over [db]. *)
Inductive supported (db : Database) (s : Session F) (sql : string) : Event -> Prop :=
  | sup_list : lists_tables sql = true -> supported db s sql Listed
  | sup_describe : lists_tables sql = false -> describes_table sql = true -> supported db s sql (Described (described_name sql))
  | sup_create create columns :
      lists_tables sql = false -> describes_table sql = false -> parses sql (Ok (CreateTableStatement create)) ->
      bind_columns (create_columns create) = Ok columns -> GetTable (catalog_ s) (create_table_name create) = None ->
      Z.of_nat (length (disk_bytes (disk_manager_ (catalog_ s)))) < 2 ^ 63 -> next_table_id_ (schema_section_ (catalog_ s)) + 1 < 2 ^ 32 ->
      supported db s sql (Created (create_table_name create))
  | sup_insert insert t b rows :
      lists_tables sql = false -> describes_table sql = false -> parses sql (Ok (InsertStatement insert)) ->
      GetTable (catalog_ s) (insert_table_name insert) = Some t -> NoDup (insert_columns insert) ->
      BindInsert (catalog_ s) insert = Ok b -> bound_rows b = map literal_row rows -> insertable (catalog_ s) t rows ->
      supported db s sql (Inserted (insert_table_name insert) rows)
  | sup_select select scope :
      lists_tables sql = false -> describes_table sql = false -> parses sql (Ok (SelectStatement select)) ->
      answerable (catalog_ s) db select scope -> supported db s sql (Selected scope select)
  | sup_parse_error e :
      lists_tables sql = false -> describes_table sql = false -> parses sql (Throw e) -> supported db s sql (Refused e)
  | sup_refused parsed e :
      lists_tables sql = false -> describes_table sql = false -> parses sql (Ok parsed) ->
      fst (Bind parsed (catalog_ s)) = Throw e -> supported db s sql (Refused e).

(** ** What is printed *)

Definition list_text (c : Catalog F) (db : Database) : string :=
  match TableNames c with
  | [] => "No tables." ++ newline
  | names => cat (table_lines ["table"; "columns"; "rows"] (map (fun n =>
      [n; to_string (Z.of_nat (default 0%nat (NumColumns <$> GetTable c n))); to_string (u64 (Z.of_nat (length (default [] (db !! n)))))]) names))
  end.

Definition describe_text (c : Catalog F) (name : string) : string :=
  match GetTable c name with
  | None => "Error: unknown table '" ++ name ++ "'" ++ newline
  | Some t => cat (table_lines ["column"; "type"; "ordinal"]
      (map (fun col => [Schema.name col; TypeIdName (type col); to_string (ordinal col)]) (tbl_columns_ t)))
  end.

Definition event_text (s : Session F) (db : Database) (ev : Event) : string :=
  match ev with
  | Created _ => "Table created (id=" ++ to_string (next_table_id_ (schema_section_ (catalog_ s))) ++ ")." ++ newline
  | Inserted _ rows => rows_inserted (length rows) elapsed
  | Selected scope select => select_text terminal elapsed (sql_headers scope select) (sql_rows (rows_by_id (catalog_ s) db) scope select)
  | Listed => list_text (catalog_ s) db
  | Described name => describe_text (catalog_ s) name
  | Refused e => "Error: " ++ what bad_variant_access_what e ++ newline
  end.

(** ** What a session represents *)

(** The pages of the file hold the rows of every table, and of no other. *)
Definition tables_hold (d : DiskManager F) (ts : gmap string TableObject) (db : Database) : Prop :=
  map_Forall2 (fun _ t rows => table_ok t /\ table_stored (alloc_view d) t rows) ts db.

Record represents (db : Database) (s : Session F) : Prop := {
  rp_reachable : catalog_reachable (catalog_ s);
  rp_next : 0 <= next_table_id_ (schema_section_ (catalog_ s));
  rp_store : scan_inv (alloc_view (disk_manager_ (catalog_ s))) (session_store s);
  rp_clean : clean (buffer_pool_ s);
  rp_tables : tables_hold (disk_manager_ (catalog_ s)) (tables_by_name_ (catalog_ s)) db;
}.

(** ** Meta commands *)

Lemma insert_sorted_elem x y l : x ∈ insert_sorted y l <-> x = y \/ x ∈ l.
Proof.
  induction l as [|z l IH]; simpl; [by rewrite list_elem_of_singleton, elem_of_nil; tauto|].
  destruct (str_ltb z y); rewrite !elem_of_cons, ?IH; tauto.
Qed.

Lemma TableNames_elem (c : Catalog F) n : n ∈ TableNames c -> is_Some (GetTable c n).
Proof.
  intros Hn. assert (n ∈ (iterate (tables_by_name_ c)).*1) as Hin.
  { unfold TableNames in Hn. revert Hn. generalize ((iterate (tables_by_name_ c)).*1) as l. induction l as [|x l IH]; [done|]. simpl.
    rewrite insert_sorted_elem, elem_of_cons. tauto. }
  apply list_elem_of_fmap in Hin as ([m t] & -> & Hm). rewrite (iterate_perm (tables_by_name_ c)) in Hm.
  apply elem_of_map_to_list in Hm. by exists t.
Qed.

Lemma total_rows_concat view tys gs :
  Forall (fun g : RowGroupFooterEntry * list Row => row_group_stored view tys g.1 g.2) gs ->
  total_rows gs.*1 = u64 (Z.of_nat (length (concat gs.*2))).
Proof.
  unfold total_rows. assert (0 = u64 (Z.of_nat 0)) as -> by done. intros Hgs.
  rewrite <- (Nat.add_0_l (length (concat _))). generalize 0%nat as n. induction Hgs as [|g gs (Hc & _) _ IH]; intros n; simpl.
  - by rewrite Nat.add_0_r.
  - assert (u64 (u64 (Z.of_nat n) + row_count_ g.1) = u64 (Z.of_nat (n + length g.2))) as ->.
    { rewrite Hc. unfold u64. rewrite Zplus_mod_idemp_l. f_equal. lia. }
    rewrite IH, length_app. by rewrite <- Nat.add_assoc.
Qed.

Lemma represents_table db s n t :
  represents db s -> GetTable (catalog_ s) n = Some t ->
  exists rows, db !! n = Some rows /\ table_ok t /\ table_stored (alloc_view (disk_manager_ (catalog_ s))) t rows /\ table_name_ t = n /\
    TotalRowCount t = u64 (Z.of_nat (length rows)).
Proof.
  intros Hr Ht. pose proof (rp_tables _ _ Hr n) as Hn. unfold GetTable in Ht. rewrite Ht in Hn. inversion Hn as [? rows [Hok Hst] Hx Hy|]; subst.
  destruct (reachable_wf _ (rp_reachable _ _ Hr)) as [Hmeta _].
  destruct (mw_lookup _ _ n t Hmeta Ht) as (e & rgs & _ & <- & -> & _). exists rows. split_and!; try done.
  destruct Hst as (_ & _ & gs & Hgs & -> & Hst & _). unfold TotalRowCount, table_with in *. simpl in *. rewrite <- Hgs.
  by eapply total_rows_concat.
Qed.

Lemma RunListTables_spec db s :
  represents db s -> RunListTables s = (Ok tt, mk_session (catalog_ s) (buffer_pool_ s) (out_ s ++ list_text (catalog_ s) db)).
Proof.
  intros Hr. unfold RunListTables, list_text, mbind, io_bind, io_get. pose proof (TableNames_elem (catalog_ s)) as Hn.
  set (line := fun n => [n; to_string (Z.of_nat (default 0%nat (NumColumns <$> GetTable (catalog_ s) n)));
    to_string (u64 (Z.of_nat (length (default [] (db !! n)))))]).
  destruct (TableNames (catalog_ s)) as [|n0 names0]; [done|]. set (names := n0 :: names0) in *.
  match goal with |- context [for_each names ?body []] =>
    destruct (for_each_inv (fun dn rows => rows = map line dn) body names []) as (rows & -> & ->); [|done|]
  end.
  - intros dn n todo rows Hsplit ->. destruct (Hn n) as [t Ht]; [rewrite Hsplit; apply elem_of_app; right; by constructor|].
    destruct (represents_table _ _ _ _ Hr Ht) as (trows & Hrows & _ & _ & _ & Htotal).
    rewrite Ht. cbn [table_of]. rewrite bind_Ok, Htotal. eexists. split; [done|]. rewrite map_app. simpl. unfold line at 3. by rewrite Ht, Hrows.
  - unfold io_lift, write_with. rewrite WriteTable_spec; [done|]. apply Forall_map, Forall_true. done.
Qed.

Lemma RunDescribeTable_spec name s :
  RunDescribeTable name s = (Ok tt, mk_session (catalog_ s) (buffer_pool_ s) (out_ s ++ describe_text (catalog_ s) name)).
Proof.
  unfold RunDescribeTable, describe_text, mbind, io_bind, io_get. destruct (GetTable (catalog_ s) name) as [t|]; [|done].
  set (line := fun col => [Schema.name col; TypeIdName (type col); to_string (ordinal col)]).
  match goal with |- context [for_range 0 _ ?body []] =>
    destruct (for_range_inv (fun i rows => rows = map line (take i (tbl_columns_ t))) body 0 (NumColumns t) []) as (rows & HR & ->); [|done|]
  end.
  - intros i rows Hi ->. destruct (lookup_lt_is_Some_2 (tbl_columns_ t) i) as [col Hcol]; [apply Hi|].
    unfold Column. rewrite (proj2 (vec_get_Ok _ _ _) Hcol), bind_Ok. eexists. split; [done|]. by rewrite (take_S_r _ _ _ Hcol), map_app.
  - rewrite HR. unfold io_lift, write_with. unfold NumColumns. rewrite Nat.add_0_l, firstn_all, WriteTable_spec; [done|].
    apply Forall_map, Forall_true. done.
Qed.

(** ** Tables by number *)

Lemma GetTableById_inv (c : Catalog F) id t : GetTableById c id = Some t -> exists n, tables_by_name_ c !! n = Some t.
Proof.
  unfold GetTableById. intros Ht. apply fmap_Some in Ht as ([n t'] & Hh & ->). apply head_Some_elem_of, list_elem_of_filter in Hh as [_ Hin].
  rewrite (iterate_perm (tables_by_name_ c)) in Hin. apply elem_of_map_to_list in Hin. by exists n.
Qed.

Lemma represents_by_id db s id t :
  represents db s -> GetTableById (catalog_ s) id = Some t ->
  table_stored (alloc_view (disk_manager_ (catalog_ s))) t (rows_by_id (catalog_ s) db id).
Proof.
  intros Hr Ht. unfold rows_by_id. rewrite Ht. destruct (GetTableById_inv _ _ _ Ht) as [n Hn].
  destruct (represents_table _ _ _ _ Hr Hn) as (rows & Hrows & _ & Hst & -> & _). by rewrite Hrows.
Qed.

(** ** Statements *)

Lemma ExecuteStatement_parsed fuel sql s :
  lists_tables sql = false -> describes_table sql = false ->
  ExecuteStatement bad_variant_access_what fuel terminal elapsed sql s =
    report bad_variant_access_what (parsed ← io_lift (ParseSingleStatement fuel sql);
      bound ← on_catalog (Bind parsed);
      match bound with
      | BoundSelect plan => RunSelect fuel terminal elapsed plan
      | BoundInsertion insert => RunInsert elapsed insert
      | TableCreated table_id => RunCreateTable table_id
      end) s.
Proof.
  intros Hl Hd. unfold ExecuteStatement, TryHandleMetaCommand. unfold lists_tables in Hl. unfold describes_table in Hd.
  by rewrite Hl, Hd.
Qed.

Lemma meta_commands fuel sql db s ev :
  represents db s -> supported db s sql ev -> lists_tables sql = true \/ describes_table sql = true ->
  ExecuteStatement bad_variant_access_what fuel terminal elapsed sql s =
    (Ok tt, mk_session (catalog_ s) (buffer_pool_ s) (out_ s ++ event_text s db ev)) /\ effect db ev = db.
Proof.
  intros Hr Hs Hm. destruct Hs as [Hl|Hl Hd|create columns Hl Hd _ _ _ _ _|insert t b rows Hl Hd _ _ _ _ _ _|select scope Hl Hd _ _
    |e Hl Hd _|parsed e Hl Hd _ _]; try (by destruct Hm; congruence); (split; [|done]); unfold ExecuteStatement, TryHandleMetaCommand.
  - unfold lists_tables in Hl. rewrite Hl. unfold mbind, io_bind. by rewrite (RunListTables_spec _ _ Hr).
  - unfold lists_tables in Hl. unfold describes_table in Hd. rewrite Hl, Hd. unfold mbind, io_bind. cbn zeta. fold (described_name sql).
    by rewrite RunDescribeTable_spec.
Qed.

(** CREATE TABLE. *)
Lemma bind_columns_ordinals raw columns : bind_columns raw = Ok columns -> ordinals_ok columns.
Proof.
  intros HB. unfold bind_columns in HB.
  apply (for_range_Ok (fun i columns => length columns = i /\ ordinals_ok columns)) in HB; [by destruct HB| |by split].
  intros i cols cols' Hi [<- Hok] HS. apply bind_Ok_inv in HS as (def & _ & HS). apply bind_Ok_inv in HS as (ty & _ & [= <-]).
  split; [rewrite length_app; simpl; lia|]. intros j col Hj. apply lookup_app_Some in Hj as [Hj|[Hge Hj]]; [by apply Hok|].
  destruct (j - length cols)%nat eqn:Ej; [|done]. injection Hj as <-. simpl. f_equal. lia.
Qed.

Lemma CreateTable_total (c : Catalog F) name columns :
  GetTable c name = None -> exists c', CreateTable name columns c = (Ok (next_table_id_ (schema_section_ c)), c').
Proof.
  intros Hn. unfold CreateTable, mbind at 1, io_bind at 1, io_get. unfold GetTable in Hn. rewrite Hn. unfold AddTable.
  unfold mbind, io_bind, set_schema, set_tables, PersistMetadata, on_disk_manager, io_zoom. cbn [schema_section_ tables_by_name_ disk_manager_].
  match goal with |- context [WriteMetadataBlob ?blob ?d] => destruct (WriteMetadataBlob_total blob d) as [d' ->] end. by eexists.
Qed.

Lemma table_stored_empty view id name columns : table_stored view (new_table id name columns) [].
Proof. split; [constructor|]. split; [constructor|]. exists []. by repeat split; constructor. Qed.

Lemma tables_grow (d d' : DiskManager F) ts db :
  grows d d' -> tables_hold d ts db -> tables_hold d' ts db.
Proof.
  intros Hg Hts n. pose proof (Hts n) as Hn. inversion Hn as [? ? [Hok Hst]|]; constructor. split; [done|]. by eapply table_stored_grows.
Qed.

Lemma create_represents db s name columns c' id :
  represents db s -> ordinals_ok columns -> GetTable (catalog_ s) name = None ->
  Z.of_nat (length (disk_bytes (disk_manager_ (catalog_ s)))) < 2 ^ 63 -> next_table_id_ (schema_section_ (catalog_ s)) + 1 < 2 ^ 32 ->
  CreateTable name columns (catalog_ s) = (Ok id, c') -> forall out, represents (<[name := []]> db) (mk_session c' (buffer_pool_ s) out).
Proof.
  intros Hr Hord Hn Hsz Hid HC out. pose proof (rp_next _ _ Hr) as Hnext. pose proof (reachable_wf _ (rp_reachable _ _ Hr)) as [_ Hwf].
  destruct (CreateTable_inv _ _ _ _ _ HC) as (Hfresh & -> & Hs & Ht & u & HP).
  assert (grows (disk_manager_ (catalog_ s)) (disk_manager_ c')) as Hg by (refine (PersistMetadata_grows _ _ _ _ HP); by split).
  rewrite emplace_fresh in Ht by done. split; cbn [catalog_ buffer_pool_].
  - by eapply reach_create; [apply Hr|split|..].
  - rewrite Hs. simpl. rewrite u32_id by (unfold is_u32; lia). lia.
  - unfold session_store. simpl. eapply scan_inv_grows; [|exact Hg]. apply Hr.
  - apply Hr.
  - rewrite Ht. apply map_Forall2_insert_2; [|eapply tables_grow; [exact Hg|apply Hr]]. split; [by split|apply table_stored_empty].
Qed.

(** INSERT. *)
Lemma add_groups_reachable (c : Catalog F) t rgs :
  catalog_reachable c -> tables_by_name_ c !! table_name_ t = Some t -> Forall (fun rg => table_id_ rg = tbl_id_ t) rgs ->
  catalog_reachable (mk_catalog (disk_manager_ c) (schema_section_ c) (<[table_name_ t := add_groups t rgs]> (tables_by_name_ c))).
Proof.
  intros Hc Ht Hids. revert c t Hc Ht Hids. induction rgs as [|rg rgs IH]; intros c t Hc Ht Hids.
  - assert (add_groups t [] = t) as -> by (unfold add_groups; simpl; rewrite app_nil_r; by destruct t).
    rewrite insert_id by done. by destruct c.
  - apply Forall_cons in Hids as [Hid Hids]. set (t1 := add_groups t [rg]).
    assert (catalog_reachable (mk_catalog (disk_manager_ c) (schema_section_ c) (<[table_name_ t := t1]> (tables_by_name_ c)))) as Hc1.
    { refine (reach_add c (table_name_ t) rg _ Hc _). unfold AddRowGroup, mbind, io_bind, io_get. rewrite Ht.
      unfold io_lift, table_AddRowGroup. rewrite Hid, Z.eqb_refl. done. }
    specialize (IH _ t1 Hc1 (lookup_insert_eq _ _ _) Hids). cbn [disk_manager_ schema_section_ tables_by_name_] in IH.
    change (table_name_ t1) with (table_name_ t) in IH. rewrite insert_insert_eq in IH.
    assert (add_groups t1 rgs = add_groups t (rg :: rgs)) as <-; [|done].
    unfold t1, add_groups. simpl. by rewrite <- app_assoc.
Qed.

Lemma literal_row_inj rows rows' : map literal_row rows = map literal_row rows' -> rows = rows'.
Proof.
  assert (forall vs vs', literal_row vs = literal_row vs' -> vs = vs') as Hi.
  { intros vs. induction vs as [|v vs IH]; intros [|v' vs'] E; try done. injection E as -> E. by rewrite (IH vs'). }
  revert rows'. induction rows as [|vs rows IH]; intros [|vs' rows'] E; try done. injection E as E1 E2. by rewrite (Hi _ _ E1), (IH rows').
Qed.

Lemma insert_represents db s n t rows c' :
  represents db s -> GetTable (catalog_ s) n = Some t -> insertable (catalog_ s) t rows ->
  inserted (catalog_ s) t (row_groups rows) c' ->
  forall out, represents (effect db (Inserted n rows)) (mk_session c' (buffer_pool_ s) out).
Proof.
  intros Hr Ht Hins Hi out. destruct (represents_table _ _ _ _ Hr Ht) as (old & Hold & Hok & Hst & Hname & _).
  destruct (table_stored_insert _ _ _ _ _ Hst Hi (ib_rows _ _ _ Hins) (ib_no_nan _ _ _ Hins) (ib_readable _ _ _ Hins))
    as (t' & Htab & Hcols & Hmap & Hst').
  destruct Hi as (rgs & Hs & Htab' & Hg & _ & _ & Hids). unfold GetTable in Ht. split; cbn [catalog_ buffer_pool_].
  - assert (c' = mk_catalog (disk_manager_ c') (schema_section_ (catalog_ s)) (<[table_name_ t := add_groups t rgs]> (tables_by_name_ (catalog_ s)))) as ->
      by (rewrite <- Hs, <- Htab'; by destruct c').
    apply (add_groups_reachable (mk_catalog (disk_manager_ c') (schema_section_ (catalog_ s)) (tables_by_name_ (catalog_ s))) t rgs);
      [apply reach_pages; [apply Hr|apply Hg]|by rewrite Hname|done].
  - rewrite Hs. apply Hr.
  - unfold session_store. simpl. eapply scan_inv_grows; [|exact Hg]. apply Hr.
  - apply Hr.
  - simpl. rewrite Hold, Htab, Hname. apply map_Forall2_insert_2; [|eapply tables_grow; [exact Hg|apply Hr]]. split; [|done].
    destruct Hok as [Ho1 Ho2]. split; [by rewrite Hmap, Ho1, Hcols|by rewrite Hcols].
Qed.

(** SELECT. *)
Lemma sql_bindings_tables (c : Catalog F) start refs scope b :
  sql_bindings c start refs = Some scope -> b ∈ scope -> exists name, GetTable c name = Some (binding_table b).
Proof.
  revert start scope. induction refs as [|[name alias] refs IH]; intros start scope; simpl; [by intros [= <-] ?%elem_of_nil|].
  destruct (GetTable c name) as [t|] eqn:Ht; [|done]. simpl. destruct (sql_bindings c (S start) refs) as [bs|] eqn:E; [|done].
  intros [= <-] [->|Hb]%elem_of_cons; [by exists name|by eapply IH].
Qed.

Lemma scope_tables db s items scope b :
  represents db s -> sql_scope (catalog_ s) items = Some scope -> b ∈ scope ->
  GetTableById (catalog_ s) (tbl_id_ (binding_table b)) = Some (binding_table b).
Proof.
  intros Hr Hs Hb. destruct (sql_bindings_tables _ _ _ _ _ Hs Hb) as [name Ht].
  destruct (reachable_wf _ (rp_reachable _ _ Hr)) as [Hm _]. by apply (GetTableById_Some _ name).
Qed.

Lemma scope_typed db s items scope :
  represents db s -> sql_scope (catalog_ s) items = Some scope -> tables_typed (rows_by_id (catalog_ s) db) scope.
Proof.
  intros Hr Hs b row j ty v Hb Hrow Hty Hv. pose proof (scope_tables _ _ _ _ _ Hr Hs Hb) as Ht.
  destruct (represents_by_id _ _ _ _ Hr Ht) as (_ & _ & gs & _ & Hrows & Hst & _). rewrite Hrows in Hrow.
  apply list_elem_of_In, in_concat in Hrow as (g & Hg%list_elem_of_In & Hrow%list_elem_of_In).
  apply list_elem_of_fmap in Hg as (rg & -> & Hrg). rewrite Forall_forall in Hst. eapply stored_row_typed; [by apply Hst|done..].
Qed.

Lemma select_runs db s select scope :
  represents db s -> answerable (catalog_ s) db select scope ->
  exists plan, BindSelect (catalog_ s) select = Ok plan /\
    exists enough, forall fuel, (enough <= fuel)%nat -> exists s', RunSelect fuel terminal elapsed plan s = (Ok tt, s') /\
      represents db s' /\ out_ s' = out_ s ++ event_text s db (Selected scope select).
Proof.
  intros Hr [Hsmall Hscope Hused (plan & B & HB & Hok & Hbound & Hfits) Hmax]. exists plan. split; [done|].
  destruct (BindSelect_bound (catalog_ s) B) with (2 := Hsmall) (3 := HB) as (scope' & Hb).
  { intros n t Ht. destruct (represents_table _ _ _ _ Hr Ht) as (_ & _ & Htok & _). exact Htok. }
  pose proof (sb_scope _ _ _ _ _ Hb) as E. rewrite Hscope in E. injection E as <-.
  pose proof (sb_rows _ _ _ _ _ Hb Hok Hused _ (scope_typed _ _ _ _ Hr Hscope)) as Hrows. cbn [event_text]. rewrite <- Hrows in *.
  destruct (sb_plan _ _ _ _ _ Hb) as (input & exprs & schema & -> & Hlen & <- & Hwf).
  assert (wf_query (alloc_view (disk_manager_ (catalog_ s))) (catalog_ s) (rows_by_id (catalog_ s) db) (scope_column scope) B input exprs) as Hwq.
  { apply (Hwf Hok). intros b Hbs. pose proof (scope_tables _ _ _ _ _ Hr Hscope Hbs) as Ht. split; [done|]. split; [by apply represents_by_id|by apply Hbound]. }
  destruct (wf_query_pushes _ _ _ _ _ input exprs schema Hwq) as [pushed HP]. pose proof (rp_store _ _ Hr) as Hinv.
  destruct (Optimize_runs _ _ _ (scope_column scope) B (session_store s) Hinv input exprs schema pushed Hwq HP (Hfits pushed HP))
    as (root & HO & cs & enough & Hcs & Hd).
  set (plan := LogicalProjection input exprs schema) in *. set (rows := query_rows (rows_by_id (catalog_ s) db) plan) in *.
  exists (Nat.max enough (S (length cs))). intros fuel Hfuel.
  destruct (RunSelect_spec (scan_inv (alloc_view (disk_manager_ (catalog_ s)))) fuel terminal elapsed plan schema root cs s)
    as (w' & HR & Hw'); [done|done|apply Hd; lia|done|lia|by rewrite Hcs| |].
  { rewrite Hcs. unfold rows, plan. cbn [query_rows]. apply Forall_map, Forall_true. intros row. by rewrite length_map. }
  rewrite Hcs in HR. set (s' := at_store w' _ s) in HR. exists s'. split; [exact HR|]. split; [|done].
  destruct (RunSelect_reads _ _ _ _ _ _ _ HR (rp_clean _ _ Hr)) as [Hclean Hcat].
  assert (disk_ w' = disk_manager_ (catalog_ s)) as Hdisk by (by rewrite <- Hcat).
  split; [by rewrite Hcat; apply Hr|by rewrite Hcat; apply Hr| |done|by rewrite Hcat; apply Hr].
  rewrite Hcat. assert (session_store s' = w') as ->; [|done]. unfold session_store. by destruct w'.
Qed.

(** Refused statements. *)
Lemma Bind_throws parsed (c : Catalog F) e : fst (Bind parsed c) = Throw e -> snd (Bind parsed c) = c.
Proof.
  unfold Bind, catch_bind. destruct parsed as [select|insert|create]; unfold mbind, io_bind, io_get, io_lift, mret, io_ret.
  - by destruct (BindSelect c select).
  - by destruct (BindInsert c insert).
  - unfold BindCreateTable, mbind, io_bind, io_lift. destruct (bind_columns (create_columns create)) as [columns|e'| |]; [|done..].
    destruct (GetTable c (create_table_name create)) as [t|] eqn:Ht.
    + unfold CreateTable, mbind, io_bind, io_get. unfold GetTable in Ht. by rewrite Ht.
    + by destruct (CreateTable_total c _ columns Ht) as [c' ->].
Qed.

Lemma refuse_represents db s out : represents db s -> represents db (mk_session (catalog_ s) (buffer_pool_ s) out).
Proof. intros [H1' H2' H3' H4' H5']. by split. Qed.

(** Every supported statement runs. *)
Lemma statement_runs db s sql ev :
  represents db s -> supported db s sql ev ->
  exists fuel s', ExecuteStatement bad_variant_access_what fuel terminal elapsed sql s = (Ok tt, s') /\
    represents (effect db ev) s' /\ out_ s' = out_ s ++ event_text s db ev.
Proof.
  intros Hr Hs. destruct (lists_tables sql || describes_table sql) eqn:Hmeta.
  { destruct (meta_commands 0 sql db s ev Hr Hs (proj1 (orb_true_iff _ _) Hmeta)) as [HE ->]. eexists 0%nat, _.
    split; [exact HE|]. by split; [apply refuse_represents|]. }
  destruct Hs as [Hl|Hl Hd|create columns Hl Hd (fuel & HP) HB Hn Hsz Hid|insert t b rows Hl Hd (fuel & HP) Ht Hnd HB Hrows Hins
    |select scope Hl Hd (n & HP) Hans|e Hl Hd (fuel & HP)|parsed e Hl Hd (fuel & HP) HB]; try (by rewrite ?Hl, ?Hd in Hmeta).
  - destruct (CreateTable_total (catalog_ s) (create_table_name create) columns Hn) as [c' HC]. eexists fuel, _.
    rewrite ExecuteStatement_parsed by done. unfold report, mbind at 1, io_bind at 1, io_lift. rewrite HP. unfold mbind, io_bind, on_catalog, io_zoom, Bind, catch_bind.
    unfold mbind, io_bind, BindCreateTable, mbind, io_bind, io_lift. rewrite HB, HC. split; [reflexivity|].
    split; [|done]. exact (create_represents db s _ columns c' _ Hr (bind_columns_ordinals _ _ HB) Hn Hsz Hid HC _).
  - destruct (represents_table _ _ _ _ Hr Ht) as (old & Hold & Hok & Hst & Hname & _). pose proof (reachable_wf _ (rp_reachable _ _ Hr)) as [Hm Hwf].
    destruct (BindInsert_runs _ insert t b Hm Hwf Ht Hok (ib_types _ _ _ Hins) Hnd HB) as (rows' & Hrows' & _ & _ & Hrun).
    rewrite Hrows in Hrows'. apply literal_row_inj in Hrows' as <-.
    destruct (Hrun (ib_sizes _ _ _ Hins) (ib_pages _ _ _ Hins)) as (c' & HR & Hi). eexists fuel, _.
    rewrite ExecuteStatement_parsed by done. unfold report, mbind at 1, io_bind at 1, io_lift. rewrite HP. unfold mbind, io_bind, on_catalog, io_zoom, Bind, catch_bind.
    unfold mbind, io_bind, io_get, io_lift. rewrite HB. unfold mret, io_ret, RunInsert, mbind, io_bind, on_catalog, io_zoom. cbn [catalog_].
    rewrite HR. unfold write. cbn [catalog_ buffer_pool_ out_]. split; [reflexivity|]. rewrite Hrows, length_map. split; [|done].
    exact (insert_represents db s _ t rows c' Hr Ht Hins Hi _).
  - destruct (select_runs db s select scope Hr Hans) as (plan & HB & enough & HR). set (fuel := Nat.max n enough).
    destruct (HR fuel ltac:(lia)) as (s' & HR' & Hr' & Hout). exists fuel, s'. split; [|done].
    assert (ParseSingleStatement fuel sql = Ok (SelectStatement select)) as HP'
      by (destruct (ParseSingleStatement_more n fuel sql ltac:(lia)) as [E|E]; congruence).
    rewrite ExecuteStatement_parsed by done. unfold report, mbind at 1, io_bind at 1, io_lift. rewrite HP'. unfold mbind, io_bind, on_catalog, io_zoom, Bind, catch_bind.
    unfold mbind, io_bind, io_get, io_lift. rewrite HB. unfold mret, io_ret. change (mk_session (catalog_ s) _ _) with (mk_session (catalog_ s) (buffer_pool_ s) (out_ s)).
    assert (mk_session (catalog_ s) (buffer_pool_ s) (out_ s) = s) as -> by by destruct s. by rewrite HR'.
  - eexists fuel, _. rewrite ExecuteStatement_parsed by done. unfold report, mbind at 1, io_bind at 1, io_lift. rewrite HP. split; [reflexivity|].
    by split; [apply refuse_represents|].
  - pose proof (Bind_throws _ _ _ HB) as Hc. destruct (Bind parsed (catalog_ s)) as [r c'] eqn:HBind. simpl in HB, Hc. subst r c'. eexists fuel, _.
    rewrite ExecuteStatement_parsed by done. unfold report, mbind at 1, io_bind at 1, io_lift. rewrite HP. unfold mbind, io_bind, on_catalog, io_zoom.
    rewrite HBind. split; [reflexivity|]. split; [exact (refuse_represents db s _ Hr)|done].
Qed.

(** The effect does not depend on the fuel. *)
Lemma statement_effect db s sql ev fuel r s' :
  represents db s -> supported db s sql ev ->
  ExecuteStatement bad_variant_access_what fuel terminal elapsed sql s = (r, s') -> r <> OutOfFuel ->
  r = Ok tt /\ represents (effect db ev) s' /\ out_ s' = out_ s ++ event_text s db ev.
Proof.
  intros Hr Hs HE Hf. destruct (statement_runs db s sql ev Hr Hs) as (n & s1 & HE1 & Hr1 & Hout).
  destruct (ExecuteStatement_more bad_variant_access_what n (Nat.max n fuel) terminal elapsed sql ltac:(lia) s) as [E|E]; rewrite HE1 in E; [done|].
  destruct (ExecuteStatement_more bad_variant_access_what fuel (Nat.max n fuel) terminal elapsed sql ltac:(lia) s) as [E'|E']; rewrite HE in E'; [done|].
  rewrite <- E in E'. by injection E' as -> ->.
Qed.

(** ** A new database and a restart *)

Lemma new_represents (d : DiskManager F) frames out :
  disk_wf d -> (2 <= frames)%nat -> represents ∅ (mk_session (mk_catalog d empty_schema ∅) (new_pool frames) out).
Proof.
  intros Hd Hf. split; cbn [catalog_ buffer_pool_]; [by apply reach_new|done|by apply fresh_scan_inv|apply clean_new|].
  intros n. simpl. rewrite !lookup_empty. constructor.
Qed.

Lemma close_clean (s : Session F) : clean (buffer_pool_ s) -> close_session s = catalog_destroy (catalog_ s).
Proof.
  intros Hc. unfold close_session, on_store, io_zoom. rewrite pool_destroy_clean by done. by destruct s as [[] ? ?].
Qed.

(** Flushing keeps what a session represents, and what is flushed is what the next start opens. *)
Lemma flush_represents db s :
  represents db s -> Z.of_nat (length (disk_bytes (disk_manager_ (catalog_ s)))) < 2 ^ 63 ->
  exists c, Flush (catalog_ s) = (Ok tt, c) /\ schema_section_ c = schema_section_ (catalog_ s) /\ tables_by_name_ c = tables_by_name_ (catalog_ s) /\
    (forall out, represents db (mk_session c (buffer_pool_ s) out)) /\
    (forall frames out, (2 <= frames)%nat -> represents db (mk_session c (new_pool frames) out)) /\
    (catalog_fits (catalog_ s) -> catalog_Open (Some (fd_ (disk_manager_ c))) = (Ok c, Some (fd_ (disk_manager_ c)))).
Proof.
  intros Hr Hsz. destruct (reachable_wf _ (rp_reachable _ _ Hr)) as [_ Hwf].
  destruct (WriteMetadataBlob_total (persisted_blob (catalog_ s)) (disk_manager_ (catalog_ s))) as [d HW].
  set (c := mk_catalog d (schema_section_ (catalog_ s)) (tables_by_name_ (catalog_ s))).
  assert (Flush (catalog_ s) = (Ok tt, c)) as HF.
  { unfold Flush, PersistMetadata, on_disk_manager, io_zoom. unfold persisted_blob in HW. by rewrite HW. }
  pose proof (PersistMetadata_grows _ _ _ (conj Hwf Hsz) HF) as Hg.
  assert (catalog_reachable c) as Hreach by (eapply reach_flush; [apply Hr|by split|done]).
  assert (tables_hold (disk_manager_ c) (tables_by_name_ c) db) as Htab by (eapply tables_grow; [exact Hg|apply Hr]).
  exists c. split_and!; [done..| | |].
  - intros out. split; cbn [catalog_ buffer_pool_]; [done|apply Hr| |apply Hr|done].
    unfold session_store. simpl. eapply scan_inv_grows; [|exact Hg]. apply Hr.
  - intros frames out Hf. split; cbn [catalog_ buffer_pool_]; [done|apply Hr|by apply fresh_scan_inv|apply clean_new|done].
  - intros Hfit. by destruct (reopen_spec _ c (rp_reachable _ _ Hr) Hfit (conj Hwf Hsz) HF).
Qed.

(** What the destructors leave. *)
Lemma restart_represents db s frames out :
  represents db s -> catalog_fits (catalog_ s) -> Z.of_nat (length (disk_bytes (disk_manager_ (catalog_ s)))) < 2 ^ 63 -> (2 <= frames)%nat ->
  let file := Some (close_session s) in
  exists c, catalog_Open file = (Ok c, file) /\ tables_by_name_ c = tables_by_name_ (catalog_ s) /\ represents db (mk_session c (new_pool frames) out).
Proof.
  intros Hr Hfit Hsz Hf. rewrite (close_clean _ (rp_clean _ _ Hr)). intros file.
  destruct (flush_represents db s Hr Hsz) as (c & HF & _ & Ht & _ & Hnew & HO). exists c.
  assert (file = Some (fd_ (disk_manager_ c))) as -> by (unfold file, catalog_destroy; unfold Flush in HF; by rewrite HF).
  split_and!; [by apply HO|done|by apply Hnew].
Qed.

End Session.

(** The sessions that supported statements and restarts lead to, with the databases they stand
    for. *)
Inductive session_reachable {F} `{PosixFileLaws F} `{!ReliableFile F} `{MapOrderLaws} `{PgQuery} : Database -> Session F -> Prop :=
  | session_new d frames out :
      disk_wf d -> (2 <= frames)%nat -> session_reachable ∅ (mk_session (mk_catalog d empty_schema ∅) (new_pool frames) out)
  | session_statement db s sql ev what fuel terminal elapsed r s' :
      session_reachable db s -> supported db s sql ev ->
      ExecuteStatement what fuel terminal elapsed sql s = (r, s') -> r <> OutOfFuel -> session_reachable (effect db ev) s'
  | session_restart db s c file frames out :
      session_reachable db s -> catalog_fits (catalog_ s) -> Z.of_nat (length (disk_bytes (disk_manager_ (catalog_ s)))) < 2 ^ 63 ->
      catalog_Open (Some (close_session s)) = (Ok c, file) -> (2 <= frames)%nat ->
      session_reachable db (mk_session c (new_pool frames) out).

(** C4. The invariant of the program: whatever supported statements (CREATE TABLE, INSERT, SELECT,
    [\\d], and every statement that is refused) a session has executed since its file was
    created, over any number of restarts, the catalog, the pages of the file and the buffer pool
    hold exactly the rows that the statements have inserted, each table's in the order of
    insertion; the pool has two usable frames and no stale page. *)
Theorem session_invariant {F} `{PosixFileLaws F} `{!ReliableFile F} `{MapOrderLaws} `{PgQuery} db (s : Session F) :
  session_reachable db s -> represents db s.
Proof.
  induction 1 as [d frames out Hd Hf|db s sql ev what fuel terminal elapsed r s' _ IH Hs HE Hr|db s c file frames out _ IH Hfit Hsz HO Hf].
  - by apply new_represents.
  - by eapply statement_effect.
  - destruct (restart_represents db s frames out IH Hfit Hsz Hf) as (c' & HO' & _ & Hr). rewrite HO' in HO. by injection HO as <- _.
Qed.

(** C1. Every supported statement ends, and does and prints what the database calls for: CREATE
    TABLE adds an empty table, INSERT appends its rows, SELECT prints the rows of its plan
    over the database (a table with aligned columns on a terminal, lines with tabs
    otherwise), [\\d] describes, and a statement that is refused prints the error and
    changes nothing. *)
Theorem statement_correct {F} `{PosixFileLaws F} `{!ReliableFile F} `{MapOrderLaws} `{PgQuery} what terminal elapsed db (s : Session F) sql ev :
  represents db s -> supported db s sql ev ->
  (exists fuel, fst (ExecuteStatement what fuel terminal elapsed sql s) = Ok tt) /\
  forall fuel r s', ExecuteStatement what fuel terminal elapsed sql s = (r, s') -> r <> OutOfFuel ->
    r = Ok tt /\ represents (effect db ev) s' /\ out_ s' = out_ s ++ event_text what terminal elapsed s db ev.
Proof.
  intros Hr Hs. split.
  - destruct (statement_runs what terminal elapsed db s sql ev Hr Hs) as (fuel & s' & HE & _). exists fuel. by rewrite HE.
  - intros fuel r s'. by apply statement_effect.
Qed.

(** C5. The database survives a restart: the file that the destructors of a session leave (the catalog's
    writes the metadata) opens again, and the new session has the same tables with the same rows. *)
Theorem restart_keeps_database {F} `{PosixFileLaws F} `{!ReliableFile F} `{MapOrderLaws} `{PgQuery} db (s : Session F) frames out :
  represents db s -> catalog_fits (catalog_ s) -> Z.of_nat (length (disk_bytes (disk_manager_ (catalog_ s)))) < 2 ^ 63 -> (2 <= frames)%nat ->
  let file := Some (close_session s) in
  exists c, catalog_Open file = (Ok c, file) /\ tables_by_name_ c = tables_by_name_ (catalog_ s) /\ represents db (mk_session c (new_pool frames) out).
Proof. apply restart_represents. Qed.


(** ** A session *)

(** On a new file: [CREATE TABLE], [INSERT], [SELECT]. *)
Definition demo_run (sql : string) (s : Session mem_file) : Session mem_file :=
  snd (ExecuteStatement "bad variant access" 9 false f64_zero sql s).
Definition demo_new : Session mem_file := mk_session empty_catalog (new_pool 4) "".
Definition demo_created : Session mem_file := demo_run "CREATE TABLE t (a INTEGER)" demo_new.
Definition demo_filled : Session mem_file := demo_run "INSERT INTO t VALUES (7), (-8)" demo_created.
Definition demo_values : list (list Value) := [[VInt 7]; [VInt (-8)]].
Definition demo_db : Database := effect (effect ∅ (Created "t")) (Inserted "t" demo_values).
Definition demo_column : ColumnDef := mk_column "a" kInteger 0.
Definition demo_output : list OutputColumn := [mk_output "a" ExprInteger].
Definition demo_plan : LogicalPlanNode :=
  LogicalProjection (LogicalScan 0 0 demo_output [0]) [BoundColumnRef 0 0 kInteger] demo_output.

Lemma demo_create_supported : supported ∅ demo_new "CREATE TABLE t (a INTEGER)" (Created "t").
Proof.
  apply (sup_create _ _ _ (mk_create_node "t" [mk_raw_column "a" "int4"]) [demo_column]); try reflexivity. by exists 9%nat.
Qed.

Lemma demo_created_runs :
  ExecuteStatement "bad variant access" 9 false f64_zero "CREATE TABLE t (a INTEGER)" demo_new = (Ok tt, demo_created).
Proof. vm_compute. reflexivity. Qed.

Lemma demo_created_table : GetTable (catalog_ demo_created) "t" = Some (new_table 0 "t" [demo_column]).
Proof. vm_compute. reflexivity. Qed.

Lemma demo_insertable (c : Catalog mem_file) :
  next_page (disk_manager_ c) + groups_pages [kInteger] (row_groups demo_values) < 2 ^ 32 ->
  insertable c (new_table 0 "t" [demo_column]) demo_values.
Proof.
  assert (row_groups demo_values = [demo_values]) as Hg by (vm_compute; reflexivity).
  intros Hpages. split.
  - discriminate.
  - unfold sizes_ok. rewrite Hg. repeat constructor; [|intros [|j] Hj; discriminate Hj].
    intros [|j]; vm_compute; reflexivity.
  - exact Hpages.
  - repeat constructor; intros [|j] v Hj; simpl in Hj; try discriminate Hj; injection Hj as <-; simpl; unfold is_i32; lia.
  - repeat constructor; intros [|j] f Hj; discriminate Hj.
  - rewrite Hg. constructor; [|constructor]. intros j Hj. simpl in Hj. destruct j as [|j]; [|lia]. by split; [simpl; lia|].
Qed.

(** The INSERT, in a session with the table. *)
Lemma demo_inserts db (s : Session mem_file) :
  GetTable (catalog_ s) "t" = Some (new_table 0 "t" [demo_column]) ->
  BindInsert (catalog_ s) (mk_insert_node "t" [] [[RawMakeIntConst 7]; [RawMakeIntConst (-8)]]) = Ok (mk_bound_insert 0 (map literal_row demo_values)) ->
  next_page (disk_manager_ (catalog_ s)) + groups_pages [kInteger] (row_groups demo_values) < 2 ^ 32 ->
  supported db s "INSERT INTO t VALUES (7), (-8)" (Inserted "t" demo_values).
Proof.
  intros Ht HB Hpages.
  apply (sup_insert _ _ _ (mk_insert_node "t" [] [[RawMakeIntConst 7]; [RawMakeIntConst (-8)]]) (new_table 0 "t" [demo_column])
    (mk_bound_insert 0 (map literal_row demo_values)));
    [done|done|by exists 9%nat|exact Ht|constructor|exact HB|done|by apply demo_insertable].
Qed.

Lemma demo_insert_supported : supported (effect ∅ (Created "t")) demo_created "INSERT INTO t VALUES (7), (-8)" (Inserted "t" demo_values).
Proof.
  apply demo_inserts; [exact demo_created_table|vm_compute; reflexivity..].
Qed.

Lemma demo_filled_runs :
  ExecuteStatement "bad variant access" 9 false f64_zero "INSERT INTO t VALUES (7), (-8)" demo_created = (Ok tt, demo_filled).
Proof. vm_compute. reflexivity. Qed.

Lemma demo_created_represents : represents (effect ∅ (Created "t")) demo_created.
Proof.
  destruct (statement_effect _ _ _ ∅ demo_new _ _ _ _ _ (new_represents fresh_disk 4 "" fresh_disk_wf ltac:(lia)) demo_create_supported
    demo_created_runs ltac:(done)) as (_ & Hr & _). exact Hr.
Qed.

Lemma demo_filled_represents : represents demo_db demo_filled.
Proof.
  destruct (statement_effect _ _ _ _ _ _ _ _ _ _ demo_created_represents demo_insert_supported demo_filled_runs ltac:(done)) as (_ & Hr & _).
  exact Hr.
Qed.

Lemma demo_filled_catalog :
  exists t, tables_by_name_ (catalog_ demo_filled) = {["t" := t]} /\ tbl_id_ t = 0 /\ table_name_ t = "t" /\ tbl_columns_ t = [demo_column] /\
    Forall row_group_wf (row_groups_ t).
Proof. eexists. split; [vm_compute; reflexivity|]. split_and!; try done. repeat constructor; by vm_compute. Qed.

Lemma demo_rows_by_id {F} (c : Catalog F) t :
  GetTableById c 0 = Some t -> table_name_ t = "t" -> rows_by_id c demo_db 0 = cells demo_values.
Proof.
  assert (demo_db !! "t" = Some (cells demo_values)) as Hdb by (vm_compute; reflexivity).
  intros Ht Hname. unfold rows_by_id. by rewrite Ht, Hname, Hdb.
Qed.

Definition demo_select : SelectNode :=
  mk_select [mk_select_item false (Some (RawMakeColumnRef None "a"))] [BaseTableRef "t" None] None [] None false false false false false.

Lemma demo_sql_rows (db : Z -> list Row) (t : TableObject) :
  db 0 = cells demo_values -> tbl_id_ t = 0 -> tbl_columns_ t = [demo_column] -> sql_rows db [mk_binding 0 "t" t] demo_select = cells demo_values.
Proof.
  intros Hdb Hid Hcols. destruct t as [id n cols m rgs total]. simpl in Hid, Hcols. subst.
  unfold sql_rows, sql_from. cbn [map source cross binding_id binding_table tbl_id_]. rewrite Hdb. vm_compute. reflexivity.
Qed.

Lemma demo_answerable (c : Catalog mem_file) t :
  tables_by_name_ c = {["t" := t]} -> tbl_id_ t = 0 -> table_name_ t = "t" -> tbl_columns_ t = [demo_column] ->
  BindSelect c demo_select = Ok demo_plan -> answerable c demo_db demo_select [mk_binding 0 "t" t].
Proof.
  intros Hts Hid Hname Hcols HB. assert (GetTableById c 0 = Some t) as Ht.
  { unfold GetTableById, iterate, list_order. rewrite Hts, map_to_list_singleton. by rewrite filter_cons_True by done. }
  split.
  - split; [done|simpl; lia].
  - unfold sql_scope. simpl. unfold GetTable. by rewrite Hts, lookup_singleton_eq.
  - reflexivity.
  - exists demo_plan, (2 ^ 31). split; [done|]. split; [done|]. split; [by intros b _ ?|]. intros pushed [= <-]. cbn. unfold Positions.narrow. simpl. lia.
  - rewrite demo_sql_rows; [done|by apply (demo_rows_by_id c t)|done|done].
Qed.

Lemma demo_select_supported :
  exists t, tbl_columns_ t = [demo_column] /\ supported demo_db demo_filled "SELECT a FROM t" (Selected [mk_binding 0 "t" t] demo_select).
Proof.
  destruct demo_filled_catalog as (t & Hts & Hid & Hname & Hcols & _). exists t. split; [done|].
  apply sup_select; [done|done|by exists 9%nat|]. apply (demo_answerable _ t Hts Hid Hname Hcols). vm_compute. reflexivity.
Qed.

Lemma select_reads_only_witness :
  let s := snd (RunSelect 9 false f64_zero demo_plan demo_filled) in
  clean (buffer_pool_ s) /\ catalog_ s = catalog_ demo_filled.
Proof.
  intros s. destruct (RunSelect 9 false f64_zero demo_plan demo_filled) as [r s'] eqn:HR.
  exact (select_reads_only 9 false f64_zero demo_plan demo_filled s' r (rp_clean _ _ demo_filled_represents) HR).
Defined.

Lemma session_invariant_witness : represents demo_db demo_filled.
Proof.
  apply (session_invariant demo_db demo_filled).
  apply (session_statement (effect ∅ (Created "t")) demo_created "INSERT INTO t VALUES (7), (-8)" (Inserted "t" demo_values)
    "bad variant access" 9 false f64_zero (Ok tt)); [|exact demo_insert_supported|exact demo_filled_runs|done].
  apply (session_statement ∅ demo_new "CREATE TABLE t (a INTEGER)" (Created "t")
    "bad variant access" 9 false f64_zero (Ok tt)); [|exact demo_create_supported|exact demo_created_runs|done].
  apply (session_new fresh_disk 4 "" fresh_disk_wf). lia.
Defined.

Lemma statement_correct_witness :
  exists s, ExecuteStatement "bad variant access" 9 false f64_zero "SELECT a FROM t" demo_filled = (Ok tt, s) /\
    represents demo_db s /\
    exists t, tbl_columns_ t = [demo_column] /\ out_ s = out_ demo_filled ++
      select_text false f64_zero (sql_headers [mk_binding 0 "t" t] demo_select) (sql_rows (rows_by_id (catalog_ demo_filled) demo_db) [mk_binding 0 "t" t] demo_select).
Proof.
  destruct demo_select_supported as (t & Hcols & Hs).
  destruct (statement_correct "bad variant access" false f64_zero demo_db demo_filled "SELECT a FROM t" _ demo_filled_represents Hs) as [_ Hc].
  assert (exists s, ExecuteStatement "bad variant access" 9 false f64_zero "SELECT a FROM t" demo_filled = (Ok tt, s)) as [s HE]
    by (eexists; vm_compute; reflexivity).
  exists s. destruct (Hc 9%nat (Ok tt) s HE ltac:(discriminate)) as (_ & Hr & Hout).
  exact (conj HE (conj Hr (ex_intro _ t (conj Hcols Hout)))).
Defined.

Lemma restart_keeps_database_witness :
  exists c, catalog_Open (Some (close_session demo_filled)) = (Ok c, Some (close_session demo_filled)) /\
    represents demo_db (mk_session c (new_pool 2) "").
Proof.
  assert (catalog_fits (catalog_ demo_filled)) as Hfits.
  { split_and!; [| |by vm_compute|by vm_compute].
    - split_and!; [by vm_compute|by vm_compute|]. repeat constructor; by vm_compute.
    - destruct demo_filled_catalog as (t & -> & _ & _ & _ & Hg). intros n t' [_ <-]%lookup_singleton_Some. exact Hg. }
  destruct (restart_keeps_database demo_db demo_filled 2 "" demo_filled_represents Hfits ltac:(vm_compute; reflexivity) ltac:(lia))
    as (c & HO & _ & Hr).
  exists c. exact (conj HO Hr).
Defined.
