(* ===== verification/Repl.v ===== *)
(** Model of [src/main.cpp]: the loop that reads lines, splits them into statements at the
    semicolons and hands the statements to the driver. Standard output is the
    stream of the driver's session. *)

From S2P Require Import Prelude Text Scalar Disk BufferPool Schema Catalog Operators Binder Parser ParseTree ParserSpec Driver.

#[local] Open Scope string_scope.
#[local] Open Scope Z_scope.

Definition kDefaultBufferPoolFrames : nat := 256.
Definition escape : string := String "027"%char "".
Definition kPrompt : string := escape ++ "[1;35mGistDB> " ++ escape ++ "[0m".
Definition kContinuationPrompt : string := escape ++ "[1;35m      > " ++ escape ++ "[0m".

Definition is_whitespace (c : ascii) : bool :=
  bool_decide (c = " "%char) || bool_decide (c = "009"%char) || bool_decide (c = "013"%char) || bool_decide (c = "010"%char).

Definition Trim (text : string) : string :=
  match find_first_not_of is_whitespace text, find_last_not_of is_whitespace text with
  | Some begin, Some end_ => substr begin (end_ - begin + 1) text
  | _, _ => ""
  end.

(** ** Reading *)

(** What [read(STDIN_FILENO, &ch, 1)] meets, in order: a byte, an end of file (0), SIGINT
    during the call ([EINTR]) or another error, and SIGINT outside the call. After
    the last event every call returns 0. *)
Inductive ReadEvent : Type :=
  | ReadByte (c : ascii)
  | ReadEnd
  | ReadInterrupted
  | ReadError
  | Signal.

Inductive ReadLineStatus : Type := kLine | kEof | kInterrupted.

(** [HandleSigint] sets the flag: signals that have arrived. *)
Fixpoint deliver (sigint : bool) (input : list ReadEvent) : bool * list ReadEvent :=
  match input with Signal :: input => deliver true input | _ => (sigint, input) end.

(** The status, the line, the flag and the input that is left. *)
Fixpoint ReadLine (line : string) (sigint : bool) (input : list ReadEvent) : ReadLineStatus * string * bool * list ReadEvent :=
  match input with
  | Signal :: input => ReadLine line true input
  | ReadInterrupted :: input => (kInterrupted, "", true, input)
  | ReadError :: input => (kEof, "", sigint, input)
  | ReadEnd :: input => (if bool_decide (line = "") then kEof else kLine, line, sigint, input)
  | [] => (if bool_decide (line = "") then kEof else kLine, line, sigint, [])
  | ReadByte ch :: input =>
      if bool_decide (ch = "010"%char) then (kLine, line, sigint, input) else ReadLine (line ++ String ch "") sigint input
  end.

Definition help_text : string :=
  "GistDB -- supported statements" ++ newline ++ newline ++
  "  CREATE TABLE t (col TYPE, ...)     TYPE is INTEGER, FLOAT, or VARCHAR" ++ newline ++
  "  INSERT INTO t [(col, ...)] VALUES (...), (...), ..." ++ newline ++
  "  SELECT expr, ... FROM t [JOIN t2 ON t.a = t2.b] [WHERE cond]" ++ newline ++
  "                    [GROUP BY col, ...]" ++ newline ++ newline ++
  "  Aggregates:  COUNT(*), COUNT(col), SUM(col), AVG(col), MIN(col), MAX(col)" ++ newline ++
  "  Operators:   = <> != < <= > >=   + - * /   AND OR NOT" ++ newline ++
  "  Joins:       INNER JOIN only, equality conditions only" ++ newline ++ newline ++
  "  Not supported: HAVING, ORDER BY, LIMIT/OFFSET, DISTINCT, subqueries," ++ newline ++
  "                 UPDATE, DELETE, ALTER TABLE, DROP TABLE, WITH, UNION" ++ newline ++ newline ++
  "  A statement may span multiple lines and ends at the first ';'." ++ newline ++ newline ++
  "  help          show this message" ++ newline ++
  "  quit / exit   leave GistDB" ++ newline.

(** ** Statements *)

(** [find(';')]. *)
Fixpoint find_char (c : ascii) (s : string) : option nat :=
  match s with "" => None | String x s => if bool_decide (x = c) then Some 0%nat else S <$> find_char c s end.

(** The word of a line that is a command: without a final semicolon, trimmed, in lower case. *)
Definition command_word (trimmed_line : string) : string :=
  let lowered :=
    match String.get (strlen trimmed_line - 1) trimmed_line with
    | Some c => if bool_decide (c = ";"%char) then prefix_chars (strlen trimmed_line - 1) trimmed_line else trimmed_line
    | None => trimmed_line
    end in
  lower (Trim lowered).

Section Repl.
Context {F : Type} `{PosixFile F} `{MapOrder} `{PgQuery}.
Context (bad_variant_access_what : string) (terminal : bool).

(** The environment: [isatty(STDIN_FILENO)], what [ioctl(FIONREAD)] finds, the fuel of a
    statement and the time it takes. *)
Context (interactive : bool) (InputAlreadyPending : list ReadEvent -> bool) (fuel : string -> nat) (elapsed : string -> f64).

Definition maybe_print_prompt (statement_buffer : string) (input : list ReadEvent) : io (Session F) unit :=
  if negb interactive then mret tt
  else if InputAlreadyPending input then mret tt
  else write (if bool_decide (statement_buffer = "") then kPrompt else kContinuationPrompt).

Definition print_if (condition : bool) (text : string) : io (Session F) unit := if condition then write text else mret tt.

Definition execute (statement : string) : io (Session F) unit :=
  ExecuteStatement bad_variant_access_what (fuel statement) terminal (elapsed statement) statement.

(** The loop over the semicolons, which executes each statement before it looks for the next;
    what is left of the buffer. *)
Fixpoint execute_buffer (steps : nat) (statement_buffer : string) : io (Session F) string :=
  match steps with
  | O => io_lift OutOfFuel
  | S steps =>
      match find_char ";"%char statement_buffer with
      | None => mret statement_buffer
      | Some semicolon_pos =>
          let statement := Trim (substr 0 semicolon_pos statement_buffer) in
          let statement_buffer := substr_from (semicolon_pos + 1) statement_buffer in
          _ ← (if bool_decide (statement = "") then mret tt else execute statement);
          execute_buffer steps statement_buffer
      end
  end.

(** What the body of the loop does next. *)
Inductive Step : Type := Continue (statement_buffer : string) | Break.

(** The line [line], with [statement_buffer] before it. *)
Definition process_line (statement_buffer line : string) : io (Session F) Step :=
  let trimmed_line := Trim line in
  let word := command_word trimmed_line in
  let fresh := bool_decide (statement_buffer = "") in
  if fresh && (bool_decide (word = "quit") || bool_decide (word = "exit")) then
    _ ← print_if interactive ("Goodbye." ++ newline); mret Break
  else if fresh && bool_decide (word = "help") then
    _ ← write help_text; mret (Continue "")
  else if fresh && bool_decide (trimmed_line = "") then mret (Continue "")
  else
    let statement_buffer := (if fresh then "" else statement_buffer ++ newline) ++ line in
    rest ← execute_buffer (S (strlen statement_buffer)) statement_buffer;
    mret (Continue rest).

(** One iteration; [steps] bounds the number of iterations. *)
Fixpoint main_loop (steps : nat) (statement_buffer : string) (sigint : bool) (input : list ReadEvent) : io (Session F) unit :=
  match steps with
  | O => io_lift OutOfFuel
  | S steps =>
      let '(sigint, input) := deliver sigint input in
      if sigint : bool then
        _ ← print_if interactive newline;
        _ ← maybe_print_prompt "" input;
        main_loop steps "" false input
      else
        match ReadLine "" false input with
        | (kInterrupted, _, _, input) =>
            _ ← print_if interactive newline;
            _ ← maybe_print_prompt "" input;
            main_loop steps "" false input
        | (kEof, _, _, _) => print_if interactive newline
        | (kLine, line, sigint, input) =>
            next ← process_line statement_buffer line;
            match next with
            | Break => mret tt
            | Continue statement_buffer =>
                _ ← maybe_print_prompt statement_buffer input;
                main_loop steps statement_buffer sigint input
            end
        end
  end.

(** The body of the [try] block after the driver has been set up. *)
Definition run_session (input : list ReadEvent) : io (Session F) unit :=
  _ ← maybe_print_prompt "" input;
  _ ← main_loop (S (length input)) "" false input;
  on_catalog Flush.

(** [main]: the outcome is the exit code with what was written to standard output and
    standard error, and the file as the destructors leave it. *)
Definition main (argc : nat) (program : string) (exists_db : bool) (opened : option F) (input : list ReadEvent)
    : result (Z * string * string) * option F :=
  if negb (argc =? 2)%nat then (Ok (1, "", "Usage: " ++ program ++ " <database-file>" ++ newline), opened)
  else
    let fatal e := "Fatal: " ++ what bad_variant_access_what e ++ newline in
    match (if exists_db then catalog_Open opened else catalog_CreateNew opened) with
    | (Ok catalog, _) =>
        match run_session input (mk_session catalog (new_pool kDefaultBufferPoolFrames) "") with
        | (Ok _, s) => (Ok (0, out_ s, ""), Some (close_session s))
        | (Throw e, s) => (Ok (1, out_ s, fatal e), Some (close_session s))
        | (Undefined, s) => (Undefined, None)
        | (OutOfFuel, s) => (OutOfFuel, None)
        end
    | (Throw e, file) => (Ok (1, "", fatal e), file)
    | (Undefined, _) => (Undefined, None)
    | (OutOfFuel, _) => (OutOfFuel, None)
    end.

End Repl.

(** ** The statements of a text *)

(** Reference definition: the trimmed texts before the semicolons that are not empty, and
    what follows the last one. *)
Fixpoint scan (current text : string) : list string * string :=
  match text with
  | "" => ([], current)
  | String c text =>
      if bool_decide (c = ";"%char) then
        let '(statements, rest) := scan "" text in
        (if bool_decide (Trim current = "") then statements else Trim current :: statements, rest)
      else scan (current ++ String c "") text
  end.

Definition statements (text : string) : list string := (scan "" text).1.

(** The characters of a text are all in a set, or none of them is [c]. *)
Definition all_in (set : ascii -> bool) (s : string) : Prop := Forall (fun c => set c = true) (list_ascii_of_string s).
Definition has_no (c : ascii) (s : string) : Prop := Forall (fun x => x <> c) (list_ascii_of_string s).

Lemma list_ascii_append a b : list_ascii_of_string (a ++ b) = (list_ascii_of_string a ++ list_ascii_of_string b)%list.
Proof. induction a as [|x a IH]; [done|]. rewrite append_cons. simpl. by rewrite IH. Qed.

Lemma has_no_append c a b : has_no c (a ++ b) <-> has_no c a /\ has_no c b.
Proof. unfold has_no. by rewrite list_ascii_append, Forall_app. Qed.

(** ** Trimming *)

Lemma find_last_none set s : find_last_not_of set s = None <-> all_in set s.
Proof.
  unfold all_in. induction s as [|c s IH]; simpl; [by rewrite Forall_nil|]. rewrite Forall_cons.
  destruct (find_last_not_of set s) as [i|]; [split; [done|]; intros [_ Hs]; by apply IH in Hs|].
  destruct (set c); simpl; [|split; [done|by intros [? _]]]. split; [intros _; split; [done|by apply IH]|done].
Qed.

Lemma find_first_none set s : find_first_not_of set s = None <-> all_in set s.
Proof.
  unfold all_in. induction s as [|c s IH]; simpl; [by rewrite Forall_nil|]. rewrite Forall_cons. destruct (set c); [|split; [done|by intros [? _]]].
  destruct (find_first_not_of set s); simpl; [split; [done|]; intros [_ Hs]; by apply IH in Hs|]. split; [intros _; split; [done|by apply IH]|done].
Qed.

Lemma Trim_space c s : is_whitespace c = true -> Trim (String c s) = Trim s.
Proof.
  intros Hc. unfold Trim. simpl. rewrite Hc. pose proof (find_first_none is_whitespace s) as Hf. pose proof (find_last_none is_whitespace s) as Hl.
  destruct (find_first_not_of is_whitespace s) as [b|], (find_last_not_of is_whitespace s) as [e|]; simpl; try done.
Qed.

Lemma Trim_spaces w s : all_in is_whitespace w -> Trim (w ++ s) = Trim s.
Proof.
  unfold all_in. induction w as [|c w IH]; [done|]. simpl. rewrite Forall_cons. intros [Hc Hw]. rewrite append_cons, Trim_space by done. by apply IH.
Qed.

Lemma first_le_last set s b e : find_first_not_of set s = Some b -> find_last_not_of set s = Some e -> (b <= e < strlen s)%nat.
Proof.
  unfold strlen. revert b e. induction s as [|c s IH]; intros b e; simpl; [done|].
  destruct (set c) eqn:Hc.
  - destruct (find_first_not_of set s) as [b'|]; [|done]. destruct (find_last_not_of set s) as [e'|]; [|done].
    intros [= <-] [= <-]. specialize (IH b' e' eq_refl eq_refl). lia.
  - intros [= <-]. destruct (find_last_not_of set s) as [e'|] eqn:He; intros [= <-]; [|lia].
    destruct (find_first_not_of set s) as [b'|] eqn:Hb; [specialize (IH b' e' eq_refl eq_refl); lia|].
    apply find_first_none, find_last_none in Hb. congruence.
Qed.

Lemma substr_nonempty b n s : (b < strlen s)%nat -> (0 < n)%nat -> substr b n s <> "".
Proof.
  unfold substr, strlen. revert s. induction b as [|b IH]; intros [|c s] Hb Hn; simpl in *; try lia; [by destruct n; [lia|]|]. apply IH; lia.
Qed.

Lemma Trim_empty s : Trim s = "" <-> all_in is_whitespace s.
Proof.
  unfold Trim. split.
  - destruct (find_first_not_of is_whitespace s) as [b|] eqn:Hb; [|intros _; by apply find_first_none].
    destruct (find_last_not_of is_whitespace s) as [e|] eqn:He; [|intros _; by apply find_last_none].
    pose proof (first_le_last _ _ _ _ Hb He). intros E. exfalso. apply (substr_nonempty b (e - b + 1) s); [lia|lia|done].
  - intros Hw. by rewrite (proj2 (find_first_none _ _) Hw).
Qed.

(** ** Scanning *)

Lemma scan_no_semicolon current a text : has_no ";"%char a -> scan current (a ++ text) = scan (current ++ a) text.
Proof.
  unfold has_no. revert current. induction a as [|c a IH]; intros current; [by rewrite append_nil|]. simpl. rewrite Forall_cons. intros [Hc Ha].
  rewrite bool_decide_false by done. rewrite IH by done. by rewrite append_assoc.
Qed.

Lemma scan_semicolon current text :
  scan current (String ";"%char text) =
    ((if bool_decide (Trim current = "") then (scan "" text).1 else Trim current :: (scan "" text).1), (scan "" text).2).
Proof. simpl. by destruct (scan "" text). Qed.

Lemma scan_append current a b :
  scan current (a ++ b) = (((scan current a).1 ++ (scan (scan current a).2 b).1)%list, (scan (scan current a).2 b).2).
Proof.
  revert current. induction a as [|c a IH]; intros current; [change ("" ++ b) with b; simpl; by destruct (scan current b)|]. rewrite append_cons. simpl.
  case_bool_decide; [|apply IH]. rewrite IH. destruct (scan "" a) as [ss r]. simpl. destruct (scan r b). by case_bool_decide.
Qed.

(** White space before a statement does not matter. *)
Lemma scan_spaces w current text : all_in is_whitespace w -> (scan (w ++ current) text).1 = (scan current text).1.
Proof.
  intros Hw. revert current. induction text as [|c text IH]; intros current; [done|]. simpl.
  case_bool_decide; [|rewrite append_assoc; apply IH]. destruct (scan "" text). simpl. by rewrite Trim_spaces.
Qed.

Lemma scan_rest current text : has_no ";"%char current -> has_no ";"%char (scan current text).2.
Proof.
  revert current. induction text as [|c text IH]; intros current Hc; [done|]. simpl. case_bool_decide as Hs.
  - destruct (scan "" text) as [ss r] eqn:E. simpl. specialize (IH "" ltac:(constructor)). by rewrite E in IH.
  - apply IH. apply has_no_append. split; [done|]. constructor; [done|constructor].
Qed.

Lemma find_char_spec c s :
  match find_char c s with
  | Some i => s = substr 0 i s ++ String c (substr_from (i + 1) s) /\ has_no c (substr 0 i s) /\ (i < strlen s)%nat
  | None => has_no c s
  end.
Proof.
  unfold has_no, substr, strlen. induction s as [|x s IH]; simpl; [constructor|]. case_bool_decide as Hx; simpl.
  - subst x. split; [by destruct s|]. split; [constructor|lia].
  - destruct (find_char c s) as [i|]; simpl.
    + destruct IH as (E & Hn & Hi). split; [|split; [by constructor|lia]]. rewrite append_cons. by rewrite E at 1.
    + by constructor.
Qed.

Lemma strlen_substr_from i s : (strlen (substr_from i s) <= strlen s - i)%nat.
Proof. unfold strlen. revert s. induction i as [|i IH]; intros [|c s]; simpl; try lia. apply IH. Qed.

(** ** The loop over the semicolons *)

Section Loop.
Context {F : Type} `{PosixFile F} `{MapOrder} `{PgQuery}.
Context (bad_variant_access_what : string) (terminal : bool) (InputAlreadyPending : list ReadEvent -> bool)
  (fuel : string -> nat) (elapsed : string -> f64).

Definition execute_all (statements : list string) : io (Session F) unit :=
  for_each statements (fun statement _ => execute bad_variant_access_what terminal fuel elapsed statement) tt.

Lemma io_bind_assoc {W A B C} (m : io W A) (f : A -> io W B) (g : B -> io W C) w : ((m ≫= f) ≫= g) w = (m ≫= (fun a => f a ≫= g)) w.
Proof. unfold mbind, io_bind. by destruct (m w) as [[] w']. Qed.

Lemma io_bind_ext {W A B} (m : io W A) (f g : A -> io W B) w : (forall a w', f a w' = g a w') -> (m ≫= f) w = (m ≫= g) w.
Proof. intros Hfg. unfold mbind, io_bind. destruct (m w) as [[] w']; auto. Qed.

Lemma execute_all_append xs ys w : execute_all (xs ++ ys) w = (execute_all xs ≫= (fun _ => execute_all ys)) w.
Proof.
  unfold execute_all. revert w. induction xs as [|x xs IH]; intros w; [done|]. simpl. rewrite io_bind_assoc. apply io_bind_ext. intros [] w'. apply IH.
Qed.

Lemma execute_buffer_scan steps buffer w :
  (strlen buffer < steps)%nat ->
  execute_buffer bad_variant_access_what terminal fuel elapsed steps buffer w =
    (execute_all (scan "" buffer).1 ≫= (fun _ => mret (scan "" buffer).2)) w.
Proof.
  revert buffer w. induction steps as [|steps IH]; intros buffer w Hs; [lia|]. simpl. pose proof (find_char_spec ";"%char buffer) as Hf.
  destruct (find_char ";"%char buffer) as [i|].
  - destruct Hf as (E & Hn & Hi). pose proof (strlen_substr_from (i + 1) buffer).
    set (front := substr 0 i buffer) in *. set (rest := substr_from (i + 1) buffer) in *.
    replace (scan "" buffer) with ((if bool_decide (Trim front = "") then (scan "" rest).1 else Trim front :: (scan "" rest).1), (scan "" rest).2)
      by (rewrite E, scan_no_semicolon by done; by rewrite scan_semicolon).
    cbn [fst snd]. case_bool_decide.
    + unfold mbind at 1, io_bind at 1. simpl. apply IH. lia.
    + unfold execute_all. cbn [for_each]. rewrite io_bind_assoc. apply io_bind_ext. intros [] w'. rewrite (IH rest w') by lia. done.
  - assert (scan "" buffer = ([], buffer)) as -> by (rewrite <- (append_nil buffer) at 1; by rewrite scan_no_semicolon). done.
Qed.

(** ** Scripts *)

(** The bytes of lines, each with its newline. *)
Definition text_of_lines (lines : list string) : string := cat (map (fun line => line ++ newline) lines).
Definition bytes (text : string) : list ReadEvent := map ReadByte (list_ascii_of_string text).

Lemma ReadLine_line line rest acc :
  has_no "010"%char line -> ReadLine acc false (bytes (line ++ newline) ++ rest)%list = (kLine, acc ++ line, false, rest).
Proof.
  unfold has_no, bytes. revert acc. induction line as [|c line IH]; intros acc.
  - intros _. simpl. by rewrite append_nil.
  - simpl. rewrite Forall_cons. intros [Hc Hl]. rewrite bool_decide_false by done. rewrite IH by done. by rewrite append_assoc.
Qed.

Lemma bytes_append a b : bytes (a ++ b) = (bytes a ++ bytes b)%list.
Proof. unfold bytes. by rewrite list_ascii_append, map_app. Qed.

(** A line of a script: without a newline, and not one of the commands. *)
Definition script_line (line : string) : Prop :=
  has_no "010"%char line /\ command_word (Trim line) ∉ ["quit"; "exit"; "help"].

(** The statements of the lines that follow a buffer. *)
Definition pending (buffer : string) : string := if bool_decide (buffer = "") then "" else buffer ++ newline.

Lemma pending_scan rest more : (scan rest (newline ++ more)).1 = (scan (pending rest) more).1.
Proof.
  assert (all_in is_whitespace newline) as Hnl by (constructor; [done|constructor]).
  change (newline ++ more) with (String "010"%char more). simpl. unfold pending. case_bool_decide as E; [|done]. subst.
  change ("" ++ String "010" "") with (newline ++ ""). by apply scan_spaces.
Qed.

Lemma pending_has_no buffer : has_no ";"%char buffer -> has_no ";"%char (pending buffer).
Proof. intros Hb. unfold pending. case_bool_decide; [constructor|]. apply has_no_append. split; [done|]. by constructor. Qed.

Lemma process_line_spec buffer line w :
  has_no ";"%char buffer -> script_line line ->
  process_line bad_variant_access_what terminal false fuel elapsed buffer line w =
    (execute_all (scan (pending buffer) line).1 ≫= (fun _ => mret (Continue
      (if bool_decide (buffer = "") && bool_decide (Trim line = "") then "" else (scan (pending buffer) line).2)))) w.
Proof.
  intros Hb [_ Hword]. rewrite !not_elem_of_cons in Hword. destruct Hword as (Hq & He & Hh & _). unfold process_line.
  rewrite (bool_decide_false _ Hq), (bool_decide_false _ He), (bool_decide_false _ Hh). cbn [orb]. rewrite !andb_false_r.
  destruct (bool_decide (buffer = "") && bool_decide (Trim line = "")) eqn:Eb.
  - apply andb_prop in Eb as [->%bool_decide_eq_true Ht%bool_decide_eq_true]. apply Trim_empty in Ht.
    assert (has_no ";"%char line) as Hn by (eapply Forall_impl; [exact Ht|]; by intros c Hc ->).
    change (pending "") with "". rewrite <- (append_nil line), (scan_no_semicolon "" line "" Hn). done.
  - assert ((if bool_decide (buffer = "") then "" else buffer ++ newline) ++ line = pending buffer ++ line) as -> by done.
    assert (scan "" (pending buffer ++ line) = scan (pending buffer) line) as Hscan by (by rewrite scan_no_semicolon by (by apply pending_has_no)).
    unfold mbind at 1, io_bind at 1. rewrite execute_buffer_scan by lia. rewrite Hscan. unfold mbind, io_bind.
    by destruct (execute_all (scan (pending buffer) line).1 w) as [[] w'].
Qed.

Lemma deliver_bytes text : deliver false (bytes text) = (false, bytes text).
Proof. by destruct text. Qed.

(** The buffer after a line that was skipped or scanned: it holds no semicolon, and what it
    contributes to the rest of the text is what the line left. *)
Lemma skipped_rest buffer line more :
  has_no ";"%char buffer ->
  let rest := (scan (pending buffer) line).2 in
  let buffer' := if bool_decide (buffer = "") && bool_decide (Trim line = "") then "" else rest in
  has_no ";"%char buffer' /\ (scan rest (newline ++ more)).1 = (scan (pending buffer') more).1.
Proof.
  intros Hb rest buffer'. unfold buffer'. destruct (bool_decide (buffer = "") && bool_decide (Trim line = "")) eqn:Eb.
  - split; [constructor|]. apply andb_prop in Eb as [->%bool_decide_eq_true Ht%bool_decide_eq_true]. apply Trim_empty in Ht.
    assert (has_no ";"%char line) as Hn by (eapply Forall_impl; [exact Ht|]; by intros c Hc ->).
    assert (rest = line) as -> by (unfold rest; rewrite <- (append_nil line), (scan_no_semicolon _ line "" Hn); by rewrite append_nil).
    rewrite scan_no_semicolon by (by constructor). rewrite <- (append_nil (line ++ newline)).
    assert (all_in is_whitespace (line ++ newline)) as Hw.
    { unfold all_in. rewrite list_ascii_append. apply Forall_app. split; [done|]. by constructor. }
    by apply scan_spaces.
  - split; [apply scan_rest, pending_has_no, Hb|apply pending_scan].
Qed.

Lemma main_loop_script steps lines buffer w :
  has_no ";"%char buffer -> Forall script_line lines -> (length lines < steps)%nat ->
  main_loop bad_variant_access_what terminal false InputAlreadyPending fuel elapsed steps buffer false (bytes (text_of_lines lines)) w =
    execute_all (scan (pending buffer) (text_of_lines lines)).1 w.
Proof.
  intros Hb Hlines. revert steps buffer w Hb. induction Hlines as [|line lines Hline Hlines IH]; intros steps buffer w Hb Hs;
    (destruct steps as [|steps]; [simpl in Hs; lia|]); [done|]. simpl in Hs. cbn [main_loop]. rewrite deliver_bytes.
  assert (text_of_lines (line :: lines) = (line ++ newline) ++ text_of_lines lines) as Htext by done.
  rewrite Htext, bytes_append, ReadLine_line by apply Hline. change ("" ++ line) with line.
  unfold mbind at 1, io_bind at 1. rewrite process_line_spec by done.
  rewrite append_assoc, scan_append. cbn [fst].
  destruct (skipped_rest buffer line (text_of_lines lines) Hb) as [Hb' ->].
  rewrite execute_all_append. unfold mbind, io_bind.
  destruct (execute_all (scan (pending buffer) line).1 w) as [[[]| | |] w'] eqn:E; try done. simpl. by apply IH; [|lia].
Qed.
End Loop.

Lemma run_session_script {F} `{PosixFile F} `{MapOrder} `{PgQuery} what terminal pending_input fuel elapsed lines (s : Session F) :
  Forall script_line lines ->
  run_session what terminal false pending_input fuel elapsed (bytes (text_of_lines lines)) s =
    (execute_all what terminal fuel elapsed (statements (text_of_lines lines)) ≫= (fun _ => on_catalog Flush)) s.
Proof.
  intros Hlines. unfold run_session, maybe_print_prompt. cbn [negb]. unfold mbind at 1, io_bind at 1. cbn [mret io_ret].
  unfold mbind, io_bind. rewrite main_loop_script; [done|constructor|done|].
  enough (length lines <= length (bytes (text_of_lines lines)))%nat by lia. clear. induction lines as [|line lines IH]; [simpl; lia|].
  change (text_of_lines (line :: lines)) with ((line ++ newline) ++ text_of_lines lines). rewrite !bytes_append, !length_app. simpl. lia.
Qed.

(** C14. Without a terminal a script is executed as its text says, however it is broken into lines:
    exactly the trimmed, non-empty texts before its semicolons, in order, each on the state
    the ones before it left; what follows the last semicolon is ignored; then the catalog is
    flushed. (Lines that are a command of the loop are excluded, wherever they are.) *)
Theorem script_execution {F} `{PosixFile F} `{MapOrder} `{PgQuery} what terminal pending_input fuel elapsed lines (s : Session F) :
  Forall script_line lines ->
  run_session what terminal false pending_input fuel elapsed (bytes (text_of_lines lines)) s =
    (execute_all what terminal fuel elapsed (statements (text_of_lines lines)) ≫= (fun _ => on_catalog Flush)) s.
Proof. apply run_session_script. Qed.

(** A space after the semicolon disables the commands of the loop: the space stays in the
    statement buffer, so that [quit] on the next line is taken for the beginning of a
    statement, and the loop goes on. *)
Theorem quit_after_space_ignored {F} `{PosixFile F} `{MapOrder} `{PgQuery} what terminal interactive fuel elapsed stmt (s s' : Session F) :
  has_no ";"%char stmt -> Trim stmt <> "" -> command_word (Trim (stmt ++ "; ")) ∉ ["quit"; "exit"; "help"] ->
  execute what terminal fuel elapsed (Trim stmt) s = (Ok tt, s') ->
  process_line what terminal interactive fuel elapsed "" (stmt ++ "; ") s = (Ok (Continue " "), s') /\
  process_line what terminal interactive fuel elapsed " " "quit" s' = (Ok (Continue (" " ++ newline ++ "quit")), s').
Proof.
  intros Hn Ht Hword Hex. split; [|done]. unfold process_line. rewrite !not_elem_of_cons in Hword. destruct Hword as (Hq & He & Hh & _).
  rewrite (bool_decide_false _ Hq), (bool_decide_false _ He), (bool_decide_false _ Hh). rewrite !andb_false_r, (bool_decide_false (Trim (stmt ++ "; ") = "")).
  - change (bool_decide ("" = "")) with true. cbn [andb orb]. change ("" ++ stmt ++ "; ") with (stmt ++ "; "). unfold mbind at 1, io_bind at 1. rewrite execute_buffer_scan by lia.
    rewrite scan_no_semicolon by done. change ("; ") with (String ";" " "). change ("" ++ stmt) with stmt. rewrite scan_semicolon. rewrite bool_decide_false by done.
    unfold execute_all. cbn [for_each fst snd]. unfold mbind, io_bind. by rewrite Hex.
  - intros Hw%Trim_empty. apply Ht, Trim_empty. unfold all_in in *. rewrite list_ascii_append, Forall_app in Hw. apply Hw.
Qed.

(** ** A script *)

Example statements_ex : statements ("INSERT INTO t" ++ newline ++ " VALUES (1) ; ;" ++ newline ++ newline ++ "SELECT a FROM t; rest") =
  ["INSERT INTO t" ++ newline ++ " VALUES (1)"; "SELECT a FROM t"].
Proof. reflexivity. Qed.

(** The session of a new database, with the parser of the examples. *)
Definition demo_session : Session mem_file := mk_session empty_catalog (new_pool 4) "".
Definition demo_script : list string := ["SELECT a"; ""; "  FROM t ; \d"; "t;"; "; rest"].

Lemma script_execution_witness :
  Forall script_line demo_script /\
  run_session "bad variant access" false false (fun _ => false) (fun _ => 9%nat) (fun _ => f64_zero) (bytes (text_of_lines demo_script)) demo_session =
    (execute_all "bad variant access" false (fun _ => 9%nat) (fun _ => f64_zero) (statements (text_of_lines demo_script)) ≫= (fun _ => on_catalog Flush))
      demo_session.
Proof.
  assert (Forall script_line demo_script) as Hlines.
  { repeat constructor; simpl; try done; rewrite !elem_of_cons, elem_of_nil; intros Hin; repeat (destruct Hin as [Hin|Hin]; [discriminate Hin|]); done. }
  split; [exact Hlines|]. exact (script_execution _ _ _ _ _ _ _ Hlines).
Defined.

Lemma quit_after_space_ignored_witness :
  exists s', process_line "bad variant access" false false (fun _ => 9%nat) (fun _ => f64_zero) "" "\dt; " demo_session = (Ok (Continue " "), s') /\
    process_line "bad variant access" false false (fun _ => 9%nat) (fun _ => f64_zero) " " "quit" s' = (Ok (Continue (" " ++ newline ++ "quit")), s').
Proof.
  eexists. apply (quit_after_space_ignored "bad variant access" false false (fun _ => 9%nat) (fun _ => f64_zero) "\dt" demo_session).
  - by repeat constructor.
  - discriminate.
  - rewrite !elem_of_cons, elem_of_nil. intros Hin. repeat (destruct Hin as [Hin|Hin]; [discriminate Hin|]). done.
  - reflexivity.
Defined.
