(* ===== verification/Program.v ===== *)
(** The whole program: [main] on a script of supported statements. *)

From S2P Require Import Prelude Text Scalar ByteIO Columns Footer Disk Replacer BufferPool Schema Catalog Chunk Rows Expr Ast Resolution Binder Sql ReadOnly Parser ParseTree ParserSpec Driver Fuel Session Repl.

#[local] Open Scope string_scope.
#[local] Open Scope Z_scope.

Section Program.
Context {F : Type} `{PosixFileLaws F} `{!ReliableFile F} `{MapOrderLaws} `{PgQuery}.
Context (bad_variant_access_what : string) (terminal : bool) (elapsed : string -> f64).

(** A script of supported statements, from a session over a database to another; the texts its
    statements print. *)
Inductive performs : Database -> Session F -> list string -> Database -> Session F -> list string -> Prop :=
  | performs_nil db s : performs db s [] db s []
  | performs_cons db s sql ev fuel s1 sqls db' s' texts :
      supported db s sql ev -> ExecuteStatement bad_variant_access_what fuel terminal (elapsed sql) sql s = (Ok tt, s1) ->
      performs (effect db ev) s1 sqls db' s' texts ->
      performs db s (sql :: sqls) db' s' (event_text bad_variant_access_what terminal (elapsed sql) s db ev :: texts).

(** Executing it, with enough fuel for every statement. *)
Lemma performs_executes db s sqls db' s' texts :
  performs db s sqls db' s' texts -> represents db s ->
  represents db' s' /\ out_ s' = out_ s ++ cat texts /\
  exists enough, forall fuel, (forall sql, (enough <= fuel sql)%nat) -> execute_all bad_variant_access_what terminal fuel elapsed sqls s = (Ok tt, s').
Proof.
  induction 1 as [db s|db s sql ev n s1 sqls db' s' texts Hs HE _ IH]; intros Hr.
  - split; [done|]. simpl. rewrite append_nil. split; [done|]. by exists 0%nat.
  - destruct (statement_effect _ _ _ _ _ _ _ _ _ _ Hr Hs HE ltac:(done)) as (_ & Hr1 & Hout1).
    destruct (IH Hr1) as (Hr' & Hout & enough & Hrun). split; [done|]. split; [rewrite Hout, Hout1; simpl; by rewrite append_assoc|].
    exists (Nat.max n enough). intros fuel Hfuel. unfold execute_all in *. cbn [for_each]. unfold mbind, io_bind.
    destruct (ExecuteStatement_more bad_variant_access_what n (fuel sql) terminal (elapsed sql) sql ltac:(specialize (Hfuel sql); lia) s) as [E|E];
      rewrite HE in E; [done|]. unfold execute at 1. rewrite <- E. apply Hrun. intros x. specialize (Hfuel x). lia.
Qed.

(** The start of the program on the file [opened] (a new one, or one with a database) gives a
    session over [db], with the frames of [main]. *)
Definition starts (exists_db : bool) (opened : option F) (db : Database) (s : Session F) : Prop :=
  exists c file, (if exists_db then catalog_Open opened else catalog_CreateNew opened) = (Ok c, file) /\
    s = mk_session c (new_pool kDefaultBufferPoolFrames) "" /\ represents db s.

(** A new file holds the empty database. *)
Lemma new_file_starts f : contents f = [] -> exists s, starts false (Some f) ∅ s.
Proof.
  intros Hempty. set (h := mk_header (Z.of_nat kSerializedSize) kFirstDataPageId).
  destruct (pwrite_total f (header_Serialize h) 0 ltac:(lia)) as [f' Hw]. set (d := mk_disk f' h).
  assert (PersistHeader (mk_disk f h) = (Ok tt, d)) as HP
    by (unfold PersistHeader, write_all; cbn [header_ fd_]; by rewrite Hw, decide_True).
  destruct (PersistHeader_Ok (mk_disk f h) tt d) as (Hd & _ & Hb); [by split; vm_compute|by vm_compute|exact HP|].
  assert (Z.of_nat (length (disk_bytes d)) < 2 ^ 63) as Hsz.
  { assert (disk_bytes (mk_disk f h) = []) as E by (unfold disk_bytes; exact Hempty).
    rewrite Hb, E. by vm_compute. }
  destruct (flush_represents ∅ (mk_session (mk_catalog d empty_schema ∅) (new_pool kDefaultBufferPoolFrames) ""))
    as (c & HF & _ & _ & _ & Hnew & _); [apply new_represents; [done|unfold kDefaultBufferPoolFrames; lia]|exact Hsz|].
  exists (mk_session c (new_pool kDefaultBufferPoolFrames) ""), c, (Some (fd_ (disk_manager_ c))). split_and!; [|done|].
  - unfold catalog_CreateNew, disk_CreateNew. fold h. rewrite HP. cbn [catalog_of_disk]. rewrite bind_Ok. cbn [mret result_ret catalog_of_disk].
    unfold Flush in HF. cbn [catalog_] in HF. by rewrite HF.
  - apply Hnew. unfold kDefaultBufferPoolFrames. lia.
Qed.
End Program.

(** C2. The program, from start to exit, on a script (standard input is no terminal) of supported statements,
    however they are broken into lines: it ends with exit code 0 and prints the texts of the
    statements, each what the database at its turn calls for; and the file that it leaves
    starts again with the database that the script ends with. *)
Theorem program_correct {F} `{PosixFileLaws F} `{!ReliableFile F} `{MapOrderLaws} `{PgQuery}
    what terminal pending_input elapsed program exists_db (opened : option F) db s lines db' s' texts :
  starts exists_db opened db s -> Forall script_line lines ->
  performs what terminal elapsed db s (statements (text_of_lines lines)) db' s' texts ->
  catalog_fits (catalog_ s') -> Z.of_nat (length (disk_bytes (disk_manager_ (catalog_ s')))) < 2 ^ 63 ->
  Z.of_nat (length (disk_bytes (disk_manager_ (snd (Flush (catalog_ s')))))) < 2 ^ 63 ->
  exists enough file s1, starts true (Some file) db' s1 /\
    forall fuel, (forall sql, (enough <= fuel sql)%nat) ->
      main what terminal false pending_input fuel elapsed 2 program exists_db opened (bytes (text_of_lines lines)) =
        (Ok (0, cat texts, ""), Some file).
Proof.
  intros (c & start & HO & -> & Hr) Hlines Hp Hfit Hsz Hsz'.
  destruct (performs_executes _ _ _ _ _ _ _ _ _ Hp Hr) as (Hr' & Hout & enough & Hrun).
  destruct (flush_represents db' s' Hr' Hsz) as (c1 & HF & Hs1 & Ht1 & Hr1 & _ & _). rewrite HF in Hsz'. cbn [snd] in Hsz'.
  set (last := mk_session c1 (buffer_pool_ s') (out_ s')).
  assert (catalog_fits (catalog_ last)) as Hfit1 by (unfold catalog_fits in *; simpl; by rewrite Hs1, Ht1).
  destruct (restart_represents db' last kDefaultBufferPoolFrames "" (Hr1 _) Hfit1 Hsz') as (c2 & HO2 & _ & Hr2);
    [unfold kDefaultBufferPoolFrames; lia|].
  exists enough, (close_session last). eexists. split; [by exists c2, (Some (close_session last))|].
  intros fuel Hfuel. unfold main. cbn [negb Nat.eqb]. rewrite HO, run_session_script by done.
  unfold mbind, io_bind. rewrite (Hrun fuel Hfuel). unfold on_catalog, io_zoom. rewrite HF. cbn [snd].
  change (mk_session c1 (buffer_pool_ s') (out_ s')) with last. simpl out_. by rewrite Hout.
Qed.

(** ** A script on a new file *)

(** The catalogs of a new file, after CREATE TABLE and after INSERT; the statements do not
    touch the pool. *)
Definition run_demo (sql : string) (s : Session mem_file) : Session mem_file :=
  snd (ExecuteStatement "bad variant access" 9 false f64_zero sql s).
Definition new_catalog : Catalog mem_file :=
  match catalog_CreateNew (Some ([] : mem_file)) with (Ok c, _) => c | _ => empty_catalog end.
Definition session0 (pool : BufferPool) : Session mem_file := mk_session new_catalog pool "".
Definition session1 (pool : BufferPool) : Session mem_file := run_demo "CREATE TABLE t (a INTEGER)" (session0 pool).
Definition session2 (pool : BufferPool) : Session mem_file := run_demo "INSERT INTO t VALUES (7), (-8)" (session1 pool).
Definition session3 (pool : BufferPool) : Session mem_file := run_demo "\dt" (session2 pool).

Definition new_file_script : list string := ["CREATE TABLE t (a INTEGER);"; " INSERT INTO t VALUES (7), (-8) ; \dt"; ";"].

Lemma demo_steps pool :
  let run sql s s' := ExecuteStatement "bad variant access" 9 false f64_zero sql s = (Ok tt, s') in
  run "CREATE TABLE t (a INTEGER)" (session0 pool) (session1 pool) /\
  run "INSERT INTO t VALUES (7), (-8)" (session1 pool) (session2 pool) /\ run "\dt" (session2 pool) (session3 pool).
Proof. split_and!; vm_compute; reflexivity. Qed.

Lemma demo_performs pool : exists texts,
  performs "bad variant access" false (fun _ => f64_zero) ∅ (session0 pool) (statements (text_of_lines new_file_script))
    (effect demo_db Listed) (session3 pool) texts.
Proof.
  destruct (demo_steps pool) as (Ecreate & Einsert & Elist).
  assert (statements (text_of_lines new_file_script) = ["CREATE TABLE t (a INTEGER)"; "INSERT INTO t VALUES (7), (-8)"; "\dt"]) as -> by reflexivity.
  eexists. eapply performs_cons; [|exact Ecreate|].
  { apply (sup_create _ _ _ (mk_create_node "t" [mk_raw_column "a" "int4"]) [demo_column]); try reflexivity. by exists 9%nat. }
  eapply performs_cons; [apply demo_inserts; vm_compute; reflexivity|exact Einsert|].
  eapply performs_cons; [by apply sup_list|exact Elist|apply performs_nil].
Qed.

Lemma demo_last_catalog pool :
  exists t, tables_by_name_ (catalog_ (session3 pool)) = {["t" := t]} /\ Forall row_group_wf (row_groups_ t).
Proof. eexists. split; [vm_compute; reflexivity|]. repeat constructor; by vm_compute. Qed.

Lemma program_correct_witness :
  exists enough file s1 texts, starts true (Some file) demo_db s1 /\
    forall fuel, (forall sql, (enough <= fuel sql)%nat) ->
      main "bad variant access" false false (fun _ => false) fuel (fun _ => f64_zero) 2 "gistdb" false (Some ([] : mem_file))
        (bytes (text_of_lines new_file_script)) = (Ok (0, cat texts, ""), Some file).
Proof.
  set (pool := new_pool kDefaultBufferPoolFrames).
  assert (starts false (Some ([] : mem_file)) ∅ (session0 pool)) as Hs.
  { destruct (new_file_starts (F := mem_file) []) as (s & c & file & HO & -> & Hr); [done|].
    assert (c = new_catalog) as -> by (unfold new_catalog; unfold catalog_CreateNew in *; cbv iota in HO; by rewrite HO).
    by exists new_catalog, file. }
  assert (Forall script_line new_file_script) as Hlines.
  { repeat constructor; simpl; try done; rewrite !elem_of_cons, elem_of_nil; intros Hin; repeat (destruct Hin as [Hin|Hin]; [discriminate Hin|]); done. }
  clearbody pool. destruct (demo_performs pool) as [texts Hp].
  assert (catalog_fits (catalog_ (session3 pool))) as Hfits.
  { split_and!; [| |by vm_compute|by vm_compute].
    - split_and!; [by vm_compute|by vm_compute|]. repeat constructor; by vm_compute.
    - destruct (demo_last_catalog pool) as (t & -> & Hg). intros n t' [_ <-]%lookup_singleton_Some. exact Hg. }
  destruct (program_correct "bad variant access" false (fun _ => false) (fun _ => f64_zero) "gistdb" false _ _ _ _ _ _ _ Hs Hlines Hp Hfits
    ltac:(vm_compute; reflexivity) ltac:(vm_compute; reflexivity)) as (enough & file & s1 & Hst & Hrun).
  exists enough, file, s1, texts. exact (conj Hst Hrun).
Defined.
