(* ===== verification/Conformance.v ===== *)
(** The model against the repository's own tests: the scenarios of [tests/cli/driver_test.cpp]
    are executed by the definitions, and what they print is what the tests expect. *)

From S2P Require Import Prelude Text Scalar Disk BufferPool Schema Catalog Ast Parser ParseTree Driver.

#[local] Open Scope string_scope.
#[local] Open Scope Z_scope.

(** ** The texts of the tests *)

Definition test_parse : string -> string + pg := parse_table
  [("CREATE TABLE users (id int4, name varchar)", p_create "users" [("id", "int4"); ("name", "varchar")]);
   ("CREATE TABLE users (id int4)", p_create "users" [("id", "int4")]);
   ("CREATE TABLE orders (id int4)", p_create "orders" [("id", "int4")]);
   ("CREATE TABLE mixed_types (i int4, f float4, v varchar)", p_create "mixed_types" [("i", "int4"); ("f", "float4"); ("v", "varchar")]);
   ("INSERT INTO users (id) VALUES (1)", p_insert "users" ["id"] [[PInt 1]]);
   ("INSERT INTO users (id) VALUES (1), (2), (3)", p_insert "users" ["id"] [[PInt 1]; [PInt 2]; [PInt 3]]);
   ("INSERT INTO users (id) VALUES (5), (15), (25)", p_insert "users" ["id"] [[PInt 5]; [PInt 15]; [PInt 25]]);
   ("INSERT INTO users (id, name) VALUES (1, 'alice')", p_insert "users" ["id"; "name"] [[PInt 1; PText "alice"]]);
   ("INSERT INTO users (id, name) VALUES (2, 'bob')", p_insert "users" ["id"; "name"] [[PInt 2; PText "bob"]]);
   ("INSERT INTO ghosts (id) VALUES (1)", p_insert "ghosts" ["id"] [[PInt 1]]);
   ("SELECT id, name FROM users", p_select [p_item (p_column "id"); p_item (p_column "name")] [p_table "users"] None);
   ("SELECT id FROM users", p_select [p_item (p_column "id")] [p_table "users"] None);
   ("SELECT id FROM users WHERE id > 100", p_select [p_item (p_column "id")] [p_table "users"] (Some (p_op ">" (p_column "id") (PInt 100))));
   ("SELECT id FROM users WHERE id > 10", p_select [p_item (p_column "id")] [p_table "users"] (Some (p_op ">" (p_column "id") (PInt 10))));
   ("SELECT * FROM ghosts", p_select [p_star] [p_table "ghosts"] None)].

#[local] Instance test_pg : PgQuery := fixture test_parse.

(** A session on a new file with eight frames, and what the last statement of a script prints. *)
Definition fresh_session : option (Session mem_file) :=
  match catalog_CreateNew (Some ([] : mem_file)) with (Ok c, _) => Some (mk_session c (new_pool 8) "") | _ => None end.
Definition execute_text (terminal : bool) (sql : string) (s : Session mem_file) : option (Session mem_file) :=
  match ExecuteStatement "bad variant access" 20 terminal f64_zero sql (mk_session (catalog_ s) (buffer_pool_ s) "") with
  | (Ok _, s) => Some s
  | _ => None
  end.
Definition prints (terminal : bool) (script : list string) : option string :=
  out_ <$> foldl (fun s sql => s ≫= execute_text terminal sql) fresh_session script.
(** [result.find(text) != npos] *)
Definition mentions (out : option string) (text : string) : bool :=
  match out with Some o => bool_decide (is_Some (String.index 0 text o)) | None => false end.
Definition columns2 (a b : string) : string := (a ++ String "009" EmptyString ++ b ++ newline)%string.

(** ** [DriverTest] *)

Example CreateTablePrintsConfirmationWithTableId :
  prints false ["CREATE TABLE users (id int4, name varchar)"] = Some (cat ["Table created (id=0)."; newline]).
Proof. vm_compute. reflexivity. Qed.

Example InsertPrintsRowCount :
  mentions (prints false ["CREATE TABLE users (id int4)"; "INSERT INTO users (id) VALUES (1)"]) "1 row(s) inserted" = true.
Proof. vm_compute. reflexivity. Qed.

Example InsertOfMultipleRowsReportsCorrectCount :
  mentions (prints false ["CREATE TABLE users (id int4)"; "INSERT INTO users (id) VALUES (1), (2), (3)"]) "3 row(s) inserted" = true.
Proof. vm_compute. reflexivity. Qed.

Example SelectPrintsHeaderAndTabSeparatedRows :
  let out := prints false ["CREATE TABLE users (id int4, name varchar)"; "INSERT INTO users (id, name) VALUES (1, 'alice')";
                           "INSERT INTO users (id, name) VALUES (2, 'bob')"; "SELECT id, name FROM users"] in
  forallb (mentions out) [columns2 "id" "name"; columns2 "1" "alice"; columns2 "2" "bob"] = true.
Proof. vm_compute. reflexivity. Qed.

Example SelectWithNoMatchingRowsStillPrintsHeader :
  prints false ["CREATE TABLE users (id int4)"; "INSERT INTO users (id) VALUES (1)"; "SELECT id FROM users WHERE id > 100"]
  = Some (cat ["id"; newline; "(0 rows returned in 0.000s)"; newline]).
Proof. vm_compute. reflexivity. Qed.

Example SelectWithWhereClauseFiltersCorrectly :
  let out := prints false ["CREATE TABLE users (id int4)"; "INSERT INTO users (id) VALUES (5), (15), (25)";
                           "SELECT id FROM users WHERE id > 10"] in
  (mentions out (cat [newline; "5"; newline]), mentions out (cat ["15"; newline]), mentions out (cat ["25"; newline]))
  = (false, true, true).
Proof. vm_compute. reflexivity. Qed.

Example SyntaxErrorIsCaughtAndReportedNotThrown : mentions (prints false ["SELECT * FROM"]) "Error:" = true.
Proof. vm_compute. reflexivity. Qed.

Example BindErrorOnUnknownTableIsCaughtAndReported : mentions (prints false ["SELECT * FROM ghosts"]) "Error:" = true.
Proof. vm_compute. reflexivity. Qed.

Example BadStatementDoesNotPreventSubsequentStatementsFromRunning :
  mentions (prints false ["SELECT * FROM ghosts"; "CREATE TABLE users (id int4)"]) "Table created" = true.
Proof. vm_compute. reflexivity. Qed.

Example InsertIntoUnknownTableIsCaughtAndReported :
  mentions (prints false ["INSERT INTO ghosts (id) VALUES (1)"]) "Error:" = true.
Proof. vm_compute. reflexivity. Qed.

(** Standard output is a terminal in the next two. *)

Example SelectEmptySetPrintsEmptyMessageWhenStdoutIsTTY :
  mentions (prints true ["CREATE TABLE users (id int4)"; "SELECT id FROM users"]) "Empty set." = true.
Proof. vm_compute. reflexivity. Qed.

Example SelectWithRowsUsesOutputFormatterTableWhenStdoutIsTTY :
  let out := prints true ["CREATE TABLE users (id int4, name varchar)"; "INSERT INTO users (id, name) VALUES (1, 'alice')";
                          "SELECT id, name FROM users"] in
  (mentions out "Empty set.", mentions out "alice", mentions out "1") = (false, true, true).
Proof. vm_compute. reflexivity. Qed.

Example MetaCommandListTablesReturnsEmptyMessageWhenNoTablesExist :
  mentions (prints false ["\dt"]) (cat ["No tables."; newline]) = true.
Proof. vm_compute. reflexivity. Qed.

Example MetaCommandListTablesShowsCreatedTables :
  let out := prints false ["CREATE TABLE users (id int4)"; "CREATE TABLE orders (id int4)"; "\dt"] in
  forallb (mentions out) ["users"; "orders"] = true.
Proof. vm_compute. reflexivity. Qed.

Example MetaCommandDescribeTableShowsErrorForUnknownTable :
  mentions (prints false ["\d non_existent_table"]) "Error: unknown table 'non_existent_table'" = true.
Proof. vm_compute. reflexivity. Qed.

Example MetaCommandDescribeTableShowsColumnsAndTypes :
  let out := prints false ["CREATE TABLE mixed_types (i int4, f float4, v varchar)"; "\d mixed_types"] in
  forallb (mentions out) ["i"; "INTEGER"; "f"; "FLOAT"; "v"; "VARCHAR"] = true.
Proof. vm_compute. reflexivity. Qed.

Example MetaCommandListTablesWithShortFormSlashD :
  mentions (prints false ["\d"]) (cat ["No tables."; newline]) = true.
Proof. vm_compute. reflexivity. Qed.

Example MetaCommandDescribeTableTrimsTrailingWhitespace :
  let out := prints false ["CREATE TABLE users (id int4)"; cat ["\d users   "; String "009" EmptyString; " "]] in
  (mentions out "id", mentions out "Error: unknown table") = (true, false).
Proof. vm_compute. reflexivity. Qed.

Example MetaCommandDescribeTableWithOnlyWhitespaceAfterPrefix :
  let out := prints false [cat ["\d   "; String "009" EmptyString; " "]] in
  (out ≫= fun o => String.index 0 "Error: unknown table '" o, mentions out (cat ["'"; newline])) = (Some 0%nat, true).
Proof. vm_compute. reflexivity. Qed.

Example ExecuteStatementReturnsEarlyOnMetaCommand : prints false ["\dt"] = Some (cat ["No tables."; newline]).
Proof. vm_compute. reflexivity. Qed.

Example ExecuteStatementCatchesAndLogsExceptions :
  let out := prints false ["NOT A VALID SQL STATEMENT"] in forallb (mentions out) ["Error:"; newline] = true.
Proof. vm_compute. reflexivity. Qed.
